(* ===== verification/_CoqProject ===== *)
-Q . S2P
Prelude.v
WeightStore.v
Learner.v
Synthcover.v
Mwt.v
MwtOutput.v
SharedFeatureMerger.v
Options.v
MwtStack.v
SynthcoverStack.v
Persist.v
