(* ===== verification/Prelude.v ===== *)
(** * A verification development for the Vowpal Wabbit weight store and
      three of its reductions

    The program (under [src/vowpalwabbit]) has these parts.

    - The dense weight store [dense_parameters] ([array_parameters_dense.h]).
      It is a power-of-two array of [float] weights, addressed through
      [index & _weight_mask] and grouped in strides of [1 << _stride_shift]
      scalars.  It is iterated group by group by [dense_iterator].  Its
      operations are the block reorganisations ([set_default], [set_zero],
      [swap_offsets], [copy_offsets], [clear_offset]), the zero-copy view
      [shallow_copy], the shared mapping [share] and the destructor.
    - The reduction protocol (declared outside [src/]).  Each reduction
      calls a base learner's [learn] or [predict] on one example or a group
      of examples.  It reads and rewrites the examples' labels, features and
      predictions in place.
    - The exploration reduction [cb_explore_adf_synthcover]
      ([cb_explore_adf_synthcover.cc]).  It turns the base learner's action
      scores into a probability distribution: clamping, a min-heap vote
      loop, [enforce_minimum_probability] and a descending sort.
    - The multiworld-testing reduction [mwt] ([mwt.cc]).  It accrues the
      inverse-propensity cost of the policies named by the features of some
      namespaces.  In [learn] mode it re-indexes those namespaces, hands
      the example to the base learner, and swaps the originals back.  The
      weight store's [mask()] and [stride_shift()] index its per-policy
      table.
    - The shared-feature merger ([shared_feature_merger.cc]).  It splices
      the features of a group's header example into every action example,
      hands the group without its header to the base learner, and a scope
      guard undoes the splice on both exits.
    - [save_load] of each reduction writes or reads its persistent fields
      through [io_buf] ([mwt.cc], [cb_explore_adf_synthcover.cc]).
    - Each reduction's setup reads its option group, may insert options
      for the reductions below it, and builds its state; [mwt] also
      prints its predictions and a progress line.
    - [confidence_sequence_robust.h] only declares a class; it is not
      modelled (see the last paragraph).

    Files, in dependency order, and what each one models.

    - [Prelude] (this file) holds the shared tools:
      - the [result] monad for C++ exceptions and undefined behaviour, with
        [foldM] and [mapM] and their invariant, success and error lemmas;
      - the [vw_scope] notation [&&&] for 64-bit [&];
      - [wrap64] and [wrap32];
      - the [vw] hint databases;
      - the generic frame lemma [foldM_frame] for loops whose iterations
        touch disjoint slots;
      - the truncating 64-bit shift ([wrap64_shiftl_divide],
        [wrap64_shiftl_exact]);
      - sums of rationals.
    - [WeightStore], Module [Dense], models [dense_parameters], one
      [Definition] per member function.
      - The memory is an explicit allocation store [mem], a gmap from
        locations to blocks that remember whether [malloc] or [mmap] made
        them.  So a [shallow_copy] view aliases its owner's buffer, and
        [free] on an [mmap]ed block is an error value.
      - The iterator is [iter_offsets], a loop from [begin()] to [end()] in
        steps of [stride()], with fuel [S end].  That fuel is enough
        because the offsets strictly increase up to [end()] when the table
        size is a multiple of the stride; otherwise no fuel is (C36).
      - Theorems:
        - C3: every index reads a valid, zeroed slot after construction;
        - C4: [swap_offsets] exchanges exactly the addressed slot pairs
          (two zeros included), leaves every other slot alone, and is an
          involution;
        - C5: views alias their input;
        - C6, C7: the lifetime hazards of views and of [share];
        - C8: after construction, the store is allocated exactly when
          [length << stride_shift] is not zero, and [not_null] holds only
          from two slots on, so a one-slot store is reported null;
        - C23: [set_default] leaves each group with the values its lambda
          wrote laid over its own old contents;
        - C27, C28, C35: [clear_offset], [copy_offsets] and [set_zero]
          change exactly the slots they address and leave every other
          slot alone (the frame lemma [foldM_frame] carries the loops);
          [set_zero] with [offset >= stride()] writes past the buffer;
        - C38: the operations a workspace applies to its weights after
          construction form a step relation, [store_step]; by rule
          induction every store it reaches keeps the invariant
          [store_wf] (a live buffer of exactly [mask() + 1] scalars), so
          every 64-bit index reads a live scalar.  The constructor does
          not check [length << stride_shift] for overflow
          ([construct_size_wraps]).
    - [Learner] holds the data of the reduction protocol (modelled from the
      spec): CB labels, action scores, feature groups, the example record,
      and the [BaseLearner] class of base learners.  The reductions'
      theorems hold for every instance of that class.
    - [Synthcover], Module [Synthcover], models the reduction's state
      record, its constructor, [predict_or_learn_impl] and the setup's
      parameter checks.
      - The heap is modelled by its priority-queue contract, as a sorted
        list.
      - Both loops have fuel [S synthcoversize].  The fuel suffices when
        [synthcoversize < 2^32] because each inner iteration increments
        [i], each outer iteration runs at least one inner one, and [i]
        stops at [synthcoversize].  For a larger size the [uint32_t]
        counter wraps around and no fuel suffices (C34).
      - Module [SynthcoverFacts] proves C1 (the output is a descending
        probability distribution), C9 (the handler fails only on an empty group, with the base
        learner's exception, or out of bounds, and never runs forever below
        [2^32] policies),
        C10 (the setup checks), C32 (the two vote loops refine an
        abstract process, [vote], in which each of the [synthcoversize]
        synthetic policies votes for an action of least effective score),
        C33 (along any sequence of calls, [reachable], the cost range is
        the running minimum and maximum of [0] and of every recorded
        cost) and C34 (a size of [2^32] or more makes the loops diverge).
    - [Mwt], Module [Mwt], models the [mwt] state, [value_policy] and
      [predict_or_learn] for all three template flags.
      - The handler returns its final state together with its outcome.
        The state an exception leaves behind is therefore observable, as it
        is in C++.
      - Module [MwtFacts] proves these theorems:
        - C11: the accumulator invariant, kept by every call (the lemma
          [mwt_setup_inv] establishes it at the setup);
        - C12: the outputs are finite averages;
        - C13: [evals] is never indexed out of range;
        - C14: the example's evaluated namespaces are restored;
        - C15: when the base learner throws, the example is left
          re-indexed;
        - C17: with a namespace listed twice, for any state, features and
          base learner, the base sees it re-indexed twice and the example
          gets back what the base left there; the original is lost;
        - C30: the [exclude_eval] option has no effect on the handler
          [mwt_setup] installs ([mwt_learner]);
        - C31: [update_stats_mwt] reads [ec.pred.scalars[0]] in range after
          a learning call and reports the cost estimate of the prediction;
        - C37: the learn-mode re-indexed features are 64-bit multiples of
          the stride, exactly [(index * num_classes + value) << shift] when
          that fits;
        - C40: a returning call keeps the recorded policies in order and
          records the policy of every feature of every evaluated namespace
          of an example with an observed cost.
    - [MwtOutput], Module [MwtOutput], models [print_scalars],
      [output_example_prediction_mwt] and [print_update_mwt].  The
      standard library's formatting of a [float] and a sink's [write] are
      parameters (Section variables).  Module [MwtOutputFacts] proves C39:
      splitting a prediction line at white space gives back the formatted
      scores and the tag.  It also shows that a tag holding a space is
      read as extra scores, and that the progress line labels an example
      with an observed cost ["unknown"].
    - [SharedFeatureMerger], Module [Sfm], models [predict_or_learn] over
      an explicit store of examples ([gmap positive example]).  A
      [multi_ex] is a list of pointers into that store, so aliasing is as in
      C++.
      - The guard runs on whatever state the base learner left, and its
        own failure takes precedence.
      - The namespace helpers of [example.cc] are modelled from the spec.
      - Module [SfmFacts] proves these theorems:
        - C18: the group is restored, up to predictions, on both exits;
        - C19: when the base throws, the group is restored exactly;
        - C20: without a header the merger is transparent: the base
          learner sees the group as given and the metric is not counted;
        - C21: on success, for any base learner that writes only
          predictions, the header carries the prediction the base wrote
          into the first action;
        - C29: a call that returns is counted by the metric, and reported
          by [persist], exactly when it learns on a group with a header.
      - [sfm_setup] models the setup's choice to insert the reduction.
    - [Options], Module [Options], models the options as a map from names
      to their text ([options_i], outside [src/], from the spec), and the
      three [get_*_options_instance] functions and setups on top of it.
      The parse of a [float] option's text is a parameter.  Module
      [OptionsFacts] proves what each setup builds:
      - [mwt] learns exactly when [--learn n] has [n > 0], and then
        requests a legacy [cb] reduction whose class count, printed in
        decimal, reads back as [n];
      - the synthcover setup builds an explorer only from accepted
        parameters, with the defaults [epsilon = 0], [psi = 0.1] and 100
        policies.
    - [MwtStack] composes the [mwt] parts.  [mwt_call] is the driver's
      step relation: a call of the installed handler on any example, in
      either mode, returning or throwing.  Module [MwtStackFacts] proves
      C16 by induction on the reflexive-transitive closure of that
      relation.  Set [mwt] up from the options over a store built by
      [dense_parameters(length, stride_shift)]; then every reachable state
      keeps the accumulator invariant, and the line [print_scalars]
      writes after a returning call reads back as the base prediction
      (when learning), the per-policy averages and the tag.
    - [SynthcoverStack] composes the synthcover parts in the same way.
      [synthcover_call] is a returning call of the installed handler on
      any group, in either mode.  Module [SynthcoverStackFacts] proves C2
      by induction on its reflexive-transitive closure.  Set the explorer
      up from the options; then every reachable state keeps the checked
      parameters and a cost range around [0].  A call from it gives a
      single action probability 1, and two or more actions (with fewer
      than [2^32] policies) a descending distribution, with the recorded
      cost inside the new range.
    - [Persist] models the model files of the two reductions.
      - Module [IoBuf] models [io_buf] and [bin_text_read_write_fixed]
        (outside [src/], from the spec's stream contract): a file is a list
        of fixed-width fields, one per call; the validated read of an
        exhausted file throws, the plain one keeps the value.
      - Module [MwtPersist] models [save_load] of [mwt.cc] and Module
        [SynthcoverPersist] that of [cb_explore_adf_synthcover.cc]; the
        version constant the latter compares with is a Section variable.
      - Theorems:
        - C22, C25: saving and loading into a fresh instance restores the
          persisted state, and so the later outputs;
        - C24: a load with [total == 0] succeeds unchecked; the loaded
          state breaks the invariant once it records a policy, and its
          next prediction is non-finite for every policy;
        - C26: a load that reads no cost range keeps the instance as it
          was, also on an exhausted file.

    Numbers.
    - [uint64_t] and [size_t] values are [Z] kept in [0, 2^64), with the
      wrap-around written out ([wrap64]).  [uint32_t] values use [wrap32]
      in the same way.
    - [float] and [double] are exact rationals [Q].  Rounding is not
      modelled, so the theorems on probability mass hold of the exact
      computation the code approximates.
    - A [float] to unsigned cast truncates toward zero.  It is undefined
      out of range.

    Undefined behaviour and exceptions are values of [result]:
    - [Err OutOfBounds]: an access past a buffer or vector;
    - [Err UseAfterFree]: an access through a freed buffer;
    - [Err NullDeref]: a dereference of [nullptr];
    - [Err NonTerminating]: a loop that runs out of fuel;
    - [Err InvalidConversion]: an undefined [float] to integer cast;
    - [Err InvalidFree]: a [free] the allocator does not accept;
    - [Err (Thrown msg)]: a C++ [THROW] or a base learner's exception.

    Not modelled.
    - The options framework beyond [was_supplied], [insert] and the typed
      reading of a value, the stack builder and [make_reduction_learner].
    - The metrics sinks beyond the values [persist] writes.
    - The byte layout of model files and the text of text-mode writes.
    - [confidence_sequence_robust.h], whose method bodies are not under
      [src/].
    - Random state, and the concrete heap layout of [std::make_heap].
    - The rest of the files under [src/] that no definition maps: include
      lines, comments, the deleted copy and move constructors of
      [dense_parameters] and the commented-out variant of [copy_offsets].
      None of them carries behaviour. *)

From Stdlib Require Export String.
From stdpp Require Export base list gmap strings.
From Stdlib Require Export ZArith QArith Lqa Permutation Sorted.

(** ** Errors and the result monad *)

Inductive vw_error :=
| AllocationError
| NullDeref
| OutOfBounds
| NonTerminating
| InvalidConversion
| UseAfterFree
| InvalidFree
| Thrown (msg : string).

Inductive result (A : Type) : Type :=
| Ok (a : A)
| Err (e : vw_error).
Arguments Ok {A} a.
Arguments Err {A} e.

#[export] Instance result_ret : MRet result := fun _ a => Ok a.
#[export] Instance result_bind : MBind result :=
  fun _ _ f r => match r with Ok a => f a | Err e => Err e end.
#[export] Instance result_fmap : FMap result :=
  fun _ _ f r => match r with Ok a => Ok (f a) | Err e => Err e end.

Definition of_option {A} (e : vw_error) (o : option A) : result A :=
  match o with Some a => Ok a | None => Err e end.

(** A loop over a list whose body may fail: the first failure stops it. *)
Fixpoint foldM {A B} (f : A -> B -> result A) (a : A) (l : list B) : result A :=
  match l with
  | [] => Ok a
  | x :: l' => f a x ≫= fun a' => foldM f a' l'
  end.

Fixpoint mapM {A B} (f : A -> result B) (l : list A) : result (list B) :=
  match l with
  | [] => Ok []
  | x :: l' => y ← f x; ys ← mapM f l'; Ok (y :: ys)
  end.

Lemma foldM_app {A B} (f : A -> B -> result A) a l1 l2 :
  foldM f a (l1 ++ l2) = foldM f a l1 ≫= fun a' => foldM f a' l2.
Proof.
  revert a. induction l1 as [|x l IH]; intros a; simpl; [done|].
  destruct (f a x); simpl; [apply IH|done].
Qed.

Lemma Ok_bind {A B} (a : A) (f : A -> result B) : (Ok a ≫= f) = f a.
Proof. done. Qed.

Lemma bind_ext {A B} (r : result A) (f g : A -> result B) :
  (forall a, f a = g a) -> (r ≫= f) = (r ≫= g).
Proof. intros H. destruct r; simpl; [apply H|done]. Qed.

Lemma bind_Ok {A B} (r : result A) (f : A -> result B) (b : B) :
  (r ≫= f) = Ok b <-> exists a, r = Ok a /\ f a = Ok b.
Proof. destruct r; simpl; split; [eauto|intros (?&[= ->]&?); done| |intros (?&?&?); done]; intros; discriminate. Qed.

Lemma of_option_Ok {A} e (o : option A) a : of_option e o = Ok a <-> o = Some a.
Proof. destruct o; simpl; split; congruence. Qed.

Lemma bind_Err {A B} (r : result A) (f : A -> result B) (e : vw_error) :
  (r ≫= f) = Err e <-> r = Err e \/ exists a, r = Ok a /\ f a = Err e.
Proof. destruct r; simpl; split; [eauto|intros [?|(?&[= ->]&?)]; done|intros [= ->]; auto|
  intros [?|(?&?&?)]; congruence]. Qed.

(** A property kept by every step of a [foldM] holds of its result. *)
Lemma foldM_inv {A B} (P : A -> Prop) (f : A -> B -> result A) (l : list B) :
  (forall a b a', b ∈ l -> P a -> f a b = Ok a' -> P a') ->
  forall a a', P a -> foldM f a l = Ok a' -> P a'.
Proof.
  induction l as [|b l IH]; intros Hstep a a' Ha; simpl; [congruence|].
  intros (a1 & H1 & H2)%bind_Ok. eapply IH; [|eapply Hstep; eauto; left|exact H2].
  intros; eapply Hstep; eauto; right; done.
Qed.

(** A [foldM] only fails with an error one of its steps can fail with,
    in a state the steps keep invariant. *)
Lemma foldM_err {A B} (P : A -> Prop) (E : vw_error -> Prop) (f : A -> B -> result A) (l : list B) :
  (forall a b a', b ∈ l -> P a -> f a b = Ok a' -> P a') ->
  (forall a b e, b ∈ l -> P a -> f a b = Err e -> E e) ->
  forall a e, P a -> foldM f a l = Err e -> E e.
Proof.
  induction l as [|b l IH]; intros Hstep Herr a e Ha; simpl; [congruence|].
  intros [H|(a1 & H1 & H)]%bind_Err; [eapply Herr; eauto; left|].
  eapply IH; [| |eapply Hstep; eauto; left|exact H]; intros; [eapply Hstep|eapply Herr]; eauto; right; done.
Qed.

(** A [foldM] whose steps all succeed in a state they keep invariant
    succeeds. *)
Lemma foldM_ok {A B} (P : A -> Prop) (f : A -> B -> result A) (l : list B) :
  (forall a b, b ∈ l -> P a -> exists a', f a b = Ok a' /\ P a') ->
  forall a, P a -> exists a', foldM f a l = Ok a' /\ P a'.
Proof.
  induction l as [|b l IH]; intros Hstep a Ha; simpl; [eauto|].
  destruct (Hstep a b) as (a1 & -> & H1); [left|done|]. simpl.
  apply IH; [|done]. intros; apply Hstep; [right|]; done.
Qed.

(** A loop that meets an iteration failing on every state of the
    invariant never returns. *)
Lemma foldM_stuck {A B} (P : A -> Prop) (f : A -> B -> result A) (l : list B) (b0 : B) :
  (forall a b a', b ∈ l -> P a -> f a b = Ok a' -> P a') -> b0 ∈ l ->
  (forall a, P a -> exists e, f a b0 = Err e) -> forall a r, P a -> foldM f a l <> Ok r.
Proof.
  induction l as [|b l IH]; intros Hstep Hb0 Hfail a r Ha; [inversion Hb0|]. simpl.
  intros (a1 & H1 & H2)%bind_Ok. apply elem_of_cons in Hb0 as [->|Hb0].
  - destruct (Hfail a Ha) as [e He]. congruence.
  - assert (Hstep' : forall a b a', b ∈ l -> P a -> f a b = Ok a' -> P a')
      by (intros a0 b1 a2 Hb; apply Hstep; right; done).
    exact (IH Hstep' Hb0 Hfail a1 r (Hstep a b a1 ltac:(left) Ha H1) H2).
Qed.

Lemma mapM_Ok {A B} (f : A -> result B) (l : list A) (l' : list B) :
  mapM f l = Ok l' <-> Forall2 (fun x y => f x = Ok y) l l'.
Proof.
  revert l'. induction l as [|x l IH]; intros l'; simpl.
  - split; [intros [= <-]; constructor|intros ->%Forall2_nil_inv_l; done].
  - rewrite bind_Ok. split.
    + intros (y & Hy & (ys & Hys & [= <-])%bind_Ok). constructor; [done|apply IH; done].
    + intros (y & ys & Hy & Hys & ->)%Forall2_cons_inv_l. exists y; split; [done|].
      rewrite (proj2 (IH ys) Hys); done.
Qed.

Lemma mapM_err {A B} (E : vw_error -> Prop) (f : A -> result B) (l : list A) :
  (forall x e, x ∈ l -> f x = Err e -> E e) -> forall e, mapM f l = Err e -> E e.
Proof.
  induction l as [|x l IH]; intros Hf e; simpl; [congruence|].
  intros [H|(y & _ & [H|(ys & _ & [=])]%bind_Err)]%bind_Err;
    [eapply Hf; eauto; left|eapply IH; eauto; intros; eapply Hf; eauto; right; done].
Qed.

Lemma mapM_ext {A B} (f g : A -> result B) (l : list A) :
  (forall x, x ∈ l -> f x = g x) -> mapM f l = mapM g l.
Proof.
  induction l as [|x l IH]; intros Hfg; simpl; [done|].
  rewrite Hfg by (left; done). destruct (g x) as [y|e]; [|done]. rewrite !Ok_bind.
  rewrite IH; [done|intros; apply Hfg; right; done].
Qed.

(** ** Fixed-width integers and bit notations *)

Declare Scope vw_scope.
Delimit Scope vw_scope with vw.
Open Scope vw_scope.
Local Open Scope Z_scope.

Notation "a &&& b" := (Z.land a%Z b%Z) (at level 40, left associativity) : vw_scope.

Definition wrap64 (z : Z) : Z := z mod 2 ^ 64.
Definition wrap32 (z : Z) : Z := z mod 2 ^ 32.
Definition is_u64 (z : Z) : Prop := (0 <= z < 2 ^ 64)%Z.

Create HintDb vw.
Create Rewrite HintDb vw_rw.

Lemma wrap64_range z : is_u64 (wrap64 z).
Proof. unfold is_u64, wrap64. apply Z.mod_pos_bound. lia. Qed.

Lemma wrap64_id_32 z : (0 <= z < 2 ^ 32)%Z -> wrap32 z = z.
Proof. unfold wrap32. intros. apply Z.mod_small. lia. Qed.

Lemma wrap64_id z : is_u64 z -> wrap64 z = z.
Proof. unfold is_u64, wrap64. intros. apply Z.mod_small. lia. Qed.

(** A mask [2^k - 1] keeps the low [k] bits. *)
Lemma land_low_mask (i k : Z) : (0 <= k)%Z ->
  i &&& (2 ^ k - 1) = i mod 2 ^ k.
Proof.
  intros Hk. rewrite <- Z.land_ones by lia. f_equal.
  rewrite Z.ones_equiv. lia.
Qed.

Lemma land_low_mask_range (i k : Z) : (0 <= k)%Z ->
  (0 <= i &&& (2 ^ k - 1) < 2 ^ k)%Z.
Proof. intros Hk. rewrite land_low_mask by lia. apply Z.mod_pos_bound. lia. Qed.

Lemma land_idem_r (i m : Z) : (i &&& m) &&& m = i &&& m.
Proof. rewrite <- Z.land_assoc, Z.land_diag. reflexivity. Qed.

(** Masking never exceeds the (non-negative) mask. *)
Lemma land_le_r (a b : Z) : 0 <= b -> a &&& b <= b.
Proof.
  intros Hb. rewrite <- (Z.lor_ldiff_and b a) at 2.
  assert (Hd : Z.land (Z.ldiff b a) (Z.land b a) = 0).
  { rewrite (Z.land_comm b a), Z.land_assoc, Z.land_ldiff. apply Z.land_0_l. }
  rewrite <- (Z.lxor_lor _ _ Hd), <- (Z.add_nocarry_lxor _ _ Hd).
  assert (0 <= Z.ldiff b a) by (rewrite Z.ldiff_land; apply Z.land_nonneg; lia).
  rewrite (Z.land_comm a b). lia.
Qed.

Lemma land_range (a b : Z) : 0 <= a -> 0 <= b -> 0 <= a &&& b <= b.
Proof. intros. split; [apply Z.land_nonneg; by left|by apply land_le_r]. Qed.

(** A 64-bit left shift truncates, as fiat-crypto's [Z.truncating_shiftl]:
    its result is a multiple of [2^s], and is [x * 2^s] when that fits. *)
Lemma wrap64_shiftl_divide x s : 0 <= s <= 64 -> (2 ^ s | wrap64 (x ≪ s)).
Proof.
  intros Hs. unfold wrap64. rewrite Z.shiftl_mul_pow2, Z.mod_eq by lia.
  apply Z.divide_sub_r; [apply Z.divide_factor_r|]. apply Z.divide_mul_l.
  exists (2 ^ (64 - s)). rewrite <- Z.pow_add_r by lia. f_equal. lia.
Qed.

Lemma wrap64_shiftl_exact x s : 0 <= s -> 0 <= x -> x * 2 ^ s < 2 ^ 64 -> wrap64 (x ≪ s) = x * 2 ^ s.
Proof.
  intros Hs Hx Hlt. rewrite Z.shiftl_mul_pow2 by lia. apply wrap64_id. unfold is_u64.
  pose proof (Z.pow_pos_nonneg 2 s ltac:(lia) Hs). nia.
Qed.

#[export] Hint Resolve wrap64_range land_low_mask_range land_range : vw.
#[export] Hint Rewrite land_idem_r : vw_rw.

(** ** Comparisons of rationals as the code's [<], [<=], [==] *)

Definition Qlt_bool (x y : Q) : bool := negb (Qle_bool y x).

Lemma Qlt_bool_iff x y : Qlt_bool x y = true <-> (x < y)%Q.
Proof.
  unfold Qlt_bool. rewrite negb_true_iff. split.
  - intros H. apply Qnot_le_lt. intros Hle. apply Qle_bool_iff in Hle. congruence.
  - intros H. destruct (Qle_bool y x) eqn:E; [|done]. apply Qle_bool_iff in E. lra.
Qed.

Lemma Qlt_bool_false x y : Qlt_bool x y = false <-> (y <= x)%Q.
Proof. unfold Qlt_bool. rewrite negb_false_iff. apply Qle_bool_iff. Qed.

Lemma Qle_bool_false x y : Qle_bool x y = false <-> (y < x)%Q.
Proof.
  split; intros H.
  - apply Qnot_le_lt. intros Hle. apply Qle_bool_iff in Hle. congruence.
  - destruct (Qle_bool x y) eqn:E; [|done]. apply Qle_bool_iff in E. lra.
Qed.

Lemma Qeq_bool_false x y : Qeq_bool x y = false <-> ~ (x == y)%Q.
Proof.
  split; intros H.
  - intros He. apply Qeq_bool_iff in He. congruence.
  - destruct (Qeq_bool x y) eqn:E; [|done]. apply Qeq_bool_iff in E. done.
Qed.

(** ** Sums of rationals *)

Definition qsum (l : list Q) : Q := fold_right Qplus 0%Q l.

Lemma qsum_app l1 l2 : (qsum (l1 ++ l2) == qsum l1 + qsum l2)%Q.
Proof. induction l1 as [|x l IH]; simpl; [lra|]. rewrite IH. lra. Qed.

Lemma qsum_perm l1 l2 : Permutation l1 l2 -> (qsum l1 == qsum l2)%Q.
Proof.
  induction 1; simpl; lra.
Qed.

#[export] Hint Resolve qsum_perm : vw.

(** ** Loops whose iterations touch disjoint parts of a list

    A [foldM] over [L] whose body, for the element [b], behaves as the
    function [upd b] that changes only the indices of the footprint [fp b]
    and reads only them; footprints of distinct elements are disjoint.
    Then the final list agrees with [upd b] applied to the initial list on
    each footprint, and with the initial list elsewhere. *)
Section FrameFold.
Context {A B : Type} (step : list A -> B -> result (list A)).
Context (fp : B -> nat -> Prop) (upd : B -> list A -> list A) (N : nat).

Definition frame_ok (L : list B) : Prop :=
  NoDup L /\
  (forall b d, b ∈ L -> length d = N -> step d b = Ok (upd b d)) /\
  (forall b d, length (upd b d) = length d) /\
  (forall b d i, ~ fp b i -> upd b d !! i = d !! i) /\
  (forall b d d' i, (forall j, fp b j -> d !! j = d' !! j) ->
                    fp b i -> upd b d !! i = upd b d' !! i) /\
  (forall b1 b2 i, b1 ∈ L -> b2 ∈ L -> fp b1 i -> fp b2 i -> b1 = b2).

Lemma foldM_frame (L : list B) (d0 : list A) :
  frame_ok L -> length d0 = N ->
  exists dF, foldM step d0 L = Ok dF /\ length dF = N /\
    (forall b i, b ∈ L -> fp b i -> dF !! i = upd b d0 !! i) /\
    (forall i, (forall b, b ∈ L -> ~ fp b i) -> dF !! i = d0 !! i).
Proof.
  revert d0. induction L as [|b L IH]; intros d0 Hok Hlen; simpl.
  { exists d0. split; [done|]. split; [done|]. split; [|done].
    intros b i Hb. by apply elem_of_nil in Hb. }
  destruct Hok as (Hnd & Hstep & Hl & Hfr & Hloc & Hdis).
  apply NoDup_cons in Hnd as [Hb Hnd].
  rewrite (Hstep b d0) by (set_solver || done). simpl.
  destruct (IH (upd b d0)) as (dF & Hrun & HlF & Hin & Hout).
  { split; [done|]. split; [intros; apply Hstep; set_solver|].
    do 3 (split; [done|]). intros b1 b2 j ? ? ? ?. apply (Hdis b1 b2 j); set_solver. }
  { by rewrite Hl. }
  exists dF. repeat split; [done|done| |].
  - intros b' i Hb' Hi. apply elem_of_cons in Hb' as [->|Hb'].
    + rewrite Hout; [done|]. intros b'' Hb'' Hi''.
      assert (b = b'') by (apply (Hdis b b'' i); set_solver). set_solver.
    + rewrite (Hin b' i) by done. apply Hloc; [|done]. intros j Hj.
      apply Hfr. intros Hbj. assert (b = b') by (apply (Hdis b b' j); set_solver).
      set_solver.
  - intros i Hi. rewrite Hout by set_solver. apply Hfr. set_solver.
Qed.
(** Running such a loop twice restores the list when each iteration is an
    involution on its own footprint. *)
Lemma foldM_frame_involutive `{!forall b i, Decision (fp b i)} (L : list B) (d0 : list A) :
  frame_ok L -> length d0 = N ->
  (forall b d i, b ∈ L -> length d = N -> fp b i -> upd b (upd b d) !! i = d !! i) ->
  (foldM step d0 L ≫= fun d1 => foldM step d1 L) = Ok d0.
Proof.
  intros Hok Hlen Hinv.
  destruct (foldM_frame L d0 Hok Hlen) as (d1 & -> & Hl1 & Hin1 & Hout1). simpl.
  destruct (foldM_frame L d1 Hok Hl1) as (d2 & -> & Hl2 & Hin2 & Hout2). simpl.
  f_equal. apply list_eq. intros i.
  destruct (decide (Exists (fun b => fp b i) L)) as [HE|HE].
  - apply Exists_exists in HE as (b & Hb & Hi).
    rewrite (Hin2 b i Hb Hi), <- (Hinv b d0 i Hb Hlen Hi).
    destruct Hok as (_ & _ & _ & _ & Hloc & _).
    apply Hloc; [|done]. intros j Hj. by apply Hin1.
  - rewrite Hout2, Hout1; [done| |];
      intros b Hb Hi; apply HE, Exists_exists; by exists b.
Qed.
End FrameFold.

(** Rewrite lookups in lists updated by [<[i:=x]>], discharging the index
    side conditions by [lia]. *)
Ltac list_simpl :=
  repeat first
    [ rewrite list_lookup_insert_eq by (rewrite ?length_insert; lia)
    | rewrite list_lookup_insert_ne by (done || congruence || lia)
    | rewrite length_insert ];
  try done.

(** Prove a decidable proposition about closed data by evaluating its
    [Decision] instance. *)
Ltac decide_by_eval := apply (bool_decide_unpack _); vm_compute; reflexivity.

Lemma map_is_fmap {A B} (f : A -> B) (l : list A) : map f l = f <$> l.
Proof. induction l as [|x l IH]; simpl; [done|]. by rewrite IH. Qed.

Lemma qsum_insert (l : list Q) (j : nat) (x y : Q) :
  l !! j = Some x -> (qsum (<[j := y]> l) == qsum l - x + y)%Q.
Proof.
  revert j. induction l as [|z l IH]; intros [|j] Hj; simpl in *; try done.
  - injection Hj as ->. lra.
  - rewrite (IH j Hj). lra.
Qed.

Lemma qsum_nonneg (l : list Q) : Forall (fun x => 0 <= x)%Q l -> (0 <= qsum l)%Q.
Proof. induction 1; simpl in *; lra. Qed.

Lemma inject_Z_succ_div (i s : Z) : s <> 0 ->
  (inject_Z i / inject_Z s + 1 / inject_Z s == inject_Z (i + 1) / inject_Z s)%Q.
Proof.
  intros Hs. rewrite inject_Z_plus. field.
  intros H. apply Hs. apply (inject_Z_injective s 0). done.
Qed.

Lemma map_list_insert {A B} (f : A -> B) (l : list A) (j : nat) (x : A) :
  map f (<[j := x]> l) = <[j := f x]> (map f l).
Proof. revert j. induction l as [|y l IH]; intros [|j]; simpl; f_equal; auto. Qed.

Lemma map_list_lookup {A B} (f : A -> B) (l : list A) (j : nat) :
  map f l !! j = f <$> (l !! j).
Proof. revert j. induction l as [|y l IH]; intros [|j]; simpl; auto. Qed.

Section QsumMap.
Context {A : Type}.

Lemma qsum_map_split (t : A -> bool) (f g : A -> Q) (l : list A) :
  (qsum (map (fun x => if t x then f x else g x) l) ==
   qsum (map (fun x => if t x then f x else 0) l) +
   qsum (map (fun x => if t x then 0 else g x) l))%Q.
Proof. induction l as [|x l IH]; simpl; [lra|]. rewrite IH. destruct (t x); lra. Qed.

Lemma qsum_map_le (f g : A -> Q) (l : list A) :
  Forall (fun x => f x <= g x)%Q l -> (qsum (map f l) <= qsum (map g l))%Q.
Proof. induction 1; simpl in *; lra. Qed.

Lemma qsum_map_const (c : Q) (l : list A) :
  (qsum (map (fun _ => c) l) == inject_Z (Z.of_nat (length l)) * c)%Q.
Proof.
  induction l as [|x l IH]; simpl; [ring|]. rewrite IH, Nat2Z.inj_succ, <- Z.add_1_r, inject_Z_plus. ring.
Qed.

Lemma qsum_map_scale (r : Q) (f : A -> Q) (l : list A) :
  (qsum (map (fun x => f x * r) l) == qsum (map f l) * r)%Q.
Proof. induction l as [|x l IH]; simpl; [lra|]. rewrite IH. ring. Qed.

Lemma qsum_map_ext (f g : A -> Q) (l : list A) :
  Forall (fun x => f x == g x)%Q l -> (qsum (map f l) == qsum (map g l))%Q.
Proof. induction 1; simpl in *; [lra|]. rewrite H, IHForall. lra. Qed.
End QsumMap.

Lemma qsum_map_id (l : list Q) : qsum (map (fun x => x) l) = qsum l.
Proof. by rewrite map_id. Qed.

Lemma inject_Z_nonzero (z : Z) : z <> 0%Z -> ~ (inject_Z z == 0)%Q.
Proof. intros Hz H. apply Hz. change 0%Q with (inject_Z 0) in H. by apply inject_Z_injective. Qed.

(** ** Results up to an equivalence of their values *)

#[export] Instance result_equiv `{Equiv A} : Equiv (result A) := fun r1 r2 =>
  match r1, r2 with
  | Ok a, Ok b => a ≡ b
  | Err e, Err e' => e = e'
  | _, _ => False
  end.

Lemma Ok_equiv `{Equiv A} (r : result A) (b : A) :
  r ≡ Ok b <-> exists a, r = Ok a /\ a ≡ b.
Proof. destruct r; simpl; split; [eauto|intros (?&[= ->]&?); done|done|intros (?&?&?); done]. Qed.

(** A [foldM] whose step respects an equivalence respects it. *)
Lemma foldM_proper `{Equiv A} {B} (f : A -> B -> result A) (l : list B) :
  (forall b, b ∈ l -> forall a a', a ≡ a' -> f a b ≡ f a' b) ->
  forall a a', a ≡ a' -> foldM f a l ≡ foldM f a' l.
Proof.
  induction l as [|b l IH]; intros Hf a a' Ha; simpl; [done|].
  pose proof (Hf b ltac:(left) a a' Ha) as Hb.
  destruct (f a b) as [x|e], (f a' b) as [y|e']; simpl in *; try done.
  apply IH; [|done]. intros; apply Hf; [right|]; done.
Qed.

#[export] Instance result_equiv_equivalence {A} (R : Equiv A) (HR : Equivalence (@stdpp.base.equiv A R)) :
  Equivalence (@stdpp.base.equiv (result A) result_equiv).
Proof.
  split.
  - intros [a|e]; simpl; [apply HR|done].
  - intros [a|e] [b|e']; simpl; intros Hab; try contradiction; [apply (@Equivalence_Symmetric _ _ HR); exact Hab|congruence].
  - intros [a|e] [b|e'] [c|e'']; simpl; intros H1 H2; try contradiction; [eapply (@Equivalence_Transitive _ _ HR); eauto|congruence].
Qed.
