(* ===== verification/WeightStore.v ===== *)
(** * The dense weight store ([array_parameters_dense.h])

    Module [Dense] models [class dense_parameters].  Its buffer [_begin]
    is a location of an explicit allocation store [mem], so that an
    instance made a view by [shallow_copy] aliases the owner's buffer and
    a [free] through one instance is observed by the others.  A weight
    ([float]) is a rational.  Offsets into a buffer are counted in scalars,
    as [iter.index()] counts them.  [store_step] is the step relation of
    the operations applied to one store after its construction, and
    [store_wf] the well-formedness every reachable store keeps. *)

From S2P Require Import Prelude.
Local Open Scope Z_scope.

Module Dense.

Definition weight := Q.
Definition loc := positive.

(** How a block was obtained: [calloc]/[malloc] memory that [free] accepts,
    or an [mmap] mapping that only [munmap] may release. *)
Inductive alloc_kind := Malloced | Mapped.

Record block := mk_block { blk_kind : alloc_kind; blk_data : list weight }.

(** The allocator's state; [alloc_limit] is the largest request (in scalars)
    the platform satisfies. *)
Record mem := mk_mem { heap : gmap loc block; next_loc : loc; alloc_limit : Z }.

(** [class dense_parameters]: [_begin = None] is [nullptr]. *)
Record dense_parameters := mk_dense {
  _begin : option loc;
  _weight_mask : Z;
  _stride_shift : Z;
  _seeded : bool }.

(** ** The allocator (outside [src/]: [memory.h] and libc) *)

Definition alloc_block (k : alloc_kind) (n : Z) (m : mem) : result (loc * mem) :=
  if alloc_limit m <? n then Err AllocationError
  else
    let l := next_loc m in
    Ok (l, mk_mem (<[l := mk_block k (replicate (Z.to_nat n) 0%Q)]> (heap m))
                  (Pos.succ l) (alloc_limit m)).

(** [calloc_mergable_or_throw<weight>(n)]: [nullptr] for zero scalars,
    zeroed memory otherwise, [AllocationError] when the request fails. *)
Definition calloc_mergable_or_throw (n : Z) (m : mem) : result (option loc * mem) :=
  if n =? 0 then Ok (None, m)
  else '(l, m') ← alloc_block Malloced n m; Ok (Some l, m').

(** [free(p)]: no-op on [nullptr]; undefined on a pointer that is not a
    live [malloc] block (double free, or [mmap]ed memory). *)
Definition c_free (b : option loc) (m : mem) : result mem :=
  match b with
  | None => Ok m
  | Some l =>
      match heap m !! l with
      | Some (mk_block Malloced _) => Ok (mk_mem (delete l (heap m)) (next_loc m) (alloc_limit m))
      | _ => Err InvalidFree
      end
  end.

(** Well-formed allocator state: every live location is below [next_loc]. *)
Definition mem_wf (m : mem) : Prop :=
  forall l, is_Some (heap m !! l) -> (l < next_loc m)%positive.

(** ** Raw buffer access *)

Definition buf_load (data : list weight) (off : Z) : result weight :=
  if 0 <=? off then of_option OutOfBounds (data !! Z.to_nat off) else Err OutOfBounds.

Definition buf_store (data : list weight) (off : Z) (v : weight) : result (list weight) :=
  _ ← buf_load data off; Ok (<[Z.to_nat off := v]> data).

Definition block_data (m : mem) (b : option loc) : result (list weight) :=
  match b with
  | None => Err NullDeref
  | Some l => blk ← of_option UseAfterFree (heap m !! l); Ok (blk_data blk)
  end.

(** Run a buffer transformation on the block [b] points to, in place. *)
Definition modify_buffer (m : mem) (b : option loc)
    (f : list weight -> result (list weight)) : result mem :=
  match b with
  | None => Err NullDeref
  | Some l =>
      blk ← of_option UseAfterFree (heap m !! l);
      data' ← f (blk_data blk);
      Ok (mk_mem (<[l := mk_block (blk_kind blk) data']> (heap m)) (next_loc m) (alloc_limit m))
  end.

(** ** Construction, geometry and element access *)

Definition dense_default : dense_parameters := mk_dense None 0 0 false.

Definition dense_construct (length stride_shift : Z) (m : mem)
    : result (dense_parameters * mem) :=
  let n := wrap64 (length ≪ stride_shift) in
  '(b, m') ← calloc_mergable_or_throw n m;
  Ok (mk_dense b (wrap64 (n - 1)) stride_shift false, m').

Definition not_null (w : dense_parameters) : bool :=
  (0 <? _weight_mask w) && bool_decide (is_Some (_begin w)).

Definition mask (w : dense_parameters) : Z := _weight_mask w.
Definition stride (w : dense_parameters) : Z := wrap32 (1 ≪ _stride_shift w).
Definition seeded (w : dense_parameters) : bool := _seeded w.
Definition stride_shift (w : dense_parameters) : Z := _stride_shift w.

(** The setter [stride_shift(s)]: the mask is left as it is. *)
Definition set_stride_shift (w : dense_parameters) (s : Z) : dense_parameters :=
  mk_dense (_begin w) (_weight_mask w) s (_seeded w).

(** [operator[](i)] reads and writes [_begin[i & _weight_mask]]. *)
Definition read (w : dense_parameters) (i : Z) (m : mem) : result weight :=
  data ← block_data m (_begin w); buf_load data (i &&& mask w).

Definition write (w : dense_parameters) (i : Z) (v : weight) (m : mem) : result mem :=
  modify_buffer m (_begin w) (fun data => buf_store data (i &&& mask w) v).

(** [strided_index(i)] is [operator[](i << _stride_shift)]. *)
Definition strided_read (w : dense_parameters) (i : Z) (m : mem) : result weight :=
  read w (wrap64 (i ≪ _stride_shift w)) m.

Definition strided_write (w : dense_parameters) (i : Z) (v : weight) (m : mem) : result mem :=
  write w (wrap64 (i ≪ _stride_shift w)) v m.

(** ** Iteration: [for (iter = begin(); iter != end(); ++iter)]

    The iterator starts at offset 0 and steps by [stride()]; [end()] is at
    offset [_weight_mask + 1] (pointer arithmetic, so modulo [2^64]).  The
    loop exits only when the offset equals [end()] exactly; [fuel] is the
    bound on the number of steps, and running out of it means the loop
    would step past [end()]. *)
Fixpoint iter_offsets (fuel : nat) (cur last step : Z) : option (list Z) :=
  match fuel with
  | O => None
  | S fuel' =>
      if cur =? last then Some []
      else cons cur <$> iter_offsets fuel' (cur + step) last step
  end.

Definition dense_end (w : dense_parameters) : Z := wrap64 (mask w + 1).

Definition offsets (w : dense_parameters) : result (list Z) :=
  of_option NonTerminating
    (iter_offsets (S (Z.to_nat (dense_end w))) 0 (dense_end w) (stride w)).

(** [first()] (lines 75-78): the raw buffer pointer. *)
Definition first (w : dense_parameters) : option loc := _begin w.

(** [cbegin()] and [cend()] (lines 84-85): the const iterator starts at
    offset 0 and ends at [_weight_mask + 1], stepping by [stride()]. *)
Definition cend (w : dense_parameters) : Z := wrap64 (mask w + 1).

Definition const_offsets (w : dense_parameters) : result (list Z) :=
  of_option NonTerminating (iter_offsets (S (Z.to_nat (cend w))) 0 (cend w) (stride w)).

(** ** Loops over the stride groups *)

Definition for_each_group (w : dense_parameters)
    (body : list weight -> Z -> result (list weight)) (data : list weight)
    : result (list weight) :=
  offs ← offsets w; foldM body data offs.

(** Write the slots [g] starting at offset [o] ([w[0]], [w[1]], ... through
    the pointer a [set_default] lambda receives). *)
Definition write_slots (data : list weight) (o : Z) (g : list weight) : result (list weight) :=
  foldM (fun d '(k, v) => buf_store d (o + k) v) data (zip (seqZ 0 (Z.of_nat (length g))) g).

(** [set_default(default_func)]: the lambda receives a pointer to slot 0 of
    each group and [iter.index()]; it is modelled by the values it leaves in
    the group's slots, as a function of that index and of the group's
    [stride()] slots. *)
Definition set_default (default_func : Z -> list weight -> list weight)
    (w : dense_parameters) (m : mem) : result mem :=
  modify_buffer m (_begin w) (for_each_group w (fun d o =>
    write_slots d o (default_func o (take (Z.to_nat (stride w)) (drop (Z.to_nat o) d))))).

(** [set_zero(offset)]: zero the slot [offset] past the start of every group. *)
Definition set_zero (w : dense_parameters) (offset : Z) (m : mem) : result mem :=
  modify_buffer m (_begin w)
    (for_each_group w (fun d o => buf_store d (wrap64 (o + offset)) 0%Q)).

Definition is_zero (x : weight) : bool := Qeq_bool x 0.

(** [actual_index & (params_per_problem - 1)]: the position of a group in its
    problem block. *)
Definition actual_type (w : dense_parameters) (ppp o : Z) : Z :=
  (o ≫ _stride_shift w) &&& wrap64 (ppp - 1).

(** The body of [swap_offsets(offset_1, offset_2, params_per_problem)]. *)
Definition swap_step (w : dense_parameters) (offset_1 offset_2 ppp : Z)
    (d : list weight) (o : Z) : result (list weight) :=
  let actual_index := o ≫ _stride_shift w in
  if actual_type w ppp o =? offset_1 then
    let other := wrap64 (wrap64 (actual_index + wrap64 (offset_2 - offset_1)) ≪ _stride_shift w) in
    x ← buf_load d other;
    y ← buf_load d o;
    if negb (is_zero x) || negb (is_zero y) then
      d1 ← buf_store d other y; buf_store d1 o x
    else Ok d
  else Ok d.

Definition swap_offsets (w : dense_parameters) (offset_1 offset_2 ppp : Z) (m : mem) : result mem :=
  modify_buffer m (_begin w) (for_each_group w (swap_step w offset_1 offset_2 ppp)).

(** The body of [copy_offsets(from, to, params_per_problem)]; the
    [std::int64_t diff = to - from] and the [size_t + int64_t] sum are
    arithmetic modulo [2^64]. *)
Definition copy_step (w : dense_parameters) (from to ppp : Z)
    (d : list weight) (o : Z) : result (list weight) :=
  let diff := wrap64 (to - from) in
  let actual_index := o ≫ _stride_shift w in
  if actual_type w ppp o =? from then
    let other := wrap64 (wrap64 (actual_index + diff) ≪ _stride_shift w) in
    x ← buf_load d other;
    y ← buf_load d o;
    if negb (is_zero x) || negb (is_zero y) then buf_store d other y else Ok d
  else Ok d.

Definition copy_offsets (w : dense_parameters) (from to ppp : Z) (m : mem) : result mem :=
  modify_buffer m (_begin w) (for_each_group w (copy_step w from to ppp)).

(** The body of [clear_offset(offset, params_per_problem)]. *)
Definition clear_step (w : dense_parameters) (offset ppp : Z)
    (d : list weight) (o : Z) : result (list weight) :=
  if actual_type w ppp o =? offset then
    y ← buf_load d o;
    if negb (is_zero y) then buf_store d o 0%Q else Ok d
  else Ok d.

Definition clear_offset (w : dense_parameters) (offset ppp : Z) (m : mem) : result mem :=
  modify_buffer m (_begin w) (for_each_group w (clear_step w offset ppp)).

(** ** Views, sharing and destruction *)

(** [shallow_copy(input)]: free the own buffer unless already a view, then
    point at [input]'s buffer as a (non-owning) view. *)
Definition shallow_copy (self input : dense_parameters) (m : mem)
    : result (dense_parameters * mem) :=
  m' ← (if _seeded self then Ok m else c_free (_begin self) m);
  Ok (mk_dense (_begin input) (_weight_mask input) (_stride_shift input) true, m').

(** [share(length)]: [mmap] a [MAP_SHARED] region of [length << _stride_shift]
    floats, [memcpy] the buffer into it, [free] the old buffer.  A failing
    [mmap] (not checked by the code) is reported as [AllocationError]. *)
Definition share (w : dense_parameters) (len : Z) (m : mem)
    : result (dense_parameters * mem) :=
  let float_count := wrap64 (len ≪ _stride_shift w) in
  '(dest, m1) ← (if float_count =? 0 then Err AllocationError
                 else alloc_block Mapped float_count m);
  src ← block_data m1 (_begin w);
  copied ← (if Z.of_nat (length src) <? float_count then Err OutOfBounds
            else Ok (take (Z.to_nat float_count) src));
  let m2 := mk_mem (<[dest := mk_block Mapped copied]> (heap m1)) (next_loc m1) (alloc_limit m1) in
  m3 ← c_free (_begin w) m2;
  Ok (mk_dense (Some dest) (_weight_mask w) (_stride_shift w) (_seeded w), m3).

(** [~dense_parameters()]. *)
Definition destroy (w : dense_parameters) (m : mem) : result mem :=
  if bool_decide (is_Some (_begin w)) && negb (_seeded w) then c_free (_begin w) m else Ok m.

(** The reference effect of one [swap_offsets] iteration on the slot [p] of
    a group and the slot [q] of its partner: swap them unless both compare
    equal to zero. *)
Definition swap_pair (p q : nat) (d : list weight) : list weight :=
  match d !! q, d !! p with
  | Some x, Some y =>
      if negb (is_zero x) || negb (is_zero y) then <[p := x]> (<[q := y]> d) else d
  | _, _ => d
  end.

(** Group geometry used to state the loop theorems: the stride [2^shift],
    and the footprint and reference effect of the [swap_offsets] iteration
    at offset [o] for problem blocks of [P] groups. *)
Definition gstride (w : dense_parameters) : Z := 2 ^ _stride_shift w.

Definition swap_fp (w : dense_parameters) (o1 o2 P o : Z) (i : nat) : Prop :=
  (o / gstride w) mod P = o1 /\
  (i = Z.to_nat o \/ i = Z.to_nat (o + (o2 - o1) * gstride w)).

Definition swap_upd (w : dense_parameters) (o1 o2 P o : Z) (d : list weight) : list weight :=
  if (o / gstride w) mod P =? o1
  then swap_pair (Z.to_nat o) (Z.to_nat (o + (o2 - o1) * gstride w)) d
  else d.

#[export] Instance swap_fp_dec w o1 o2 P o i : Decision (swap_fp w o1 o2 P o i).
Proof. unfold swap_fp. apply _. Defined.

(** The group of [2^shift] slots starting at offset [o], as the
    [set_default] lambda sees it through the iterator; its footprint; and
    the reference effect of the iteration: the values the lambda leaves,
    written from slot 0 of the group on. *)
Definition group_slice (w : dense_parameters) (o : Z) (d : list weight) : list weight :=
  take (Z.to_nat (gstride w)) (drop (Z.to_nat o) d).

Definition default_fp (w : dense_parameters) (o : Z) (i : nat) : Prop :=
  (Z.to_nat o <= i < Z.to_nat o + Z.to_nat (gstride w))%nat.

Definition default_upd (default_func : Z -> list weight -> list weight) (w : dense_parameters)
    (o : Z) (d : list weight) : list weight :=
  list_inserts (Z.to_nat o) (default_func o (group_slice w o d)) d.

(** The reference effect of the [set_zero(offset)] iteration at offset
    [o]: the slot [o + offset] is zeroed. *)
Definition zero_fp (offset o : Z) (i : nat) : Prop := i = Z.to_nat (o + offset).

Definition zero_upd (offset o : Z) (d : list weight) : list weight := <[Z.to_nat (o + offset) := 0%Q]> d.

(** The reference effect of the [clear_offset] iteration at offset [o]:
    the group's slot 0 is zeroed when it holds a nonzero value. *)
Definition zero_slot (i : nat) (d : list weight) : list weight :=
  match d !! i with
  | Some y => if negb (is_zero y) then <[i := 0%Q]> d else d
  | None => d
  end.

Definition clear_fp (w : dense_parameters) (off P o : Z) (i : nat) : Prop :=
  (o / gstride w) mod P = off /\ i = Z.to_nat o.

Definition clear_upd (w : dense_parameters) (off P o : Z) (d : list weight) : list weight :=
  if (o / gstride w) mod P =? off then zero_slot (Z.to_nat o) d else d.

(** The reference effect of the [copy_offsets] iteration at offset [o]
    (its footprint is [swap_fp]): slot [p] is copied to slot [q] unless
    both are zero. *)
Definition copy_pair (p q : nat) (d : list weight) : list weight :=
  match d !! q, d !! p with
  | Some x, Some y => if negb (is_zero x) || negb (is_zero y) then <[q := y]> d else d
  | _, _ => d
  end.

Definition copy_upd (w : dense_parameters) (from to P o : Z) (d : list weight) : list weight :=
  if (o / gstride w) mod P =? from
  then copy_pair (Z.to_nat o) (Z.to_nat (o + (to - from) * gstride w)) d
  else d.

(** ** Stores reachable from construction *)

(** One step of a store owned by the workspace: an element write (plain
    or strided), one of the per-group operations, a new stride (the setter
    [stride_shift(s)]), or [share(length)] with the length the table was
    built with (the caller's obligation: [share] copies [length <<
    stride_shift] scalars and keeps the mask).  Each step is an operation
    of the class that returned normally. *)
Inductive store_step : dense_parameters * mem -> dense_parameters * mem -> Prop :=
| step_write w m i v m' : write w i v m = Ok m' -> store_step (w, m) (w, m')
| step_strided_write w m i v m' : strided_write w i v m = Ok m' -> store_step (w, m) (w, m')
| step_set_default f w m m' : set_default f w m = Ok m' -> store_step (w, m) (w, m')
| step_set_zero w m off m' : set_zero w off m = Ok m' -> store_step (w, m) (w, m')
| step_swap w m o1 o2 ppp m' : swap_offsets w o1 o2 ppp m = Ok m' -> store_step (w, m) (w, m')
| step_copy w m from to ppp m' : copy_offsets w from to ppp m = Ok m' -> store_step (w, m) (w, m')
| step_clear w m off ppp m' : clear_offset w off ppp m = Ok m' -> store_step (w, m) (w, m')
| step_stride w m s : store_step (w, m) (set_stride_shift w s, m)
| step_share w m len w' m' :
    wrap64 (len ≪ _stride_shift w) = mask w + 1 -> share w len m = Ok (w', m') ->
    store_step (w, m) (w', m').

(** A well-formed store: the allocator state is well formed, the mask is a
    64-bit value and a non-null [_begin] points to a live block of exactly
    [mask + 1] scalars. *)
Definition store_wf (s : dense_parameters * mem) : Prop :=
  mem_wf s.2 /\ is_u64 (mask s.1) /\
  forall l, _begin s.1 = Some l ->
    exists blk, heap s.2 !! l = Some blk /\ Z.of_nat (length (blk_data blk)) = mask s.1 + 1.

(** A buffer transformation that keeps the number of scalars. *)
Definition keeps_length (f : list weight -> result (list weight)) : Prop :=
  forall d d', f d = Ok d' -> length d' = length d.

(** Inputs for the witnesses: an allocator with room for 64 scalars, and the
    store [dense_parameters(4, 1)] (4 groups of 2 slots) built in it. *)
Definition mem0 : mem := mk_mem ∅ 1%positive 64.
Definition w41 : dense_parameters := mk_dense (Some 1%positive) 7 1 false.
Definition mem41 (d : list weight) : mem := mk_mem {[1%positive := mk_block Malloced d]} 2%positive 64.
Definition data41 : list weight := [1; 2; 0; 0; 0; 5; 0; 7]%Q.
(** A [set_default] lambda writing the index it receives into slot 0. *)
Definition index_default (o : Z) (_ : list weight) : list weight := [inject_Z o].

(** ** Raw access lemmas *)

Lemma buf_load_in (d : list weight) (off : Z) :
  0 <= off < Z.of_nat (length d) ->
  exists v, d !! Z.to_nat off = Some v /\ buf_load d off = Ok v.
Proof.
  intros Hr. destruct (lookup_lt_is_Some_2 d (Z.to_nat off)) as [v Hv]; [lia|].
  exists v. unfold buf_load. destruct (Z.leb_spec 0 off); [|lia]. by rewrite Hv.
Qed.

Lemma buf_load_lookup (d : list weight) (off : Z) v :
  0 <= off -> d !! Z.to_nat off = Some v -> buf_load d off = Ok v.
Proof. intros Ho Hv. unfold buf_load. destruct (Z.leb_spec 0 off); [|lia]. by rewrite Hv. Qed.

Lemma buf_store_in (d : list weight) (off : Z) v :
  0 <= off < Z.of_nat (length d) -> buf_store d off v = Ok (<[Z.to_nat off := v]> d).
Proof. intros Hr. destruct (buf_load_in d off) as (x & _ & Hx); [done|]. unfold buf_store. by rewrite Hx. Qed.

#[local] Hint Resolve buf_load_lookup buf_store_in : vw.

(** ** The swap of one pair of slots *)

Lemma swap_pair_length p q d : length (swap_pair p q d) = length d.
Proof.
  unfold swap_pair. destruct (d !! q), (d !! p); try done.
  destruct (_ || _); [by rewrite !length_insert|done].
Qed.

Lemma swap_pair_frame p q d i : i <> p -> i <> q -> swap_pair p q d !! i = d !! i.
Proof.
  intros. unfold swap_pair. destruct (d !! q), (d !! p); try done.
  destruct (_ || _); [by rewrite !list_lookup_insert_ne|done].
Qed.

Lemma swap_pair_local p q d d' i :
  d !! p = d' !! p -> d !! q = d' !! q -> (i = p \/ i = q) ->
  swap_pair p q d !! i = swap_pair p q d' !! i.
Proof.
  intros Hp Hq Hi. unfold swap_pair. rewrite <- Hp, <- Hq.
  destruct (d !! q) as [x|] eqn:Ex, (d !! p) as [y|] eqn:Ey;
    try (destruct Hi as [->| ->]; congruence).
  destruct (_ || _); [|destruct Hi as [->| ->]; congruence].
  assert (p < length d /\ q < length d /\ p < length d' /\ q < length d')%nat as (?&?&?&?).
  { repeat split; apply lookup_lt_is_Some; [rewrite Ey|rewrite Ex|rewrite <- Hp|rewrite <- Hq]; eauto. }
  destruct (decide (i = p)) as [->|Hip].
  - rewrite (list_lookup_insert_eq (<[q:=y]> d)), (list_lookup_insert_eq (<[q:=y]> d'))
      by (rewrite length_insert; lia). done.
  - destruct Hi as [Hi|Hi]; [congruence|subst i].
    rewrite (list_lookup_insert_ne _ p q), (list_lookup_insert_ne _ p q) by done.
    rewrite !list_lookup_insert_eq by lia. done.
Qed.

Lemma swap_pair_involutive p q d : p <> q -> swap_pair p q (swap_pair p q d) = d.
Proof.
  intros Hpq. unfold swap_pair at 2.
  destruct (d !! q) as [x|] eqn:Ex, (d !! p) as [y|] eqn:Ey;
    try (unfold swap_pair; rewrite ?Ex, ?Ey; done).
  assert (p < length d /\ q < length d)%nat as [Hp Hq]
    by (split; apply lookup_lt_is_Some; [rewrite Ey|rewrite Ex]; eauto).
  destruct (negb (is_zero x) || negb (is_zero y)) eqn:Hc.
  - assert (Hq1 : <[p:=x]> (<[q:=y]> d) !! q = Some y) by list_simpl.
    assert (Hp1 : <[p:=x]> (<[q:=y]> d) !! p = Some x) by list_simpl.
    unfold swap_pair. rewrite Hq1, Hp1, orb_comm, Hc.
    apply list_eq. intros i.
    destruct (decide (i = p)) as [->|Hip]; [list_simpl|].
    destruct (decide (i = q)) as [->|Hiq]; list_simpl.
  - unfold swap_pair. rewrite Ex, Ey, Hc. done.
Qed.

(** After [swap_pair p q], slot [p] holds the old value of [q] and slot
    [q] the old value of [p] (the skipped swap of two zeros included). *)
Lemma swap_pair_targets p q d (x y : weight) :
  p <> q -> d !! q = Some x -> d !! p = Some y ->
  exists x' y', swap_pair p q d !! p = Some x' /\ swap_pair p q d !! q = Some y' /\
    (x' == x)%Q /\ (y' == y)%Q.
Proof.
  intros Hpq Hx Hy. unfold swap_pair. rewrite Hx, Hy.
  assert (p < length d /\ q < length d)%nat as [Hp Hq]
    by (split; apply lookup_lt_is_Some; [rewrite Hy|rewrite Hx]; eauto).
  destruct (negb (is_zero x) || negb (is_zero y)) eqn:Hc.
  - exists x, y. split; [rewrite list_lookup_insert_eq by (rewrite length_insert; assumption); done|].
    split; [rewrite list_lookup_insert_ne, list_lookup_insert_eq by (done || assumption); done|].
    split; reflexivity.
  - exists y, x. split; [done|]. split; [done|]. apply orb_false_iff in Hc as [Hx0 Hy0].
    apply negb_false_iff, Qeq_bool_iff in Hx0, Hy0. rewrite Hx0, Hy0. split; reflexivity.
Qed.

Lemma copy_pair_length i1 i2 d : length (copy_pair i1 i2 d) = length d.
Proof.
  unfold copy_pair. destruct (d !! i2), (d !! i1); try done.
  destruct (_ || _); [apply length_insert|done].
Qed.

Lemma copy_pair_frame i1 i2 d i : i <> i2 -> copy_pair i1 i2 d !! i = d !! i.
Proof.
  intros. unfold copy_pair. destruct (d !! i2), (d !! i1); try done.
  destruct (_ || _); [apply list_lookup_insert_ne; done|done].
Qed.

Lemma copy_pair_local i1 i2 d d' i :
  d !! i1 = d' !! i1 -> d !! i2 = d' !! i2 -> (i = i1 \/ i = i2) ->
  copy_pair i1 i2 d !! i = copy_pair i1 i2 d' !! i.
Proof.
  intros H1 H2 Hi. unfold copy_pair. rewrite <- H1, <- H2.
  destruct (d !! i2) as [x|] eqn:Ex, (d !! i1) as [y|] eqn:Ey;
    try (destruct Hi as [->| ->]; congruence).
  destruct (_ || _); [|destruct Hi as [->| ->]; congruence].
  assert (i2 < length d /\ i2 < length d')%nat as [? ?].
  { split; apply lookup_lt_is_Some; [|rewrite <- H2]; try rewrite Ex; eauto. }
  destruct (decide (i = i2)) as [->|Hne]; [rewrite !list_lookup_insert_eq by done; done|].
  rewrite !list_lookup_insert_ne by done. destruct Hi as [->|]; congruence.
Qed.

Lemma copy_pair_target i1 i2 d (x y : weight) :
  d !! i2 = Some x -> d !! i1 = Some y -> exists z : weight, copy_pair i1 i2 d !! i2 = Some z /\ (z == y)%Q.
Proof.
  intros Hx Hy. unfold copy_pair. rewrite Hx. cbv iota beta. rewrite Hy.
  destruct (negb (is_zero x) || negb (is_zero y)) eqn:Hc.
  - exists y. split; [|reflexivity]. apply list_lookup_insert_eq, lookup_lt_is_Some. eauto.
  - exists x. split; [done|]. apply orb_false_iff in Hc as [Hx0 Hy0].
    apply negb_false_iff, Qeq_bool_iff in Hx0, Hy0. rewrite Hx0, Hy0. reflexivity.
Qed.

Lemma modify_buffer_Some m l blk f :
  heap m !! l = Some blk ->
  modify_buffer m (Some l) f =
    (d' ← f (blk_data blk);
     Ok (mk_mem (<[l := mk_block (blk_kind blk) d']> (heap m)) (next_loc m) (alloc_limit m))).
Proof. intros Hl. simpl. by rewrite Hl. Qed.

(** ** Iteration terminates on a store whose end is a whole number of groups *)

Lemma iter_offsets_spec (step c : Z) (n fuel : nat) :
  0 < step -> (n < fuel)%nat ->
  iter_offsets fuel (c * step) ((c + Z.of_nat n) * step) step
  = Some (map (fun g => g * step) (seqZ c (Z.of_nat n))).
Proof.
  revert c fuel. induction n as [|n IH]; intros c [|fuel] Hs Hf; try lia; simpl.
  - rewrite Z.add_0_r, Z.eqb_refl. reflexivity.
  - destruct (Z.eqb_spec (c * step) ((c + Z.of_nat (S n)) * step)); [nia|].
    replace (c * step + step) with ((c + 1) * step) by lia.
    replace ((c + Z.of_nat (S n)) * step) with ((c + 1 + Z.of_nat n) * step) by lia.
    rewrite IH by lia. rewrite (seqZ_cons c) by lia. simpl.
    do 4 f_equal; lia.
Qed.

(** ** Views and lifetimes *)

Lemma mem_wf_fresh m : mem_wf m -> heap m !! next_loc m = None.
Proof.
  intros Hwf. destruct (heap m !! next_loc m) eqn:E; [|done].
  assert (Hs : is_Some (heap m !! next_loc m)) by (eexists; exact E).
  apply Hwf in Hs. lia.
Qed.

Lemma read_block m w blk l i :
  _begin w = Some l -> heap m !! l = Some blk ->
  read w i m = buf_load (blk_data blk) (i &&& mask w).
Proof. intros Hb Hl. unfold read, block_data. rewrite Hb, Hl. done. Qed.

Lemma write_block m m' w i x :
  write w i x m = Ok m' ->
  exists l blk, _begin w = Some l /\ heap m !! l = Some blk /\
    (0 <= i &&& mask w < Z.of_nat (length (blk_data blk)))%Z /\
    heap m' = <[l := mk_block (blk_kind blk) (<[Z.to_nat (i &&& mask w) := x]> (blk_data blk))]> (heap m).
Proof.
  unfold write, modify_buffer. destruct (_begin w) as [l|]; [|done].
  destruct (heap m !! l) as [blk|] eqn:Hl; [|done]. simpl.
  unfold buf_store, buf_load. destruct (Z.leb_spec 0 (i &&& mask w)); [|done].
  destruct (blk_data blk !! Z.to_nat (i &&& mask w)) eqn:Hv; [|done]. simpl.
  intros [= <-]. exists l, blk. apply lookup_lt_Some in Hv.
  split; [done|]. split; [done|]. split; [lia|done].
Qed.

(** C5: a view made by [shallow_copy] aliases its input: a value written
    through the input is read back through the view, at every index. *)
Theorem shallow_copy_shares_writes self w v m m1 m2 i x :
  shallow_copy self w m = Ok (v, m1) -> write w i x m1 = Ok m2 -> read v i m2 = Ok x.
Proof.
  unfold shallow_copy. intros H Hw. apply bind_Ok in H as (m1' & _ & [= <- <-]).
  destruct (write_block _ _ _ _ _ Hw) as (l & blk & Hb & Hl & Hr & Hh).
  rewrite (read_block m2 _ (mk_block (blk_kind blk) (<[Z.to_nat (i &&& mask w) := x]> (blk_data blk))) l);
    [|done|rewrite Hh; apply lookup_insert_eq].
  apply buf_load_lookup; [unfold mask in *; simpl; lia|]. simpl. unfold mask in *. list_simpl.
Qed.

(** C3: after construction every 64-bit index is valid: [operator[]] masks
    it into the buffer and reads the zero the allocation put there. *)
Theorem construct_read_any len s m w m' i :
  dense_construct len s m = Ok (w, m') -> 0 < wrap64 (len ≪ s) -> is_u64 i ->
  read w i m' = Ok 0%Q.
Proof.
  intros H Hn Hi. unfold dense_construct, calloc_mergable_or_throw in H.
  destruct (Z.eqb_spec (wrap64 (len ≪ s)) 0); [lia|].
  unfold alloc_block in H. destruct (Z.ltb_spec (alloc_limit m) (wrap64 (len ≪ s))); [done|].
  simpl in H. injection H as <- <-.
  pose proof (wrap64_range (len ≪ s)) as Hr. unfold is_u64 in *.
  unfold read, block_data, mask. simpl. rewrite lookup_insert_eq. simpl.
  rewrite (wrap64_id (wrap64 (len ≪ s) - 1)) by (unfold is_u64; lia).
  assert (0 <= i &&& (wrap64 (len ≪ s) - 1) <= wrap64 (len ≪ s) - 1).
  { apply land_range; lia. }
  apply buf_load_lookup; [lia|]. apply lookup_replicate_2. lia.
Qed.

(** C6: the destructor of a [shallow_copy] view frees nothing, while the
    owner's destructor frees the buffer the view still points to: a later
    read through the view is a use after free (the lifetime contract of
    spec section 4.1 is the caller's to keep). *)
Theorem view_outlived_by_owner self w v m m1 m2 i l :
  shallow_copy self w m = Ok (v, m1) -> _begin w = Some l -> _seeded w = false ->
  destroy v m1 = Ok m1 /\ (destroy w m1 = Ok m2 -> read v i m2 = Err UseAfterFree).
Proof.
  unfold shallow_copy. intros H Hb Hs. apply bind_Ok in H as (m1' & _ & [= <- ->]).
  split; [unfold destroy; simpl; by rewrite andb_false_r|].
  unfold destroy, c_free. rewrite Hb, Hs. simpl.
  destruct (heap m1 !! l) as [[[] d]|] eqn:Hl; try done. intros [= <-].
  unfold read, block_data. simpl. rewrite lookup_delete_eq. done.
Qed.

(** C7: [share] places an [mmap]ed region in [_begin] and keeps the instance
    an owner, so its destructor later calls [free] on memory that [malloc]
    did not return: [share] followed by [~dense_parameters] is undefined. *)
Theorem share_then_destroy_invalid_free w len m l d :
  mem_wf m -> _begin w = Some l -> heap m !! l = Some (mk_block Malloced d) ->
  _seeded w = false ->
  0 < wrap64 (len ≪ _stride_shift w) <= alloc_limit m ->
  wrap64 (len ≪ _stride_shift w) <= Z.of_nat (length d) ->
  exists w' m', share w len m = Ok (w', m') /\ destroy w' m' = Err InvalidFree.
Proof.
  intros Hwf Hb Hl Hs Hfc Hlen. pose proof (mem_wf_fresh m Hwf) as Hfresh.
  assert (Hne : l <> next_loc m) by (intros ->; congruence).
  unfold share, alloc_block.
  destruct (Z.eqb_spec (wrap64 (len ≪ _stride_shift w)) 0); [lia|].
  destruct (Z.ltb_spec (alloc_limit m) (wrap64 (len ≪ _stride_shift w))); [lia|].
  rewrite !Ok_bind. unfold block_data. rewrite Hb. simpl.
  rewrite lookup_insert_ne by done. rewrite Hl. simpl.
  destruct (Z.ltb_spec (Z.of_nat (length d)) (wrap64 (len ≪ _stride_shift w))); [lia|].
  rewrite Ok_bind.
  rewrite (lookup_insert_ne _ (next_loc m) l), (lookup_insert_ne _ (next_loc m) l), Hl by done.
  rewrite Ok_bind.
  eexists _, _. split; [reflexivity|].
  unfold destroy, c_free. simpl. rewrite Hs. simpl.
  rewrite lookup_delete_ne, lookup_insert_eq by done. done.
Qed.

(** C8: [dense_parameters(length, stride_shift)] allocates exactly when
    the 64-bit size [length << stride_shift] is not zero, but [not_null()]
    holds only when that size is at least 2: the test is
    [_weight_mask > 0], and the mask of a one-slot store is [0].  A store
    of a single scalar is allocated yet reported null. *)
Theorem not_null_construct len s m w m' :
  dense_construct len s m = Ok (w, m') ->
  (is_Some (_begin w) <-> wrap64 (len ≪ s) <> 0) /\
  (not_null w = true <-> 2 <= wrap64 (len ≪ s)).
Proof.
  unfold dense_construct, calloc_mergable_or_throw.
  pose proof (wrap64_range (len ≪ s)) as Hr. unfold is_u64 in Hr.
  destruct (Z.eqb_spec (wrap64 (len ≪ s)) 0) as [E|E].
  - intros [= <- <-]. unfold not_null. simpl. rewrite E.
    split; split; intros H; [by destruct H|lia|discriminate|lia].
  - destruct (alloc_block _ _ m) as [[l m1]|]; simpl; [|discriminate]. intros [= <- <-].
    unfold not_null. simpl. rewrite (wrap64_id (wrap64 (len ≪ s) - 1)) by (unfold is_u64; lia).
    split; [split; eauto|]. rewrite andb_true_r, Z.ltb_lt. split; intros; lia.
Qed.

(** ** Stores whose buffer is a whole number [G] of stride groups *)

(** The geometry [dense_parameters(length, stride_shift)] establishes:
    [mask + 1 = length << stride_shift] when that product fits in 64
    bits. *)
Lemma dense_construct_geometry (len s : Z) m w m' :
  0 < len -> 0 <= s -> len * 2 ^ s < 2 ^ 64 ->
  dense_construct len s m = Ok (w, m') ->
  stride_shift w = s /\ 0 <= mask w /\ mask w + 1 = len * 2 ^ s.
Proof.
  intros Hl Hs Hfit. unfold dense_construct.
  pose proof (Z.pow_pos_nonneg 2 s ltac:(lia) Hs).
  rewrite Z.shiftl_mul_pow2, (wrap64_id (len * 2 ^ s)) by (unfold is_u64; lia).
  destruct (calloc_mergable_or_throw _ m) as [[b m1]|]; simpl; [|discriminate].
  intros [= <- _]. unfold mask, stride_shift. simpl. rewrite wrap64_id by (unfold is_u64; lia). lia.
Qed.

(** ** When the iteration ends *)

(** An offset that is a multiple of the stride never meets an end that is
    not: the iterator runs past [end()] and no fuel suffices. *)
Lemma iter_offsets_diverges (step last : Z) : 0 < step -> last mod step <> 0 ->
  forall (fuel : nat) (k : Z), iter_offsets fuel (k * step) last step = None.
Proof.
  intros Hs Hl. induction fuel as [|fuel IH]; intros k; [done|]. simpl.
  destruct (Z.eqb_spec (k * step) last) as [<-|_]; [rewrite Z.mod_mul in Hl by lia; done|].
  replace (k * step + step) with ((k + 1) * step) by lia. rewrite IH. done.
Qed.

(** C36:  The iteration over the stride groups ([begin()] to [end()] by
    [stride()]) is finite exactly when the table size [mask + 1] is a
    multiple of the stride: then it visits the group starts in ascending
    order; otherwise the iterator steps over [end()] and never stops, for
    any fuel. *)
Theorem offsets_terminate w :
  0 <= _stride_shift w < 32 -> 0 <= mask w -> mask w + 1 < 2 ^ 64 ->
  ((mask w + 1) mod stride w = 0 ->
   offsets w = Ok (map (fun g => g * stride w) (seqZ 0 ((mask w + 1) / stride w)))) /\
  ((mask w + 1) mod stride w <> 0 -> forall fuel, iter_offsets fuel 0 (dense_end w) (stride w) = None).
Proof.
  intros Hs Hm Hfit.
  assert (Hst : stride w = 2 ^ _stride_shift w).
  { unfold stride, wrap32. rewrite Z.shiftl_1_l. apply Z.mod_small.
    split; [lia|]. apply Z.pow_lt_mono_r; lia. }
  assert (Hpos : 0 < stride w) by (rewrite Hst; apply Z.pow_pos_nonneg; lia).
  assert (He : dense_end w = mask w + 1) by (unfold dense_end; apply wrap64_id; unfold is_u64; lia).
  rewrite <- He. split.
  - intros Hdiv. unfold offsets. set (n := dense_end w / stride w).
    assert (Hn : dense_end w = (0 + Z.of_nat (Z.to_nat n)) * stride w).
    { unfold n. rewrite Z2Nat.id by (apply Z.div_pos; lia). pose proof (Z.div_mod (dense_end w) (stride w)). lia. }
    pose proof (iter_offsets_spec (stride w) 0 (Z.to_nat n) (S (Z.to_nat (dense_end w))) Hpos) as Hit.
    rewrite <- Hn, Z.mul_0_l, Z2Nat.id in Hit by (apply Z.div_pos; lia).
    rewrite Hit; [done|]. unfold n. apply Nat2Z.inj_lt. rewrite !Z2Nat.id by (try apply Z.div_pos; lia).
    assert (dense_end w / stride w <= dense_end w) by (apply Z.div_le_upper_bound; nia). lia.
  - intros Hndiv fuel. rewrite <- (Z.mul_0_l (stride w)). apply iter_offsets_diverges; done.
Qed.

(** [list_inserts] read back: the inserted values inside their range and
    the buffer, the old ones elsewhere. *)
Lemma lookup_inserts_cases {A} (l : list A) (i : nat) (k : list A) (j : nat) :
  list_inserts i k l !! j =
    if decide (i <= j < i + length k)%nat then (if l !! j is Some _ then k !! (j - i)%nat else None) else l !! j.
Proof.
  destruct (decide _) as [Hj|Hj].
  - destruct (l !! j) eqn:E.
    + apply list_lookup_inserts; [lia|]. apply lookup_lt_is_Some. eauto.
    + apply lookup_ge_None in E. apply lookup_ge_None. rewrite length_inserts. done.
  - destruct (decide (j < i)%nat); [apply list_lookup_inserts_lt; lia|].
    apply list_lookup_inserts_ge. lia.
Qed.

Lemma write_slots_from (g : list weight) : forall (d : list weight) (o s : Z),
  0 <= o -> 0 <= s -> o + s + Z.of_nat (length g) <= Z.of_nat (length d) ->
  foldM (fun d '(k, v) => buf_store d (o + k) v) d (zip (seqZ s (Z.of_nat (length g))) g)
  = Ok (list_inserts (Z.to_nat (o + s)) g d).
Proof.
  induction g as [|v g IH]; intros d o s Ho Hs Hl; [done|]. cbn [length] in Hl.
  rewrite length_cons, Nat2Z.inj_succ, seqZ_cons by lia. simpl.
  rewrite buf_store_in by lia. simpl. rewrite Z.pred_succ.
  rewrite (IH _ o (Z.succ s)) by (try rewrite length_insert; lia).
  replace (Z.to_nat (o + Z.succ s)) with (S (Z.to_nat (o + s))) by lia.
  rewrite list_insert_inserts_lt by lia. done.
Qed.

(** [write_slots] writes the group [g] from offset [o] on. *)
Lemma write_slots_ok (d : list weight) (o : Z) (g : list weight) :
  0 <= o -> o + Z.of_nat (length g) <= Z.of_nat (length d) ->
  write_slots d o g = Ok (list_inserts (Z.to_nat o) g d).
Proof.
  intros Ho Hl. unfold write_slots. rewrite (write_slots_from g d o 0) by lia. rewrite Z.add_0_r. done.
Qed.

Section Geometry.
Variables (w : dense_parameters) (G : Z).
Hypothesis Hshift : 0 <= _stride_shift w < 32.
Hypothesis HG : 0 < G.
Hypothesis Hend : mask w + 1 = G * 2 ^ _stride_shift w.
Hypothesis Hbound : G * 2 ^ _stride_shift w < 2 ^ 64.

Lemma stride_pow : stride w = 2 ^ _stride_shift w.
Proof.
  unfold stride, wrap32. rewrite Z.shiftl_1_l. apply Z.mod_small.
  split; [lia|]. apply Z.pow_lt_mono_r; lia.
Qed.

Lemma offsets_groups :
  offsets w = Ok (map (fun g => g * 2 ^ _stride_shift w) (seqZ 0 G)).
Proof.
  unfold offsets, dense_end. rewrite Hend, wrap64_id by (unfold is_u64; lia).
  rewrite stride_pow.
  pose proof (iter_offsets_spec (2 ^ _stride_shift w) 0 (Z.to_nat G)
                (S (Z.to_nat (G * 2 ^ _stride_shift w)))) as H.
  rewrite Z2Nat.id, !Z.mul_0_l, Z.add_0_l in H by lia. rewrite H; [done|lia|].
  pose proof (Z.pow_pos_nonneg 2 (_stride_shift w)). nia.
Qed.

(** The offset of group [g] shifted right by [_stride_shift] is [g]. *)
Lemma group_shiftr (g : Z) : 0 <= g -> (g * 2 ^ _stride_shift w) ≫ _stride_shift w = g.
Proof.
  intros Hg. rewrite Z.shiftr_div_pow2 by lia. apply Z.div_mul.
  pose proof (Z.pow_pos_nonneg 2 (_stride_shift w)). lia.
Qed.

Lemma gstride_pos : 0 < gstride w.
Proof. apply Z.pow_pos_nonneg; lia. Qed.

Lemma group_in (g : Z) : 0 <= g < G -> g * gstride w ∈ (fun g => g * gstride w) <$> seqZ 0 G.
Proof. intros Hg. apply list_elem_of_fmap. exists g. split; [done|]. apply elem_of_seqZ. lia. Qed.

(** ** [swap_offsets] on problem blocks of [2^p] groups *)
Section Blocks.
Variable p : Z.
Hypothesis Hp : 0 <= p < 64.

Lemma mask_pow_p : wrap64 (2 ^ p - 1) = 2 ^ p - 1.
Proof.
  apply wrap64_id. unfold is_u64. pose proof (Z.pow_pos_nonneg 2 p ltac:(lia) ltac:(lia)).
  split; [lia|]. assert (2 ^ p <= 2 ^ 64) by (apply Z.pow_le_mono_r; lia). lia.
Qed.

(** The position in its problem block of the group [g]. *)
Lemma actual_type_group (g : Z) : 0 <= g -> actual_type w (2 ^ p) (g * gstride w) = g mod 2 ^ p.
Proof.
  intros Hg. unfold actual_type, gstride.
  pose proof (Z.pow_pos_nonneg 2 (_stride_shift w) ltac:(lia) ltac:(lia)).
  rewrite group_shiftr, mask_pow_p, land_low_mask by lia. done.
Qed.

(** ** [swap_offsets] and [copy_offsets] between the positions [o1 < o2]
    of problem blocks of [2^p] groups *)
Section Pairs.
Variables (o1 o2 : Z).
Hypothesis Ho : 0 <= o1 < o2 /\ o2 < 2 ^ p.
Hypothesis Hblk : G mod 2 ^ p = 0.

Lemma partner_in_block (g : Z) :
  0 <= g < G -> g mod 2 ^ p = o1 ->
  g + (o2 - o1) < G /\ (g + (o2 - o1)) mod 2 ^ p = o2.
Proof.
  intros Hg Hm. pose proof (Z.pow_pos_nonneg 2 p ltac:(lia) ltac:(lia)) as HP.
  pose proof (Z.div_mod g (2 ^ p) ltac:(lia)) as Eg.
  pose proof (Z.div_mod G (2 ^ p) ltac:(lia)) as EG.
  rewrite Hm in Eg. rewrite Hblk, Z.add_0_r in EG.
  split.
  - assert (g / 2 ^ p < G / 2 ^ p) by nia. nia.
  - replace (g + (o2 - o1)) with (o2 + (g / 2 ^ p) * 2 ^ p) by lia.
    rewrite Z_mod_plus_full. apply Z.mod_small. lia.
Qed.

(** The partner of group [g] at position [o1] of its block: the offset
    [(actual_index + (o2 - o1)) << stride_shift] the code computes with
    wrap-around, which stays in the buffer. *)
Lemma partner_offset (g : Z) : 0 <= g < G -> g mod 2 ^ p = o1 ->
  wrap64 (wrap64 ((g * gstride w) ≫ _stride_shift w + wrap64 (o2 - o1)) ≪ _stride_shift w)
    = (g + (o2 - o1)) * gstride w /\ (g + (o2 - o1)) * gstride w < G * gstride w.
Proof.
  intros Hg Hm. pose proof gstride_pos as HS. unfold gstride in *.
  destruct (partner_in_block g Hg Hm) as [Hlt _]. assert (G <= G * 2 ^ _stride_shift w) by nia.
  rewrite group_shiftr by lia.
  rewrite (wrap64_id (o2 - o1)), (wrap64_id (g + (o2 - o1))) by (unfold is_u64; lia).
  rewrite Z.shiftl_mul_pow2 by lia. rewrite wrap64_id by (unfold is_u64; nia). split; [done|nia].
Qed.

Lemma swap_step_group (d : list weight) (g : Z) :
  0 <= g < G -> length d = Z.to_nat (G * gstride w) ->
  swap_step w o1 o2 (2 ^ p) d (g * gstride w)
  = Ok (swap_upd w o1 o2 (2 ^ p) (g * gstride w) d).
Proof.
  intros Hg Hd. pose proof gstride_pos as HS.
  unfold swap_step, swap_upd. cbv zeta. rewrite actual_type_group, Z.div_mul by lia.
  destruct (Z.eqb_spec (g mod 2 ^ p) o1) as [Hm|Hm]; [|done].
  destruct (partner_offset g Hg Hm) as [-> Hlt].
  replace (g * gstride w + (o2 - o1) * gstride w) with ((g + (o2 - o1)) * gstride w) by lia.
  destruct (buf_load_in d ((g + (o2 - o1)) * gstride w)) as (x & Hx & ->); [nia|].
  destruct (buf_load_in d (g * gstride w)) as (y & Hy & ->); [nia|]. simpl.
  unfold swap_pair. rewrite Hx, Hy. destruct (_ || _); [|done]. simpl.
  rewrite buf_store_in by nia. simpl. rewrite buf_store_in by (rewrite length_insert; nia). done.
Qed.
(** Distinct groups have disjoint footprints: a group at position [o1]
    and its partner at [o2] belong to no other pair. *)
Lemma swap_fp_disjoint b1 b2 i :
  b1 ∈ (fun g => g * gstride w) <$> seqZ 0 G -> b2 ∈ (fun g => g * gstride w) <$> seqZ 0 G ->
  swap_fp w o1 o2 (2 ^ p) b1 i -> swap_fp w o1 o2 (2 ^ p) b2 i -> b1 = b2.
Proof.
  intros Hb1 Hb2 [Hm1 Hi1] [Hm2 Hi2]. pose proof gstride_pos as HS. unfold gstride in *.
  apply list_elem_of_fmap in Hb1 as (g1 & -> & Hg1%elem_of_seqZ).
  apply list_elem_of_fmap in Hb2 as (g2 & -> & Hg2%elem_of_seqZ).
  rewrite Z.div_mul in Hm1, Hm2 by lia.
  destruct (partner_in_block g1) as [_ Hq1]; [lia|done|].
  destruct (partner_in_block g2) as [_ Hq2]; [lia|done|].
  f_equal. destruct Hi1 as [->| ->]; destruct Hi2 as [Hi2|Hi2];
    apply Z2Nat.inj in Hi2; try nia.
  + assert (g1 = g2 + (o2 - o1)) by nia. subst g1. lia.
  + assert (g2 = g1 + (o2 - o1)) by nia. subst g2. lia.
Qed.

Lemma swap_frame_ok :
  frame_ok (swap_step w o1 o2 (2 ^ p)) (swap_fp w o1 o2 (2 ^ p)) (swap_upd w o1 o2 (2 ^ p))
    (Z.to_nat (G * gstride w)) ((fun g => g * gstride w) <$> seqZ 0 G).
Proof.
  pose proof (Z.pow_pos_nonneg 2 (_stride_shift w) ltac:(lia) ltac:(lia)) as HS.
  unfold gstride in *. split; [|split; [|split; [|split; [|split]]]].
  - apply NoDup_fmap_2; [intros x y ?; nia|apply NoDup_seqZ].
  - intros b d Hb Hd. apply list_elem_of_fmap in Hb as (g & -> & Hg%elem_of_seqZ).
    apply swap_step_group; [lia|done].
  - intros b d. unfold swap_upd. destruct (_ =? _); [apply swap_pair_length|done].
  - intros b d i Hn. unfold swap_upd, swap_fp in *.
    destruct (Z.eqb_spec ((b / gstride w) mod 2 ^ p) o1); [|done].
    apply swap_pair_frame; intros ->; apply Hn; auto.
  - intros b d d' i Hag [Hm Hi]. unfold swap_upd. rewrite (proj2 (Z.eqb_eq _ _) Hm).
    apply swap_pair_local; [apply Hag; split; auto..|done].
  - apply swap_fp_disjoint.
Qed.

Lemma for_each_group_fold (step : list weight -> Z -> result (list weight)) d :
  for_each_group w step d = foldM step d ((fun g => g * gstride w) <$> seqZ 0 G).
Proof. unfold for_each_group. rewrite offsets_groups, map_is_fmap. done. Qed.

(** Swapping the same two offsets twice restores the buffer exactly. *)
Lemma swap_loop_involutive (d : list weight) :
  length d = Z.to_nat (G * gstride w) ->
  (for_each_group w (swap_step w o1 o2 (2 ^ p)) d
     ≫= for_each_group w (swap_step w o1 o2 (2 ^ p))) = Ok d.
Proof.
  intros Hd. rewrite for_each_group_fold.
  erewrite bind_ext; [|intros; apply for_each_group_fold].
  apply (foldM_frame_involutive _ _ _ _ _ _ swap_frame_ok Hd).
  intros b d' i Hb _ [Hm _]. unfold swap_upd. rewrite (proj2 (Z.eqb_eq _ _) Hm).
  rewrite swap_pair_involutive; [done|].
  apply list_elem_of_fmap in Hb as (g & -> & Hg%elem_of_seqZ).
  pose proof (Z.pow_pos_nonneg 2 (_stride_shift w) ltac:(lia) ltac:(lia)).
  unfold gstride. intros Heq%Z2Nat.inj; nia.
Qed.
(** C4: on a store whose buffer holds a whole number of problem blocks of
    [2^p] groups, [swap_offsets(offset_1, offset_2, 2^p)] with
    [offset_1 < offset_2 < 2^p] exchanges slot 0 of the group at position
    [offset_1] of every block with slot 0 of its partner at position
    [offset_2] (the skipped swap of two zeros included), leaves every other
    slot of the buffer as it was, and applied twice restores the
    allocation store exactly. *)
Theorem swap_offsets_spec (m : mem) (l : loc) (blk : block) :
  _begin w = Some l -> heap m !! l = Some blk ->
  length (blk_data blk) = Z.to_nat (G * gstride w) ->
  (exists d', swap_offsets w o1 o2 (2 ^ p) m =
      Ok (mk_mem (<[l := mk_block (blk_kind blk) d']> (heap m)) (next_loc m) (alloc_limit m)) /\
    length d' = length (blk_data blk) /\
    (forall g, 0 <= g < G -> g mod 2 ^ p = o1 ->
       exists a b x y : weight,
         d' !! Z.to_nat (g * gstride w) = Some a /\ d' !! Z.to_nat ((g + (o2 - o1)) * gstride w) = Some b /\
         blk_data blk !! Z.to_nat ((g + (o2 - o1)) * gstride w) = Some x /\
         blk_data blk !! Z.to_nat (g * gstride w) = Some y /\ (a == x)%Q /\ (b == y)%Q) /\
    (forall i, (forall g, 0 <= g < G -> g mod 2 ^ p = o1 ->
                 i <> Z.to_nat (g * gstride w) /\ i <> Z.to_nat ((g + (o2 - o1)) * gstride w)) ->
       d' !! i = blk_data blk !! i)) /\
  (swap_offsets w o1 o2 (2 ^ p) m ≫= swap_offsets w o1 o2 (2 ^ p)) = Ok m.
Proof.
  intros Hb Hl Hlen. pose proof gstride_pos as HS. split.
  - destruct (foldM_frame _ _ _ _ _ _ swap_frame_ok Hlen) as (d' & Hrun & Hl' & Hin & Hout).
    exists d'. unfold swap_offsets. rewrite Hb, (modify_buffer_Some _ _ _ _ Hl), for_each_group_fold, Hrun.
    split; [done|]. split; [lia|]. split.
    + intros g Hg Hm. set (s0 := Z.to_nat (g * gstride w)). set (t := Z.to_nat ((g + (o2 - o1)) * gstride w)).
      assert (Hfs : swap_fp w o1 o2 (2 ^ p) (g * gstride w) s0)
        by (split; [rewrite Z.div_mul by lia; done|left; done]).
      assert (Hft : swap_fp w o1 o2 (2 ^ p) (g * gstride w) t)
        by (split; [rewrite Z.div_mul by lia; done|right; unfold t; f_equal; lia]).
      destruct (partner_offset g Hg Hm) as [_ Hlt].
      destruct (buf_load_in (blk_data blk) ((g + (o2 - o1)) * gstride w)) as (x & Hx & _); [nia|].
      destruct (buf_load_in (blk_data blk) (g * gstride w)) as (y & Hy & _); [nia|].
      rewrite (Hin _ _ (group_in g Hg) Hfs), (Hin _ _ (group_in g Hg) Hft).
      unfold swap_upd. rewrite Z.div_mul, (proj2 (Z.eqb_eq _ _) Hm) by lia.
      replace (Z.to_nat (g * gstride w + (o2 - o1) * gstride w)) with t by (unfold t; f_equal; lia).
      destruct (swap_pair_targets s0 t (blk_data blk) x y) as (a & b & Ha & Hb' & Hax & Hby);
        [unfold s0, t; intros Heq%Z2Nat.inj; nia|done|done|].
      exists a, b, x, y. done.
    + intros i Hi. apply Hout. intros b Hb' [Hm Hfp].
      apply list_elem_of_fmap in Hb' as (g & -> & Hg%elem_of_seqZ).
      rewrite Z.div_mul in Hm by lia. destruct (Hi g ltac:(lia) Hm) as [Hs Ht].
      destruct Hfp as [->| ->]; [done|]. apply Ht. f_equal. lia.
  - unfold swap_offsets. rewrite Hb, (modify_buffer_Some _ _ _ _ Hl).
    pose proof (swap_loop_involutive _ Hlen) as Hinv.
    apply bind_Ok in Hinv as (d1 & Hd1 & Hd2). rewrite Hd1, !Ok_bind. cbv beta.
    rewrite (modify_buffer_Some _ _ _ _ (lookup_insert_eq _ _ _)). simpl.
    rewrite Hd2, Ok_bind. rewrite insert_insert_eq, insert_id by (destruct blk; done).
    by destruct m.
Qed.

Lemma copy_step_group (d : list weight) (g : Z) :
  0 <= g < G -> length d = Z.to_nat (G * gstride w) ->
  copy_step w o1 o2 (2 ^ p) d (g * gstride w)
  = Ok (copy_upd w o1 o2 (2 ^ p) (g * gstride w) d).
Proof.
  intros Hg Hd. pose proof gstride_pos as HS.
  unfold copy_step, copy_upd. cbv zeta. rewrite actual_type_group, Z.div_mul by lia.
  destruct (Z.eqb_spec (g mod 2 ^ p) o1) as [Hm|Hm]; [|done].
  destruct (partner_offset g Hg Hm) as [-> Hlt].
  replace (g * gstride w + (o2 - o1) * gstride w) with ((g + (o2 - o1)) * gstride w) by lia.
  destruct (buf_load_in d ((g + (o2 - o1)) * gstride w)) as (x & Hx & ->); [nia|].
  destruct (buf_load_in d (g * gstride w)) as (y & Hy & ->); [nia|]. simpl.
  unfold copy_pair. rewrite Hx, Hy. destruct (_ || _); [|done]. apply buf_store_in. nia.
Qed.

Lemma copy_frame_ok :
  frame_ok (copy_step w o1 o2 (2 ^ p)) (swap_fp w o1 o2 (2 ^ p)) (copy_upd w o1 o2 (2 ^ p))
    (Z.to_nat (G * gstride w)) ((fun g => g * gstride w) <$> seqZ 0 G).
Proof.
  pose proof gstride_pos as HS. split; [|split; [|split; [|split; [|split]]]].
  - apply NoDup_fmap_2; [intros x y ?; nia|apply NoDup_seqZ].
  - intros b d Hb Hd. apply list_elem_of_fmap in Hb as (g & -> & Hg%elem_of_seqZ).
    apply copy_step_group; [lia|done].
  - intros b d. unfold copy_upd. destruct (_ =? _); [apply copy_pair_length|done].
  - intros b d i Hn. unfold copy_upd, swap_fp in *.
    destruct (Z.eqb_spec ((b / gstride w) mod 2 ^ p) o1); [|done].
    apply copy_pair_frame. intros ->. apply Hn. auto.
  - intros b d d' i Hag [Hm Hi]. unfold copy_upd. rewrite (proj2 (Z.eqb_eq _ _) Hm).
    apply copy_pair_local; [apply Hag; split; auto..|done].
  - apply swap_fp_disjoint.
Qed.


(** C28:  On a store whose buffer holds a whole number of problem blocks of
    [2^p] groups, [copy_offsets(from, to, 2^p)] with [from < to < 2^p]
    gives slot 0 of the group at position [to] of every block the value of
    slot 0 of the group at position [from] (the skipped copy between two
    zeros included), and leaves every other slot of the buffer as it was. *)
Theorem copy_offsets_spec (m : mem) (l : loc) (blk : block) :
  _begin w = Some l -> heap m !! l = Some blk ->
  length (blk_data blk) = Z.to_nat (G * gstride w) ->
  exists d', copy_offsets w o1 o2 (2 ^ p) m =
      Ok (mk_mem (<[l := mk_block (blk_kind blk) d']> (heap m)) (next_loc m) (alloc_limit m)) /\
    length d' = length (blk_data blk) /\
    (forall g, 0 <= g < G -> g mod 2 ^ p = o1 ->
       exists x y : weight, d' !! Z.to_nat ((g + (o2 - o1)) * gstride w) = Some x /\
         blk_data blk !! Z.to_nat (g * gstride w) = Some y /\ (x == y)%Q) /\
    (forall i, (forall g, 0 <= g < G -> g mod 2 ^ p = o1 -> i <> Z.to_nat ((g + (o2 - o1)) * gstride w)) ->
       d' !! i = blk_data blk !! i).
Proof.
  intros Hb Hl Hlen. pose proof gstride_pos as HS.
  destruct (foldM_frame _ _ _ _ _ _ copy_frame_ok Hlen) as (d' & Hrun & Hl' & Hin & Hout).
  exists d'. unfold copy_offsets. rewrite Hb, (modify_buffer_Some _ _ _ _ Hl), for_each_group_fold, Hrun.
  split; [done|]. split; [lia|]. split.
  - intros g Hg Hm. set (t := Z.to_nat ((g + (o2 - o1)) * gstride w)).
    assert (Hfp : swap_fp w o1 o2 (2 ^ p) (g * gstride w) t).
    { split; [rewrite Z.div_mul by lia; done|right; unfold t; f_equal; lia]. }
    destruct (partner_offset g Hg Hm) as [_ Hlt].
    destruct (buf_load_in (blk_data blk) ((g + (o2 - o1)) * gstride w)) as (x & Hx & _); [nia|].
    destruct (buf_load_in (blk_data blk) (g * gstride w)) as (y & Hy & _); [nia|].
    rewrite (Hin _ _ (group_in g Hg) Hfp). unfold copy_upd. rewrite Z.div_mul, (proj2 (Z.eqb_eq _ _) Hm) by lia.
    replace (Z.to_nat (g * gstride w + (o2 - o1) * gstride w)) with t by (unfold t; f_equal; lia).
    destruct (copy_pair_target _ _ _ x y Hx Hy) as (z & Hz & Hzy). exists z, y. done.
  - intros i Hi. destruct (decide (Exists (fun b => swap_fp w o1 o2 (2 ^ p) b i)
                                      ((fun g => g * gstride w) <$> seqZ 0 G))) as [Hex|Hnex].
    + apply Exists_exists in Hex as (b & Hb' & Hfp). rewrite (Hin _ _ Hb' Hfp).
      apply list_elem_of_fmap in Hb' as (g & -> & Hg%elem_of_seqZ).
      destruct Hfp as [Hm [Hsrc|Htgt]].
      * unfold copy_upd. rewrite (proj2 (Z.eqb_eq _ _) Hm). apply copy_pair_frame.
        rewrite Hsrc. intros Heq%Z2Nat.inj; nia.
      * rewrite Z.div_mul in Hm by lia. exfalso. apply (Hi g); [lia|done|].
        rewrite Htgt. f_equal. lia.
    + apply Hout. intros b Hb' Hfp. apply Hnex, Exists_exists. eauto.
Qed.
End Pairs.

(** ** [clear_offset] on problem blocks of [2^p] groups *)
Section Clear.
Variable off : Z.

Lemma zero_slot_length i d : length (zero_slot i d) = length d.
Proof. unfold zero_slot. destruct (d !! i); [destruct (negb _); [apply length_insert|]|]; done. Qed.

Lemma zero_slot_frame i d j : j <> i -> zero_slot i d !! j = d !! j.
Proof.
  intros Hj. unfold zero_slot. destruct (d !! i); [destruct (negb _)|]; [|done..].
  apply list_lookup_insert_ne. done.
Qed.

Lemma zero_slot_local i d d' : d !! i = d' !! i -> zero_slot i d !! i = zero_slot i d' !! i.
Proof.
  intros Hi. assert (Hl : is_Some (d !! i) -> (i < length d /\ i < length d')%nat).
  { intros Hs. split; apply lookup_lt_is_Some; [exact Hs|rewrite <- Hi; exact Hs]. }
  unfold zero_slot. rewrite <- Hi. destruct (d !! i) as [y|] eqn:Ey; [|congruence].
  destruct Hl as [H1 H2]; [eauto|]. destruct (negb _); [|congruence].
  rewrite !list_lookup_insert_eq by done. done.
Qed.

Lemma zero_slot_zero i d x : d !! i = Some x -> exists z : weight, zero_slot i d !! i = Some z /\ (z == 0)%Q.
Proof.
  intros Hx. unfold zero_slot. rewrite Hx. destruct (is_zero x) eqn:Hz; simpl.
  - exists x. split; [done|]. apply Qeq_bool_iff. done.
  - exists 0%Q. split; [|reflexivity]. apply list_lookup_insert_eq. apply lookup_lt_is_Some. eauto.
Qed.

Lemma clear_step_group (d : list weight) (g : Z) :
  0 <= g < G -> length d = Z.to_nat (G * gstride w) ->
  clear_step w off (2 ^ p) d (g * gstride w) = Ok (clear_upd w off (2 ^ p) (g * gstride w) d).
Proof.
  intros Hg Hd. pose proof (Z.pow_pos_nonneg 2 (_stride_shift w) ltac:(lia) ltac:(lia)) as HS.
  unfold clear_step, clear_upd. rewrite actual_type_group by lia.
  unfold gstride in *. rewrite Z.div_mul by lia.
  destruct (Z.eqb_spec (g mod 2 ^ p) off); [|done].
  destruct (buf_load_in d (g * 2 ^ _stride_shift w)) as (y & Hy & ->); [nia|]. simpl.
  unfold zero_slot. rewrite Hy. destruct (negb _); [|done]. apply buf_store_in. nia.
Qed.

Lemma clear_frame_ok :
  frame_ok (clear_step w off (2 ^ p)) (clear_fp w off (2 ^ p)) (clear_upd w off (2 ^ p))
    (Z.to_nat (G * gstride w)) ((fun g => g * gstride w) <$> seqZ 0 G).
Proof.
  pose proof (Z.pow_pos_nonneg 2 (_stride_shift w) ltac:(lia) ltac:(lia)) as HS.
  unfold gstride in *. split; [|split; [|split; [|split; [|split]]]].
  - apply NoDup_fmap_2; [intros x y ?; nia|apply NoDup_seqZ].
  - intros b d Hb Hd. apply list_elem_of_fmap in Hb as (g & -> & Hg%elem_of_seqZ).
    apply clear_step_group; [lia|done].
  - intros b d. unfold clear_upd. destruct (_ =? _); [apply zero_slot_length|done].
  - intros b d i Hn. unfold clear_upd, clear_fp in *.
    destruct (Z.eqb_spec ((b / gstride w) mod 2 ^ p) off); [|done].
    apply zero_slot_frame. intros ->. apply Hn. done.
  - intros b d d' i Hag [Hm ->]. unfold clear_upd. rewrite (proj2 (Z.eqb_eq _ _) Hm).
    apply zero_slot_local, Hag. done.
  - intros b1 b2 i Hb1 Hb2 [_ ->] [_ Hi].
    apply list_elem_of_fmap in Hb1 as (g1 & -> & Hg1%elem_of_seqZ).
    apply list_elem_of_fmap in Hb2 as (g2 & -> & Hg2%elem_of_seqZ).
    apply Z2Nat.inj in Hi; nia.
Qed.

(** C27:  On a store whose buffer holds whole stride groups,
    [clear_offset(offset, 2^p)] leaves slot 0 of every group at position
    [offset] of its problem block equal to zero, and every other slot of
    the buffer as it was; nothing but the buffer changes. *)
Theorem clear_offset_spec (m : mem) (l : loc) (blk : block) :
  _begin w = Some l -> heap m !! l = Some blk ->
  length (blk_data blk) = Z.to_nat (G * gstride w) ->
  exists d', clear_offset w off (2 ^ p) m =
      Ok (mk_mem (<[l := mk_block (blk_kind blk) d']> (heap m)) (next_loc m) (alloc_limit m)) /\
    length d' = length (blk_data blk) /\
    (forall g, 0 <= g < G -> g mod 2 ^ p = off ->
       exists z : weight, d' !! Z.to_nat (g * gstride w) = Some z /\ (z == 0)%Q) /\
    (forall i, (forall g, 0 <= g < G -> g mod 2 ^ p = off -> i <> Z.to_nat (g * gstride w)) ->
       d' !! i = blk_data blk !! i).
Proof.
  intros Hb Hl Hlen. pose proof (Z.pow_pos_nonneg 2 (_stride_shift w) ltac:(lia) ltac:(lia)) as HS.
  destruct (foldM_frame _ _ _ _ _ _ clear_frame_ok Hlen) as (d' & Hrun & Hl' & Hin & Hout).
  exists d'. unfold clear_offset. rewrite Hb, (modify_buffer_Some _ _ _ _ Hl), for_each_group_fold, Hrun.
  split; [done|]. split; [lia|]. split.
  - intros g Hg Hm. assert (Hfp : clear_fp w off (2 ^ p) (g * gstride w) (Z.to_nat (g * gstride w))).
    { unfold clear_fp, gstride in *. rewrite Z.div_mul by lia. done. }
    rewrite (Hin (g * gstride w) (Z.to_nat (g * gstride w)) (group_in g Hg) Hfp).
    unfold clear_upd. rewrite (proj2 (Z.eqb_eq _ _) (proj1 Hfp)).
    destruct (buf_load_in (blk_data blk) (g * gstride w)) as (x & Hx & _); [unfold gstride in *; nia|].
    apply (zero_slot_zero _ _ x Hx).
  - intros i Hi. apply Hout. intros b Hb' [Hm ->].
    apply list_elem_of_fmap in Hb' as (g & -> & Hg%elem_of_seqZ).
    unfold gstride in Hm. rewrite Z.div_mul in Hm by lia. apply (Hi g); [lia|done|done].
Qed.
End Clear.
End Blocks.

(** ** [set_zero(offset)] *)
Section SetZero.
Variable offset : Z.

Lemma insert_local (i : nat) (v : weight) (d d' : list weight) :
  d !! i = d' !! i -> <[i := v]> d !! i = <[i := v]> d' !! i.
Proof.
  intros Hi. destruct (d !! i) eqn:E.
  - rewrite !list_lookup_insert_eq; [done| |]; apply lookup_lt_is_Some; [rewrite <- Hi|rewrite E]; eauto.
  - rewrite !list_insert_ge; [congruence|apply lookup_ge_None; congruence..].
Qed.

Lemma zero_frame_ok :
  0 <= offset < gstride w ->
  frame_ok (fun d o => buf_store d (wrap64 (o + offset)) 0%Q) (zero_fp offset) (zero_upd offset)
    (Z.to_nat (G * gstride w)) ((fun g => g * gstride w) <$> seqZ 0 G).
Proof.
  intros Ho. pose proof gstride_pos as HS. split; [|split; [|split; [|split; [|split]]]].
  - apply NoDup_fmap_2; [intros x y ?; nia|apply NoDup_seqZ].
  - intros b d Hb Hd. apply list_elem_of_fmap in Hb as (g & -> & Hg%elem_of_seqZ).
    unfold gstride in *. rewrite wrap64_id by (unfold is_u64; nia). apply buf_store_in. nia.
  - intros b d. apply length_insert.
  - intros b d i Hn. unfold zero_upd. rewrite list_lookup_insert_ne; [done|]. intros Heq. apply Hn. symmetry. exact Heq.
  - intros b d d' i Hag ->. apply insert_local, Hag. done.
  - intros b1 b2 i Hb1 Hb2 -> Hi.
    apply list_elem_of_fmap in Hb1 as (g1 & -> & Hg1%elem_of_seqZ).
    apply list_elem_of_fmap in Hb2 as (g2 & -> & Hg2%elem_of_seqZ).
    apply Z2Nat.inj in Hi; nia.
Qed.

Lemma buf_store_err d off v e : buf_store d off v = Err e -> e = OutOfBounds.
Proof.
  unfold buf_store, buf_load. destruct (0 <=? off); [|intros [= <-]; done].
  destruct (d !! Z.to_nat off); [discriminate|]. intros [= <-]. done.
Qed.

(** C35:  On a store whose buffer holds whole stride groups,
    [set_zero(offset)] with [offset < stride()] zeroes the slot [offset]
    of every group and leaves every other slot as it was.  With
    [offset >= stride()] the write of the last group lands past the end of
    the buffer: undefined behaviour, which the spec's description
    ("the scalar at offset within every stride-group") leaves out. *)
Theorem set_zero_spec (m : mem) (l : loc) (blk : block) :
  _begin w = Some l -> heap m !! l = Some blk ->
  length (blk_data blk) = Z.to_nat (G * gstride w) ->
  (0 <= offset < gstride w ->
   exists d', set_zero w offset m =
       Ok (mk_mem (<[l := mk_block (blk_kind blk) d']> (heap m)) (next_loc m) (alloc_limit m)) /\
     length d' = length (blk_data blk) /\
     (forall g, 0 <= g < G -> d' !! Z.to_nat (g * gstride w + offset) = Some (0%Q : weight)) /\
     (forall i, (forall g, 0 <= g < G -> i <> Z.to_nat (g * gstride w + offset)) ->
        d' !! i = blk_data blk !! i)) /\
  (gstride w <= offset -> (G - 1) * gstride w + offset < 2 ^ 64 -> set_zero w offset m = Err OutOfBounds).
Proof.
  intros Hb Hl Hlen. pose proof gstride_pos as HS.
  unfold set_zero. rewrite Hb, (modify_buffer_Some _ _ _ _ Hl), for_each_group_fold. split.
  - intros Ho. destruct (foldM_frame _ _ _ _ _ _ (zero_frame_ok Ho) Hlen) as (d' & Hrun & Hl' & Hin & Hout).
    exists d'. rewrite Hrun. split; [done|]. split; [lia|]. split.
    + intros g Hg. rewrite (Hin _ _ (group_in g Hg) eq_refl). unfold zero_upd.
      apply list_lookup_insert_eq. rewrite Hlen. unfold gstride in *. nia.
    + intros i Hi. apply Hout. intros b Hb' Hfp.
      apply list_elem_of_fmap in Hb' as (g & -> & Hg%elem_of_seqZ). apply (Hi g); [lia|done].
  - intros Ho Hfit. set (L := (fun g => g * gstride w) <$> seqZ 0 G).
    assert (Hstep : forall a b a', b ∈ L -> length a = length (blk_data blk) ->
              buf_store a (wrap64 (b + offset)) 0%Q = Ok a' -> length a' = length (blk_data blk)).
    { intros a b a' _ Ha Hs. unfold buf_store in Hs. apply bind_Ok in Hs as (_ & _ & [= <-]).
      rewrite length_insert. done. }
    destruct (foldM _ (blk_data blk) L) as [dF|e] eqn:E.
    + exfalso. revert E. apply (foldM_stuck (fun a => length a = length (blk_data blk)) _ L ((G - 1) * gstride w));
        [exact Hstep|apply group_in; lia| |done].
      intros a Ha. exists OutOfBounds. rewrite wrap64_id by (unfold is_u64; nia).
      unfold buf_store, buf_load. rewrite (proj2 (Z.leb_le _ _)) by nia.
      rewrite (proj2 (lookup_ge_None _ _)); [done|]. rewrite Ha, Hlen. unfold gstride in *. nia.
    + rewrite (foldM_err (fun a => length a = length (blk_data blk)) (fun e => e = OutOfBounds) _ L
                 Hstep (fun a b e _ _ He => buf_store_err _ _ _ _ He) _ _ eq_refl E).
      done.
Qed.
End SetZero.
(** ** [set_default] *)
Section Default.
Variable default_func : Z -> list weight -> list weight.
(** The lambda writes within the group it is given. *)
Hypothesis Hf : forall o g, (length (default_func o g) <= Z.to_nat (gstride w))%nat.

Lemma default_step_group (d : list weight) (g : Z) :
  0 <= g < G -> length d = Z.to_nat (G * gstride w) ->
  write_slots d (g * gstride w)
    (default_func (g * gstride w) (take (Z.to_nat (stride w)) (drop (Z.to_nat (g * gstride w)) d)))
  = Ok (default_upd default_func w (g * gstride w) d).
Proof.
  intros Hg Hd. pose proof gstride_pos as HS. rewrite stride_pow. unfold default_upd, group_slice.
  apply write_slots_ok; [nia|]. specialize (Hf (g * gstride w) (take (Z.to_nat (gstride w))
                                                (drop (Z.to_nat (g * gstride w)) d))).
  unfold gstride in *. nia.
Qed.

Lemma group_slice_local b (d d' : list weight) :
  (forall j, default_fp w b j -> d !! j = d' !! j) -> group_slice w b d = group_slice w b d'.
Proof.
  intros Hag. unfold group_slice. apply list_eq. intros k.
  destruct (decide (k < Z.to_nat (gstride w))%nat) as [Hk|Hk].
  - rewrite !lookup_take_lt, !lookup_drop by done. apply Hag. unfold default_fp. lia.
  - rewrite !lookup_take_ge by lia. done.
Qed.

Lemma default_frame_ok :
  frame_ok (fun d o => write_slots d o (default_func o (take (Z.to_nat (stride w)) (drop (Z.to_nat o) d))))
    (default_fp w) (default_upd default_func w) (Z.to_nat (G * gstride w)) ((fun g => g * gstride w) <$> seqZ 0 G).
Proof.
  pose proof gstride_pos as HS. split; [|split; [|split; [|split; [|split]]]].
  - apply NoDup_fmap_2; [intros x y ?; nia|apply NoDup_seqZ].
  - intros b d Hb Hd. apply list_elem_of_fmap in Hb as (g & -> & Hg%elem_of_seqZ).
    apply default_step_group; [lia|done].
  - intros b d. apply length_inserts.
  - intros b d i Hn. unfold default_upd. rewrite lookup_inserts_cases.
    destruct (decide _) as [Hi|]; [|done]. exfalso. apply Hn. unfold default_fp.
    pose proof (Hf b (group_slice w b d)). lia.
  - intros b d d' i Hag Hi. unfold default_upd. rewrite (group_slice_local b d d' Hag), !lookup_inserts_cases.
    rewrite (Hag i Hi). done.
  - intros b1 b2 i Hb1 Hb2 H1 H2.
    apply list_elem_of_fmap in Hb1 as (g1 & -> & Hg1%elem_of_seqZ).
    apply list_elem_of_fmap in Hb2 as (g2 & -> & Hg2%elem_of_seqZ).
    unfold default_fp in H1, H2. rewrite !Z2Nat.inj_mul in H1, H2 by lia.
    assert (g1 = g2) as -> by nia. done.
Qed.

(** C23:  On a store whose buffer holds whole stride groups,
    [set_default(default_func)] calls the lambda once per group, on the
    group's slots and [iter.index()], and each group ends with the values
    the lambda wrote laid over its own old contents: no group's lambda
    sees or touches another group. *)
Theorem set_default_spec (m : mem) (l : loc) (blk : block) :
  _begin w = Some l -> heap m !! l = Some blk ->
  length (blk_data blk) = Z.to_nat (G * gstride w) ->
  exists d', set_default default_func w m =
      Ok (mk_mem (<[l := mk_block (blk_kind blk) d']> (heap m)) (next_loc m) (alloc_limit m)) /\
    length d' = length (blk_data blk) /\
    forall g k, 0 <= g < G -> (k < Z.to_nat (gstride w))%nat ->
      d' !! (Z.to_nat (g * gstride w) + k)%nat =
        (default_func (g * gstride w) (group_slice w (g * gstride w) (blk_data blk)) ++
         drop (length (default_func (g * gstride w) (group_slice w (g * gstride w) (blk_data blk))))
              (group_slice w (g * gstride w) (blk_data blk))) !! k.
Proof.
  intros Hb Hl Hlen. pose proof gstride_pos as HS.
  destruct (foldM_frame _ _ _ _ _ _ default_frame_ok Hlen) as (d' & Hrun & Hl' & Hin & _).
  exists d'. unfold set_default. rewrite Hb, (modify_buffer_Some _ _ _ _ Hl), for_each_group_fold, Hrun.
  split; [done|]. split; [lia|]. intros g k Hg Hk.
  assert (Hfp : default_fp w (g * gstride w) (Z.to_nat (g * gstride w) + k)) by (unfold default_fp; lia).
  rewrite (Hin _ _ (group_in g Hg) Hfp). unfold default_upd. rewrite lookup_inserts_cases.
  set (sl := group_slice w (g * gstride w) (blk_data blk)).
  assert (Hin_buf : (Z.to_nat (g * gstride w) + k < length (blk_data blk))%nat)
    by (rewrite Hlen; nia).
  destruct (lookup_lt_is_Some_2 _ _ Hin_buf) as [x Hx]. rewrite Hx.
  replace (Z.to_nat (g * gstride w) + k - Z.to_nat (g * gstride w))%nat with k by lia.
  destruct (decide (k < length (default_func (g * gstride w) sl))%nat) as [Hlt|Hge].
  - rewrite decide_True by lia. rewrite lookup_app_l by done. done.
  - rewrite decide_False by lia. rewrite lookup_app_r, lookup_drop by lia.
    replace (length (default_func (g * gstride w) sl) + (k - length (default_func (g * gstride w) sl)))%nat
      with k by lia.
    unfold sl, group_slice. rewrite lookup_take_lt, lookup_drop by done. done.
Qed.
End Default.
End Geometry.


(** ** Every store reachable from construction is well formed *)

Lemma buf_store_keeps off v : keeps_length (fun d => buf_store d off v).
Proof. intros d d'. unfold buf_store. intros (_ & _ & [= <-])%bind_Ok. apply length_insert. Qed.

Lemma foldM_keeps {B} (body : list weight -> B -> result (list weight)) (l : list B) :
  (forall b, keeps_length (fun d => body d b)) -> keeps_length (fun d => foldM body d l).
Proof.
  intros Hb d d' H. refine (foldM_inv (fun a => length a = length d) _ l _ d d' eq_refl H).
  intros a b a' _ Ha Hs. rewrite (Hb b a a' Hs). done.
Qed.

Lemma for_each_group_keeps w body :
  (forall o, keeps_length (fun d => body d o)) -> keeps_length (for_each_group w body).
Proof. intros Hb d d'. unfold for_each_group. intros (offs & _ & H)%bind_Ok. exact (foldM_keeps _ _ Hb d d' H). Qed.

(** The bodies of the per-group loops load and store in place. *)
Lemma swap_step_keeps w o1 o2 ppp o : keeps_length (fun d => swap_step w o1 o2 ppp d o).
Proof.
  intros d d'. unfold swap_step. case_match; [|congruence].
  intros (x & _ & (y & _ & Hs)%bind_Ok)%bind_Ok. case_match; [|congruence].
  apply bind_Ok in Hs as (d1 & H1 & H2).
  rewrite (buf_store_keeps _ _ _ _ H2), (buf_store_keeps _ _ _ _ H1). done.
Qed.

Lemma copy_step_keeps w from to ppp o : keeps_length (fun d => copy_step w from to ppp d o).
Proof.
  intros d d'. unfold copy_step. case_match; [|congruence].
  intros (x & _ & (y & _ & Hs)%bind_Ok)%bind_Ok. case_match; [|congruence].
  exact (buf_store_keeps _ _ _ _ Hs).
Qed.

Lemma clear_step_keeps w off ppp o : keeps_length (fun d => clear_step w off ppp d o).
Proof.
  intros d d'. unfold clear_step. case_match; [|congruence].
  intros (y & _ & Hs)%bind_Ok. case_match; [|congruence]. exact (buf_store_keeps _ _ _ _ Hs).
Qed.

Lemma write_slots_keeps o (g : list weight -> list weight) : keeps_length (fun d => write_slots d o (g d)).
Proof. intros d d' H. refine (foldM_keeps _ _ _ d d' H). intros [k v]. apply buf_store_keeps. Qed.

#[local] Hint Resolve buf_store_keeps for_each_group_keeps swap_step_keeps copy_step_keeps
  clear_step_keeps write_slots_keeps : vw.

(** Rewriting the block [_begin] points to, in place and at its length,
    keeps the store well formed. *)
Lemma modify_buffer_wf w m f m' :
  keeps_length f -> store_wf (w, m) -> modify_buffer m (_begin w) f = Ok m' -> store_wf (w, m').
Proof.
  intros Hf (Hwf & Hm & Hblk). simpl in *. destruct (_begin w) as [l|] eqn:Hb; [|done].
  simpl. destruct (heap m !! l) as [blk|] eqn:Hl; [|intros [=]]. simpl. intros (d' & Hd & [= <-])%bind_Ok.
  split; [|split; [done|]]; simpl.
  - intros l'. destruct (decide (l' = l)) as [->|Hne]; unfold mem_wf in *; simpl.
    + intros _. apply Hwf. eauto.
    + intros Hs. rewrite lookup_insert_ne in Hs by done. apply Hwf. done.
  - intros l' Hl'. rewrite Hb in Hl'. injection Hl' as <-. eexists. rewrite lookup_insert_eq. split; [done|]. simpl.
    rewrite (Hf _ _ Hd). destruct (Hblk l eq_refl) as (blk' & Hl' & Hlen). congruence.
Qed.

Lemma alloc_block_wf k n m l m' :
  mem_wf m -> alloc_block k n m = Ok (l, m') ->
  mem_wf m' /\ l = next_loc m /\ heap m' = <[l := mk_block k (replicate (Z.to_nat n) 0%Q)]> (heap m) /\
  (forall l', is_Some (heap m !! l') -> l' <> l).
Proof.
  intros Hwf. unfold alloc_block. case_match; [done|]. intros [= <- <-]. simpl.
  split; [|split; [done|split; [done|]]].
  - intros l'. destruct (decide (l' = next_loc m)) as [->|Hne]; [intros _; simpl; lia|].
    intros Hs. simpl in Hs. rewrite lookup_insert_ne in Hs by done. apply Hwf in Hs. simpl. lia.
  - intros l' ?%Hwf. lia.
Qed.

Lemma construct_wf len s m w m' :
  mem_wf m -> dense_construct len s m = Ok (w, m') -> store_wf (w, m').
Proof.
  intros Hwf. unfold dense_construct, calloc_mergable_or_throw.
  pose proof (wrap64_range (len ≪ s)) as Hn. unfold is_u64 in Hn.
  destruct (Z.eqb_spec (wrap64 (len ≪ s)) 0) as [E|E].
  - intros [= <- <-]. split; [done|split; [apply wrap64_range|done]].
  - destruct (alloc_block Malloced _ m) as [[l m1]|] eqn:Ha; [|done]. simpl. intros [= <- <-].
    destruct (alloc_block_wf _ _ _ _ _ Hwf Ha) as (Hwf' & _ & Hh & _).
    split; [done|]. unfold mask. simpl. rewrite wrap64_id by (unfold is_u64; lia).
    split; [unfold is_u64; lia|]. intros l' [= <-]. rewrite Hh, lookup_insert_eq.
    eexists; split; [done|]. simpl. rewrite length_replicate. lia.
Qed.

(** [share] of the table's own length: the mapped copy has [mask + 1]
    scalars and the old buffer is released. *)
Lemma share_wf w len m w' m' :
  store_wf (w, m) -> wrap64 (len ≪ _stride_shift w) = mask w + 1 ->
  share w len m = Ok (w', m') -> store_wf (w', m').
Proof.
  intros (Hwf & Hm & Hblk) Hfc. simpl in *. unfold share. rewrite Hfc.
  destruct (Z.eqb_spec (mask w + 1) 0); [done|].
  destruct (alloc_block Mapped _ m) as [[dest m1]|] eqn:Ha; [|done]. simpl.
  destruct (alloc_block_wf _ _ _ _ _ Hwf Ha) as (Hwf1 & Hdest & Hh1 & Hfresh).
  unfold block_data. destruct (_begin w) as [l|] eqn:Hb; [|done].
  destruct (Hblk l eq_refl) as (blk & Hl & Hlen).
  assert (Hne : l <> dest) by (apply Hfresh; eauto).
  rewrite Hh1, lookup_insert_ne, Hl by done. simpl.
  destruct (Z.ltb_spec (Z.of_nat (length (blk_data blk))) (mask w + 1)); [lia|]. simpl.
  unfold c_free. simpl. rewrite !lookup_insert_ne, Hl by done.
  destruct blk as [[] d]; simpl; [|done]. intros [= <- <-].
  split; [|split; [done|]]; simpl.
  - intros l'. simpl. destruct (decide (l' = l)) as [->|Hl']; [rewrite lookup_delete_eq; intros []; done|].
    rewrite lookup_delete_ne by done. intros Hs. apply Hwf1. rewrite Hh1.
    destruct (decide (l' = dest)) as [->|Hd]; [rewrite lookup_insert_eq; eauto|].
    rewrite lookup_insert_ne by done. destruct Hs as [x Hx]. rewrite !lookup_insert_ne in Hx by done. eauto.
  - intros l' [= <-]. simpl. rewrite lookup_delete_ne, lookup_insert_eq by done.
    eexists; split; [done|]. simpl in *. rewrite length_take. unfold mask in *. lia.
Qed.

(** Each step keeps a store well formed. *)
Lemma store_step_wf s s' : store_step s s' -> store_wf s -> store_wf s'.
Proof.
  destruct 1 as [w m i v m' H|w m i v m' H|f w m m' H|w m off m' H|w m o1 o2 ppp m' H
                |w m from to ppp m' H|w m off ppp m' H|w m s|w m len w' m' Hfc H]; intros Hs;
    try (eapply modify_buffer_wf; [|exact Hs|exact H]; eauto with vw).
  - destruct Hs as (? & ? & ?). split; [done|split; done].
  - exact (share_wf _ _ _ _ _ Hs Hfc H).
Qed.

Lemma rtc_store_wf s s' : rtc store_step s s' -> store_wf s -> store_wf s'.
Proof. induction 1 as [|x y z Hxy _ IH]; [done|]. intros Hx. apply IH. exact (store_step_wf _ _ Hxy Hx). Qed.

(** A read through a well-formed store succeeds at every 64-bit index. *)
Lemma wf_read w m i : store_wf (w, m) -> is_Some (_begin w) -> is_u64 i -> exists x, read w i m = Ok x.
Proof.
  intros (_ & Hm & Hblk) [l Hb] Hi. simpl in *. destruct (Hblk l Hb) as (blk & Hl & Hlen).
  rewrite (read_block _ _ _ _ _ Hb Hl). unfold is_u64 in *.
  pose proof (land_range i (mask w) ltac:(lia) ltac:(lia)).
  unfold buf_load. rewrite (proj2 (Z.leb_le _ _)) by lia.
  destruct (lookup_lt_is_Some_2 (blk_data blk) (Z.to_nat (i &&& mask w))) as [x Hx]; [lia|].
  rewrite Hx. eauto.
Qed.

(** C38: every store reachable from construction by the operations of
    [dense_parameters] is well typed in the sense of the class: the
    allocator state stays well formed, and while [_begin] is not null
    every 64-bit index reads a live scalar of the buffer, since the buffer
    keeps exactly [mask() + 1] slots. *)
Theorem reachable_store_wf len s m w0 m0 w m' :
  mem_wf m -> dense_construct len s m = Ok (w0, m0) -> rtc store_step (w0, m0) (w, m') ->
  mem_wf m' /\ (is_Some (_begin w) -> forall i, is_u64 i -> exists x, read w i m' = Ok x).
Proof.
  intros Hwf Hc Hr.
  assert (Hs : store_wf (w, m')) by exact (rtc_store_wf _ _ Hr (construct_wf _ _ _ _ _ Hwf Hc)).
  split; [apply Hs|]. intros Hb i Hi. exact (wf_read w m' i Hs Hb Hi).
Qed.

(** The constructor does not check that [length << stride_shift] fits in a
    [size_t]: [dense_parameters(2^63 + 1, 1)] silently builds a table of 2
    scalars, and [dense_parameters(2^63, 1)] a null one whose mask is
    [2^64 - 1]. *)
Lemma construct_size_wraps :
  dense_construct (2 ^ 63 + 1) 1 mem0 =
    Ok (mk_dense (Some 1%positive) 1 1 false, mk_mem {[1%positive := mk_block Malloced [0; 0]%Q]} 2%positive 64) /\
  dense_construct (2 ^ 63) 1 mem0 = Ok (mk_dense None (2 ^ 64 - 1) 1 false, mem0) /\
  not_null (mk_dense None (2 ^ 64 - 1) 1 false) = false.
Proof. split; [|split]; vm_compute; reflexivity. Qed.

(** ** Witnesses *)

Lemma construct_read_any_witness :
  dense_construct 4 1 mem0 = Ok (w41, mem41 (replicate 8 0%Q)) /\
  read w41 123456789 (mem41 (replicate 8 0%Q)) = Ok 0%Q.
Proof.
  split; [reflexivity|].
  apply (construct_read_any 4 1 mem0); [reflexivity|vm_compute; reflexivity|unfold is_u64; lia].
Defined.

Lemma swap_offsets_spec_witness :
  swap_offsets w41 0 1 (2 ^ 1) (mem41 data41) = Ok (mem41 [0; 2; 1; 0; 0; 5; 0; 7]%Q) /\
  (exists d', swap_offsets w41 0 1 (2 ^ 1) (mem41 data41) =
      Ok (mk_mem (<[1%positive := mk_block Malloced d']> (heap (mem41 data41))) 2%positive 64) /\
    length d' = length data41 /\
    (forall g, 0 <= g < 4 -> g mod 2 ^ 1 = 0 ->
       exists a b x y : weight,
         d' !! Z.to_nat (g * gstride w41) = Some a /\ d' !! Z.to_nat ((g + (1 - 0)) * gstride w41) = Some b /\
         data41 !! Z.to_nat ((g + (1 - 0)) * gstride w41) = Some x /\
         data41 !! Z.to_nat (g * gstride w41) = Some y /\ (a == x)%Q /\ (b == y)%Q) /\
    (forall i, (forall g, 0 <= g < 4 -> g mod 2 ^ 1 = 0 ->
                 i <> Z.to_nat (g * gstride w41) /\ i <> Z.to_nat ((g + (1 - 0)) * gstride w41)) ->
       d' !! i = data41 !! i)) /\
  (swap_offsets w41 0 1 (2 ^ 1) (mem41 data41) ≫= swap_offsets w41 0 1 (2 ^ 1)) = Ok (mem41 data41).
Proof.
  split; [vm_compute; reflexivity|].
  exact (swap_offsets_spec w41 4 ltac:(simpl; lia) ltac:(lia) ltac:(reflexivity) ltac:(simpl; lia)
           1 ltac:(lia) 0 1 ltac:(simpl; lia) ltac:(reflexivity) (mem41 data41) 1%positive
           (mk_block Malloced data41) eq_refl eq_refl eq_refl).
Defined.

Lemma set_default_spec_witness :
  set_default index_default w41 (mem41 data41) = Ok (mem41 [0; 2; 2; 0; 4; 5; 6; 7]%Q) /\
  exists d', set_default index_default w41 (mem41 data41) =
      Ok (mk_mem (<[1%positive := mk_block Malloced d']> (heap (mem41 data41))) 2%positive 64) /\
    length d' = length data41 /\
    forall g k, 0 <= g < 4 -> (k < Z.to_nat (gstride w41))%nat ->
      d' !! (Z.to_nat (g * gstride w41) + k)%nat =
        (index_default (g * gstride w41) (group_slice w41 (g * gstride w41) data41) ++
         drop (length (index_default (g * gstride w41) (group_slice w41 (g * gstride w41) data41)))
              (group_slice w41 (g * gstride w41) data41)) !! k.
Proof.
  split; [vm_compute; reflexivity|].
  exact (set_default_spec w41 4 ltac:(simpl; lia) ltac:(lia) ltac:(reflexivity) ltac:(simpl; lia)
           index_default ltac:(intros; vm_compute; lia) (mem41 data41) 1%positive
           (mk_block Malloced data41) eq_refl eq_refl eq_refl).
Defined.

Lemma clear_offset_spec_witness :
  clear_offset w41 0 (2 ^ 1) (mem41 data41) = Ok (mem41 [0; 2; 0; 0; 0; 5; 0; 7]%Q) /\
  exists d', clear_offset w41 0 (2 ^ 1) (mem41 data41) =
      Ok (mk_mem (<[1%positive := mk_block Malloced d']> (heap (mem41 data41))) 2%positive 64) /\
    length d' = length data41 /\
    (forall g, 0 <= g < 4 -> g mod 2 ^ 1 = 0 ->
       exists z : weight, d' !! Z.to_nat (g * gstride w41) = Some z /\ (z == 0)%Q) /\
    (forall i, (forall g, 0 <= g < 4 -> g mod 2 ^ 1 = 0 -> i <> Z.to_nat (g * gstride w41)) ->
       d' !! i = data41 !! i).
Proof.
  split; [vm_compute; reflexivity|].
  exact (clear_offset_spec w41 4 ltac:(simpl; lia) ltac:(lia) ltac:(reflexivity) ltac:(simpl; lia)
           1 ltac:(lia) 0 (mem41 data41) 1%positive (mk_block Malloced data41)
           eq_refl eq_refl eq_refl).
Defined.

Lemma copy_offsets_spec_witness :
  copy_offsets w41 0 1 (2 ^ 1) (mem41 data41) = Ok (mem41 [1; 2; 1; 0; 0; 5; 0; 7]%Q) /\
  exists d', copy_offsets w41 0 1 (2 ^ 1) (mem41 data41) =
      Ok (mk_mem (<[1%positive := mk_block Malloced d']> (heap (mem41 data41))) 2%positive 64) /\
    length d' = length data41 /\
    (forall g, 0 <= g < 4 -> g mod 2 ^ 1 = 0 ->
       exists x y : weight, d' !! Z.to_nat ((g + (1 - 0)) * gstride w41) = Some x /\
         data41 !! Z.to_nat (g * gstride w41) = Some y /\ (x == y)%Q) /\
    (forall i, (forall g, 0 <= g < 4 -> g mod 2 ^ 1 = 0 -> i <> Z.to_nat ((g + (1 - 0)) * gstride w41)) ->
       d' !! i = data41 !! i).
Proof.
  split; [vm_compute; reflexivity|].
  exact (copy_offsets_spec w41 4 ltac:(simpl; lia) ltac:(lia) ltac:(reflexivity) ltac:(simpl; lia)
           1 ltac:(lia) 0 1 ltac:(simpl; lia) ltac:(reflexivity) (mem41 data41) 1%positive
           (mk_block Malloced data41) eq_refl eq_refl eq_refl).
Defined.

Lemma set_zero_spec_witness :
  set_zero w41 1 (mem41 data41) = Ok (mem41 [1; 0; 0; 0; 0; 0; 0; 0]%Q) /\
  set_zero w41 2 (mem41 data41) = Err OutOfBounds /\
  ((0 <= 1 < gstride w41 ->
    exists d', set_zero w41 1 (mem41 data41) =
        Ok (mk_mem (<[1%positive := mk_block Malloced d']> (heap (mem41 data41))) 2%positive 64) /\
      length d' = length data41 /\
      (forall g, 0 <= g < 4 -> d' !! Z.to_nat (g * gstride w41 + 1) = Some (0%Q : weight)) /\
      (forall i, (forall g, 0 <= g < 4 -> i <> Z.to_nat (g * gstride w41 + 1)) -> d' !! i = data41 !! i)) /\
   (gstride w41 <= 1 -> (4 - 1) * gstride w41 + 1 < 2 ^ 64 -> set_zero w41 1 (mem41 data41) = Err OutOfBounds)).
Proof.
  split; [vm_compute; reflexivity|]. split; [vm_compute; reflexivity|].
  exact (set_zero_spec w41 4 ltac:(simpl; lia) ltac:(lia) ltac:(reflexivity) ltac:(simpl; lia)
           1 (mem41 data41) 1%positive (mk_block Malloced data41) eq_refl eq_refl eq_refl).
Defined.

(** A store of 3 groups of 2 slots whose stride is then set to 4: the
    table size 6 is not a multiple of the new stride. *)
Lemma offsets_terminate_witness :
  dense_construct 3 1 mem0 =
    Ok (mk_dense (Some 1%positive) 5 1 false,
        mk_mem {[1%positive := mk_block Malloced (replicate 6 0%Q)]} 2%positive 64) /\
  (mask (set_stride_shift (mk_dense (Some 1%positive) 5 1 false) 2) + 1) mod
    stride (set_stride_shift (mk_dense (Some 1%positive) 5 1 false) 2) <> 0 /\
  let w := set_stride_shift (mk_dense (Some 1%positive) 5 1 false) 2 in
  ((mask w + 1) mod stride w = 0 ->
   offsets w = Ok (map (fun g => g * stride w) (seqZ 0 ((mask w + 1) / stride w)))) /\
  ((mask w + 1) mod stride w <> 0 -> forall fuel, iter_offsets fuel 0 (dense_end w) (stride w) = None).
Proof.
  split; [reflexivity|]. split; [vm_compute; discriminate|].
  apply offsets_terminate; simpl; lia.
Defined.

Lemma shallow_copy_shares_writes_witness :
  shallow_copy dense_default w41 (mem41 data41) = Ok (mk_dense (Some 1%positive) 7 1 true, mem41 data41) /\
  write w41 11 9%Q (mem41 data41) = Ok (mem41 [1; 2; 0; 9; 0; 5; 0; 7]%Q) /\
  read (mk_dense (Some 1%positive) 7 1 true) 11 (mem41 [1; 2; 0; 9; 0; 5; 0; 7]%Q) = Ok 9%Q.
Proof.
  split; [reflexivity|split; [reflexivity|]].
  apply (shallow_copy_shares_writes dense_default w41 _ (mem41 data41) (mem41 data41)); reflexivity.
Defined.

Lemma view_outlived_by_owner_witness :
  destroy w41 (mem41 data41) = Ok (mk_mem ∅ 2%positive 64) /\
  read (mk_dense (Some 1%positive) 7 1 true) 3 (mk_mem ∅ 2%positive 64) = Err UseAfterFree.
Proof.
  split; [reflexivity|].
  apply (view_outlived_by_owner dense_default w41 _ (mem41 data41) (mem41 data41) (mk_mem ∅ 2%positive 64) 3 1%positive);
    reflexivity.
Defined.

Lemma share_then_destroy_invalid_free_witness :
  exists w' m', share w41 4 (mem41 data41) = Ok (w', m') /\ destroy w' m' = Err InvalidFree.
Proof.
  apply (share_then_destroy_invalid_free w41 4 (mem41 data41) 1%positive data41).
  - intros l [b Hb]. unfold mem41 in Hb. simpl in *.
    destruct (decide (l = 1%positive)) as [->|Hne]; [lia|].
    rewrite lookup_singleton_ne in Hb by done. discriminate.
  - reflexivity.
  - reflexivity.
  - reflexivity.
  - vm_compute. split; congruence.
  - vm_compute. congruence.
Defined.

(** [dense_parameters(1, 0)]: one scalar, allocated, reported null. *)
Lemma not_null_construct_witness :
  dense_construct 1 0 mem0 = Ok (mk_dense (Some 1%positive) 0 0 false, mk_mem {[1%positive := mk_block Malloced [0%Q]]} 2%positive 64) /\
  (is_Some (Some 1%positive) <-> wrap64 (1 ≪ 0) <> 0) /\
  (not_null (mk_dense (Some 1%positive) 0 0 false) = true <-> 2 <= wrap64 (1 ≪ 0)).
Proof.
  split; [reflexivity|].
  exact (not_null_construct 1 0 mem0 _ (mk_mem {[1%positive := mk_block Malloced [0%Q]]} 2%positive 64) eq_refl).
Defined.

(** The store [dense_parameters(4, 1)] after one write of [9] at index 3. *)
Lemma reachable_store_wf_witness :
  rtc store_step (w41, mem41 (replicate 8 0%Q)) (w41, mem41 [0; 0; 0; 9; 0; 0; 0; 0]%Q) /\
  mem_wf (mem41 [0; 0; 0; 9; 0; 0; 0; 0]%Q) /\
  (is_Some (_begin w41) -> forall i, is_u64 i -> exists x, read w41 i (mem41 [0; 0; 0; 9; 0; 0; 0; 0]%Q) = Ok x).
Proof.
  assert (Hs : rtc store_step (w41, mem41 (replicate 8 0%Q)) (w41, mem41 [0; 0; 0; 9; 0; 0; 0; 0]%Q))
    by (apply rtc_once; apply (step_write _ _ 3 9%Q); reflexivity).
  split; [exact Hs|].
  apply (reachable_store_wf 4 1 mem0 w41 (mem41 (replicate 8 0%Q)) w41 (mem41 [0; 0; 0; 9; 0; 0; 0; 0]%Q));
    [|reflexivity|exact Hs].
  intros l [x Hx]. simpl in Hx. rewrite lookup_empty in Hx. discriminate.
Defined.

End Dense.
