(* ===== verification/Learner.v ===== *)
(** * The reduction protocol: examples, labels, predictions, base learners

    The data every reduction layer reads and rewrites (spec sections 4.2 and
    6), as the layers of [src/] use it: contextual-bandit labels
    ([CB::cb_class]), action scores ([VW::action_score]), feature groups per
    namespace, and the example record.  A base learner is a [Class]: the
    layers' theorems are proved for every instance, so they hold whatever
    the rest of the reduction stack does.  These types are declared
    outside [src/] ([cb.h], [action_score.h], [example.h], [learner.h]);
    the model keeps the fields the modelled layers read or write. *)

From S2P Require Import Prelude.
Local Open Scope Z_scope.

(** [CB::cb_class]. *)
Record cb_class := mk_cb_class {
  cb_cost : Q;
  cb_action : Z;
  cb_probability : Q;
  cb_partial_prediction : Q }.

(** [FLT_MAX], the cost of an unobserved label entry. *)
Definition FLT_MAX : Q := inject_Z (2 ^ 128 - 2 ^ 104).

(** [cb_class::has_observed_cost]. *)
Definition has_observed_cost (c : cb_class) : bool :=
  negb (Qeq_bool (cb_cost c) FLT_MAX) && Qlt_bool 0 (cb_probability c).

(** [CB::get_observed_cost_cb]: the first entry with an observed cost. *)
Fixpoint get_observed_cost_cb (costs : list cb_class) : bool * cb_class :=
  match costs with
  | [] => (false, mk_cb_class 0 0 0 0)
  | c :: cs => if has_observed_cost c then (true, c) else get_observed_cost_cb cs
  end.

(** [CB_ALGS::get_cost_estimate(observation, action, offset = 0)]: the
    inverse-propensity estimate of the cost of [action]. *)
Definition get_cost_estimate (obs : cb_class) (action : Z) : Q :=
  if action =? cb_action obs then (cb_cost obs - 0) / cb_probability obs else 0.

(** [COST_SENSITIVE::wclass], the fields the header test reads. *)
Record wclass := mk_wclass {
  wc_x : Q;
  wc_class_index : Z }.

(** [VW::action_score] and the order [operator>] used by [std::greater]:
    by score, ties broken by action. *)
Record action_score := mk_as { as_action : Z; as_score : Q }.

Definition as_gtb (a b : action_score) : bool :=
  Qlt_bool (as_score b) (as_score a) ||
  (Qeq_bool (as_score a) (as_score b) && (as_action b <? as_action a)).

(** A [float] output that may be the non-finite result of a division by
    zero ([NaN] or an infinity). *)
Inductive scalar := Finite (q : Q) | NonFinite.

(** IEEE division: [x / 0] is not finite. *)
Definition fdiv (x y : Q) : scalar := if Qeq_bool y 0 then NonFinite else Finite (x / y).

(** A feature group: the [(value, index)] pairs of one namespace. *)
Definition features := list (Q * Z).

(** [VW::example], restricted to the fields the modelled layers touch.  The
    prediction union [polyprediction] is kept as one field per variant. *)
Record example := mk_example {
  indices : list Z;                 (* namespaces present, in order *)
  feature_space : gmap Z features;  (* features of each namespace *)
  l_cb : list cb_class;             (* [l.cb.costs] *)
  pred_a_s : list action_score;     (* [pred.a_s] *)
  pred_scalars : list scalar;       (* [pred.scalars] *)
  pred_multiclass : Z;              (* [pred.multiclass] *)
  tag : list Z;
  l_cs : list wclass;               (* [l.cs.costs] *)
  las_shared_example : option positive }.
    (* [ex_reduction_features.get<las_reduction_features>().shared_example] *)

(** [ec.feature_space[ns]]: every namespace has a (possibly empty) group. *)
Definition fs_get (fs : gmap Z features) (ns : Z) : features := default [] (fs !! ns).

(** A base learner of a layer: [learn] and [predict] on its input, either of
    which may throw. *)
Class BaseLearner (E : Type) := {
  base_learn : E -> result E;
  base_predict : E -> result E }.

Definition learn_or_predict {E} `{BaseLearner E} (is_learn : bool) (e : E) : result E :=
  if is_learn then base_learn e else base_predict e.

Lemma fs_get_insert (fs : gmap Z features) k v ns :
  fs_get (<[k := v]> fs) ns = if decide (ns = k) then v else fs_get fs ns.
Proof.
  unfold fs_get. case_decide; [subst; rewrite lookup_insert_eq; done|].
  rewrite lookup_insert_ne; done.
Qed.

Lemma fs_get_insert_eq (fs : gmap Z features) k v : fs_get (<[k := v]> fs) k = v.
Proof. rewrite fs_get_insert, decide_True; done. Qed.
