(* ===== verification/Synthcover.v ===== *)
(** * Synthetic cover exploration ([cb_explore_adf_synthcover.cc])

    Module [Synthcover] models [class cb_explore_adf_synthcover]: its state
    record, [predict_or_learn_impl<is_learn>] (the call to the base learner,
    the running cost range, the clamping, the vote loop over a min-heap of
    action scores, [enforce_minimum_probability], the descending sort and the
    copy into the prediction) and the configuration checks of
    [cb_explore_adf_synthcover_setup]; [save_load] is in [Persist].
    [Module SynthcoverFacts] proves that the output is a distribution, that
    the vote loops refine the abstract vote process of the spec, the
    invariant of the cost range along any sequence of calls, and the
    divergence of the loops for sizes of [2^32] and more.

    The heap: [std::make_heap]/[pop_heap]/[push_heap] with
    [std::greater<action_score>] are used only through their contract (the
    front is the least element, [pop] removes it, [push] inserts), and the
    vector they permute is overwritten by [_action_probs] at the end, so the
    heap is represented by the list of its elements in ascending order.  Its
    elements have distinct actions, so the least element is unique and every
    implementation of the contract pops the same element. *)

From S2P Require Import Prelude Learner.
Local Open Scope Z_scope.

Module Synthcover.

(** [class cb_explore_adf_synthcover] ([_random_state] is never read). *)
Record synthcover := mk_synthcover {
  _epsilon : Q;
  _psi : Q;
  _synthcoversize : Z;
  _model_file_version : Z;
  _action_probs : list action_score;
  _min_cost : Q;
  _max_cost : Q }.

(** The constructor: costs start at [0.0]. *)
Definition construct (epsilon psi : Q) (synthcoversize version : Z) : synthcover :=
  mk_synthcover epsilon psi synthcoversize version [] 0%Q 0%Q.

(** ** Library functions the handler calls (outside [src/]) *)

(** [std::min(a, b)] is [(b < a) ? b : a]; [std::max(a, b)] is [(a < b) ? b : a]. *)
Definition std_min (a b : Q) : Q := if Qlt_bool b a then b else a.
Definition std_max (a b : Q) : Q := if Qlt_bool a b then b else a.

(** [VW::math::clamp(num, lower, upper)]. *)
Definition clamp (num lower upper : Q) : Q := std_max lower (std_min num upper).

(** The heap contract, on the ascending list of the heap's elements. *)
Fixpoint heap_push (x : action_score) (h : list action_score) : list action_score :=
  match h with
  | [] => [x]
  | y :: h' => if as_gtb x y then y :: heap_push x h' else x :: y :: h'
  end.

Definition make_heap (l : list action_score) : list action_score :=
  fold_right heap_push [] l.

(** [std::sort(..., std::greater<action_score>())]: descending order. *)
Fixpoint sort_insert_desc (x : action_score) (l : list action_score) : list action_score :=
  match l with
  | [] => [x]
  | y :: l' => if as_gtb y x then y :: sort_insert_desc x l' else x :: y :: l'
  end.

Definition sort_desc (l : list action_score) : list action_score :=
  fold_right sort_insert_desc [] l.

(** [exploration::enforce_minimum_probability(minimum_uniform,
    update_zero_elements, first, last)] on the probabilities [pdf]
    (VW [explore.h]; [num_actions_touched] is a [uint16_t]). *)
Definition enforce_minimum_probability (minimum_uniform : Q) (update_zero_elements : bool)
    (pdf : list Q) : list Q :=
  let num_actions := length pdf in
  if Qlt_bool (999 # 1000) minimum_uniform then
    let support_size :=
      if update_zero_elements then num_actions
      else length (filter (fun p => negb (Qeq_bool p 0%Q)) pdf) in
    map (fun p => if update_zero_elements || Qlt_bool 0%Q p
                  then (1 / inject_Z (Z.of_nat support_size))%Q else p) pdf
  else
    let mu := (minimum_uniform / inject_Z (Z.of_nat num_actions))%Q in
    let touched (p : Q) :=
      (Qlt_bool 0%Q p || (Qeq_bool p 0%Q && update_zero_elements)) && Qle_bool p mu in
    let touched_mass := qsum (map (fun p => if touched p then mu else 0%Q) pdf) in
    let untouched_mass := qsum (map (fun p => if touched p then 0%Q else p) pdf) in
    let num_actions_touched := Z.of_nat (length (filter touched pdf)) mod 2 ^ 16 in
    let pdf1 := map (fun p => if touched p then mu else p) pdf in
    if Qlt_bool 0%Q touched_mass then
      if Qlt_bool (999 # 1000) touched_mass then
        let mu' := ((1 - untouched_mass) / inject_Z num_actions_touched)%Q in
        map (fun p => if (Qlt_bool 0%Q p || (Qeq_bool p 0%Q && update_zero_elements)) && Qle_bool p mu'
                      then mu' else p) pdf1
      else
        let ratio := ((1 - touched_mass) / untouched_mass)%Q in
        map (fun p => if Qlt_bool mu p then (p * ratio)%Q else p) pdf1
    else pdf1.

(** ** The handler *)

(** [_action_probs[action].score += delta]; an action past the end of the
    vector is undefined behaviour. *)
Definition add_prob (probs : list action_score) (action : Z) (delta : Q)
    : result (list action_score) :=
  if action <? 0 then Err OutOfBounds else
  a ← of_option OutOfBounds (probs !! Z.to_nat action);
  Ok (<[Z.to_nat action := mk_as (as_action a) (as_score a + delta)%Q]> probs).

(** The inner loop [for (; secondminpred.score >= minpred.score && i <
    _synthcoversize; i++)]; the counter [i] is a [uint32_t]. *)
Fixpoint cover_inner (fuel : nat) (size : Z) (psi : Q) (secondminpred minpred : action_score)
    (probs : list action_score) (i : Z) : result (action_score * list action_score * Z) :=
  match fuel with
  | O => Err NonTerminating
  | S fuel' =>
      if Qle_bool (as_score minpred) (as_score secondminpred) && (i <? size) then
        probs' ← add_prob probs (as_action minpred) (1 / inject_Z size)%Q;
        cover_inner fuel' size psi secondminpred
          (mk_as (as_action minpred) (as_score minpred + (1 / inject_Z size) * psi)%Q)
          probs' (wrap32 (i + 1))
      else Ok (minpred, probs, i)
  end.

(** The outer loop [for (uint32_t i = 0; i < _synthcoversize;)]: pop the
    least element, read the new front, vote, push back. *)
Fixpoint cover_outer (fuel : nat) (size : Z) (psi : Q) (heap probs : list action_score) (i : Z)
    : result (list action_score * list action_score) :=
  match fuel with
  | O => Err NonTerminating
  | S fuel' =>
      if i <? size then
        match heap with
        | [] => Err OutOfBounds
        | minpred :: rest =>
            secondminpred ← of_option OutOfBounds (head rest);
            '(minpred', probs', i') ←
              cover_inner (S (Z.to_nat size)) size psi secondminpred minpred probs i;
            cover_outer fuel' size psi (heap_push minpred' rest) probs' i'
        end
      else Ok (heap, probs)
  end.

(** [_action_probs] before the loop: [{i, 0.}] for every action. *)
Definition initial_probs (num_actions : nat) : list action_score :=
  map (fun a => mk_as (Z.of_nat a) 0%Q) (seq 0 num_actions).

Definition set_scores (l : list action_score) (ps : list Q) : list action_score :=
  zip_with (fun a p => mk_as (as_action a) p) l ps.

(** The part of [predict_or_learn_impl] after the branch on [num_actions]
    (lines 104-131), from the base learner's scores [preds]. *)
(** Line 102: the first [num_actions] scores clamped to the cost range. *)
Definition clamp_scores (st : synthcover) (num_actions : nat) (preds : list action_score)
    : list action_score :=
  map (fun a => mk_as (as_action a) (clamp (as_score a) (_min_cost st) (_max_cost st)))
      (take num_actions preds) ++ drop num_actions preds.

Definition explore (st : synthcover) (num_actions : nat) (preds : list action_score)
    : result (synthcover * list action_score) :=
  if (length preds <? num_actions)%nat then Err OutOfBounds else
  let clamped := clamp_scores st num_actions preds in
  '(heap, probs) ← cover_outer (S (Z.to_nat (_synthcoversize st))) (_synthcoversize st) (_psi st)
                     (make_heap clamped) (initial_probs num_actions) 0;
  let probs1 := set_scores probs
                  (enforce_minimum_probability (_epsilon st) true (map as_score probs)) in
  let probs2 := sort_desc probs1 in
  Ok (mk_synthcover (_epsilon st) (_psi st) (_synthcoversize st) (_model_file_version st)
                    probs2 (_min_cost st) (_max_cost st),
      take num_actions probs2 ++ drop num_actions heap).

(** The running cost range (lines 80-89). *)
Definition update_costs (st : synthcover) (examples : list example) : synthcover :=
  match list_find (fun ex => l_cb ex <> []) examples with
  | Some (_, ex) =>
      match l_cb ex with
      | logged :: _ =>
          mk_synthcover (_epsilon st) (_psi st) (_synthcoversize st) (_model_file_version st)
            (_action_probs st) (std_min (cb_cost logged) (_min_cost st))
            (std_max (cb_cost logged) (_max_cost st))
      | [] => st
      end
  | None => st
  end.

Definition set_pred_a_s (ex : example) (a_s : list action_score) : example :=
  mk_example (indices ex) (feature_space ex) (l_cb ex) a_s (pred_scalars ex)
             (pred_multiclass ex) (tag ex) (l_cs ex) (las_shared_example ex).

(** [predict_or_learn_impl<is_learn>(base, examples)]. *)
Definition predict_or_learn_impl `{BaseLearner (list example)} (is_learn : bool)
    (st : synthcover) (examples : list example) : result (synthcover * list example) :=
  _ ← of_option OutOfBounds (head examples);          (* examples[0]->ft_offset *)
  exs ← learn_or_predict is_learn examples;
  let st1 := update_costs st exs in
  ex0 ← of_option OutOfBounds (head exs);               (* examples[0]->pred.a_s *)
  let preds := pred_a_s ex0 in
  let num_actions := wrap32 (Z.of_nat (length exs)) in
  if num_actions =? 0 then Ok (st1, set_pred_a_s ex0 [] :: tail exs)
  else if num_actions =? 1 then
    match preds with
    | [] => Err OutOfBounds
    | p :: ps => Ok (st1, set_pred_a_s ex0 (mk_as (as_action p) 1%Q :: ps) :: tail exs)
    end
  else
    '(st2, preds') ← explore st1 (Z.to_nat num_actions) preds;
    Ok (st2, set_pred_a_s ex0 preds' :: tail exs).

(** [cb_explore_adf_synthcover_setup]'s checks, before any example. *)
Definition validate_options (synthcoversize : Z) (epsilon psi : Q) : result unit :=
  if synthcoversize <=? 0 then Err (Thrown "synthcoversize must be >= 1")
  else if Qlt_bool epsilon 0%Q then Err (Thrown "epsilon must be non-negative")
  else if Qle_bool psi 0%Q then Err (Thrown "synthcoverpsi must be positive")
  else Ok tt.

(** A base learner that leaves the examples as they are; the witnesses run
    the handler on top of it. *)
Definition passthrough_base : BaseLearner (list example) :=
  {| base_learn := fun exs => Ok exs; base_predict := fun exs => Ok exs |}.

(** Inputs for the witnesses: three actions scored [0.1], [0.5], [0.9]. *)
Definition ex_with (a_s : list action_score) : example := mk_example [] ∅ [] a_s [] 0 [] [] None.
Definition witness_ex0 : example := ex_with [mk_as 0 (1 # 10); mk_as 1 (1 # 2); mk_as 2 (9 # 10)].
Definition witness_examples : list example := [witness_ex0; ex_with []; ex_with []].
Definition witness_state : synthcover := construct 0 (1 # 10) 10 0.

(** A group whose first action carries the logged cost [2]. *)
Definition labeled_examples : list example :=
  [mk_example [] ∅ [mk_cb_class 2 1 (1 # 2) 0] [mk_as 0 (1 # 2); mk_as 1 (1 # 3)] [] 0 [] [] None;
   ex_with []].

End Synthcover.

Module SynthcoverFacts.
Import Synthcover.

(** ** The order on action scores *)

(** [a] is not above [b]: the heap keeps its elements in this order. *)
Definition as_le (a b : action_score) : Prop := as_gtb a b = false.

(** The sorted output is descending: no element is above its predecessor. *)
Definition as_ge (a b : action_score) : Prop := as_gtb b a = false.

(** The invariant of the vote loop for [N] actions and [size] votes: the
    heap is in ascending order and holds one entry per action; entry [j] of
    [_action_probs] is action [j]; after [i] votes the probabilities sum to
    [i / size] and are non-negative. *)
Definition heap_inv (N : nat) (h : list action_score) : Prop :=
  Sorted as_le h /\ Permutation (map as_action h) (map Z.of_nat (seq 0 N)).

Definition probs_inv (N : nat) (size : Z) (probs : list action_score) (i : Z) : Prop :=
  map as_action probs = map Z.of_nat (seq 0 N) /\
  (qsum (map as_score probs) == inject_Z i / inject_Z size)%Q /\
  Forall (fun x => 0 <= as_score x)%Q probs.

(** The abstract vote process of spec 4.3, step 2, on the multiset [H]
    of effective scores and the probabilities [P]: one synthetic policy
    votes for an action whose effective score is least, which gains
    [1/size] probability and [psi/size] effective score. *)
Inductive vote (size : Z) (psi : Q) : list action_score * list action_score ->
    list action_score * list action_score -> Prop :=
| vote_least H P a R P' :
    Permutation H (a :: R) -> Forall (fun b => as_score a <= as_score b)%Q R ->
    add_prob P (as_action a) (1 / inject_Z size)%Q = Ok P' ->
    vote size psi (H, P) (mk_as (as_action a) (as_score a + 1 / inject_Z size * psi)%Q :: R, P').

(** The cost a call records (lines 80-89): the first cost of the first
    example that has a label. *)
Definition logged_cost (exs : list example) : option Q :=
  match list_find (fun ex => l_cb ex <> []) exs with
  | Some (_, ex) => match l_cb ex with logged :: _ => Some (cb_cost logged) | [] => None end
  | None => None
  end.

(** The states a synthcover instance reaches from its constructor through
    any sequence of [learn] and [predict] calls that return, with the
    costs those calls recorded. *)
Inductive reachable `{BaseLearner (list example)} (epsilon psi : Q) (size version : Z)
    : synthcover -> list Q -> Prop :=
| reach_construct : reachable epsilon psi size version (construct epsilon psi size version) []
| reach_call st seen is_learn exs st' exs' :
    reachable epsilon psi size version st seen ->
    predict_or_learn_impl is_learn st exs = Ok (st', exs') ->
    reachable epsilon psi size version st' (seen ++ from_option (fun c => [c]) [] (logged_cost exs')).

Lemma as_gtb_asym a b : as_gtb a b = true -> as_gtb b a = false.
Proof.
  unfold as_gtb. rewrite !orb_true_iff, !andb_true_iff, Qlt_bool_iff, Qeq_bool_iff, Z.ltb_lt.
  intros H. apply orb_false_iff. rewrite andb_false_iff, Z.ltb_ge, Qeq_bool_false.
  unfold Qlt_bool. rewrite negb_false_iff, Qle_bool_iff. destruct H as [H|[H1 H2]]; split; try lra; lia.
Qed.

Lemma as_le_score a b : as_le a b -> (as_score a <= as_score b)%Q.
Proof.
  unfold as_le, as_gtb. intros H. apply orb_false_iff in H as [H _].
  apply Qlt_bool_false in H. lra.
Qed.

(** ** Inserting into the heap and sorting *)

Lemma heap_push_perm x h : Permutation (heap_push x h) (x :: h).
Proof.
  induction h as [|y h IH]; simpl; [done|].
  destruct (as_gtb x y); [|done]. rewrite IH. constructor.
Qed.

Lemma heap_push_sorted x h : Sorted as_le h -> Sorted as_le (heap_push x h).
Proof.
  induction 1 as [|y h Hs IH Hhd]; simpl; [repeat constructor|].
  destruct (as_gtb x y) eqn:Hxy.
  - constructor; [done|]. destruct h as [|z h]; simpl.
    + constructor. by apply as_gtb_asym.
    + inversion Hhd; subst. destruct (as_gtb x z); constructor; [done|by apply as_gtb_asym].
  - by repeat constructor.
Qed.

Lemma make_heap_perm l : Permutation (make_heap l) l.
Proof.
  induction l as [|x l IH]; simpl; [done|]. rewrite heap_push_perm, IH. done.
Qed.

Lemma make_heap_sorted l : Sorted as_le (make_heap l).
Proof. induction l; simpl; [constructor|by apply heap_push_sorted]. Qed.

Lemma sort_insert_desc_perm x l : Permutation (sort_insert_desc x l) (x :: l).
Proof.
  induction l as [|y l IH]; simpl; [done|].
  destruct (as_gtb y x); [|done]. rewrite IH. constructor.
Qed.

Lemma sort_insert_desc_sorted x l : Sorted as_ge l -> Sorted as_ge (sort_insert_desc x l).
Proof.
  unfold as_ge. induction 1 as [|y l Hs IH Hhd]; simpl; [repeat constructor|].
  destruct (as_gtb y x) eqn:Hyx.
  - constructor; [done|]. destruct l as [|z l]; simpl.
    + constructor. by apply as_gtb_asym.
    + inversion Hhd; subst. destruct (as_gtb z x); constructor; [done|by apply as_gtb_asym].
  - by repeat constructor.
Qed.

Lemma sort_desc_perm l : Permutation (sort_desc l) l.
Proof.
  induction l as [|x l IH]; simpl; [done|]. rewrite sort_insert_desc_perm, IH. done.
Qed.

Lemma sort_desc_sorted l : Sorted as_ge (sort_desc l).
Proof. induction l; simpl; [constructor|by apply sort_insert_desc_sorted]. Qed.

(** ** The vote loop *)

Lemma add_prob_ok probs a delta :
  0 <= a < Z.of_nat (length probs) ->
  exists probs', add_prob probs a delta = Ok probs' /\
    map as_action probs' = map as_action probs /\
    (qsum (map as_score probs') == qsum (map as_score probs) + delta)%Q /\
    (Forall (fun x => 0 <= as_score x)%Q probs -> (0 <= delta)%Q ->
     Forall (fun x => 0 <= as_score x)%Q probs').
Proof.
  intros Ha. unfold add_prob. destruct (Z.ltb_spec a 0); [lia|].
  destruct (lookup_lt_is_Some_2 probs (Z.to_nat a)) as [x Hx]; [lia|].
  rewrite Hx. simpl. eexists; split; [reflexivity|].
  rewrite !map_list_insert. simpl. split; [|split].
  - apply list_insert_id. by rewrite map_list_lookup, Hx.
  - rewrite (qsum_insert _ _ (as_score x)) by (by rewrite map_list_lookup, Hx). lra.
  - intros Hall Hd. apply Forall_insert; [done|]. simpl.
    rewrite Forall_lookup in Hall. specialize (Hall _ _ Hx). lra.
Qed.

(** The head of a sorted heap has the least score. *)
Lemma sorted_min_score x l : Sorted as_le (x :: l) -> Forall (fun b => as_score x <= as_score b)%Q l.
Proof.
  revert x. induction l as [|y l IH]; intros x Hs; [constructor|].
  apply Sorted_inv in Hs as [Hs Hhd]. apply HdRel_inv, as_le_score in Hhd.
  constructor; [done|]. eapply Forall_impl; [exact (IH y Hs)|]. intros b Hb. simpl in *. lra.
Qed.

Section Loop.
Variables (size : Z) (psi : Q) (N : nat).
Hypothesis Hsize : 1 <= size < 2 ^ 32.
Hypothesis Hpsi : (0 < psi)%Q.

Lemma probs_inv_length probs i : probs_inv N size probs i -> length probs = N.
Proof.
  intros [Ha _]. apply (f_equal length) in Ha. rewrite !length_map, length_seq in Ha. done.
Qed.

Lemma cover_inner_ok (k : nat) second m probs i :
  0 <= as_action m < Z.of_nat N -> 0 <= i <= size -> size - i < Z.of_nat k ->
  probs_inv N size probs i ->
  exists m' probs' i', cover_inner k size psi second m probs i = Ok (m', probs', i') /\
    i <= i' <= size /\ as_action m' = as_action m /\ probs_inv N size probs' i' /\
    ((as_score m <= as_score second)%Q -> i < size -> i < i').
Proof.
  revert m probs i. induction k as [|k IH]; intros m probs i Hm Hi Hk Hinv; [lia|]. simpl.
  destruct (Qle_bool (as_score m) (as_score second)) eqn:Hle; simpl;
    [destruct (Z.ltb_spec i size) as [Hlt|Hge]|]; simpl.
  - pose proof (probs_inv_length _ _ Hinv) as Hl.
    destruct (add_prob_ok probs (as_action m) (1 / inject_Z size)%Q) as (p' & -> & Ha & Hs & Hnn);
      [lia|]. simpl.
    rewrite (wrap64_id_32 (i + 1)) by lia.
    destruct Hinv as (Ha0 & Hs0 & Hn0).
    destruct (IH (mk_as (as_action m) (as_score m + 1 / inject_Z size * psi)%Q) p' (i + 1))
      as (m' & probs' & i' & -> & Hi' & Hm' & Hinv' & _); simpl; [lia|lia|lia| |].
    + split; [congruence|split].
      * rewrite Hs, Hs0. apply inject_Z_succ_div. lia.
      * apply Hnn; [done|]. apply Qle_shift_div_l; [|lra].
        apply (Qlt_le_trans _ (inject_Z 1)); [done|]. rewrite <- Zle_Qle. lia.
    + exists m', probs', i'. simpl in Hm'.
      split; [done|]. split; [lia|]. split; [done|]. split; [done|]. intros; lia.
  - exists m, probs, i. split; [done|]. split; [lia|]. split; [done|]. split; [done|]. intros; lia.
  - exists m, probs, i. split; [done|]. split; [lia|]. split; [done|]. split; [done|].
    intros Hle'. apply Qle_bool_iff in Hle'. congruence.
Qed.
Lemma heap_inv_length h : heap_inv N h -> length h = N.
Proof.
  intros [_ Hp]. apply Permutation_length in Hp. rewrite !length_map, length_seq in Hp. done.
Qed.

Lemma heap_inv_action h m : heap_inv N h -> m ∈ h -> 0 <= as_action m < Z.of_nat N.
Proof.
  intros [_ Hp] Hm%list_elem_of_In.
  assert (Hin : In (as_action m) (map Z.of_nat (seq 0 N)))
    by (eapply Permutation_in; [exact Hp|by apply in_map]).
  apply in_map_iff in Hin as (a & <- & Ha%in_seq). lia.
Qed.

(** The outer loop terminates with [size] votes cast, given fuel for
    [size - i] more iterations: every iteration casts at least one vote,
    because the popped element is not above the new front. *)
Lemma cover_outer_ok (fuel : nat) h probs i :
  (2 <= N)%nat -> heap_inv N h -> probs_inv N size probs i -> 0 <= i <= size ->
  size - i < Z.of_nat fuel ->
  exists h' probs', cover_outer fuel size psi h probs i = Ok (h', probs') /\
    heap_inv N h' /\ probs_inv N size probs' size.
Proof.
  revert h probs i. induction fuel as [|fuel IH]; intros h probs i HN Hh Hp Hi Hf; [lia|].
  cbn -[cover_inner].
  destruct (Z.ltb_spec i size) as [Hlt|Hge].
  - pose proof (heap_inv_length h Hh) as Hlen.
    destruct h as [|m [|sec rest]]; simpl in Hlen; [lia|lia|]. cbn -[cover_inner].
    pose proof (heap_inv_action _ m Hh ltac:(set_solver)) as Hm.
    destruct Hh as [Hs Hperm]. apply Sorted_inv in Hs as [Hs Hhd].
    apply HdRel_inv in Hhd. apply as_le_score in Hhd.
    destruct (cover_inner_ok (S (Z.to_nat size)) sec m probs i)
      as (m' & p' & i' & -> & Hi' & Ham & Hp' & Hlt'); [lia|lia|lia|done|].
    cbn -[cover_outer]. specialize (Hlt' Hhd Hlt).
    apply (IH (heap_push m' (sec :: rest)) p' i'); [done| |done|lia|lia].
    split; [by apply heap_push_sorted|].
    rewrite heap_push_perm. simpl. rewrite Ham. exact Hperm.
  - assert (i = size) as -> by lia. exists h, probs. done.
Qed.
(** Each iteration of the inner loop is one vote of the abstract process:
    [minpred] is not above [secondminpred], the least of the rest. *)
Lemma cover_inner_votes (k : nat) second rest :
  Forall (fun b => as_score second <= as_score b)%Q rest ->
  forall m probs i m' p' i', 0 <= i -> cover_inner k size psi second m probs i = Ok (m', p', i') ->
  forall H0, Permutation H0 (m :: second :: rest) ->
  i <= i' /\ (i <= size -> i' <= size) /\
  exists Hn, nsteps (vote size psi) (Z.to_nat (i' - i)) (H0, probs) (Hn, p') /\
    Permutation Hn (m' :: second :: rest).
Proof.
  intros Hsec. induction k as [|k IH]; intros m probs i m' p' i' Hi Hc H0 HP; [discriminate|].
  simpl in Hc. destruct (Qle_bool (as_score m) (as_score second) && (i <? size)) eqn:Hcond.
  - apply andb_true_iff in Hcond as [Hle Hlt]. apply Qle_bool_iff in Hle. apply Z.ltb_lt in Hlt.
    apply bind_Ok in Hc as (p1 & Hadd & Hc). rewrite wrap64_id_32 in Hc by lia.
    destruct (IH _ _ (i + 1) _ _ _ ltac:(lia) Hc _ (Permutation_refl _)) as (Hi' & Hs' & Hn & Hsteps & Hperm).
    split; [lia|]. split; [intros; apply Hs'; lia|].
    exists Hn. split; [|done].
    replace (Z.to_nat (i' - i)) with (S (Z.to_nat (i' - (i + 1)))) by lia.
    eapply nsteps_l; [|exact Hsteps]. constructor; [done| |done].
    constructor; [done|]. eapply Forall_impl; [exact Hsec|]. intros b Hb. simpl in *. lra.
  - injection Hc as <- <- <-. split; [lia|]. split; [lia|].
    exists H0. rewrite Z.sub_diag. split; [constructor|done].
Qed.

(** The outer loop performs exactly [size - i] votes of the abstract
    process, from any arrangement of the heap's multiset. *)
Lemma cover_outer_votes (fuel : nat) : forall h probs i h' probs',
  Sorted as_le h -> 0 <= i <= size -> cover_outer fuel size psi h probs i = Ok (h', probs') ->
  forall H0, Permutation H0 h ->
  exists Hn, nsteps (vote size psi) (Z.to_nat (size - i)) (H0, probs) (Hn, probs') /\ Permutation Hn h'.
Proof.
  induction fuel as [|fuel IH]; intros h probs i h' probs' Hs Hi Hc H0 HP; [discriminate|].
  cbn -[cover_inner] in Hc. destruct (i <? size) eqn:Hlt.
  - apply Z.ltb_lt in Hlt. destruct h as [|m [|second rest]]; [discriminate..|].
    cbn -[cover_inner] in Hc. apply bind_Ok in Hc as ([[m' p'] i'] & Hin & Hc).
    apply Sorted_inv in Hs as [Hs _].
    destruct (cover_inner_votes _ second rest (sorted_min_score _ _ Hs) m probs i m' p' i'
                ltac:(lia) Hin H0 HP) as (Hi1 & Hi2 & Hn1 & Hst1 & HP1).
    destruct (IH _ _ i' _ _ (heap_push_sorted m' _ Hs) ltac:(lia) Hc Hn1
                ltac:(rewrite heap_push_perm; exact HP1)) as (Hn & Hst2 & HP2).
    exists Hn. split; [|done].
    replace (Z.to_nat (size - i)) with (Z.to_nat (i' - i) + Z.to_nat (size - i'))%nat by lia.
    eapply nsteps_trans; eauto.
  - apply Z.ltb_ge in Hlt. injection Hc as <- <-. exists H0.
    replace (size - i) with 0 by lia. split; [constructor|done].
Qed.
End Loop.

(** The [uint32_t] counter of the vote loops stays below [2^32]. *)
Lemma cover_inner_counter (k : nat) size psi second : forall m probs i m' p' i',
  0 <= i < 2 ^ 32 -> cover_inner k size psi second m probs i = Ok (m', p', i') -> 0 <= i' < 2 ^ 32.
Proof.
  induction k as [|k IH]; intros m probs i m' p' i' Hi Hc; [discriminate|]. simpl in Hc.
  destruct (_ && _); [|injection Hc as _ _ <-; done].
  apply bind_Ok in Hc as (p1 & _ & Hc).
  apply (IH _ _ (wrap32 (i + 1)) _ _ _ ltac:(unfold wrap32; apply Z.mod_pos_bound; lia) Hc).
Qed.

(** With [synthcoversize >= 2^32] the outer loop never exits: its
    counter wraps around before reaching the size. *)
Lemma cover_outer_diverges (fuel : nat) size psi : 2 ^ 32 <= size ->
  forall h probs i r, 0 <= i < 2 ^ 32 -> cover_outer fuel size psi h probs i <> Ok r.
Proof.
  intros Hs. induction fuel as [|fuel IH]; intros h probs i r Hi; [discriminate|].
  cbn -[cover_inner]. rewrite (proj2 (Z.ltb_lt _ _)) by lia.
  destruct h as [|m [|second rest]]; [discriminate..|]. cbn -[cover_inner].
  destruct (cover_inner _ _ _ _ _ _ _) as [[[m' p'] i']|] eqn:Hc; [|discriminate].
  rewrite Ok_bind. apply IH. exact (cover_inner_counter _ _ _ _ _ _ _ _ _ _ Hi Hc).
Qed.

(** ** What the vote loops can fail with *)

Lemma add_prob_err probs a delta e : add_prob probs a delta = Err e -> e = OutOfBounds.
Proof. unfold add_prob. destruct (a <? 0); [congruence|]. destruct (probs !! _); simpl; congruence. Qed.

(** The loops fail only by an access out of bounds or by running out of
    fuel. *)
Lemma cover_inner_errs (k : nat) size psi second : forall m probs i e,
  cover_inner k size psi second m probs i = Err e -> e = OutOfBounds \/ e = NonTerminating.
Proof.
  induction k as [|k IH]; intros m probs i e Hc; simpl in Hc; [injection Hc; auto|].
  destruct (_ && _); [|discriminate]. apply bind_Err in Hc as [Ha|(p1 & _ & Hc)]; [|eauto].
  left. exact (add_prob_err _ _ _ _ Ha).
Qed.

Lemma cover_outer_errs (fuel : nat) size psi : forall h probs i e,
  cover_outer fuel size psi h probs i = Err e -> e = OutOfBounds \/ e = NonTerminating.
Proof.
  induction fuel as [|fuel IH]; intros h probs i e Hc; cbn -[cover_inner] in Hc; [injection Hc; auto|].
  destruct (i <? size); [|discriminate]. destruct h as [|m rest]; [injection Hc; auto|].
  apply bind_Err in Hc as [Hh|(sec & _ & Hc)]; [destruct (head rest); simpl in Hh; [done|injection Hh; auto]|].
  apply bind_Err in Hc as [Hi|([[m' p'] i'] & _ & Hc)]; [exact (cover_inner_errs _ _ _ _ _ _ _ _ Hi)|eauto].
Qed.

(** Below [2^32] the inner loop has fuel enough: it fails only out of
    bounds, and when it returns the counter has not passed [size] and has
    moved when [minpred] was not above [secondminpred]. *)
Lemma cover_inner_bounded (k : nat) size psi second : forall m probs i,
  0 <= i -> size < 2 ^ 32 -> (Z.to_nat (size - i) < k)%nat ->
  match cover_inner k size psi second m probs i with
  | Ok (m', p', i') => i <= i' /\ (i <= size -> i' <= size) /\
                       ((as_score m <= as_score second)%Q -> i < size -> i < i')
  | Err e => e = OutOfBounds
  end.
Proof.
  induction k as [|k IH]; intros m probs i Hi Hs Hk; [lia|]. simpl.
  destruct (Qle_bool (as_score m) (as_score second)) eqn:Hle; simpl;
    [destruct (Z.ltb_spec i size) as [Hlt|Hge]|]; simpl.
  - destruct (add_prob _ _ _) as [p1|e] eqn:Ha; simpl; [|exact (add_prob_err _ _ _ _ Ha)].
    rewrite wrap64_id_32 by lia.
    specialize (IH (mk_as (as_action m) (as_score m + 1 / inject_Z size * psi)%Q) p1 (i + 1)
                  ltac:(lia) Hs ltac:(lia)).
    destruct (cover_inner k _ _ _ _ _ _) as [[[m' p'] i']|e]; [|done].
    destruct IH as (H1 & H2 & _). split; [lia|]. split; intros; lia.
  - split; [lia|]. split; intros; lia.
  - split; [lia|]. split; [intros; lia|]. intros Hq. apply Qle_bool_iff in Hq. congruence.
Qed.

(** Below [2^32] the outer loop, given fuel for [size - i] more
    iterations and a sorted heap, fails only out of bounds. *)
Lemma cover_outer_bounded (fuel : nat) size psi : forall h probs i e,
  0 <= i -> size < 2 ^ 32 -> (Z.to_nat (size - i) < fuel)%nat -> Sorted as_le h ->
  cover_outer fuel size psi h probs i = Err e -> e = OutOfBounds.
Proof.
  induction fuel as [|fuel IH]; intros h probs i e Hi Hs Hf Hh; [lia|].
  cbn -[cover_inner]. destruct (Z.ltb_spec i size) as [Hlt|Hge]; [|discriminate].
  destruct h as [|m [|sec rest]]; [congruence|cbn; congruence|]. cbn -[cover_inner].
  apply Sorted_inv in Hh as [Hh Hhd]. apply HdRel_inv, as_le_score in Hhd.
  pose proof (cover_inner_bounded (S (Z.to_nat size)) size psi sec m probs i Hi Hs ltac:(lia)) as Hin.
  destruct (cover_inner _ _ _ _ _ _ _) as [[[m' p'] i']|e']; simpl; [|congruence].
  destruct Hin as (H1 & H2 & H3). specialize (H3 Hhd Hlt).
  apply IH; [lia|done|lia|]. apply (heap_push_sorted m' (sec :: rest)), Hh.
Qed.

(** ** [enforce_minimum_probability] keeps a distribution a distribution *)

Lemma nonneg_selected (p : Q) : (0 <= p)%Q -> (Qlt_bool 0 p || (Qeq_bool p 0 && true)) = true.
Proof.
  intros Hp. destruct (Qlt_bool 0 p) eqn:E; [done|]. apply Qlt_bool_false in E.
  simpl. rewrite andb_true_r. apply Qeq_bool_iff. lra.
Qed.

Lemma length_pos_Q {A} (l : list A) : l <> [] -> (0 < inject_Z (Z.of_nat (length l)))%Q.
Proof.
  intros Hl. destruct l; [done|]. change 0%Q with (inject_Z 0). rewrite <- Zlt_Qlt. simpl. lia.
Qed.

(** Uniform exploration ([minimum_uniform > 0.999]): every action gets [1/n]. *)
Lemma enforce_uniform_sum (eps : Q) (pdf : list Q) :
  pdf <> [] -> Qlt_bool (999 # 1000) eps = true ->
  enforce_minimum_probability eps true pdf = map (fun _ => (1 / inject_Z (Z.of_nat (length pdf)))%Q) pdf /\
  (qsum (enforce_minimum_probability eps true pdf) == 1)%Q.
Proof.
  intros Hne Hu. unfold enforce_minimum_probability. rewrite Hu. simpl. split; [done|].
  rewrite qsum_map_const. pose proof (length_pos_Q pdf Hne). field. lra.
Qed.

Section Floor.
Variables (eps : Q) (pdf : list Q).
Hypothesis Heps : (0 <= eps <= 999 # 1000)%Q.
Hypothesis Hne : pdf <> [].
Hypothesis Hnn : Forall (fun p => 0 <= p)%Q pdf.
Hypothesis Hsum : (qsum pdf == 1)%Q.

Local Abbreviation n := (inject_Z (Z.of_nat (length pdf))).
Local Abbreviation mu := (eps / n)%Q.
Local Abbreviation t p := ((Qlt_bool 0 p || (Qeq_bool p 0 && true)) && Qle_bool p mu).
Local Abbreviation tm := (qsum (map (fun p => if t p then mu else 0%Q) pdf)).
Local Abbreviation um := (qsum (map (fun p => if t p then 0%Q else p) pdf)).

Lemma floor_facts :
  (0 <= mu)%Q /\ (0 <= tm <= eps)%Q /\ (1 - tm <= um)%Q /\ (um <= 1)%Q.
Proof.
  pose proof (length_pos_Q pdf Hne) as Hn.
  assert (Hmu : (0 <= mu)%Q) by (apply Qle_shift_div_l; lra).
  assert (Hsplit : (qsum pdf == qsum (map (fun p => if t p then p else 0%Q) pdf) + um)%Q).
  { rewrite <- (qsum_map_split (fun p => t p) (fun p => p) (fun p => p)).
    rewrite <- qsum_map_id at 1. apply qsum_map_ext. apply Forall_forall. intros p _.
    cbv beta in *; case_match; lra. }
  assert (Hst : (0 <= qsum (map (fun p => if t p then p else 0%Q) pdf) <= tm)%Q).
  { split.
    - apply qsum_nonneg. apply Forall_map. eapply Forall_impl; [exact Hnn|]. intros p Hp.
      cbv beta in *; case_match; lra.
    - apply qsum_map_le. apply Forall_forall. intros p _.
      cbv beta. destruct (_ || _), (Qle_bool p mu) eqn:E; simpl; try lra. by apply Qle_bool_iff. }
  assert (Htm : (tm <= eps)%Q).
  { apply (Qle_trans _ (qsum (map (fun _ => mu) pdf))).
    - apply qsum_map_le. apply Forall_forall. intros p _. cbv beta in *; case_match; lra.
    - rewrite qsum_map_const. apply Qle_lteq. right. field. lra. }
  assert (Htm0 : (0 <= tm)%Q).
  { apply qsum_nonneg. apply Forall_map, Forall_forall. intros p _. cbv beta in *; case_match; lra. }
  split; [done|]. split; [lra|]. split; [lra|].
  assert (0 <= um)%Q by (apply qsum_nonneg, Forall_map; eapply Forall_impl; [exact Hnn|];
                         intros p Hp; cbv beta in *; case_match; lra).
  lra.
Qed.
Lemma enforce_floor_sum :
  (qsum (enforce_minimum_probability eps true pdf) == 1)%Q /\
  Forall (fun p => 0 <= p)%Q (enforce_minimum_probability eps true pdf) /\
  length (enforce_minimum_probability eps true pdf) = length pdf.
Proof.
  destruct floor_facts as (Hmu & [Htm0 Htm] & Hum1 & Hum2).
  unfold enforce_minimum_probability.
  assert (Hu : Qlt_bool (999 # 1000) eps = false) by (apply Qlt_bool_false; lra).
  rewrite Hu. cbv zeta beta.
  assert (Hsplit1 : (qsum (map (fun p => if t p then mu else p) pdf) == tm + um)%Q)
    by apply (qsum_map_split (fun p => t p) (fun _ => mu) (fun p => p)).
  destruct (Qlt_bool 0 tm) eqn:E1.
  - assert (E2 : Qlt_bool (999 # 1000) tm = false) by (apply Qlt_bool_false; lra). rewrite E2.
    assert (Hum : (0 < um)%Q) by lra.
    assert (Hr : (0 <= (1 - tm) / um)%Q) by (apply Qle_shift_div_l; lra).
    rewrite map_map. split; [|split; [|by rewrite !length_map]].
    + rewrite (qsum_map_ext _ (fun p => if t p then mu else p * ((1 - tm) / um))%Q).
      * rewrite (qsum_map_split (fun p => t p) (fun _ => mu) (fun p => p * ((1 - tm) / um))%Q).
        rewrite (qsum_map_ext (fun p => if t p then 0 else p * ((1 - tm) / um))%Q
                              (fun p => (if t p then 0 else p) * ((1 - tm) / um))%Q).
        { rewrite qsum_map_scale. field. lra. }
        apply Forall_forall. intros p _. case_match; lra.
      * apply Forall_forall. intros p Hp. rewrite Forall_forall in Hnn. specialize (Hnn p Hp).
        rewrite nonneg_selected by done. simpl.
        destruct (Qle_bool p mu) eqn:Ep; simpl.
        -- rewrite (proj2 (Qlt_bool_false mu mu)) by lra. lra.
        -- apply Qle_bool_false in Ep. rewrite (proj2 (Qlt_bool_iff mu p)) by done. lra.
    + apply Forall_map, Forall_forall. intros p Hp. rewrite Forall_forall in Hnn. specialize (Hnn p Hp).
      repeat case_match; try lra; apply Qmult_le_0_compat; lra.
  - split; [|split; [|by rewrite length_map]].
    + apply Qlt_bool_false in E1. rewrite Hsplit1. lra.
    + apply Forall_map, Forall_forall. intros p Hp. rewrite Forall_forall in Hnn. specialize (Hnn p Hp).
      case_match; lra.
Qed.
End Floor.

Lemma enforce_distribution (eps : Q) (pdf : list Q) :
  (0 <= eps)%Q -> pdf <> [] -> Forall (fun p => 0 <= p)%Q pdf -> (qsum pdf == 1)%Q ->
  (qsum (enforce_minimum_probability eps true pdf) == 1)%Q /\
  Forall (fun p => 0 <= p)%Q (enforce_minimum_probability eps true pdf) /\
  length (enforce_minimum_probability eps true pdf) = length pdf.
Proof.
  intros Heps Hne Hnn Hsum.
  destruct (Qlt_bool (999 # 1000) eps) eqn:Hu.
  - destruct (enforce_uniform_sum eps pdf Hne Hu) as [-> Hs]. split; [|split].
    + exact Hs.
    + apply Forall_map, Forall_forall. intros p _. pose proof (length_pos_Q pdf Hne).
      apply Qle_shift_div_l; lra.
    + apply length_map.
  - apply Qlt_bool_false in Hu. by apply enforce_floor_sum.
Qed.

(** ** Scores written back by [set_scores] *)

Lemma set_scores_actions l ps : length ps = length l -> map as_action (set_scores l ps) = map as_action l.
Proof. revert ps. induction l as [|a l IH]; intros [|p ps] Hl; simpl in *; try done. f_equal. auto. Qed.

Lemma set_scores_scores l ps : length ps = length l -> map as_score (set_scores l ps) = ps.
Proof. revert ps. induction l as [|a l IH]; intros [|p ps] Hl; simpl in *; try done. f_equal. auto. Qed.

Lemma initial_probs_inv N size : size <> 0 -> probs_inv N size (initial_probs N) 0.
Proof.
  intros Hs. unfold probs_inv, initial_probs. rewrite !map_map. split; [done|split].
  - simpl. rewrite qsum_map_const. field. intros H. apply Hs, (inject_Z_injective size 0). done.
  - apply Forall_map, Forall_forall. intros; simpl; lra.
Qed.

(** The vote loop and everything after it, from the base learner's scores
    for [N >= 2] actions [0..N-1]. *)
Lemma explore_distribution st N preds :
  (2 <= N)%nat -> 1 <= _synthcoversize st < 2 ^ 32 -> (0 < _psi st)%Q -> (0 <= _epsilon st)%Q ->
  Permutation (map as_action preds) (map Z.of_nat (seq 0 N)) ->
  exists st' out, explore st N preds = Ok (st', out) /\
    Permutation (map as_action out) (map Z.of_nat (seq 0 N)) /\
    (qsum (map as_score out) == 1)%Q /\
    Forall (fun a => 0 <= as_score a)%Q out /\
    Sorted as_ge out.
Proof.
  intros HN Hsize Hpsi Heps Hperm.
  assert (Hlen : length preds = N)
    by (apply Permutation_length in Hperm; rewrite !length_map, length_seq in Hperm; done).
  unfold explore, clamp_scores. rewrite Hlen, Nat.ltb_irrefl, firstn_all2, skipn_all2, app_nil_r by lia.
  set (clampf := fun a => mk_as (as_action a) (clamp (as_score a) (_min_cost st) (_max_cost st))).
  assert (Hh : heap_inv N (make_heap (map clampf preds))).
  { split; [apply make_heap_sorted|]. rewrite make_heap_perm, map_map. done. }
  pose proof (initial_probs_inv N (_synthcoversize st) ltac:(lia)) as Hp0.
  destruct (cover_outer_ok (_synthcoversize st) (_psi st) N Hsize Hpsi (S (Z.to_nat (_synthcoversize st)))
              _ (initial_probs N) 0 HN Hh Hp0 ltac:(lia) ltac:(lia))
    as (h' & p' & Hrun & Hh' & (Ha & Hs & Hn)).
  rewrite Hrun.
  rewrite Ok_bind.
  assert (Hpl : length p' = N)
    by (apply (f_equal length) in Ha; rewrite !length_map, length_seq in Ha; done).
  destruct (enforce_distribution (_epsilon st) (map as_score p')) as (Hs1 & Hn1 & Hl1); [done| | | |].
  { intros Hnil. apply (f_equal length) in Hnil. rewrite length_map in Hnil. simpl in Hnil. lia. }
  { by apply Forall_map. }
  { rewrite Hs. field. apply inject_Z_nonzero. lia. }
  rewrite length_map in Hl1.
  set (probs1 := set_scores p' (enforce_minimum_probability (_epsilon st) true (map as_score p'))).
  assert (Hl2 : length (sort_desc probs1) = N).
  { rewrite sort_desc_perm. unfold probs1. rewrite <- (length_map as_action), set_scores_actions by done.
    rewrite length_map. done. }
  rewrite firstn_all2, skipn_all2, app_nil_r by (rewrite ?(heap_inv_length _ _ Hh'); lia).
  eexists _, _. split; [reflexivity|]. split; [|split; [|split]].
  - rewrite sort_desc_perm. unfold probs1. rewrite set_scores_actions by done. by rewrite Ha.
  - rewrite (qsum_perm _ _ (Permutation_map as_score (sort_desc_perm probs1))).
    unfold probs1. rewrite set_scores_scores by done. done.
  - eapply Permutation_Forall; [symmetry; apply sort_desc_perm|].
    unfold probs1. apply Forall_map. rewrite set_scores_scores by done. done.
  - apply sort_desc_sorted.
Qed.

(** ** The handler *)

(** C32:  [explore] refines the abstract vote process: the probabilities
    it leaves in [_action_probs] are those of exactly [_synthcoversize]
    votes, each cast for an action of least effective score (starting
    from the clamped scores, the raised score taking part in later
    votes), followed by [enforce_minimum_probability] and the descending
    sort. *)
Theorem explore_votes st N preds st' out :
  1 <= _synthcoversize st < 2 ^ 32 -> explore st N preds = Ok (st', out) ->
  exists H probs,
    nsteps (vote (_synthcoversize st) (_psi st)) (Z.to_nat (_synthcoversize st))
      (clamp_scores st N preds, initial_probs N) (H, probs) /\
    _action_probs st' =
      sort_desc (set_scores probs (enforce_minimum_probability (_epsilon st) true (map as_score probs))).
Proof.
  intros Hsize. unfold explore. destruct (length preds <? N)%nat; [discriminate|].
  intros ([h probs] & Hc & Hr)%bind_Ok. injection Hr as <- _.
  destruct (cover_outer_votes _ _ Hsize _ _ _ 0 _ _ (make_heap_sorted _) ltac:(lia) Hc
              (clamp_scores st N preds) (Permutation_sym (make_heap_perm _))) as (Hn & Hst & _).
  exists Hn, probs. rewrite Z.sub_0_r in Hst. split; [exact Hst|done].
Qed.

Lemma update_costs_params st exs :
  _epsilon (update_costs st exs) = _epsilon st /\ _psi (update_costs st exs) = _psi st /\
  _synthcoversize (update_costs st exs) = _synthcoversize st.
Proof. unfold update_costs. repeat case_match; done. Qed.

Lemma update_costs_range st exs :
  _min_cost (update_costs st exs) = from_option (fun c => std_min c (_min_cost st)) (_min_cost st) (logged_cost exs) /\
  _max_cost (update_costs st exs) = from_option (fun c => std_max c (_max_cost st)) (_max_cost st) (logged_cost exs).
Proof. unfold update_costs, logged_cost. repeat case_match; done. Qed.

Lemma logged_cost_set_pred ex0 rest a_s : logged_cost (set_pred_a_s ex0 a_s :: rest) = logged_cost (ex0 :: rest).
Proof. unfold logged_cost. simpl. repeat case_decide; simpl; done. Qed.

Lemma explore_costs st n preds st' out :
  explore st n preds = Ok (st', out) -> _min_cost st' = _min_cost st /\ _max_cost st' = _max_cost st.
Proof.
  unfold explore. destruct (_ <? _)%nat; [discriminate|].
  intros ([h p] & _ & Hr)%bind_Ok. injection Hr as <- _. done.
Qed.

Lemma std_min_le a b : (std_min a b <= a)%Q /\ (std_min a b <= b)%Q.
Proof.
  unfold std_min. destruct (Qlt_bool b a) eqn:H; [apply Qlt_bool_iff in H|apply Qlt_bool_false in H];
    split; lra.
Qed.

Lemma std_max_ge a b : (a <= std_max a b)%Q /\ (b <= std_max a b)%Q.
Proof.
  unfold std_max. destruct (Qlt_bool a b) eqn:H; [apply Qlt_bool_iff in H|apply Qlt_bool_false in H];
    split; lra.
Qed.

(** A call that returns moves the cost range by the cost it records, on
    the [predict] path as on the [learn] path. *)
Lemma impl_costs `{BaseLearner (list example)} is_learn st exs st' exs' :
  predict_or_learn_impl is_learn st exs = Ok (st', exs') ->
  _min_cost st' = from_option (fun c => std_min c (_min_cost st)) (_min_cost st) (logged_cost exs') /\
  _max_cost st' = from_option (fun c => std_max c (_max_cost st)) (_max_cost st) (logged_cost exs').
Proof.
  unfold predict_or_learn_impl. intros (_ & _ & H1)%bind_Ok. apply bind_Ok in H1 as (exs0 & _ & H2).
  apply bind_Ok in H2 as (ex0 & Hex0 & H3).
  destruct exs0 as [|e rest]; [discriminate|]. injection Hex0 as ->.
  destruct (update_costs_range st (ex0 :: rest)) as [Hmin Hmax].
  repeat case_match; try discriminate.
  all: try (injection H3 as <- <-; rewrite logged_cost_set_pred; done).
  apply bind_Ok in H3 as ([st2 p2] & He & [= <- <-]). apply explore_costs in He as [-> ->].
  rewrite logged_cost_set_pred. done.
Qed.

Lemma explore_params st n preds st' out :
  explore st n preds = Ok (st', out) ->
  _epsilon st' = _epsilon st /\ _psi st' = _psi st /\ _synthcoversize st' = _synthcoversize st.
Proof.
  unfold explore. destruct (_ <? _)%nat; [discriminate|].
  intros ([h p] & _ & Hr)%bind_Ok. injection Hr as <- _. done.
Qed.

(** A returning call keeps the parameters the setup chose. *)
Lemma impl_params `{BaseLearner (list example)} is_learn st exs st' exs' :
  predict_or_learn_impl is_learn st exs = Ok (st', exs') ->
  _epsilon st' = _epsilon st /\ _psi st' = _psi st /\ _synthcoversize st' = _synthcoversize st.
Proof.
  unfold predict_or_learn_impl. intros (_ & _ & H1)%bind_Ok. apply bind_Ok in H1 as (exs0 & _ & H2).
  apply bind_Ok in H2 as (ex0 & _ & H3). destruct (update_costs_params st exs0) as (He & Hp & Hs).
  repeat case_match; try discriminate; try (injection H3 as <- _; done).
  apply bind_Ok in H3 as ([st2 p2] & Hx & [= <- _]). apply explore_params in Hx as (-> & -> & ->). done.
Qed.

Lemma wrap32_length {A} (l : list A) : (Z.of_nat (length l) < 2 ^ 32)%Z ->
  wrap32 (Z.of_nat (length l)) = Z.of_nat (length l).
Proof. intros. apply wrap64_id_32. lia. Qed.

Lemma impl_distribution `{B : BaseLearner (list example)} is_learn st examples exs ex0 :
  1 <= _synthcoversize st < 2 ^ 32 -> (0 < _psi st)%Q -> (0 <= _epsilon st)%Q ->
  examples <> [] -> learn_or_predict is_learn examples = Ok exs ->
  head exs = Some ex0 -> 2 <= Z.of_nat (length exs) < 2 ^ 32 ->
  Permutation (map as_action (pred_a_s ex0)) (map Z.of_nat (seq 0 (length exs))) ->
  exists st' out,
    predict_or_learn_impl is_learn st examples = Ok (st', set_pred_a_s ex0 out :: tail exs) /\
    Permutation (map as_action out) (map Z.of_nat (seq 0 (length exs))) /\
    (qsum (map as_score out) == 1)%Q /\
    Forall (fun a => 0 <= as_score a)%Q out /\
    Sorted as_ge out.
Proof.
  intros Hsize Hpsi Heps Hne Hbase Hex0 HN Hperm.
  destruct examples as [|e examples]; [done|].
  unfold predict_or_learn_impl. cbn [head of_option]. rewrite Ok_bind, Hbase, Ok_bind, Hex0.
  cbn [of_option]. rewrite Ok_bind, wrap32_length by lia.
  destruct (Z.eqb_spec (Z.of_nat (length exs)) 0); [lia|].
  destruct (Z.eqb_spec (Z.of_nat (length exs)) 1); [lia|].
  destruct (update_costs_params st exs) as (He & Hp & Hs).
  destruct (explore_distribution (update_costs st exs) (length exs) (pred_a_s ex0))
    as (st' & out & Hrun & Hres); [lia|lia|congruence|congruence|done|].
  rewrite Nat2Z.id, Hrun, Ok_bind. exists st', out. split; [done|exact Hres].
Qed.

(** C1: for a group of [N >= 2] examples whose first example carries the
    base learner's scores for actions [0..N-1], [predict_or_learn_impl]
    (learn or predict, for any base learner) replaces those scores by a
    probability distribution over the same actions: a permutation of them,
    non-negative, summing to exactly 1, in descending order. *)
Theorem predict_or_learn_distribution `{B : BaseLearner (list example)} is_learn st examples exs ex0 :
  1 <= _synthcoversize st < 2 ^ 32 -> (0 < _psi st)%Q -> (0 <= _epsilon st)%Q ->
  examples <> [] -> learn_or_predict is_learn examples = Ok exs ->
  head exs = Some ex0 -> 2 <= Z.of_nat (length exs) < 2 ^ 32 ->
  Permutation (map as_action (pred_a_s ex0)) (map Z.of_nat (seq 0 (length exs))) ->
  exists st' out,
    predict_or_learn_impl is_learn st examples = Ok (st', set_pred_a_s ex0 out :: tail exs) /\
    Permutation (map as_action out) (map Z.of_nat (seq 0 (length exs))) /\
    (qsum (map as_score out) == 1)%Q /\
    Forall (fun a => 0 <= as_score a)%Q out /\
    Sorted as_ge out.
Proof. exact (impl_distribution is_learn st examples exs ex0). Qed.

(** With a single example, [predict_or_learn_impl] gives probability 1 to
    the base learner's first action whatever the parameters. *)
Lemma impl_single_action `{B : BaseLearner (list example)} is_learn st examples ex a rest :
  examples <> [] -> learn_or_predict is_learn examples = Ok [ex] -> pred_a_s ex = a :: rest ->
  predict_or_learn_impl is_learn st examples
  = Ok (update_costs st [ex], [set_pred_a_s ex (mk_as (as_action a) 1 :: rest)]).
Proof.
  intros Hne Hbase Hp. destruct examples as [|e examples]; [done|].
  unfold predict_or_learn_impl. simpl. rewrite Hbase. simpl. rewrite Hp. done.
Qed.

(** C9: the handler fails only in these ways: on an empty group, reading
    [examples[0]] before the base learner is called; with the base
    learner's exception, passed on unchanged; or, after the base returned,
    by an access out of bounds (an empty group back from the base, an empty
    prediction for a single action, a prediction shorter than the group,
    an action past [_action_probs]).  The vote loops never fail to return
    for [synthcoversize < 2^32]; for larger sizes they may run forever. *)
Theorem predict_or_learn_impl_errors `{B : BaseLearner (list example)} is_learn st examples e :
  predict_or_learn_impl is_learn st examples = Err e ->
  (examples = [] /\ e = OutOfBounds) \/
  (examples <> [] /\ learn_or_predict is_learn examples = Err e) \/
  (examples <> [] /\ (exists exs, learn_or_predict is_learn examples = Ok exs) /\
   (e = OutOfBounds \/ (e = NonTerminating /\ 2 ^ 32 <= _synthcoversize st))).
Proof.
  destruct examples as [|x examples]; [intros [= <-]; left; done|].
  unfold predict_or_learn_impl. cbn [head of_option]. rewrite Ok_bind. intros He. right.
  destruct (learn_or_predict is_learn (x :: examples)) as [exs|e'] eqn:Hb; simpl in He;
    [|injection He as <-; left; done].
  right. split; [done|]. split; [eauto|]. revert He.
  destruct exs as [|ex0 rest]; simpl; [intros [= <-]; left; done|].
  destruct (_ =? 0); [discriminate|]. destruct (_ =? 1).
  { destruct (pred_a_s ex0); [intros [= <-]; left; done|discriminate]. }
  intros He. apply bind_Err in He as [He|([st2 p2] & _ & He)]; [|discriminate].
  unfold explore in He. destruct (_ <? _)%nat; [injection He as <-; left; done|].
  apply bind_Err in He as [He|([h p] & _ & He)]; [|discriminate].
  destruct (Z.ltb_spec (_synthcoversize (update_costs st (ex0 :: rest))) (2 ^ 32)) as [Hs|Hs].
  - left. refine (cover_outer_bounded _ _ _ _ _ _ e _ Hs _ (make_heap_sorted _) He); [lia|]. rewrite Z.sub_0_r. lia.
  - destruct (update_costs_params st (ex0 :: rest)) as (_ & _ & Es). rewrite Es in Hs.
    destruct (cover_outer_errs _ _ _ _ _ _ _ He) as [-> | ->]; [left|right]; done.
Qed.

(** C10: [cb_explore_adf_synthcover_setup] accepts exactly the parameters
    with [synthcoversize >= 1], [epsilon >= 0] and [synthcoverpsi > 0], and
    reports the first violated check otherwise. *)
Theorem validate_options_spec size eps psi :
  (validate_options size eps psi = Ok tt <-> 1 <= size /\ (0 <= eps)%Q /\ (0 < psi)%Q) /\
  (size <= 0 -> validate_options size eps psi = Err (Thrown "synthcoversize must be >= 1")) /\
  (1 <= size -> (eps < 0)%Q -> validate_options size eps psi = Err (Thrown "epsilon must be non-negative")) /\
  (1 <= size -> (0 <= eps)%Q -> (psi <= 0)%Q ->
   validate_options size eps psi = Err (Thrown "synthcoverpsi must be positive")).
Proof.
  unfold validate_options.
  destruct (Z.leb_spec size 0) as [Hs|Hs].
  - split; [split; [discriminate|lia]|]. split; [done|]. split; intros; lia.
  - destruct (Qlt_bool eps 0) eqn:E1.
    + apply Qlt_bool_iff in E1.
      split; [split; [discriminate|lra]|]. split; [lia|]. split; [done|]. intros; lra.
    + apply Qlt_bool_false in E1. destruct (Qle_bool psi 0) eqn:E2.
      * apply Qle_bool_iff in E2.
        split; [split; [discriminate|lra]|]. split; [lia|]. split; [intros; lra|done].
      * apply Qle_bool_false in E2.
        split; [split; [intros _; repeat split; lra || lia|done]|].
        split; [lia|]. split; intros; lra.
Qed.

(** ** Witnesses *)

Lemma explore_votes_witness :
  1 <= _synthcoversize witness_state < 2 ^ 32 /\
  match explore witness_state 3 (pred_a_s witness_ex0) with
  | Ok (st', _) =>
      exists H probs,
        nsteps (vote (_synthcoversize witness_state) (_psi witness_state))
          (Z.to_nat (_synthcoversize witness_state))
          (clamp_scores witness_state 3 (pred_a_s witness_ex0), initial_probs 3) (H, probs) /\
        _action_probs st' = sort_desc (set_scores probs
          (enforce_minimum_probability (_epsilon witness_state) true (map as_score probs)))
  | Err _ => False
  end.
Proof.
  assert (Hs : 1 <= _synthcoversize witness_state < 2 ^ 32) by (simpl; lia).
  split; [exact Hs|].
  destruct (explore witness_state 3 (pred_a_s witness_ex0)) as [[st' out]|] eqn:E;
    [|vm_compute in E; discriminate].
  exact (explore_votes witness_state 3 _ st' out Hs E).
Defined.

Lemma predict_or_learn_distribution_witness :
  exists st' out,
    @predict_or_learn_impl passthrough_base true witness_state witness_examples
      = Ok (st', set_pred_a_s witness_ex0 out :: tail witness_examples) /\
    Permutation (map as_action out) (map Z.of_nat (seq 0 3)) /\
    (qsum (map as_score out) == 1)%Q /\
    Forall (fun a => 0 <= as_score a)%Q out /\
    Sorted as_ge out.
Proof.
  apply (@predict_or_learn_distribution passthrough_base true witness_state witness_examples
           witness_examples witness_ex0);
    [vm_compute; split; congruence|unfold witness_state; simpl; lra|unfold witness_state; simpl; lra
    |discriminate|reflexivity|reflexivity|vm_compute; split; congruence|apply Permutation_refl].
Defined.

(** Two actions whose first example carries no scores: the base returns,
    then [preds] is read past its end. *)
Lemma predict_or_learn_impl_errors_witness :
  @predict_or_learn_impl passthrough_base true witness_state [ex_with []; ex_with []] = Err OutOfBounds /\
  (([ex_with []; ex_with []] = [] /\ OutOfBounds = OutOfBounds) \/
   ([ex_with []; ex_with []] <> [] /\
    @learn_or_predict _ passthrough_base true [ex_with []; ex_with []] = Err OutOfBounds) \/
   ([ex_with []; ex_with []] <> [] /\
    (exists exs, @learn_or_predict _ passthrough_base true [ex_with []; ex_with []] = Ok exs) /\
    (OutOfBounds = OutOfBounds \/ (OutOfBounds = NonTerminating /\ 2 ^ 32 <= _synthcoversize witness_state)))).
Proof.
  split; [vm_compute; reflexivity|].
  apply (@predict_or_learn_impl_errors passthrough_base true witness_state [ex_with []; ex_with []] OutOfBounds).
  vm_compute. reflexivity.
Defined.

Lemma validate_options_spec_witness :
  validate_options 0 0 1 = Err (Thrown "synthcoversize must be >= 1") /\
  validate_options 100 0 (1 # 10) = Ok tt.
Proof.
  split.
  - apply (validate_options_spec 0 0 1). lia.
  - apply (validate_options_spec 100 0 (1 # 10)). split; [lia|split; [lra|reflexivity]].
Defined.

(** C34:  The setup accepts any [synthcoversize >= 1] (with a valid
    [epsilon] and [psi]), but the vote loops count with a [uint32_t]: for
    a size of [2^32] or more the counter wraps around before reaching it
    and [explore] never returns, whatever the fuel. *)
Theorem synthcover_large_size_diverges size epsilon psi :
  2 ^ 32 <= size -> (0 <= epsilon)%Q -> (0 < psi)%Q ->
  validate_options size epsilon psi = Ok tt /\
  forall version probs mn mx N preds r,
    explore (mk_synthcover epsilon psi size version probs mn mx) N preds <> Ok r.
Proof.
  intros Hs He Hp. split.
  - unfold validate_options. rewrite (proj2 (Z.leb_gt _ _)) by lia.
    rewrite (proj2 (Qlt_bool_false _ _)) by done. rewrite (proj2 (Qle_bool_false _ _)) by done. done.
  - intros version probs mn mx N preds r. unfold explore. destruct (_ <? _)%nat; [discriminate|].
    intros ([h p] & Hc & _)%bind_Ok. revert Hc. apply cover_outer_diverges; [done|lia].
Qed.

(** C33:  Along any sequence of calls that return, [learn] or [predict],
    from the constructor, [_min_cost] and [_max_cost] are the running
    minimum and maximum of [0.0] and of the cost every call recorded: the
    range always contains [0] and every recorded cost, and [predict] calls
    move it as [learn] calls do. *)
Theorem synthcover_cost_range `{BaseLearner (list example)} epsilon psi size version st seen :
  reachable epsilon psi size version st seen ->
  _min_cost st = fold_left (fun m c => std_min c m) seen 0%Q /\
  _max_cost st = fold_left (fun m c => std_max c m) seen 0%Q /\
  (_min_cost st <= 0 <= _max_cost st)%Q /\
  Forall (fun c => _min_cost st <= c <= _max_cost st)%Q seen.
Proof.
  induction 1 as [|st seen is_learn exs st' exs' _ (Hmin & Hmax & Hr & Hall) Hc].
  - simpl. split; [done|]. split; [done|]. split; [lra|constructor].
  - destruct (impl_costs _ _ _ _ _ Hc) as [-> ->]. rewrite !fold_left_app, <- Hmin, <- Hmax.
    destruct (logged_cost exs') as [c|]; simpl; [|rewrite app_nil_r; done].
    destruct (std_min_le c (_min_cost st)), (std_max_ge c (_max_cost st)).
    split; [done|]. split; [done|]. split; [lra|]. apply Forall_app. split; [|constructor; [lra|done]].
    eapply Forall_impl; [exact Hall|]. intros x Hx. simpl in *. lra.
Qed.

Lemma synthcover_large_size_diverges_witness :
  validate_options (2 ^ 32) 0 (1 # 10) = Ok tt /\
  forall version probs mn mx N preds r,
    explore (mk_synthcover 0 (1 # 10) (2 ^ 32) version probs mn mx) N preds <> Ok r.
Proof.
  apply (synthcover_large_size_diverges (2 ^ 32) 0 (1 # 10)); [lia|lra|lra].
Defined.

Lemma synthcover_cost_range_witness :
  match @predict_or_learn_impl passthrough_base false witness_state labeled_examples with
  | Ok (st', _) =>
      @reachable passthrough_base 0 (1 # 10) 10 0 st' [2%Q] /\
      _min_cost st' = fold_left (fun m c => std_min c m) [2%Q] 0%Q /\
      _max_cost st' = fold_left (fun m c => std_max c m) [2%Q] 0%Q /\
      (_min_cost st' <= 0 <= _max_cost st')%Q /\
      Forall (fun c => _min_cost st' <= c <= _max_cost st')%Q [2%Q]
  | Err _ => False
  end.
Proof.
  destruct (@predict_or_learn_impl passthrough_base false witness_state labeled_examples)
    as [[st' exs']|] eqn:E; [|vm_compute in E; discriminate].
  assert (Hl : logged_cost exs' = Some 2%Q).
  { pose proof E as E'. vm_compute in E'. injection E' as _ <-. reflexivity. }
  assert (Hr : @reachable passthrough_base 0 (1 # 10) 10 0 st' [2%Q]).
  { change [2%Q] with ([] ++ from_option (fun c => [c]) [] (Some 2%Q)). rewrite <- Hl.
    exact (reach_call _ _ _ _ _ _ _ _ _ _ (reach_construct _ _ _ _) E). }
  split; [exact Hr|]. exact (synthcover_cost_range _ _ _ _ _ _ Hr).
Defined.

End SynthcoverFacts.
