(* ===== verification/Mwt.v ===== *)
(** * Multiworld testing ([src/vowpalwabbit/core/src/reductions/mwt.cc])

    [Module Mwt] models the [mwt] reduction: the per-policy accumulators
    [evals], the list [policies] of policies seen, the observation counter
    [total], the evaluated namespaces, and the save area [feature_space]
    into which the evaluated namespaces of an example are swapped while the
    base learner runs.  [predict_or_learn] is the template
    [predict_or_learn<learn, exclude, is_learn>] with its three flags as
    arguments; it returns its final state together with its outcome, so
    that the state an exception leaves behind is observable as it is in the
    C++ code.  [mwt_learner] is the handler [mwt_setup] installs, and
    [update_stats_mwt] the statistics hook.  [Module MwtFacts] holds the
    invariant of the accumulators, the restoration of the example, the
    behaviour under a throwing base learner, the equivalence of the
    [exclude_eval] variants, the statistics read after a call, the bounds
    of the re-indexed features and the discovery of policies. *)

From Stdlib Require Import Qround.
From S2P Require Import Prelude WeightStore Learner.
Local Open Scope Z_scope.

Module Mwt.

(** [class policy_data]. *)
Record policy_data := mk_policy {
  cost : Q;       (* double *)
  action : Z;     (* uint32_t *)
  seen : bool }.

Definition policy_default : policy_data := mk_policy 0 0 false.

(** [class mwt].  [namespaces] is the [std::array<bool, 256>] as the set of
    its true entries; the two fields of [*all] the reduction reads are the
    weights (for [mask()] and [stride_shift()]) and the error log, where
    [out_error] records the rejected value. *)
Record mwt := mk_mwt {
  namespaces : gset Z;
  evals : list policy_data;
  optional_observation : bool * cb_class;
  policies : list Z;
  total : Q;
  num_classes : Z;
  learn : bool;
  mwt_indices : list Z;
  mwt_feature_space : gmap Z features;
  all_weights : Dense.dense_parameters;
  error_log : list Q }.

Definition set_evals (c : mwt) (e : list policy_data) : mwt :=
  mk_mwt (namespaces c) e (optional_observation c) (policies c) (total c)
    (num_classes c) (learn c) (mwt_indices c) (mwt_feature_space c) (all_weights c) (error_log c).
Definition set_policies (c : mwt) (p : list Z) : mwt :=
  mk_mwt (namespaces c) (evals c) (optional_observation c) p (total c)
    (num_classes c) (learn c) (mwt_indices c) (mwt_feature_space c) (all_weights c) (error_log c).
Definition set_observation (c : mwt) (o : bool * cb_class) : mwt :=
  mk_mwt (namespaces c) (evals c) o (policies c) (total c)
    (num_classes c) (learn c) (mwt_indices c) (mwt_feature_space c) (all_weights c) (error_log c).
Definition set_total (c : mwt) (t : Q) : mwt :=
  mk_mwt (namespaces c) (evals c) (optional_observation c) (policies c) t
    (num_classes c) (learn c) (mwt_indices c) (mwt_feature_space c) (all_weights c) (error_log c).
Definition set_indices (c : mwt) (i : list Z) : mwt :=
  mk_mwt (namespaces c) (evals c) (optional_observation c) (policies c) (total c)
    (num_classes c) (learn c) i (mwt_feature_space c) (all_weights c) (error_log c).
Definition set_feature_space (c : mwt) (f : gmap Z features) : mwt :=
  mk_mwt (namespaces c) (evals c) (optional_observation c) (policies c) (total c)
    (num_classes c) (learn c) (mwt_indices c) f (all_weights c) (error_log c).
Definition log_error (c : mwt) (v : Q) : mwt :=
  mk_mwt (namespaces c) (evals c) (optional_observation c) (policies c) (total c)
    (num_classes c) (learn c) (mwt_indices c) (mwt_feature_space c) (all_weights c) (error_log c ++ [v]).

Definition set_ec_feature_space (ec : example) (f : gmap Z features) : example :=
  mk_example (indices ec) f (l_cb ec) (pred_a_s ec) (pred_scalars ec) (pred_multiclass ec) (tag ec)
    (l_cs ec) (las_shared_example ec).
Definition set_ec_scalars (ec : example) (s : list scalar) : example :=
  mk_example (indices ec) (feature_space ec) (l_cb ec) (pred_a_s ec) s (pred_multiclass ec) (tag ec)
    (l_cs ec) (las_shared_example ec).

(** [static_cast<uint32_t>] and [static_cast<uint64_t>] of a [float]:
    truncation toward zero, undefined when the truncated value is out of the
    target's range. *)
Definition float_to_unsigned (bits : Z) (v : Q) : result Z :=
  let t := Z.quot (Qnum v) (Zpos (Qden v)) in
  if (0 <=? t) && (t <? 2 ^ bits) then Ok t else Err InvalidConversion.

(** [c.evals[i]], and its update; [std::vector::operator[]] does no bounds
    check, an index past the end is [OutOfBounds]. *)
Definition eval_at (c : mwt) (i : Z) : result policy_data :=
  if 0 <=? i then of_option OutOfBounds (evals c !! Z.to_nat i) else Err OutOfBounds.

Definition update_eval (c : mwt) (i : Z) (pd : policy_data) : mwt :=
  set_evals c (<[Z.to_nat i := pd]> (evals c)).

(** [value_policy] (lines 75-89). *)
Definition value_policy (c : mwt) (val : Q) (index : Z) : result mwt :=
  let c := if Qlt_bool val 0 || negb (Qeq_bool (inject_Z (Qfloor val)) val)
           then log_error c val else c in
  value ← float_to_unsigned 32 val;
  let new_index := (index &&& Dense.mask (all_weights c)) ≫ Dense.stride_shift (all_weights c) in
  pd ← eval_at c new_index;
  let c := if seen pd then c
           else set_policies (update_eval c new_index (mk_policy (cost pd) (action pd) true))
                  (policies c ++ [new_index]) in
  Ok (update_eval c new_index (mk_policy (cost pd) value true)).

(** [GD::foreach_feature<mwt, value_policy>] over one feature group, with
    offset 0 and multiplier 1 (code outside [src/]: [gd.h]). *)
Definition foreach_feature (c : mwt) (fs : features) : result mwt :=
  foldM (fun c '(v, i) => value_policy c v i) c fs.

(** Lines 104-108: charge every policy seen the estimated cost of the
    action it chose, and reset that action. *)
Definition charge_policies (c : mwt) : result mwt :=
  foldM (fun c policy =>
           pd ← eval_at c policy;
           Ok (update_eval c policy
                 (mk_policy (cost pd + get_cost_estimate (snd (optional_observation c)) (action pd))
                    0 (seen pd))))
        c (policies c).

(** Lines 94-109: the observation step. *)
Definition observe (c : mwt) (ec : example) : result mwt :=
  let c := set_observation c (get_observed_cost_cb (l_cb ec)) in
  if fst (optional_observation c) then
    let c := set_total c (total c + 1) in
    c ← foldM (fun c ns =>
                 if bool_decide (ns ∈ namespaces c)
                 then foreach_feature c (fs_get (feature_space ec) ns) else Ok c)
              c (indices ec);
    charge_policies c
  else Ok c.

(** Lines 125-131: the features of a namespace, re-indexed by
    [((index & mask) >> shift) * num_classes + value], each with value 1. *)
Definition remap_features (c : mwt) (fs : features) : result features :=
  let shift := Dense.stride_shift (all_weights c) in
  let weight_mask := Dense.mask (all_weights c) in
  mapM (fun '(v, i) =>
          vi ← float_to_unsigned 64 v;
          let new_index := wrap64 (wrap64 (((i &&& weight_mask) ≫ shift) * num_classes c) + vi) in
          Ok (1%Q, wrap64 (new_index ≪ shift)))
       fs.

(** [std::swap(c.feature_space[ns], ec.feature_space[ns])]. *)
Definition swap_ns (c : mwt) (ec : example) (ns : Z) : mwt * example :=
  (set_feature_space c (<[ns := fs_get (feature_space ec) ns]> (mwt_feature_space c)),
   set_ec_feature_space ec (<[ns := fs_get (mwt_feature_space c) ns]> (feature_space ec))).

(** Lines 120-134, the body of the loop over [ec.indices]: an evaluated
    namespace is recorded in [c.indices], replaced by its re-indexed copy
    when [learn], and swapped into the save area. *)
Definition swap_in_step (learn : bool) (s : mwt * example) (ns : Z) : result (mwt * example) :=
  let '(c, ec) := s in
  if bool_decide (ns ∈ namespaces c) then
    let c := set_indices c (mwt_indices c ++ [ns]) in
    c ← (if learn then
           fs ← remap_features c (fs_get (feature_space ec) ns);
           Ok (set_feature_space c (<[ns := fs]> (mwt_feature_space c)))
         else Ok c);
    Ok (swap_ns c ec ns)
  else Ok (c, ec).

(** Lines 115-135. *)
Definition swap_in (learn : bool) (c : mwt) (ec : example) : result (mwt * example) :=
  foldM (swap_in_step learn) (set_indices c [], ec) (indices ec).

(** Lines 152-157: swap back, last namespace first, emptying [c.indices]. *)
Definition swap_out (c : mwt) (ec : example) : mwt * example :=
  foldl (fun '(c, ec) ns => swap_ns c ec ns) (set_indices c [], ec) (reverse (mwt_indices c)).

(** Lines 162-169: one prediction per policy seen, its average cost. *)
Definition policy_predictions (c : mwt) : result (list scalar) :=
  mapM (fun index => pd ← eval_at c index; Ok (fdiv (cost pd) (total c))) (policies c).

Section Handler.
Context `{BaseLearner example}.

(** [predict_or_learn<learn, exclude, is_learn>] (lines 91-170).  The
  result carries the state at the point the handler returned or threw:
  an exception of the base learner leaves the example with its evaluated
  namespaces swapped out, as the C++ code does. *)
Definition predict_or_learn (learn exclude is_learn : bool) (c : mwt) (ec : example)
  : (mwt * example) * result unit :=
match observe c ec with
| Err e => ((c, ec), Err e)
| Ok c1 =>
  match (if exclude || learn then swap_in learn c1 ec else Ok (c1, ec)) with
  | Err e => ((c1, ec), Err e)
  | Ok (c2, ec2) =>
    match (if learn then learn_or_predict is_learn ec2 else Ok ec2) with
    | Err e => ((c2, ec2), Err e)
    | Ok ec3 =>
      let '(c4, ec4) := if exclude || learn then swap_out c2 ec3 else (c2, ec3) in
      match policy_predictions c4 with
      | Err e => ((c4, ec4), Err e)
      | Ok ps =>
        let preds := (if learn then [Finite (inject_Z (pred_multiclass ec4))] else []) ++ ps in
        ((c4, set_ec_scalars ec4 preds), Ok tt)
      end
    end
  end
end.

(** The handler [mwt_setup] installs (lines 308-327): the template's
    [learn] flag is the reduction's [learn] field, and [exclude] is the
    [exclude_eval] option when learning and [false] otherwise. *)
Definition mwt_learner (exclude_eval : bool) (is_learn : bool) (c : mwt) (ec : example)
  : (mwt * example) * result unit :=
  if learn c then predict_or_learn true exclude_eval is_learn c ec
  else predict_or_learn false false is_learn c ec.

End Handler.

(** The arguments of [sd.update] (outside [src/]) in [update_stats_mwt]. *)
Record stats_update := mk_stats_update {
  su_test_only : bool;
  su_labeled : bool;
  su_loss : Q;
  su_weight : Q;
  su_num_features : Z }.

(** [update_stats_mwt] (lines 172-183): when learning with an observation,
    the loss is the cost estimate of the action in [ec.pred.scalars[0]],
    cast to [uint32_t]; [test_only] and [get_num_features()] are inputs. *)
Definition update_stats_mwt (data : mwt) (ec : example) (test_only : bool) (num_features : Z)
  : result stats_update :=
  loss ← (if learn data && fst (optional_observation data) then
            s0 ← of_option OutOfBounds (head (pred_scalars ec));
            a ← (match s0 with Finite q => float_to_unsigned 32 q | NonFinite => Err InvalidConversion end);
            Ok (get_cost_estimate (snd (optional_observation data)) a)
          else Ok 0%Q);
  Ok (mk_stats_update test_only (fst (optional_observation data)) loss 1 num_features).

(** [mwt_setup] (lines 297-304): the evaluated namespaces are the bytes of
    the option string, [evals] has one entry per weight ([all.length()]). *)
Definition mwt_setup (s : string) (num_classes : Z) (length : nat) (w : Dense.dense_parameters) : mwt :=
  mk_mwt (list_to_set (map (fun a => Z.of_nat (Ascii.nat_of_ascii a)) (String.list_ascii_of_string s)))
    (replicate length policy_default) (false, mk_cb_class 0 0 0 0) [] 0
    num_classes (bool_decide (0 < num_classes)) [] ∅ w [].

(** Fixtures: a base learner that returns its input, one that throws, a
    store of 8 weights of stride 2 ([mask = 15], [stride_shift = 1]) and
    an example with an observed cost whose namespace ['a'] (97) is
    evaluated and ['b'] (98) is not. *)
Definition identity_base : BaseLearner example :=
  {| base_learn := fun e => Ok e; base_predict := fun e => Ok e |}.
Definition throwing_base (msg : string) : BaseLearner example :=
  {| base_learn := fun _ => Err (Thrown msg); base_predict := fun _ => Err (Thrown msg) |}.
(** A base learner that predicts the class [a]. *)
Definition predicting_base (a : Z) : BaseLearner example :=
  let f (e : example) := Ok (mk_example (indices e) (feature_space e) (l_cb e) (pred_a_s e)
                                        (pred_scalars e) a (tag e) (l_cs e) (las_shared_example e)) in
  {| base_learn := f; base_predict := f |}.
Definition fixture_weights : Dense.dense_parameters := Dense.mk_dense (Some 1%positive) 15 1 false.
Definition fixture_mwt : mwt := mwt_setup "a" 3 8 fixture_weights.
Definition fixture_example (indices : list Z) : example :=
  mk_example indices (<[97 := [(2%Q, 4); (1%Q, 7)]]> (<[98 := [(1%Q, 3)]]> ∅))
    [mk_cb_class 1 2 (1 # 2) 0] [] [] 0 [] [] None.

(** The namespaces of the fixture example: ['a'] and ['b']. *)
Definition fixture_namespaces : list Z := [97; 98].

(** A namespace listed twice in [ec.indices] (lines 118-135 then clear the
    saved copy on its second visit). *)
Definition duplicated_namespaces : list Z := [97; 97].

End Mwt.

Module MwtFacts.
Import Mwt.

(** The invariant of the accumulators between two calls of the handler:
    [evals] keeps one entry per weight, [policies] lists each entry marked
    [seen] exactly once, a policy is only recorded under an observation
    (so [total >= 1] as soon as one is), and the weights' geometry gives
    [mask + 1 = N << stride_shift] ([all.length()] entries of stride
    [2^stride_shift]). *)
Definition mwt_inv (N : nat) (c : mwt) : Prop :=
  length (evals c) = N /\
  NoDup (policies c) /\
  (forall p, p ∈ policies c <-> exists pd, eval_at c p = Ok pd /\ seen pd = true) /\
  (policies c <> [] -> (1 <= total c)%Q) /\ (0 <= total c)%Q /\
  0 <= Dense.stride_shift (all_weights c) /\ 0 <= Dense.mask (all_weights c) /\
  Dense.mask (all_weights c) + 1 = Z.of_nat N * 2 ^ Dense.stride_shift (all_weights c).

(** The fields the swaps leave alone. *)
Definition same_accumulators (c c' : mwt) : Prop :=
  evals c' = evals c /\ policies c' = policies c /\ total c' = total c /\
  namespaces c' = namespaces c /\ num_classes c' = num_classes c /\
  learn c' = learn c /\ all_weights c' = all_weights c.

(** What the example holds in an evaluated namespace once swapped: the
    re-indexed copy of its features when [learn], else what the save area
    held. *)
Definition swapped_in (learn : bool) (c : mwt) (orig saved now : features) : Prop :=
  if learn then remap_features c orig = Ok now else now = saved.

(** The configuration of the reduction, which no call changes. *)
Definition config_of (c : mwt) : gset Z * Z * bool * Dense.dense_parameters :=
  (namespaces c, num_classes c, learn c, all_weights c).

Lemma eval_at_Ok c p pd : eval_at c p = Ok pd <-> 0 <= p /\ evals c !! Z.to_nat p = Some pd.
Proof.
  unfold eval_at. destruct (Z.leb_spec 0 p); [rewrite of_option_Ok|]; split; try tauto;
    [congruence|lia].
Qed.

Lemma eval_at_update c i p pd :
  0 <= i -> (Z.to_nat i < length (evals c))%nat ->
  eval_at (update_eval c i pd) p = if decide (p = i) then Ok pd else eval_at c p.
Proof.
  intros Hi Hlen. unfold eval_at, update_eval, set_evals; simpl.
  case_decide as Hp; [subst; rewrite (proj2 (Z.leb_le 0 i) Hi); simpl;
    rewrite list_lookup_insert_eq; done|].
  destruct (Z.leb_spec 0 p); [|done]. rewrite list_lookup_insert_ne; [done|lia].
Qed.

Lemma eval_at_bound N c p pd : length (evals c) = N -> eval_at c p = Ok pd -> 0 <= p < Z.of_nat N.
Proof. intros Hl (Hp & Hs)%eval_at_Ok. apply lookup_lt_Some in Hs. lia. Qed.

Lemma eval_at_in N c p : length (evals c) = N -> 0 <= p < Z.of_nat N -> exists pd, eval_at c p = Ok pd.
Proof.
  intros Hl Hp. destruct (lookup_lt_is_Some_2 (evals c) (Z.to_nat p)) as [pd Hpd]; [lia|].
  exists pd. apply eval_at_Ok; split; [lia|done].
Qed.

(** Line 80: [(index & mask) >> stride_shift] is an index of [evals]. *)
Lemma new_index_bound (N : nat) (mask s index : Z) :
  0 <= s -> 0 <= mask -> mask + 1 = Z.of_nat N * 2 ^ s ->
  0 <= (index &&& mask) ≫ s < Z.of_nat N.
Proof.
  intros Hs Hm Hg. pose proof (Z.pow_pos_nonneg 2 s ltac:(lia) Hs).
  assert (0 <= index &&& mask <= mask) as Hr.
  { split; [apply Z.land_nonneg; lia|apply land_le_r; lia]. }
  rewrite Z.shiftr_div_pow2 by lia. split; [apply Z.div_pos; lia|].
  apply Z.div_lt_upper_bound; lia.
Qed.

Lemma eval_at_evals c c' p : evals c' = evals c -> eval_at c' p = eval_at c p.
Proof. unfold eval_at. intros ->. done. Qed.

Lemma inv_same N c c' : same_accumulators c c' -> mwt_inv N c -> mwt_inv N c'.
Proof.
  intros (He & Hp & Ht & _ & _ & _ & Hw) (?&?&Hiff&?&?&?&?&?).
  repeat split; rewrite ?He, ?Hp, ?Ht, ?Hw; try done.
  - intros Hin. apply Hiff in Hin as (pd & ? & ?). exists pd. rewrite (eval_at_evals c); done.
  - intros (pd & Hpd & ?). apply Hiff. exists pd. rewrite <- (eval_at_evals c c'); done.
Qed.

(** Marking entry [i] as seen: [policies] grows by [i] exactly when the
    entry was not seen before (lines 82-86). *)
Lemma inv_mark N c i pd pd' :
  mwt_inv N c -> (1 <= total c)%Q -> eval_at c i = Ok pd -> seen pd' = true ->
  mwt_inv N (set_policies (update_eval c i pd') (if seen pd then policies c else policies c ++ [i])).
Proof.
  intros (Hl&Hnd&Hiff&_&Ht0&Hs&Hm&Hg) Ht Hpd Hseen'.
  pose proof (eval_at_bound N c i pd Hl Hpd) as Hi.
  assert (Hupd : forall p, eval_at (set_policies (update_eval c i pd') (if seen pd then policies c else policies c ++ [i])) p
                  = if decide (p = i) then Ok pd' else eval_at c p).
  { intros p. rewrite (eval_at_evals (update_eval c i pd')); [|done]. apply eval_at_update; lia. }
  unfold mwt_inv. simpl. rewrite length_insert. repeat split; try done.
  - destruct (seen pd) eqn:Hsp; [done|]. apply NoDup_app; split; [done|split; [|apply NoDup_singleton]].
    intros x Hx ->%list_elem_of_singleton. apply Hiff in Hx as (pd0 & H0 & H1). congruence.
  - intros Hin. rewrite Hupd. case_decide; [subst; eauto|].
    apply Hiff. destruct (seen pd); [done|]. apply elem_of_app in Hin as [?|?%list_elem_of_singleton]; [done|lia].
  - rewrite Hupd. case_decide as Hpi; [subst; intros _; destruct (seen pd) eqn:?;
      [apply Hiff; eauto|apply elem_of_app; right; apply list_elem_of_singleton; done]|].
    intros Hx. destruct (seen pd); [apply Hiff; done|apply elem_of_app; left; apply Hiff; done].
Qed.

(** [value_policy] keeps the invariant once the observation is counted,
    and fails only with an undefined conversion: its [evals] index is in
    range. *)
Lemma value_policy_inv N c v i c' :
  mwt_inv N c -> (1 <= total c)%Q -> value_policy c v i = Ok c' ->
  mwt_inv N c' /\ (1 <= total c')%Q.
Proof.
  intros Hinv Ht H. unfold value_policy in H.
  match type of H with context [if ?b then log_error c v else c] =>
    set (c1 := if b then log_error c v else c) in H end.
  assert (Hs : same_accumulators c c1) by (subst c1; destruct (_ || _); repeat split).
  apply (inv_same N) in Hs as Hinv1; [|done].
  destruct Hs as (_&_&Ht1&_&_&Hw1).
  destruct (float_to_unsigned 32 v) as [value|e]; simpl in H; [|discriminate].
  destruct (eval_at c1 _) as [pd|e] eqn:Hpd; simpl in H; [|discriminate]. injection H as <-.
  pose proof (eval_at_bound N c1 _ pd (proj1 Hinv1) Hpd) as Hb.
  split; [|destruct (seen pd); simpl; congruence].
  assert (Hm := inv_mark N c1 _ pd (mk_policy (cost pd) value true) Hinv1 ltac:(congruence) Hpd eq_refl).
  destruct (seen pd); [destruct c1; done|].
  unfold update_eval, set_evals, set_policies in *; simpl in *.
  rewrite list_insert_insert, decide_True by done. exact Hm.
Qed.

Lemma value_policy_err N c v i e :
  mwt_inv N c -> value_policy c v i = Err e -> e = InvalidConversion.
Proof.
  intros Hinv H. unfold value_policy in H.
  match type of H with context [if ?b then log_error c v else c] =>
    set (c1 := if b then log_error c v else c) in H end.
  assert (Hs : same_accumulators c c1) by (subst c1; destruct (_ || _); repeat split).
  apply (inv_same N) in Hs as (Hl&_&_&_&_&Hsh&Hm&Hg); [|done].
  unfold float_to_unsigned in H. destruct (_ && _); simpl in H; [|congruence].
  destruct (eval_at_in N c1 ((i &&& Dense.mask (all_weights c1)) ≫ Dense.stride_shift (all_weights c1)) Hl)
    as [pd Hpd]; [apply new_index_bound; done|].
  rewrite Hpd in H. simpl in H. congruence.
Qed.

Lemma value_policy_config c v i c' : value_policy c v i = Ok c' -> config_of c' = config_of c.
Proof.
  unfold value_policy. destruct (_ || _), (float_to_unsigned 32 v), (eval_at _ _) as [pd|]; simpl;
    try discriminate; intros [= <-]; destruct (seen pd); done.
Qed.

Lemma foreach_feature_inv N c fs c' :
  mwt_inv N c -> (1 <= total c)%Q -> foreach_feature c fs = Ok c' ->
  mwt_inv N c' /\ (1 <= total c')%Q /\ config_of c' = config_of c.
Proof.
  intros Hinv Ht. unfold foreach_feature.
  apply (foldM_inv (fun a => mwt_inv N a /\ (1 <= total a)%Q /\ config_of a = config_of c)); [|done].
  intros a [v i] a' _ (Ha & Hta & Hca) H. rewrite <- Hca. split; [eapply value_policy_inv; eauto|].
  split; [eapply value_policy_inv; eauto|eapply value_policy_config; eauto].
Qed.

Lemma foreach_feature_err N c fs e :
  mwt_inv N c -> (1 <= total c)%Q -> foreach_feature c fs = Err e -> e = InvalidConversion.
Proof.
  intros Hinv Ht. unfold foreach_feature.
  apply (foldM_err (fun a => mwt_inv N a /\ (1 <= total a)%Q) (fun e => e = InvalidConversion)); [| |done].
  - intros a [v i] a' _ [Ha Hta] H. eapply value_policy_inv; eauto.
  - intros a [v i] e' _ [Ha _] H. eapply value_policy_err; eauto.
Qed.

Lemma charge_step N a p : mwt_inv N a -> (1 <= total a)%Q -> p ∈ policies a ->
  exists pd, eval_at a p = Ok pd /\ seen pd = true /\
    forall pd', seen pd' = true -> mwt_inv N (update_eval a p pd').
Proof.
  intros Hinv Ht Hp. pose proof Hinv as (_&_&Hiff&_).
  apply Hiff in Hp as (pd&Hpd&Hs). exists pd. do 2 (split; [done|]). intros pd' Hs'.
  pose proof (inv_mark N a p pd pd' Hinv Ht Hpd Hs') as Hm. rewrite Hs in Hm. destruct a; exact Hm.
Qed.

(** Lines 104-108 never index [evals] out of range. *)
Lemma charge_policies_inv N c : mwt_inv N c -> (1 <= total c)%Q ->
  exists c', charge_policies c = Ok c' /\ mwt_inv N c' /\ (1 <= total c')%Q /\ config_of c' = config_of c.
Proof.
  intros Hinv Ht.
  cut (exists c', charge_policies c = Ok c' /\
         (mwt_inv N c' /\ (1 <= total c')%Q /\ config_of c' = config_of c /\
          policies c' = policies c /\ optional_observation c' = optional_observation c));
    [intros (c' & ? & ? & ? & ? & _); eauto|].
  unfold charge_policies. apply foldM_ok; [|done].
  intros a p Hp (Hia & Hta & Hca & Hpa & Hoa). rewrite <- Hpa in Hp.
  destruct (charge_step N a p Hia Hta Hp) as (pd & -> & Hs & Hm). simpl.
  eexists; split; [done|]. split; [apply Hm; done|]. done.
Qed.

Lemma inv_set_observation N c o : mwt_inv N c -> mwt_inv N (set_observation c o).
Proof. apply inv_same. repeat split. Qed.

Lemma inv_count N c : mwt_inv N c -> mwt_inv N (set_total c (total c + 1)) /\ (1 <= total c + 1)%Q.
Proof.
  intros (?&?&Hiff&?&Ht&?&?&?). assert (1 <= total c + 1)%Q by lra.
  split; [|done]. repeat split; simpl; try done; try lra; apply Hiff.
Qed.

(** The observation step keeps the invariant, counts the observation, and
    fails only on an undefined conversion of a feature value. *)
Lemma observe_inv N c ec c' :
  mwt_inv N c -> observe c ec = Ok c' ->
  mwt_inv N c' /\ config_of c' = config_of c /\
  (fst (get_observed_cost_cb (l_cb ec)) = true -> (1 <= total c')%Q).
Proof.
  intros Hinv. unfold observe. simpl.
  destruct (fst (get_observed_cost_cb (l_cb ec))) eqn:Ho; [|intros [= <-]; split;
    [apply inv_set_observation|]; done].
  destruct (inv_count N _ (inv_set_observation N c (get_observed_cost_cb (l_cb ec)) Hinv)) as [Hi1 Ht1].
  intros (c2 & H2 & H3)%bind_Ok.
  assert (mwt_inv N c2 /\ (1 <= total c2)%Q /\ config_of c2 = config_of c) as (Hi2 & Ht2 & Hc2).
  { revert H2. apply (foldM_inv (fun a => mwt_inv N a /\ (1 <= total a)%Q /\ config_of a = config_of c));
      [|done]. intros a ns a' _ (Ha & Hta & Hca).
    case_bool_decide; [|intros [= <-]; done].
    intros Hf. destruct (foreach_feature_inv N a _ _ Ha Hta Hf) as (?&?&->); done. }
  destruct (charge_policies_inv N c2 Hi2 Ht2) as (c3 & Hc3 & ? & ? & ?). rewrite Hc3 in H3.
  injection H3 as <-. split; [done|]. split; [congruence|done].
Qed.

Lemma observe_err N c ec e : mwt_inv N c -> observe c ec = Err e -> e = InvalidConversion.
Proof.
  intros Hinv. unfold observe. simpl.
  destruct (fst (get_observed_cost_cb (l_cb ec))); [|discriminate].
  destruct (inv_count N _ (inv_set_observation N c (get_observed_cost_cb (l_cb ec)) Hinv)) as [Hi1 Ht1].
  intros [H|(c2 & H2 & H3)]%bind_Err.
  - revert H. apply (foldM_err (fun a => mwt_inv N a /\ (1 <= total a)%Q) (fun e => e = InvalidConversion)); [| |done].
    + intros a ns a' _ (Ha & Hta). case_bool_decide; [|intros [= <-]; done].
      intros Hf. destruct (foreach_feature_inv N a _ _ Ha Hta Hf) as (?&?&_); done.
    + intros a ns e' _ (Ha & Hta). case_bool_decide; [|discriminate]. eapply (foreach_feature_err N); done.
  - assert (mwt_inv N c2 /\ (1 <= total c2)%Q) as [Hi2 Ht2].
    { revert H2. apply (foldM_inv (fun a => mwt_inv N a /\ (1 <= total a)%Q)); [|done].
      intros a ns a' _ (Ha & Hta). case_bool_decide; [|intros [= <-]; done].
      intros Hf. destruct (foreach_feature_inv N a _ _ Ha Hta Hf) as (?&?&_); done. }
    destruct (charge_policies_inv N c2 Hi2 Ht2) as (c3 & Hc3 & _). congruence.
Qed.

(** ** Discovery of policies *)

(** [value_policy] only appends to [policies], and leaves the entry of the
    feature's index recorded there. *)
Lemma value_policy_discovers N c v i c' :
  mwt_inv N c -> value_policy c v i = Ok c' ->
  policies c `prefix_of` policies c' /\
  (i &&& Dense.mask (all_weights c)) ≫ Dense.stride_shift (all_weights c) ∈ policies c'.
Proof.
  intros Hinv H. unfold value_policy in H.
  match type of H with context [if ?b then log_error c v else c] =>
    set (c1 := if b then log_error c v else c) in H end.
  assert (Hs : same_accumulators c c1) by (subst c1; destruct (_ || _); repeat split).
  apply (inv_same N) in Hs as Hinv1; [|done]. destruct Hinv1 as (_&_&Hiff&_).
  destruct Hs as (_&Hp1&_&_&_&_&Hw1). rewrite <- Hp1, <- Hw1.
  destruct (float_to_unsigned 32 v) as [value|e]; simpl in H; [|discriminate].
  destruct (eval_at c1 _) as [pd|e] eqn:Hpd; simpl in H; [|discriminate]. injection H as <-.
  destruct (seen pd) eqn:Hseen; simpl.
  - split; [done|]. apply Hiff. eauto.
  - split; [apply prefix_app_r; done|]. apply elem_of_app. right. apply list_elem_of_singleton. done.
Qed.

(** Every feature of a namespace the loop of lines 98-102 visits leaves its
    policy recorded, and the policies recorded before stay, in order. *)
Lemma foreach_feature_discovers N fs : forall c c',
  mwt_inv N c -> (1 <= total c)%Q -> foreach_feature c fs = Ok c' ->
  policies c `prefix_of` policies c' /\
  forall v i, (v, i) ∈ fs -> (i &&& Dense.mask (all_weights c)) ≫ Dense.stride_shift (all_weights c) ∈ policies c'.
Proof.
  induction fs as [|[v0 i0] fs IH]; intros c c' Hinv Ht; simpl; [intros [= <-]; split; [done|set_solver]|].
  intros (c1 & H1 & H2)%bind_Ok.
  destruct (value_policy_discovers N c v0 i0 c1 Hinv H1) as [Hp1 Hin1].
  destruct (value_policy_inv N c v0 i0 c1 Hinv Ht H1) as [Hinv1 Ht1].
  pose proof (value_policy_config _ _ _ _ H1) as Hc1. injection Hc1 as _ _ _ Hw1.
  destruct (IH c1 c' Hinv1 Ht1 H2) as [Hp2 Hin2]. rewrite Hw1 in Hin2.
  split; [etrans; eauto|]. intros v i [[= -> ->]|Hi]%elem_of_cons; [|eauto].
  eapply elem_of_prefix; eauto.
Qed.

Lemma charge_policies_policies c c' : charge_policies c = Ok c' -> policies c' = policies c.
Proof.
  unfold charge_policies. apply (foldM_inv (fun a => policies a = policies c)); [|done].
  intros a p a' _ Ha. destruct (eval_at a p); simpl; [|discriminate]. intros [= <-]. done.
Qed.

(** The observation step: without an observed cost it records nothing;
    with one, every feature of every evaluated namespace of the example
    has its policy recorded, after the policies recorded before. *)
Lemma observe_discovers N c ec c' :
  mwt_inv N c -> observe c ec = Ok c' ->
  policies c `prefix_of` policies c' /\
  (fst (get_observed_cost_cb (l_cb ec)) = false -> policies c' = policies c) /\
  (fst (get_observed_cost_cb (l_cb ec)) = true ->
   forall ns v i, ns ∈ indices ec -> ns ∈ namespaces c -> (v, i) ∈ fs_get (feature_space ec) ns ->
     (i &&& Dense.mask (all_weights c)) ≫ Dense.stride_shift (all_weights c) ∈ policies c').
Proof.
  intros Hinv. unfold observe. simpl.
  destruct (fst (get_observed_cost_cb (l_cb ec))) eqn:Ho; [|intros [= <-]; done].
  destruct (inv_count N _ (inv_set_observation N c (get_observed_cost_cb (l_cb ec)) Hinv)) as [Hi1 Ht1].
  intros (c2 & H2 & H3)%bind_Ok. rewrite (charge_policies_policies _ _ H3).
  set (c0 := set_total _ _) in Hi1, Ht1, H2.
  assert (Hloop : forall L a a', mwt_inv N a -> (1 <= total a)%Q -> config_of a = config_of c0 ->
    foldM (fun c ns => if bool_decide (ns ∈ namespaces c) then foreach_feature c (fs_get (feature_space ec) ns)
                       else Ok c) a L = Ok a' ->
    policies a `prefix_of` policies a' /\
    forall ns v i, ns ∈ L -> ns ∈ namespaces c0 -> (v, i) ∈ fs_get (feature_space ec) ns ->
      (i &&& Dense.mask (all_weights c0)) ≫ Dense.stride_shift (all_weights c0) ∈ policies a').
  { induction L as [|ns L IH]; intros a a' Ha Hta Hca; simpl; [intros [= <-]; split; [done|set_solver]|].
    intros (a1 & H1 & Hr)%bind_Ok.
    assert (Hn : namespaces a = namespaces c0) by exact (f_equal (fun x => x.1.1.1) Hca).
    assert (Hw : all_weights a = all_weights c0) by exact (f_equal (fun x => x.2) Hca).
    assert (mwt_inv N a1 /\ (1 <= total a1)%Q /\ config_of a1 = config_of c0 /\
            policies a `prefix_of` policies a1 /\
            (ns ∈ namespaces c0 -> forall v i, (v, i) ∈ fs_get (feature_space ec) ns ->
               (i &&& Dense.mask (all_weights c0)) ≫ Dense.stride_shift (all_weights c0) ∈ policies a1))
      as (Ha1 & Ht1' & Hc1 & Hp1 & Hin1).
    { case_bool_decide as Hns.
      - destruct (foreach_feature_inv N a _ _ Ha Hta H1) as (? & ? & Hc). rewrite <- Hw.
        destruct (foreach_feature_discovers N _ a a1 Ha Hta H1) as [? ?].
        split; [done|]. split; [done|]. split; [rewrite Hc; exact Hca|]. eauto.
      - injection H1 as <-. split; [done|]. split; [done|]. split; [exact Hca|].
        split; [done|]. rewrite <- Hn. done. }
    destruct (IH a1 a' Ha1 Ht1' Hc1 Hr) as [Hp2 Hin2]. split; [etrans; eauto|].
    intros ns' v i [->|Hns']%elem_of_cons; [|eauto]. intros Hn' Hvi. eapply elem_of_prefix; eauto. }
  destruct (Hloop _ _ _ Hi1 Ht1 eq_refl H2) as [Hp Hin]. split; [done|]. split; [done|]. intros _. exact Hin.
Qed.

Lemma same_acc_refl c : same_accumulators c c.
Proof. repeat split. Qed.

Lemma same_acc_trans c1 c2 c3 :
  same_accumulators c1 c2 -> same_accumulators c2 c3 -> same_accumulators c1 c3.
Proof. intros (?&?&?&?&?&?&?) (?&?&?&?&?&?&?); repeat split; congruence. Qed.

Lemma remap_features_config c c' fs :
  config_of c' = config_of c -> remap_features c' fs = remap_features c fs.
Proof. unfold config_of, remap_features. intros [= _ -> _ ->]. done. Qed.

Lemma same_acc_config c c' : same_accumulators c c' -> config_of c' = config_of c.
Proof. intros (?&?&?&?&?&?&?). unfold config_of. congruence. Qed.

(** One iteration of lines 120-134. *)
Lemma swap_in_step_spec learn c e ns c1 e1 :
  swap_in_step learn (c, e) ns = Ok (c1, e1) ->
  same_accumulators c c1 /\ e1 = set_ec_feature_space e (feature_space e1) /\
  (if bool_decide (ns ∈ namespaces c) then
     mwt_indices c1 = mwt_indices c ++ [ns] /\
     fs_get (mwt_feature_space c1) ns = fs_get (feature_space e) ns /\
     swapped_in learn c (fs_get (feature_space e) ns) (fs_get (mwt_feature_space c) ns)
       (fs_get (feature_space e1) ns)
   else c1 = c /\ e1 = e) /\
  (forall ns', ns' <> ns -> fs_get (mwt_feature_space c1) ns' = fs_get (mwt_feature_space c) ns' /\
                           fs_get (feature_space e1) ns' = fs_get (feature_space e) ns').
Proof.
  unfold swap_in_step, swapped_in. case_bool_decide as Hns; [|intros [= <- <-]; destruct e; repeat split; done].
  destruct learn.
  - intros (c' & (fs & Hfs & [= <-])%bind_Ok & [= <- <-])%bind_Ok. simpl.
    rewrite !fs_get_insert, !decide_True by done.
    split; [repeat split|]. split; [destruct e; done|]. split; [split; [done|split; [done|exact Hfs]]|].
    intros ns' Hne. rewrite !fs_get_insert, !decide_False by done. done.
  - intros [= <- <-]. simpl. rewrite !fs_get_insert, !decide_True by done.
    split; [repeat split|]. split; [destruct e; done|]. split; [done|].
    intros ns' Hne. rewrite !fs_get_insert, !decide_False by done. done.
Qed.

Lemma swapped_in_config learn c c' orig saved now :
  config_of c' = config_of c -> swapped_in learn c' orig saved now <-> swapped_in learn c orig saved now.
Proof. intros H. unfold swapped_in. rewrite (remap_features_config c c'); done. Qed.

Lemma set_ec_feature_space_twice e x y :
  set_ec_feature_space (set_ec_feature_space e x) y = set_ec_feature_space e y.
Proof. done. Qed.

(** Lines 118-135 on a list of distinct namespaces: each evaluated one is
    saved in [c.feature_space] and replaced in the example, the others are
    left alone. *)
Lemma swap_in_fold learn L : NoDup L -> forall c e c2 e2,
  foldM (swap_in_step learn) (c, e) L = Ok (c2, e2) ->
  same_accumulators c c2 /\ e2 = set_ec_feature_space e (feature_space e2) /\
  mwt_indices c2 = mwt_indices c ++ filter (fun ns => ns ∈ namespaces c) L /\
  forall ns,
    (ns ∈ L -> ns ∈ namespaces c ->
       fs_get (mwt_feature_space c2) ns = fs_get (feature_space e) ns /\
       swapped_in learn c (fs_get (feature_space e) ns) (fs_get (mwt_feature_space c) ns)
         (fs_get (feature_space e2) ns)) /\
    (~ (ns ∈ L /\ ns ∈ namespaces c) ->
       fs_get (mwt_feature_space c2) ns = fs_get (mwt_feature_space c) ns /\
       fs_get (feature_space e2) ns = fs_get (feature_space e) ns).
Proof.
  induction L as [|ns0 L IH]; intros Hnd c e c2 e2; simpl.
  - intros [= <- <-]. split; [apply same_acc_refl|]. split; [destruct e; done|].
    rewrite app_nil_r. split; [done|]. intros ns. split; [inversion 1|done].
  - apply NoDup_cons in Hnd as [Hn0 Hnd].
    intros ([c1 e1] & H1 & H2)%bind_Ok.
    destruct (swap_in_step_spec _ _ _ _ _ _ H1) as (Hs1 & He1 & Hb & Hoth).
    destruct (IH Hnd _ _ _ _ H2) as (Hs2 & He2 & Hi2 & Hp2).
    pose proof (same_acc_config _ _ Hs1) as Hc1. pose proof Hs1 as (_&_&_&Hns1&_).
    split; [eapply same_acc_trans; eauto|].
    split; [rewrite He2, He1; done|].
    rewrite filter_cons, Hi2, Hns1. split.
    { case_bool_decide; destruct Hb as [Hb _]; [rewrite Hb, decide_True, <- app_assoc by done; done|].
      rewrite Hb, decide_False by done. done. }
    intros ns. destruct (decide (ns = ns0)) as [->|Hne].
    + destruct (Hp2 ns0) as [_ Hp]. rewrite Hns1 in Hp. destruct Hp as [-> ->]; [intros [? _]; done|].
      case_bool_decide as Hev.
      * destruct Hb as (_ & Hb1 & Hb2). split; [intros _ _; split; done|].
        intros Hx. exfalso. apply Hx. split; [left|]; done.
      * destruct Hb as [-> ->]. split; [intros _ Hx; done|done].
    + destruct (Hoth ns Hne) as [Hc1n He1n]. destruct (Hp2 ns) as [Hin Hout]. rewrite Hns1 in Hin, Hout.
      split.
      * intros [?|Hin']%elem_of_cons Hev; [done|].
        destruct (Hin Hin' Hev) as [-> Hsw]. rewrite <- He1n, <- Hc1n.
        split; [done|]. apply (swapped_in_config learn c c1); done.
      * intros Hx. rewrite <- He1n, <- Hc1n. apply Hout.
        intros [? ?]; apply Hx; split; [right|]; done.
Qed.

(** Lines 152-157 on a list of distinct namespaces: each is swapped back
    exactly once. *)
Lemma swap_back_fold R : NoDup R -> forall c e c' e',
  foldl (fun '(c, ec) ns => swap_ns c ec ns) (c, e) R = (c', e') ->
  same_accumulators c c' /\ mwt_indices c' = mwt_indices c /\
  e' = set_ec_feature_space e (feature_space e') /\
  forall ns,
    (ns ∈ R -> fs_get (feature_space e') ns = fs_get (mwt_feature_space c) ns) /\
    (ns ∉ R -> fs_get (feature_space e') ns = fs_get (feature_space e) ns).
Proof.
  induction R as [|ns0 R IH]; intros Hnd c e c' e'; simpl.
  - intros [= <- <-]. split; [apply same_acc_refl|]. split; [done|]. split; [destruct e; done|].
    intros ns. split; [inversion 1|done].
  - apply NoDup_cons in Hnd as [Hn0 Hnd]. intros H.
    destruct (IH Hnd _ _ _ _ H) as (Hs & Hi & He & Hp). simpl in *.
    split; [eapply same_acc_trans; [|exact Hs]; repeat split|]. split; [done|].
    split; [rewrite He; done|].
    intros ns. destruct (Hp ns) as [Hin Hout]. rewrite !fs_get_insert in Hin, Hout.
    destruct (decide (ns = ns0)) as [->|Hne].
    + split; [intros _; apply Hout; done|intros Hx; exfalso; apply Hx; left].
    + split; [intros [?|Hin']%elem_of_cons; [done|]; apply Hin; done|].
      intros Hx. apply Hout. intros ?; apply Hx; right; done.
Qed.

Lemma swap_out_spec c e c' e' :
  NoDup (mwt_indices c) -> swap_out c e = (c', e') ->
  same_accumulators c c' /\ mwt_indices c' = [] /\ e' = set_ec_feature_space e (feature_space e') /\
  forall ns,
    (ns ∈ mwt_indices c -> fs_get (feature_space e') ns = fs_get (mwt_feature_space c) ns) /\
    (ns ∉ mwt_indices c -> fs_get (feature_space e') ns = fs_get (feature_space e) ns).
Proof.
  intros Hnd H. unfold swap_out in H.
  assert (Hr : NoDup (reverse (mwt_indices c))) by (rewrite reverse_Permutation; done).
  destruct (swap_back_fold _ Hr _ _ _ _ H) as (Hs & Hi & He & Hp).
  split; [eapply same_acc_trans; [|exact Hs]; repeat split|]. split; [done|]. split; [done|].
  intros ns. destruct (Hp ns) as [Hin Hout]. rewrite elem_of_reverse in Hin, Hout. done.
Qed.

Lemma swap_in_acc learn c e c2 e2 :
  swap_in learn c e = Ok (c2, e2) -> same_accumulators c c2 /\ config_of c2 = config_of c.
Proof.
  unfold swap_in. intros H.
  assert (same_accumulators (set_indices c []) c2) as Hs; [|split; [eapply same_acc_trans; [|exact Hs];
    repeat split|apply same_acc_config; eapply same_acc_trans; [|exact Hs]; repeat split]].
  change c2 with (c2, e2).1.
  revert H. apply (foldM_inv (fun s => same_accumulators (set_indices c []) s.1)); [|apply same_acc_refl].
  intros [a ea] ns [a' ea'] _ Ha H. eapply same_acc_trans; [exact Ha|]. eapply swap_in_step_spec; eauto.
Qed.

Lemma remap_features_err c fs e : remap_features c fs = Err e -> e = InvalidConversion.
Proof.
  unfold remap_features. apply (mapM_err (fun e => e = InvalidConversion)). intros [v i] e' _.
  unfold float_to_unsigned. destruct (_ && _); simpl; congruence.
Qed.

Lemma float_to_unsigned_range bits v n : float_to_unsigned bits v = Ok n -> 0 <= n < 2 ^ bits.
Proof.
  unfold float_to_unsigned. destruct (Z.leb_spec 0 (Z.quot (Qnum v) (Zpos (Qden v))));
    destruct (Z.ltb_spec (Z.quot (Qnum v) (Zpos (Qden v))) (2 ^ bits)); simpl; intros [=]; lia.
Qed.

(** C37: [remap_features] (lines 125-131) keeps one feature per feature,
    of value 1, whose index is a 64-bit integer and a multiple of the
    stride [2^stride_shift], so it addresses slot 0 of a stride group.  It
    is exactly [(((index & mask) >> shift) * num_classes + value) << shift]
    when that fits in 64 bits; otherwise the [uint64_t] arithmetic wraps. *)
Theorem remap_features_bounds c fs fs' :
  0 <= Dense.stride_shift (all_weights c) <= 64 -> 0 <= Dense.mask (all_weights c) -> 0 <= num_classes c ->
  remap_features c fs = Ok fs' ->
  Forall2 (fun '((v, i) : Q * Z) '((v', i') : Q * Z) =>
    v' = 1%Q /\ is_u64 i' /\ Z.divide (2 ^ Dense.stride_shift (all_weights c)) i' /\
    exists vi, float_to_unsigned 64 v = Ok vi /\
      let n := ((i &&& Dense.mask (all_weights c)) ≫ Dense.stride_shift (all_weights c)) * num_classes c + vi in
      n * 2 ^ Dense.stride_shift (all_weights c) < 2 ^ 64 ->
      i' = n * 2 ^ Dense.stride_shift (all_weights c)) fs fs'.
Proof.
  intros Hs Hm Hn H. apply mapM_Ok in H. eapply Forall2_impl; [exact H|]. intros [v i] [v' i'].
  destruct (float_to_unsigned 64 v) as [vi|] eqn:Hf; simpl; [|discriminate]. intros [= <- <-].
  pose proof (float_to_unsigned_range _ _ _ Hf) as Hvi.
  split; [done|]. split; [apply wrap64_range|]. split; [apply wrap64_shiftl_divide; lia|].
  exists vi. split; [done|]. cbv zeta. intros Hlt.
  set (x := (i &&& Dense.mask (all_weights c)) ≫ Dense.stride_shift (all_weights c)).
  assert (0 <= x) by (apply Z.shiftr_nonneg, Z.land_nonneg; right; lia).
  pose proof (Z.pow_pos_nonneg 2 (Dense.stride_shift (all_weights c)) ltac:(lia) ltac:(lia)).
  rewrite (wrap64_id (x * num_classes c)), (wrap64_id (x * num_classes c + vi)) by (unfold is_u64; nia).
  apply wrap64_shiftl_exact; lia.
Qed.

Lemma swap_in_err learn c e err : swap_in learn c e = Err err -> err = InvalidConversion.
Proof.
  unfold swap_in. apply (foldM_err (fun _ => True) (fun e => e = InvalidConversion)); [done| |done].
  intros [a ea] ns err' _ _. unfold swap_in_step. case_bool_decide; [|discriminate].
  destruct learn; simpl; [|discriminate].
  destruct (remap_features _ _) eqn:Hr; simpl; [discriminate|]. intros [= <-].
  eapply remap_features_err; eauto.
Qed.

Lemma swap_out_acc c e c' e' : swap_out c e = (c', e') -> same_accumulators c c'.
Proof.
  unfold swap_out. generalize (reverse (mwt_indices c)) as R.
  assert (forall R c0 e0, same_accumulators c c0 ->
            foldl (fun '(c, ec) ns => swap_ns c ec ns) (c0, e0) R = (c', e') -> same_accumulators c c')
    as Hgen; [|intros R; apply Hgen; repeat split].
  induction R as [|ns R IH]; intros c0 e0 Hs; simpl; [intros [= <- _]; done|].
  apply IH. eapply same_acc_trans; [exact Hs|]. repeat split.
Qed.

(** The swaps, [value_policy] and the charging loop leave the observation
    of the call as [observe] set it. *)
Lemma swap_in_obs learn c e c2 e2 :
  swap_in learn c e = Ok (c2, e2) -> optional_observation c2 = optional_observation c.
Proof.
  unfold swap_in. intros H. change c2 with (c2, e2).1. revert H.
  apply (foldM_inv (fun s => optional_observation s.1 = optional_observation c)); [|done].
  intros [a ea] ns [a' ea'] _ Ha. unfold swap_in_step. case_bool_decide; [|intros [= <- _]; done].
  destruct learn; [intros (a1 & (fs & _ & [= <-])%bind_Ok & [= <- _])%bind_Ok|intros [= <- _]]; done.
Qed.

Lemma swap_out_obs c e c' e' : swap_out c e = (c', e') -> optional_observation c' = optional_observation c.
Proof.
  unfold swap_out. generalize (reverse (mwt_indices c)) as R.
  assert (forall R c0 e0, optional_observation c0 = optional_observation c ->
            foldl (fun '(c, ec) ns => swap_ns c ec ns) (c0, e0) R = (c', e') ->
            optional_observation c' = optional_observation c) as Hgen; [|intros R; apply Hgen; done].
  induction R as [|ns R IH]; intros c0 e0 Hs; simpl; [intros [= <- _]; done|]. apply IH. done.
Qed.

Lemma observe_observation c ec c1 : observe c ec = Ok c1 -> optional_observation c1 = get_observed_cost_cb (l_cb ec).
Proof.
  unfold observe. simpl. destruct (fst _); [|intros [= <-]; done].
  intros (c2 & H2 & H3)%bind_Ok.
  assert (Hc : forall a a', charge_policies a = Ok a' -> optional_observation a' = optional_observation a).
  { intros a a'. unfold charge_policies. apply (foldM_inv (fun x => optional_observation x = optional_observation a)); [|done].
    intros x p x' _ Hx. destruct (eval_at x p); simpl; [|discriminate]. intros [= <-]. done. }
  rewrite (Hc _ _ H3). revert H2.
  apply (foldM_inv (fun x => optional_observation x = get_observed_cost_cb (l_cb ec))); [|done].
  intros a ns a' _ Ha. case_bool_decide; [|intros [= <-]; done].
  unfold foreach_feature. apply (foldM_inv (fun x => optional_observation x = get_observed_cost_cb (l_cb ec))); [|done].
  intros x [v i] x' _ Hx. unfold value_policy.
  destruct (_ || _), (float_to_unsigned 32 v), (eval_at _ _) as [pd|]; simpl; try discriminate;
    intros [= <-]; destruct (seen pd); done.
Qed.

(** Lines 164-167 under the invariant: every policy's index is in range
    and [total] is nonzero when there is a policy, so each output is the
    finite average cost of its policy. *)
Lemma policy_predictions_ok N c :
  mwt_inv N c -> exists pds, Forall2 (fun p pd => eval_at c p = Ok pd) (policies c) pds /\
    policy_predictions c = Ok (map (fun pd => Finite (cost pd / total c)) pds).
Proof.
  intros (_&_&Hiff&Ht&_). unfold policy_predictions.
  assert (forall l, (forall p, p ∈ l -> p ∈ policies c) -> (l <> [] -> (1 <= total c)%Q) ->
    exists pds, Forall2 (fun p pd => eval_at c p = Ok pd) l pds /\
      mapM (fun index => pd ← eval_at c index; Ok (fdiv (cost pd) (total c))) l =
      Ok (map (fun pd => Finite (cost pd / total c)) pds)) as Hl; [|apply Hl; [done|exact Ht]].
  induction l as [|p l IH]; intros Hsub Hne; [exists []; done|].
  assert (Ht1 : (1 <= total c)%Q) by (apply Hne; done).
  destruct (proj1 (Hiff p)) as (pd & Hpd & _); [apply Hsub; left|].
  destruct IH as (pds & Hf & Hm); [intros; apply Hsub; right; done|intros; done|].
  exists (pd :: pds). split; [constructor; done|]. simpl. rewrite Hpd, Hm. simpl.
  unfold fdiv. rewrite (proj2 (Qeq_bool_false _ _)); [done|]. lra.
Qed.

Lemma observe_config c ec c' : observe c ec = Ok c' -> config_of c' = config_of c.
Proof.
  unfold observe. simpl. destruct (fst (get_observed_cost_cb (l_cb ec))); [|intros [= <-]; done].
  intros (c2 & H2 & H3)%bind_Ok.
  transitivity (config_of c2).
  - revert H3. unfold charge_policies. apply (foldM_inv (fun a => config_of a = config_of c2)); [|done].
    intros a p a' _ Ha (pd & _ & [= <-])%bind_Ok. done.
  - revert H2. apply (foldM_inv (fun a => config_of a = config_of c)); [|done].
    intros a ns a' _ Ha. case_bool_decide; [|intros [= <-]; done].
    unfold foreach_feature. rewrite <- Ha. apply (foldM_inv (fun x => config_of x = config_of a)); [|done].
    intros x [v i] x' _ Hx Hv. rewrite <- Hx. eapply value_policy_config; eauto.
Qed.

Lemma setup_inv N str nc w :
  0 <= Dense.stride_shift w -> 0 <= Dense.mask w ->
  Dense.mask w + 1 = Z.of_nat N * 2 ^ Dense.stride_shift w ->
  mwt_inv N (mwt_setup str nc N w).
Proof.
  intros Hs Hm Hg. unfold mwt_inv, mwt_setup; simpl. rewrite length_replicate.
  repeat split; try done; try lra; [constructor|inversion 1|].
  intros (pd & (_ & Hpd)%eval_at_Ok & Hseen). simpl in Hpd.
  apply lookup_replicate in Hpd as [Hpd _]. subst pd. discriminate.
Qed.

(** The reduction as [mwt_setup] builds it, over weights allocated
    by [dense_parameters(length, stride_shift)] with [evals] sized
    [length] (line 304), satisfies the invariant. *)
Lemma mwt_setup_inv (N : nat) (s : Z) str nc m w m' :
  (0 < N)%nat -> 0 <= s -> Z.of_nat N * 2 ^ s < 2 ^ 64 ->
  Dense.dense_construct (Z.of_nat N) s m = Ok (w, m') ->
  mwt_inv N (mwt_setup str nc N w).
Proof.
  intros HN Hs Hfit Hc.
  destruct (Dense.dense_construct_geometry (Z.of_nat N) s m w m' ltac:(lia) Hs Hfit Hc) as (Hsh & ? & ?).
  apply setup_inv; rewrite ?Hsh; lia.
Qed.

Section Handler.
Context `{BaseLearner example}.

(** The stages of [predict_or_learn] after the observation step: the
  accumulators of every state it returns are those of [observe]'s result,
  whichever branch it takes. *)
Lemma predict_or_learn_stages learn exclude is_learn c ec c1 c' ec' r :
observe c ec = Ok c1 -> predict_or_learn learn exclude is_learn c ec = ((c', ec'), r) ->
same_accumulators c1 c'.
Proof.
unfold predict_or_learn. intros ->.
destruct (if exclude || learn then swap_in learn c1 ec else Ok (c1, ec)) as [[c2 e2]|e] eqn:Hs;
  [|intros [= <- _ _]; apply same_acc_refl].
assert (same_accumulators c1 c2) as Hs12.
{ destruct (exclude || learn); [apply (swap_in_acc learn c1 ec c2 e2 Hs)|].
  injection Hs as <- <-. apply same_acc_refl. }
destruct (if learn then learn_or_predict is_learn e2 else Ok e2) as [e3|e]; [|intros [= <- _ _]; done].
destruct (if exclude || learn then swap_out c2 e3 else (c2, e3)) as [c4 e4] eqn:Hso.
assert (same_accumulators c2 c4) as Hs24.
{ destruct (exclude || learn); [eapply swap_out_acc; eauto|injection Hso as <- <-; apply same_acc_refl]. }
destruct (policy_predictions c4); intros [= <- _ _]; eapply same_acc_trans; eauto.
Qed.

(** The observation [observe] records is the one every state the handler
    returns carries. *)
Lemma predict_or_learn_observation learn exclude is_learn c ec c1 c' ec' r :
observe c ec = Ok c1 -> predict_or_learn learn exclude is_learn c ec = ((c', ec'), r) ->
optional_observation c' = optional_observation c1.
Proof.
unfold predict_or_learn. intros ->.
destruct (if exclude || learn then swap_in learn c1 ec else Ok (c1, ec)) as [[c2 e2]|e] eqn:Hs;
  [|intros [= <- _ _]; done].
assert (optional_observation c2 = optional_observation c1) as H12.
{ destruct (exclude || learn); [apply (swap_in_obs learn c1 ec c2 e2 Hs)|injection Hs as <- <-; done]. }
destruct (if learn then learn_or_predict is_learn e2 else Ok e2) as [e3|e]; [|intros [= <- _ _]; done].
destruct (if exclude || learn then swap_out c2 e3 else (c2, e3)) as [c4 e4] eqn:Hso.
assert (optional_observation c4 = optional_observation c2) as H24.
{ destruct (exclude || learn); [eapply swap_out_obs; eauto|injection Hso as <- <-; done]. }
destruct (policy_predictions c4); intros [= <- _ _]; congruence.
Qed.

(** Every call keeps the invariant and the configuration (the lemma behind
  C11, shared with the theorems on the outputs and on the composed stack). *)
Lemma call_keeps_inv N learn exclude is_learn c ec c' ec' r :
mwt_inv N c -> predict_or_learn learn exclude is_learn c ec = ((c', ec'), r) ->
mwt_inv N c' /\ config_of c' = config_of c.
Proof.
intros Hinv Hp. destruct (observe c ec) as [c1|e] eqn:Ho.
- destruct (observe_inv N c ec c1 Hinv Ho) as (Hi1 & Hc1 & _).
  pose proof (predict_or_learn_stages _ _ _ _ _ _ _ _ _ Ho Hp) as Hs.
  split; [eapply inv_same; eauto|rewrite (same_acc_config _ _ Hs); done].
- unfold predict_or_learn in Hp. rewrite Ho in Hp. injection Hp as <- <- _. done.
Qed.

(** C11:  Every call of [predict_or_learn], returning or throwing, keeps
  the invariant of the accumulators: [evals] keeps its size, [policies]
  lists the seen entries once each, and [total >= 1] as soon as a policy
  is recorded; the configuration is unchanged. *)
Theorem predict_or_learn_inv N learn exclude is_learn c ec c' ec' r :
mwt_inv N c -> predict_or_learn learn exclude is_learn c ec = ((c', ec'), r) ->
mwt_inv N c' /\ config_of c' = config_of c.
Proof. exact (call_keeps_inv N learn exclude is_learn c ec c' ec' r). Qed.

(** The stages of a call that returns. *)
Lemma predict_or_learn_Ok learn exclude is_learn c ec c' ec' :
predict_or_learn learn exclude is_learn c ec = ((c', ec'), Ok tt) ->
exists c1 c2 e2 e3 e4 ps,
  observe c ec = Ok c1 /\
  (if exclude || learn then swap_in learn c1 ec else Ok (c1, ec)) = Ok (c2, e2) /\
  (if learn then learn_or_predict is_learn e2 else Ok e2) = Ok e3 /\
  (if exclude || learn then swap_out c2 e3 else (c2, e3)) = (c', e4) /\
  policy_predictions c' = Ok ps /\
  ec' = set_ec_scalars e4 ((if learn then [Finite (inject_Z (pred_multiclass e4))] else []) ++ ps).
Proof.
unfold predict_or_learn.
destruct (observe c ec) as [c1|] eqn:H1; [|discriminate].
destruct (if exclude || learn then _ else _) as [[c2 e2]|] eqn:H2; [|discriminate].
destruct (if learn then _ else _) as [e3|] eqn:H3; [|discriminate].
destruct (if exclude || learn then swap_out c2 e3 else (c2, e3)) as [c4 e4] eqn:H4.
destruct (policy_predictions c4) as [ps|] eqn:Hps; [|discriminate].
intros [= <- <-]. exists c1, c2, e2, e3, e4, ps. done.
Qed.

(** C40: policies are discovered and never forgotten.  A call of
    [predict_or_learn] that returns keeps the policies recorded before, in
    their order, and appends only new ones; without an observed cost it
    records none; with one, the policy of every feature of every evaluated
    namespace of the example is recorded, so its estimate is among the
    scalars of this and every later call. *)
Theorem predict_or_learn_discovers N learn exclude is_learn c ec c' ec' :
  mwt_inv N c -> predict_or_learn learn exclude is_learn c ec = ((c', ec'), Ok tt) ->
  policies c `prefix_of` policies c' /\
  (fst (get_observed_cost_cb (l_cb ec)) = false -> policies c' = policies c) /\
  (fst (get_observed_cost_cb (l_cb ec)) = true ->
   forall ns v i, ns ∈ indices ec -> ns ∈ namespaces c -> (v, i) ∈ fs_get (feature_space ec) ns ->
     (i &&& Dense.mask (all_weights c)) ≫ Dense.stride_shift (all_weights c) ∈ policies c').
Proof.
  intros Hinv Hp. destruct (predict_or_learn_Ok _ _ _ _ _ _ _ Hp) as (c1 & _ & _ & _ & _ & _ & Ho & _).
  destruct (predict_or_learn_stages _ _ _ _ _ _ _ _ _ Ho Hp) as (_ & -> & _).
  exact (observe_discovers N c ec c1 Hinv Ho).
Qed.

(** The scalars of a returning call (the lemma behind C12). *)
Lemma call_outputs N learn exclude is_learn c ec c' ec' :
mwt_inv N c -> predict_or_learn learn exclude is_learn c ec = ((c', ec'), Ok tt) ->
exists pds, Forall2 (fun p pd => eval_at c' p = Ok pd) (policies c') pds /\
  pred_scalars ec' = (if learn then [Finite (inject_Z (pred_multiclass ec'))] else []) ++
                     map (fun pd => Finite (cost pd / total c')) pds.
Proof.
intros Hinv Hp. destruct (call_keeps_inv N _ _ _ _ _ _ _ _ Hinv Hp) as [Hinv' _].
destruct (predict_or_learn_Ok _ _ _ _ _ _ _ Hp) as (c1 & c2 & e2 & e3 & e4 & ps & _ & _ & _ & _ & Hps & ->).
destruct (policy_predictions_ok N c' Hinv') as (pds & Hf & Hps'). rewrite Hps in Hps'.
injection Hps' as ->. exists pds. done.
Qed.

(** C12:  When [predict_or_learn] returns, its scalar predictions are the
  multiclass prediction of the base learner (when [learn]) followed by
  one finite value per recorded policy, the policy's accrued cost divided
  by the number of observations: the division at line 166 never divides
  by zero. *)
Theorem predict_or_learn_outputs N learn exclude is_learn c ec c' ec' :
mwt_inv N c -> predict_or_learn learn exclude is_learn c ec = ((c', ec'), Ok tt) ->
exists pds, Forall2 (fun p pd => eval_at c' p = Ok pd) (policies c') pds /\
  pred_scalars ec' = (if learn then [Finite (inject_Z (pred_multiclass ec'))] else []) ++
                     map (fun pd => Finite (cost pd / total c')) pds.
Proof. exact (call_outputs N learn exclude is_learn c ec c' ec'). Qed.

(** C13:  The handler's own code never indexes [evals] out of range: a
  call that throws either met an undefined [float] to integer conversion
  of a feature value, or passes on an exception of the base learner. *)
Theorem predict_or_learn_errors N learn exclude is_learn c ec c' ec' e :
mwt_inv N c -> predict_or_learn learn exclude is_learn c ec = ((c', ec'), Err e) ->
e = InvalidConversion \/ (learn = true /\ exists ex, learn_or_predict is_learn ex = Err e).
Proof.
intros Hinv. unfold predict_or_learn.
destruct (observe c ec) as [c1|e1] eqn:Ho; [|intros [= _ _ <-]; left; eapply observe_err; eauto].
destruct (observe_inv N c ec c1 Hinv Ho) as (Hi1 & _).
destruct (if exclude || learn then _ else _) as [[c2 e2]|e1] eqn:Hs.
2:{ intros [= _ _ <-]. left. destruct (exclude || learn); [eapply swap_in_err; eauto|discriminate]. }
assert (same_accumulators c1 c2) as Hs12.
{ destruct (exclude || learn); [apply (swap_in_acc learn c1 ec c2 e2 Hs)|].
  injection Hs as <- <-. apply same_acc_refl. }
destruct (if learn then learn_or_predict is_learn e2 else Ok e2) as [e3|e3] eqn:Hb.
2:{ intros [= _ _ <-]. right. destruct learn; [|discriminate]. split; [done|]. eexists; exact Hb. }
destruct (if exclude || learn then swap_out c2 e3 else (c2, e3)) as [c4 e4] eqn:Hso.
assert (same_accumulators c2 c4) as Hs24.
{ destruct (exclude || learn); [eapply swap_out_acc; eauto|injection Hso as <- <-; apply same_acc_refl]. }
destruct (policy_predictions_ok N c4) as (pds & _ & ->); [|discriminate].
apply (inv_same N c1); [eapply same_acc_trans; [exact Hs12|exact Hs24]|exact Hi1].
Qed.

(** What the base learner sees: after lines 115-135 on distinct
  namespaces, [c.indices] lists the evaluated ones, the save area holds
  their original features, and the example carries their re-indexed
  copies (when [learn]). *)
Lemma swap_in_spec learn c ec c2 e2 :
NoDup (indices ec) -> swap_in learn c ec = Ok (c2, e2) ->
mwt_indices c2 = filter (fun ns => ns ∈ namespaces c) (indices ec) /\
e2 = set_ec_feature_space ec (feature_space e2) /\
forall ns, ns ∈ indices ec -> ns ∈ namespaces c ->
  fs_get (mwt_feature_space c2) ns = fs_get (feature_space ec) ns /\
  (learn = true -> remap_features c (fs_get (feature_space ec) ns) = Ok (fs_get (feature_space e2) ns)).
Proof.
intros Hnd Hsi. destruct (swap_in_fold learn _ Hnd _ _ _ _ Hsi) as (_ & He & Hi & Hp).
split; [done|]. split; [done|]. intros ns Hin Hev. destruct (Hp ns) as [Hp1 _].
destruct (Hp1 Hin Hev) as [Hc Hsw]. split; [done|]. intros ->.
apply (swapped_in_config true c (set_indices c [])) in Hsw; done.
Qed.

(** C14:  When [predict_or_learn] returns, every evaluated namespace of
  the example holds exactly the features it held before the call, for
  every choice of the template flags and whatever the base learner did
  to the features it was shown; the namespaces of [ec.indices] are
  assumed distinct, as the parser builds them. *)
Theorem predict_or_learn_restores learn exclude is_learn c ec c' ec' :
NoDup (indices ec) -> predict_or_learn learn exclude is_learn c ec = ((c', ec'), Ok tt) ->
forall ns, ns ∈ indices ec -> ns ∈ namespaces c ->
  fs_get (feature_space ec') ns = fs_get (feature_space ec) ns.
Proof.
intros Hnd Hp ns Hin Hev.
destruct (predict_or_learn_Ok _ _ _ _ _ _ _ Hp) as (c1 & c2 & e2 & e3 & e4 & ps & Ho & Hs & Hb & Hso & _ & ->).
pose proof (observe_config _ _ _ Ho) as [= Hns1 _ _].
simpl. destruct (exclude || learn) eqn:Hxl.
- destruct (swap_in_spec _ _ _ _ _ Hnd Hs) as (Hi2 & _ & Hp2).
  destruct (Hp2 ns Hin) as [Hc2 _]; [rewrite Hns1; done|].
  assert (NoDup (mwt_indices c2)) as Hnd2 by (rewrite Hi2; apply NoDup_filter; done).
  destruct (swap_out_spec _ _ _ _ Hnd2 Hso) as (_ & _ & _ & Hout).
  rewrite (proj1 (Hout ns)); [done|]. rewrite Hi2. apply list_elem_of_filter. rewrite Hns1. done.
- apply orb_false_iff in Hxl as [_ ->]. injection Hs as <- <-. injection Hb as <-.
  injection Hso as <- <-. done.
Qed.

(** C15:  When the base learner throws in [learn] mode, the exception
  leaves the example with its evaluated namespaces re-indexed
  ([((index & mask) >> shift) * num_classes + value], value 1) and their
  original features in the reduction's save area, from which the next
  call clears them: nothing restores the example on this path. *)
Theorem predict_or_learn_throw_leaves_remapped N exclude is_learn c ec c' ec' e :
mwt_inv N c -> NoDup (indices ec) -> e <> InvalidConversion ->
predict_or_learn true exclude is_learn c ec = ((c', ec'), Err e) ->
(exists ex, learn_or_predict is_learn ex = Err e) /\
forall ns, ns ∈ indices ec -> ns ∈ namespaces c ->
  remap_features c (fs_get (feature_space ec) ns) = Ok (fs_get (feature_space ec') ns) /\
  fs_get (mwt_feature_space c') ns = fs_get (feature_space ec) ns.
Proof.
intros Hinv Hnd Hne. unfold predict_or_learn. rewrite orb_true_r.
destruct (observe c ec) as [c1|e1] eqn:Ho; [|intros [= _ _ <-]; eapply observe_err in Ho; done].
destruct (observe_inv N c ec c1 Hinv Ho) as (Hi1 & Hc1 & _).
destruct (swap_in true c1 ec) as [[c2 e2]|e1] eqn:Hs; [|intros [= _ _ <-]; eapply swap_in_err in Hs; done].
destruct (learn_or_predict is_learn e2) as [e3|e3] eqn:Hb.
- destruct (swap_out c2 e3) as [c4 e4] eqn:Hso.
  assert (same_accumulators c1 c4) as Hs14
    by (eapply same_acc_trans; [apply (swap_in_acc true c1 ec c2 e2 Hs)|eapply swap_out_acc; eauto]).
  destruct (policy_predictions_ok N c4) as (pds & _ & ->); [|discriminate].
  apply (inv_same N c1); done.
- intros [= <- <- <-]. split; [eauto|]. intros ns Hin Hev.
  destruct (swap_in_spec _ _ _ _ _ Hnd Hs) as (_ & _ & Hp2). rewrite <- (remap_features_config c c1) by done.
  destruct (Hp2 ns Hin) as [Hc2 Hr]; [unfold config_of in Hc1; injection Hc1 as -> _ _; done|].
  split; [apply Hr; done|done].
Qed.

(** C30:  The [exclude_eval] option has no effect: the handler
    [mwt_setup] installs with it behaves exactly as the one without it, on
    every state and example, since every use of [exclude] in
    [predict_or_learn] is [exclude || learn] and [exclude] is only set
    when learning. *)
Theorem exclude_eval_no_effect is_learn c ec :
  mwt_learner true is_learn c ec = mwt_learner false is_learn c ec.
Proof. unfold mwt_learner. destruct (learn c); reflexivity. Qed.

Lemma float_to_unsigned_inject (bits m : Z) : 0 <= m < 2 ^ bits -> float_to_unsigned bits (inject_Z m) = Ok m.
Proof.
  intros Hm. unfold float_to_unsigned. simpl. rewrite Z.quot_1_r.
  rewrite (proj2 (Z.leb_le _ _)), (proj2 (Z.ltb_lt _ _)) by lia. done.
Qed.

(** A call that returns keeps the reduction's [learn] field. *)
Lemma predict_or_learn_learn_field learn exclude is_learn c ec c' ec' :
  predict_or_learn learn exclude is_learn c ec = ((c', ec'), Ok tt) -> Mwt.learn c' = Mwt.learn c.
Proof.
  intros Hp. destruct (predict_or_learn_Ok _ _ _ _ _ _ _ Hp) as (c1 & _ & _ & _ & _ & _ & Ho & _).
  pose proof (same_acc_config _ _ (predict_or_learn_stages _ _ _ _ _ _ _ _ _ Ho Hp)) as H1.
  pose proof (observe_config _ _ _ Ho) as H2. unfold config_of in H1, H2. congruence.
Qed.

(** C31:  After a call of the installed handler that returns, in a
    reduction that learns, [update_stats_mwt] reads [ec.pred.scalars[0]]
    in range: the loss it reports is the cost estimate, under the
    observation, of the action the base learner predicted (when that
    action fits a [uint32_t]). *)
Theorem update_stats_after_learn exclude is_learn c ec c' ec' t nf :
  Mwt.learn c = true -> mwt_learner exclude is_learn c ec = ((c', ec'), Ok tt) ->
  0 <= pred_multiclass ec' < 2 ^ 32 ->
  update_stats_mwt c' ec' t nf =
    Ok (mk_stats_update t (fst (optional_observation c'))
          (if fst (optional_observation c')
           then get_cost_estimate (snd (optional_observation c')) (pred_multiclass ec') else 0%Q) 1 nf).
Proof.
  intros Hl Hp Hr. unfold mwt_learner in Hp. rewrite Hl in Hp.
  pose proof (predict_or_learn_learn_field _ _ _ _ _ _ _ Hp) as Hl'.
  destruct (predict_or_learn_Ok _ _ _ _ _ _ _ Hp) as (_ & _ & _ & _ & e4 & ps & _ & _ & _ & _ & _ & ->).
  unfold update_stats_mwt. rewrite Hl', Hl. simpl in Hr |- *.
  destruct (fst (optional_observation c')); simpl; [|done].
  rewrite float_to_unsigned_inject by done. done.
Qed.

End Handler.

Lemma fixture_inv : mwt_inv 8 fixture_mwt.
Proof. apply setup_inv; vm_compute; congruence. Qed.

Lemma predict_or_learn_inv_witness :
  let '((c', _), _) := @predict_or_learn identity_base true false true fixture_mwt
                         (fixture_example fixture_namespaces) in
  mwt_inv 8 c' /\ config_of c' = config_of fixture_mwt.
Proof.
  destruct (@predict_or_learn identity_base true false true fixture_mwt (fixture_example fixture_namespaces))
    as [[c' ec'] r] eqn:E.
  apply (@predict_or_learn_inv identity_base 8 true false true _ _ _ _ _ fixture_inv E).
Defined.

Lemma predict_or_learn_outputs_witness :
  let '((c', ec'), r) := @predict_or_learn identity_base true false true fixture_mwt
                           (fixture_example fixture_namespaces) in
  r = Ok tt /\
  exists pds, Forall2 (fun p pd => eval_at c' p = Ok pd) (policies c') pds /\
    pred_scalars ec' = [Finite (inject_Z (pred_multiclass ec'))] ++
                       map (fun pd => Finite (cost pd / total c')) pds.
Proof.
  destruct (@predict_or_learn identity_base true false true fixture_mwt (fixture_example fixture_namespaces))
    as [[c' ec'] r] eqn:E.
  assert (r = Ok tt) as -> by (vm_compute in E; injection E as _ _ <-; reflexivity).
  split; [reflexivity|].
  apply (@predict_or_learn_outputs identity_base 8 true false true _ _ _ _ fixture_inv E).
Defined.

Lemma predict_or_learn_errors_witness :
  let '((c', ec'), r) := @predict_or_learn (throwing_base "base") true false true fixture_mwt
                           (fixture_example fixture_namespaces) in
  r = Err (Thrown "base") /\
  (Thrown "base" = InvalidConversion \/
   (true = true /\ exists ex, @learn_or_predict _ (throwing_base "base") true ex = Err (Thrown "base"))).
Proof.
  destruct (@predict_or_learn (throwing_base "base") true false true fixture_mwt
              (fixture_example fixture_namespaces)) as [[c' ec'] r] eqn:E.
  assert (r = Err (Thrown "base")) as -> by (vm_compute in E; injection E as _ _ <-; reflexivity).
  split; [reflexivity|].
  apply (@predict_or_learn_errors (throwing_base "base") 8 true false true _ _ _ _ _ fixture_inv E).
Defined.

Lemma predict_or_learn_restores_witness :
  let ec := fixture_example fixture_namespaces in
  let '((c', ec'), r) := @predict_or_learn identity_base true false true fixture_mwt ec in
  r = Ok tt /\ fs_get (feature_space ec') 97 = fs_get (feature_space ec) 97.
Proof.
  cbv zeta.
  destruct (@predict_or_learn identity_base true false true fixture_mwt (fixture_example fixture_namespaces))
    as [[c' ec'] r] eqn:E.
  assert (r = Ok tt) as -> by (vm_compute in E; injection E as _ _ <-; reflexivity).
  split; [reflexivity|].
  apply (@predict_or_learn_restores identity_base true false true fixture_mwt (fixture_example fixture_namespaces) c' ec'); [decide_by_eval|exact E|
    decide_by_eval|decide_by_eval].
Defined.

Lemma predict_or_learn_throw_leaves_remapped_witness :
  let ec := fixture_example fixture_namespaces in
  let '((c', ec'), r) := @predict_or_learn (throwing_base "base") true false true fixture_mwt ec in
  r = Err (Thrown "base") /\
  remap_features fixture_mwt (fs_get (feature_space ec) 97) = Ok (fs_get (feature_space ec') 97) /\
  fs_get (mwt_feature_space c') 97 = fs_get (feature_space ec) 97 /\
  fs_get (feature_space ec') 97 <> fs_get (feature_space ec) 97.
Proof.
  cbv zeta.
  destruct (@predict_or_learn (throwing_base "base") true false true fixture_mwt
              (fixture_example fixture_namespaces)) as [[c' ec'] r] eqn:E.
  assert (Hr : r = Err (Thrown "base")) by (vm_compute in E; injection E as _ _ <-; reflexivity).
  assert (Hne : fs_get (feature_space ec') 97 <> fs_get (feature_space (fixture_example fixture_namespaces)) 97)
    by (vm_compute in E; injection E as _ <- _; vm_compute; congruence).
  subst r. split; [reflexivity|].
  destruct (@predict_or_learn_throw_leaves_remapped (throwing_base "base") 8 true true fixture_mwt
              (fixture_example fixture_namespaces) c' ec' (Thrown "base")
              fixture_inv ltac:(decide_by_eval) ltac:(discriminate) E) as [_ Hp].
  destruct (Hp 97) as [H1 H2]; [decide_by_eval|decide_by_eval|].
  split; [exact H1|split; [exact H2|exact Hne]].
Defined.

(** C17:  The restoration of C14 needs the namespaces of [ec.indices] to be
    distinct.  With an evaluated namespace listed twice, a [learn]-mode
    call that returns, for any state, features and base learner, goes as
    follows.  The base learner is shown the namespace re-indexed twice.
    The second visit of lines 125-133 saves the once re-indexed copy in
    place of the original.  The swap-back gives the example whatever the
    base learner left in that namespace.  The original features are kept
    nowhere. *)
Theorem predict_or_learn_duplicate_namespace_not_restored `{BaseLearner example} exclude is_learn c ec c' ec' ns :
  indices ec = [ns; ns] -> ns ∈ namespaces c ->
  predict_or_learn true exclude is_learn c ec = ((c', ec'), Ok tt) ->
  exists fs1 shown back,
    remap_features c (fs_get (feature_space ec) ns) = Ok fs1 /\
    remap_features c fs1 = Ok (fs_get (feature_space shown) ns) /\
    learn_or_predict is_learn shown = Ok back /\
    fs_get (feature_space ec') ns = fs_get (feature_space back) ns /\
    fs_get (mwt_feature_space c') ns = fs1.
Proof.
  intros Hind Hns Hp.
  destruct (predict_or_learn_Ok _ _ _ _ _ _ _ Hp) as (c1 & c2 & e2 & e3 & e4 & ps & Ho & Hs & Hb & Hso & _ & ->).
  pose proof (observe_config _ _ _ Ho) as Hc1.
  rewrite orb_true_r in Hs, Hso. unfold swap_in in Hs. rewrite Hind in Hs.
  assert (Hn1 : ns ∈ namespaces c1) by (unfold config_of in Hc1; injection Hc1 as -> _ _; done).
  cbn [foldM] in Hs. unfold swap_in_step at 1 in Hs. simpl in Hs.
  rewrite bool_decide_true in Hs by done.
  rewrite (remap_features_config c) in Hs by (rewrite <- Hc1; done).
  destruct (remap_features c (fs_get (feature_space ec) ns)) as [fs1|] eqn:Hr1; simpl in Hs; [|discriminate].
  unfold swap_in_step in Hs. simpl in Hs. rewrite bool_decide_true in Hs by done.
  rewrite !fs_get_insert_eq, (remap_features_config c) in Hs by (rewrite <- Hc1; done).
  destruct (remap_features c fs1) as [fs2|] eqn:Hr2; simpl in Hs; [|discriminate].
  unfold swap_ns in Hs. simpl in Hs. injection Hs as <- <-.
  eexists fs1, _, e3. split; [done|]. split; [|split; [exact Hb|]].
  { simpl. rewrite !fs_get_insert_eq. exact Hr2. }
  unfold swap_out in Hso. simpl in Hso. unfold swap_ns in Hso. simpl in Hso. injection Hso as <- <-.
  simpl. rewrite !fs_get_insert_eq. done.
Qed.

(** The fixture example with namespace ['a'] listed twice, learned over an
    identity base learner: ['a'] comes back as [[(1, 2); (1, 14)]], its
    features re-indexed twice, in place of [[(2, 4); (1, 7)]]. *)
Lemma predict_or_learn_duplicate_namespace_not_restored_witness :
  exists c' ec',
    @predict_or_learn identity_base true false true fixture_mwt (fixture_example duplicated_namespaces)
      = ((c', ec'), Ok tt) /\
    fs_get (feature_space ec') 97 = [(1%Q, 2); (1%Q, 14)] /\
    exists fs1 shown back,
      remap_features fixture_mwt (fs_get (feature_space (fixture_example duplicated_namespaces)) 97) = Ok fs1 /\
      remap_features fixture_mwt fs1 = Ok (fs_get (feature_space shown) 97) /\
      @learn_or_predict _ identity_base true shown = Ok back /\
      fs_get (feature_space ec') 97 = fs_get (feature_space back) 97 /\
      fs_get (mwt_feature_space c') 97 = fs1.
Proof.
  destruct (@predict_or_learn identity_base true false true fixture_mwt (fixture_example duplicated_namespaces))
    as [[c' ec'] r] eqn:E.
  pose proof E as E'. vm_compute in E'. injection E' as Hc Hec Hr. subst r.
  exists c', ec'. split; [done|]. split; [rewrite <- Hec; reflexivity|].
  apply (@predict_or_learn_duplicate_namespace_not_restored identity_base false true fixture_mwt
           (fixture_example duplicated_namespaces) c' ec' 97); [reflexivity|decide_by_eval|exact E].
Defined.

Lemma update_stats_after_learn_witness :
  Mwt.learn fixture_mwt = true /\
  let '((c', ec'), r) := @mwt_learner (predicting_base 2) false true fixture_mwt
                           (fixture_example fixture_namespaces) in
  r = Ok tt /\ 0 <= pred_multiclass ec' < 2 ^ 32 /\
  update_stats_mwt c' ec' false 3 = Ok (mk_stats_update false true 2 1 3).
Proof.
  split; [reflexivity|].
  destruct (@mwt_learner (predicting_base 2) false true fixture_mwt (fixture_example fixture_namespaces))
    as [[c' ec'] r] eqn:E.
  pose proof E as E'. vm_compute in E'. injection E' as Hc Hec Hr. subst r.
  assert (Hm : 0 <= pred_multiclass ec' < 2 ^ 32) by (rewrite <- Hec; simpl; lia).
  split; [done|]. split; [exact Hm|].
  rewrite (@update_stats_after_learn (predicting_base 2) false true fixture_mwt _ c' ec' false 3
             eq_refl E Hm).
  rewrite <- Hc, <- Hec. vm_compute. reflexivity.
Defined.

(** The features of namespace ['a'] of the fixture example, re-indexed with
    3 classes and stride 2: [((4 & 15) >> 1) * 3 + 2 = 8] and
    [((7 & 15) >> 1) * 3 + 1 = 10], shifted to [16] and [20]. *)
Lemma remap_features_bounds_witness :
  remap_features fixture_mwt [(2%Q, 4); (1%Q, 7)] = Ok [(1%Q, 16); (1%Q, 20)] /\
  Forall2 (fun '((v, i) : Q * Z) '((v', i') : Q * Z) =>
    v' = 1%Q /\ is_u64 i' /\ Z.divide (2 ^ Dense.stride_shift (all_weights fixture_mwt)) i' /\
    exists vi, float_to_unsigned 64 v = Ok vi /\
      let n := ((i &&& Dense.mask (all_weights fixture_mwt)) ≫ Dense.stride_shift (all_weights fixture_mwt))
               * num_classes fixture_mwt + vi in
      n * 2 ^ Dense.stride_shift (all_weights fixture_mwt) < 2 ^ 64 ->
      i' = n * 2 ^ Dense.stride_shift (all_weights fixture_mwt))
    [(2%Q, 4); (1%Q, 7)] [(1%Q, 16); (1%Q, 20)].
Proof.
  split; [reflexivity|].
  apply (remap_features_bounds fixture_mwt); [simpl; lia|simpl; lia|simpl; lia|reflexivity].
Defined.

(** On the fixture, the features 4 and 7 of namespace ['a'] give the
    policies [(4 & 15) >> 1 = 2] and [(7 & 15) >> 1 = 3]. *)
Lemma predict_or_learn_discovers_witness :
  let '((c', ec'), r) := @predict_or_learn identity_base true false true fixture_mwt
                           (fixture_example fixture_namespaces) in
  r = Ok tt /\ policies c' = [2; 3] /\
  policies fixture_mwt `prefix_of` policies c' /\
  (fst (get_observed_cost_cb (l_cb (fixture_example fixture_namespaces))) = false ->
   policies c' = policies fixture_mwt) /\
  (fst (get_observed_cost_cb (l_cb (fixture_example fixture_namespaces))) = true ->
   forall ns v i, ns ∈ indices (fixture_example fixture_namespaces) -> ns ∈ namespaces fixture_mwt ->
     (v, i) ∈ fs_get (feature_space (fixture_example fixture_namespaces)) ns ->
     (i &&& Dense.mask (all_weights fixture_mwt)) ≫ Dense.stride_shift (all_weights fixture_mwt) ∈ policies c').
Proof.
  destruct (@predict_or_learn identity_base true false true fixture_mwt (fixture_example fixture_namespaces))
    as [[c' ec'] r] eqn:E.
  assert (r = Ok tt) as -> by (vm_compute in E; injection E as _ _ <-; reflexivity).
  split; [reflexivity|]. split; [vm_compute in E; injection E as <- _; reflexivity|].
  apply (@predict_or_learn_discovers identity_base 8 true false true _ _ _ _ fixture_inv E).
Defined.

End MwtFacts.
