(* ===== verification/MwtOutput.v ===== *)
(** * Output hooks of multiworld testing ([src/vowpalwabbit/core/src/reductions/mwt.cc])

    [Module MwtOutput] models what the [mwt] reduction writes:
    [MWT::print_scalars] (lines 25-47), which formats the scalar
    predictions and the tag of an example as one line and writes it to a
    prediction sink; [output_example_prediction_mwt] (lines 186-190), which
    does so for every sink of the workspace; and [print_update_mwt] (lines
    192-210), which chooses the arguments of the progress line.  The
    formatting of one [float] by the standard library and the sink's
    [write] are outside [src/] and are parameters.  [Module MwtOutputFacts]
    proves that a reader splitting the line at white space gets back the
    formatted scores and the tag, that the line is not a faithful encoding
    when the tag holds a space, and which label [print_update_mwt] shows. *)

From S2P Require Import Prelude Learner Mwt.
Local Open Scope Z_scope.

Module MwtOutput.
Import Mwt.

(** The bytes [' '] and ['\n'], and C's [isspace]. *)
Definition space : Z := 32.
Definition newline : Z := 10.
Definition is_space (c : Z) : bool := (c =? 32) || ((9 <=? c) && (c <=? 13)).

Section Print.
(** [ss << scalars[i]]: the characters the standard library writes for one
    [float]. *)
Variable show_float : scalar -> list Z.

(** Lines 32-36, from index [i]: a space before every score but the first. *)
Fixpoint fmt_scalars (i : nat) (scalars : list scalar) : list Z :=
  match scalars with
  | [] => []
  | s :: rest => (if (0 <? i)%nat then [space] else []) ++ show_float s ++ fmt_scalars (S i) rest
  end.

(** Lines 37-41, from index [i]: a space before the first byte of the tag. *)
Fixpoint fmt_tag (i : nat) (tag : list Z) : list Z :=
  match tag with
  | [] => []
  | c :: rest => (if (i =? 0)%nat then [space] else []) ++ [c] ++ fmt_tag (S i) rest
  end.

(** The contents of [ss] at line 43. *)
Definition scalars_line (scalars : list scalar) (tag : list Z) : list Z :=
  fmt_scalars 0 scalars ++ fmt_tag 0 tag ++ [newline].

(** A sink: its state and [write], which returns the number of bytes
    written ([VW::io::writer], outside [src/]). *)
Context {W : Type} (write : W -> list Z -> W * Z).

Definition write_error : string := "write error: {}".

(** [MWT::print_scalars] (lines 25-47): nothing for a null sink; otherwise
    one write of the line, and an error logged when the sink took fewer
    bytes than the line has. *)
Definition print_scalars (f : option W) (scalars : list scalar) (tag : list Z) : option W * list string :=
  match f with
  | None => (None, [])
  | Some w =>
      let line := scalars_line scalars tag in
      let '(w', t) := write w line in
      (Some w', if t =? Z.of_nat (length line) then [] else [write_error])
  end.

(** [output_example_prediction_mwt] (lines 186-190): [print_scalars] on
    every sink of [all.final_prediction_sink], in order. *)
Fixpoint output_example_prediction_mwt (sinks : list (option W)) (ec : example)
  : list (option W) * list string :=
  match sinks with
  | [] => ([], [])
  | f :: rest =>
      let '(f', log1) := print_scalars f (pred_scalars ec) (tag ec) in
      let '(rest', log2) := output_example_prediction_mwt rest ec in
      (f' :: rest', log1 ++ log2)
  end.
End Print.

(** The arguments [print_update_mwt] passes to [sd->print_update] (outside
    [src/]): the label column, the predicted class and the feature count. *)
Record progress_line := mk_progress_line {
  pl_label : string;
  pl_prediction : Z;
  pl_num_features : Z }.

(** [print_update_mwt] (lines 192-210): a progress line only when the
    driver prints one ([weighted_examples >= dump_interval], not [quiet],
    not [bfgs]) and the reduction learns; [static_cast<uint32_t>] of the
    prediction. *)
Definition print_update_mwt (weighted_examples dump_interval : Q) (quiet bfgs : bool)
    (data : mwt) (ec : example) (num_features : Z) : option progress_line :=
  if Qle_bool dump_interval weighted_examples && negb quiet && negb bfgs && learn data then
    Some (mk_progress_line (if fst (optional_observation data) then "unknown" else " known")
            (wrap32 (pred_multiclass ec)) num_features)
  else None.

(** A reader of the predictions file: the words of a line, split at white
    space ([words] of why3-semantics' [strings.v]); [cur] is the word being
    read. *)
Fixpoint words_go (cur : list Z) (s : list Z) : list (list Z) :=
  match s with
  | [] => if cur is [] then [] else [cur]
  | c :: rest =>
      if is_space c then (if cur is [] then [] else [cur]) ++ words_go [] rest
      else words_go (cur ++ [c]) rest
  end.

Definition split_words (s : list Z) : list (list Z) := words_go [] s.

(** Fixtures: one digit per score, ["nan"] for a non-finite one. *)
Definition show_digit (s : scalar) : list Z :=
  match s with
  | Finite q => [48 + Z.abs (Qnum q) mod 10]
  | NonFinite => [110; 97; 110]
  end.

(** A sink that keeps everything it is given, as a file does. *)
Definition append_write (w : list Z) (s : list Z) : list Z * Z := (w ++ s, Z.of_nat (length s)).

(** A sink that keeps what it is given, up to [room] bytes. *)
Definition bounded_write (w : list Z * nat) (s : list Z) : (list Z * nat) * Z :=
  let n := Nat.min (length s) w.2 in
  ((w.1 ++ take n s, (w.2 - n)%nat), Z.of_nat n).

End MwtOutput.

Module MwtOutputFacts.
Import Mwt MwtOutput.

(** ** Splitting a line into words *)

Definition no_space (w : list Z) : Prop := Forall (fun c => is_space c = false) w.

Lemma words_go_word cur w s : no_space w -> words_go cur (w ++ s) = words_go (cur ++ w) s.
Proof.
  revert cur. induction w as [|c w IH]; intros cur Hw; simpl; [by rewrite app_nil_r|].
  apply Forall_cons in Hw as [Hc Hw]. rewrite Hc, IH by done. by rewrite <- app_assoc.
Qed.

Lemma words_go_space cur c s : is_space c = true ->
  words_go cur (c :: s) = (if cur is [] then [] else [cur]) ++ words_go [] s.
Proof. intros Hc. simpl. by rewrite Hc. Qed.

Lemma is_space_space : is_space space = true.
Proof. reflexivity. Qed.

Lemma is_space_newline : is_space newline = true.
Proof. reflexivity. Qed.

Section Roundtrip.
Variable show_float : scalar -> list Z.
Hypothesis show_word : forall s, show_float s <> [] /\ no_space (show_float s).

Lemma fmt_tag_tail i tag : (0 < i)%nat -> fmt_tag i tag = tag.
Proof.
  revert i. induction tag as [|c tag IH]; intros i Hi; simpl; [done|].
  destruct i; [lia|]. simpl. rewrite IH by lia. done.
Qed.

(** What the reader makes of the tag and the final newline, after the
    word [cur]. *)
Lemma words_tag cur tag : no_space tag ->
  words_go cur (fmt_tag 0 tag ++ [newline]) =
    (if cur is [] then [] else [cur]) ++ (if tag is [] then [] else [tag]).
Proof.
  intros Ht. destruct tag as [|c rest]; [destruct cur; reflexivity|].
  assert (E : fmt_tag 0 (c :: rest) ++ [newline] = space :: (c :: rest) ++ [newline])
    by (simpl; rewrite fmt_tag_tail by lia; done).
  rewrite E, words_go_space, words_go_word by done. destruct cur; reflexivity.
Qed.

Lemma words_scalars_tail i l cur tag : (0 < i)%nat -> cur <> [] -> no_space tag ->
  words_go cur (fmt_scalars show_float i l ++ fmt_tag 0 tag ++ [newline]) =
    cur :: map show_float l ++ (if tag is [] then [] else [tag]).
Proof.
  revert i cur. induction l as [|s l IH]; intros i cur Hi Hc Ht.
  - cbn [fmt_scalars app]. rewrite words_tag by done. destruct cur; done.
  - destruct i as [|i]; [lia|].
    assert (E : fmt_scalars show_float (S i) (s :: l) = space :: show_float s ++ fmt_scalars show_float (S (S i)) l)
      by reflexivity.
    rewrite E, <- app_comm_cons, words_go_space by done. destruct cur as [|x cur]; [done|].
    rewrite <- app_assoc, words_go_word by apply show_word. simpl.
    rewrite IH by (try apply show_word; try done; lia). done.
Qed.

(** The words of a prediction line (the lemma behind C39, shared with the
    theorem on the composed stack). *)
Lemma scalars_line_words scalars tag :
  no_space tag -> split_words (scalars_line show_float scalars tag) =
    map show_float scalars ++ (if tag is [] then [] else [tag]).
Proof.
  intros Ht. unfold split_words, scalars_line. destruct scalars as [|s l]; simpl.
  - apply words_tag. done.
  - rewrite <- app_assoc, words_go_word by apply show_word. simpl.
    apply words_scalars_tail; [lia|apply show_word|done].
Qed.

(** C39: a reader that splits a line of the predictions file at white
    space gets back, in order, the formatted scores and then the tag (when
    there is one): the line [print_scalars] writes is a faithful encoding
    of its inputs, as long as no formatted score is empty or holds white
    space, and the tag holds none. *)
Theorem scalars_line_roundtrip scalars tag :
  no_space tag -> split_words (scalars_line show_float scalars tag) =
    map show_float scalars ++ (if tag is [] then [] else [tag]).
Proof. exact (scalars_line_words scalars tag). Qed.
End Roundtrip.

(** The encoding is not injective once the tag may hold a space: the tag
    ["2 x"] after the score [1] reads as the scores [1], [2] and the tag
    ["x"]. *)
Lemma scalars_line_tag_ambiguous (show_float : scalar -> list Z) :
  show_float (Finite 1) = [49] -> show_float (Finite 2) = [50] ->
  scalars_line show_float [Finite 1] [50; 32; 120] = scalars_line show_float [Finite 1; Finite 2] [120].
Proof. intros H1 H2. unfold scalars_line. simpl. rewrite H1, H2. reflexivity. Qed.

(** [print_scalars] writes exactly the line, once, and logs an error
    exactly when the sink takes fewer bytes. *)
Lemma print_scalars_writes {W} (show_float : scalar -> list Z) (write : W -> list Z -> W * Z) w scalars tag :
  print_scalars show_float write (Some w) scalars tag =
    (Some (write w (scalars_line show_float scalars tag)).1,
     if (write w (scalars_line show_float scalars tag)).2 =? Z.of_nat (length (scalars_line show_float scalars tag))
     then [] else [write_error]).
Proof. simpl. destruct (write w _). done. Qed.

(** [print_update_mwt] after a call of the handler: the label column reads
    ["unknown"] exactly when the example had an observed cost, and
    [" known"] when it had none. *)
Lemma print_update_label `{BaseLearner example} lrn exclude is_learn c ec c' ec' r we di nf :
  predict_or_learn lrn exclude is_learn c ec = ((c', ec'), r) -> learn c' = true ->
  Qle_bool di we = true ->
  (exists e, observe c ec = Err e) \/
  print_update_mwt we di false false c' ec' nf =
    Some (mk_progress_line (if fst (get_observed_cost_cb (l_cb ec)) then "unknown" else " known")
            (wrap32 (pred_multiclass ec')) nf).
Proof.
  intros Hp Hl Hd. destruct (observe c ec) as [c1|e] eqn:Ho; [right|left; eauto].
  unfold print_update_mwt. rewrite Hd, Hl. simpl.
  assert (Hobs : optional_observation c' = get_observed_cost_cb (l_cb ec)).
  { rewrite <- (MwtFacts.observe_observation _ _ _ Ho).
    exact (MwtFacts.predict_or_learn_observation _ _ _ _ _ _ _ _ _ Ho Hp). }
  rewrite Hobs. done.
Qed.

(** With sinks that take every byte, [output_example_prediction_mwt]
    appends the same prediction line to every non-null sink, skips the null
    ones and logs nothing. *)
Lemma output_example_prediction_appends (show_float : scalar -> list Z) sinks ec :
  output_example_prediction_mwt show_float append_write sinks ec =
    (map (fmap (fun w => w ++ scalars_line show_float (pred_scalars ec) (tag ec))) sinks, []).
Proof.
  induction sinks as [|[w|] sinks IH]; simpl; [done| |]; rewrite IH; [|done].
  unfold append_write. rewrite Z.eqb_refl. done.
Qed.

(** ** Fixtures *)

Lemma show_digit_word s : show_digit s <> [] /\ no_space (show_digit s).
Proof.
  split; [destruct s; discriminate|]. destruct s as [q|]; [|repeat constructor].
  pose proof (Z.mod_pos_bound (Z.abs (Qnum q)) 10 ltac:(lia)).
  constructor; [|constructor]. unfold is_space. apply orb_false_iff. split; [apply Z.eqb_neq; lia|].
  apply andb_false_iff. right. apply Z.leb_gt. lia.
Qed.

(** The scores [1], [7] and a non-finite one with the tag ["t1"]: the
    line is ["1 7 nan t1\n"]. *)
Lemma scalars_line_roundtrip_witness :
  scalars_line show_digit [Finite 1; Finite 7; NonFinite] [116; 49] =
    [49; 32; 55; 32; 110; 97; 110; 32; 116; 49; 10] /\
  split_words (scalars_line show_digit [Finite 1; Finite 7; NonFinite] [116; 49]) =
    map show_digit [Finite 1; Finite 7; NonFinite] ++ [[116; 49]].
Proof.
  split; [reflexivity|].
  apply (scalars_line_roundtrip show_digit show_digit_word); repeat constructor.
Defined.

(** A sink with room for 4 bytes takes the start of the line, and the
    write error is logged; a null sink is skipped. *)
Lemma output_example_prediction_short_write :
  output_example_prediction_mwt show_digit bounded_write [Some ([], 4%nat); None; Some ([], 20%nat)]
    (mk_example [] ∅ [] [] [Finite 1; Finite 2] 0 [120] [] None) =
  ([Some ([49; 32; 50; 32], 0%nat); None; Some ([49; 32; 50; 32; 120; 10], 14%nat)], [write_error]).
Proof. reflexivity. Qed.

End MwtOutputFacts.
