(* ===== verification/SharedFeatureMerger.v ===== *)
(** * The shared-feature merger ([src/vowpalwabbit/core/src/reductions/shared_feature_merger.cc])

    [Module Sfm] models [predict_or_learn<is_learn>] over an explicit store
    of examples: a [multi_ex] is a list of pointers into the store, so an
    example reached through two pointers is one example, and the scope
    guard's restore acts on what the base learner left behind.  The
    namespace splicing helpers of [example.cc] ([append_*], [truncate_*])
    and the header predicates are outside [src/] and are modelled from the
    spec.  [persist] and [sfm_setup] model the metric sink and the setup's
    decision to insert the reduction.  [Module SfmFacts] proves that the
    splicing is undone, on the success path and on the exception path, and
    that the metric counts the learn calls on groups with a header. *)

From S2P Require Import Prelude Learner.
Local Open Scope Z_scope.

Module Sfm.

(** [VW::details::CONSTANT_NAMESPACE]. *)
Definition constant_namespace : Z := 128.

(** [VW::label_type_t], the values the header test distinguishes. *)
Inductive label_type_t := LT_CB | LT_CS | LT_Other.

(** [CB::ec_is_example_header]: a single cost with probability [-1]. *)
Definition cb_is_example_header (ec : example) : bool :=
  match l_cb ec with [c] => Qeq_bool (cb_probability c) (-1) | _ => false end.

(** [COST_SENSITIVE::ec_is_example_header]: a single class [0] with
    [x = -FLT_MAX]. *)
Definition cs_is_example_header (ec : example) : bool :=
  match l_cs ec with
  | [c] => (wc_class_index c =? 0) && Qeq_bool (wc_x c) (- FLT_MAX)
  | _ => false
  end.

(** [VW::LEARNER::ec_is_example_header(ec, label_type)]. *)
Definition ec_is_example_header (ec : example) (lt : label_type_t) : bool :=
  match lt with
  | LT_CB => cb_is_example_header ec
  | LT_CS => cs_is_example_header ec
  | LT_Other => false
  end.

Definition set_namespaces (ec : example) (idx : list Z) (fs : gmap Z features) : example :=
  mk_example idx fs (l_cb ec) (pred_a_s ec) (pred_scalars ec) (pred_multiclass ec) (tag ec)
    (l_cs ec) (las_shared_example ec).

(** The prediction union of [ec] replaced by that of [src]. *)
Definition set_pred_from (ec src : example) : example :=
  mk_example (indices ec) (feature_space ec) (l_cb ec) (pred_a_s src) (pred_scalars src)
    (pred_multiclass src) (tag ec) (l_cs ec) (las_shared_example ec).

Definition set_tag (ec : example) (t : list Z) : example :=
  mk_example (indices ec) (feature_space ec) (l_cb ec) (pred_a_s ec) (pred_scalars ec)
    (pred_multiclass ec) t (l_cs ec) (las_shared_example ec).

Definition set_las (ec : example) (p : option positive) : example :=
  mk_example (indices ec) (feature_space ec) (l_cb ec) (pred_a_s ec) (pred_scalars ec)
    (pred_multiclass ec) (tag ec) (l_cs ec) p.

(** [VW::details::append_example_namespace(ec, ns, fs)]: index [ns] if it
    is not yet, and concatenate [fs] to its group.  The feature counters
    [num_features] and [total_sum_feat_sq] are not modelled. *)
Definition append_example_namespace (ec : example) (ns : Z) (fs : features) : example :=
  set_namespaces ec
    (if bool_decide (ns ∈ indices ec) then indices ec else indices ec ++ [ns])
    (<[ns := fs_get (feature_space ec) ns ++ fs]> (feature_space ec)).

(** [VW::details::append_example_namespaces_from_example(target, source)]. *)
Definition append_example_namespaces_from_example (target source : example) : example :=
  foldl (fun t idx =>
           if idx =? constant_namespace then t
           else append_example_namespace t idx (fs_get (feature_space source) idx))
        target (indices source).

(** [VW::details::truncate_example_namespace(ec, ns, fs)]: drop the last
    [fs.size()] features of the group, and un-index [ns] when it is the
    last index and the group held only those features.  A group shorter
    than [fs] (the violated [assert]) is undefined: [OutOfBounds]. *)
Definition truncate_example_namespace (ec : example) (ns : Z) (fs : features) : result example :=
  let del := fs_get (feature_space ec) ns in
  if (length del <? length fs)%nat then Err OutOfBounds else
  let idx := match last (indices ec) with
             | Some b => if (b =? ns) && (length del =? length fs)%nat
                         then removelast (indices ec) else indices ec
             | None => indices ec
             end in
  Ok (set_namespaces ec idx (<[ns := take (length del - length fs) del]> (feature_space ec))).

(** [VW::details::truncate_example_namespaces_from_example(target, source)]:
    the source's namespaces, last first. *)
Definition truncate_example_namespaces_from_example (target source : example) : result example :=
  foldM (fun t idx =>
           if idx =? constant_namespace then Ok t
           else truncate_example_namespace t idx (fs_get (feature_space source) idx))
        target (reverse (indices source)).

(** The examples a [multi_ex] points to. *)
Abbreviation store := (gmap positive example).

Definition deref (st : store) (p : positive) : result example := of_option UseAfterFree (st !! p).

Definition update (st : store) (p : positive) (f : example -> example) : result store :=
  ex ← deref st p; Ok (<[p := f ex]> st).

Definition update_res (st : store) (p : positive) (f : example -> result example) : result store :=
  ex ← deref st p; ex' ← f ex; Ok (<[p := ex']> st).

(** [std::swap(a->pred, b->pred)] and [std::swap(a->tag, b->tag)]. *)
Definition swap_pred_tag (st : store) (a b : positive) : result store :=
  ea ← deref st a; eb ← deref st b;
  st ← update st a (fun e => set_tag (set_pred_from e eb) (tag eb));
  update st b (fun e => set_tag (set_pred_from e ea) (tag ea)).

(** [class sfm_data] with its [sfm_metrics]. *)
Record sfm_data := mk_sfm_data {
  metrics : option Z;   (* [count_learn_example_with_shared] when metrics are on *)
  label_type : label_type_t;
  store_shared_ex_in_reduction_features : bool }.

(** Lines 50-59: splice the header into every remaining example. *)
Definition merge (data : sfm_data) (shared : positive) (ec_seq : list positive) (st : store)
    : result store :=
  foldM (fun st p =>
           src ← deref st shared;
           st ← update st p (fun e => append_example_namespaces_from_example e src);
           if store_shared_ex_in_reduction_features data
           then update st p (fun e => set_las e (Some shared)) else Ok st)
        st ec_seq.

(** Lines 71-81: the guard's loop, undoing the splice. *)
Definition unmerge (data : sfm_data) (shared : positive) (ec_seq : list positive) (st : store)
    : result store :=
  foldM (fun st p =>
           src ← deref st shared;
           st ← update_res st p (fun e => truncate_example_namespaces_from_example e src);
           if store_shared_ex_in_reduction_features data
           then update st p (fun e => set_las e None) else Ok st)
        st ec_seq.

(** The [restore_guard] lambda (lines 66-86). *)
Definition restore (data : sfm_data) (has_example_header : bool) (shared : positive)
    (ec_seq : list positive) (st : store) : result (list positive * store) :=
  if has_example_header then
    st ← unmerge data shared ec_seq st;
    first ← of_option OutOfBounds (head ec_seq);
    st ← swap_pred_tag st shared first;
    Ok (shared :: ec_seq, st)
  else Ok (ec_seq, st).

Section Handler.
Context `{BaseLearner (list positive * store)}.

(** Lines 88-98, the guarded body: skip an empty group, call the base,
    count the call. *)
Definition guarded_body (is_learn : bool) (data : sfm_data) (has_example_header : bool)
    (ec_seq : list positive) (st : store) : sfm_data * (list positive * store) * result unit :=
  if bool_decide (ec_seq = []) then (data, (ec_seq, st), Ok tt) else
  match learn_or_predict is_learn (ec_seq, st) with
  | Err e => (data, (ec_seq, st), Err e)
  | Ok s' =>
      let data' := match metrics data with
                   | Some n => if is_learn && has_example_header
                               then mk_sfm_data (Some (n + 1)) (label_type data)
                                      (store_shared_ex_in_reduction_features data)
                               else data
                   | None => data
                   end in
      (data', s', Ok tt)
  end.

(** [predict_or_learn<is_learn>] (lines 35-99).  The result carries the
    final state: the data, the group and the example store.  The guard
    runs on both exits of the body; its own failure (undefined behaviour)
    takes precedence over the body's outcome. *)
Definition predict_or_learn (is_learn : bool) (data : sfm_data) (ec_seq : list positive) (st : store)
    : (sfm_data * list positive * store) * result unit :=
  match ec_seq with
  | [] => ((data, ec_seq, st),
           Err (Thrown "cb_adf: At least one action must be provided for an example to be valid."))
  | first :: rest =>
    match deref st first with
    | Err e => ((data, ec_seq, st), Err e)
    | Ok ex0 =>
      let has_example_header := ec_is_example_header ex0 (label_type data) in
      let setup :=
        if has_example_header then
          st ← merge data first rest st;
          p0 ← of_option OutOfBounds (head rest);
          st ← swap_pred_tag st p0 first;
          Ok (rest, st)
        else Ok (ec_seq, st) in
      match setup with
      | Err e => ((data, ec_seq, st), Err e)
      | Ok (seq1, st1) =>
        let '(data2, (seq2, st2), r) := guarded_body is_learn data has_example_header seq1 st1 in
        match restore data has_example_header first seq2 st2 with
        | Err e => ((data2, seq2, st2), Err e)
        | Ok (seq3, st3) => ((data2, seq3, st3), r)
        end
      end
    end
  end.

End Handler.

(** [persist] (lines 101-107): the metric sink, as the list of its
    [set_uint] calls. *)
Definition persist (data : sfm_data) : list (string * Z) :=
  match metrics data with
  | Some n => [("sfm_count_learn_example_with_shared", n)]
  | None => []
  end.

(** [shared_feature_merger_setup] (lines 126-145) after the base learner is
    built: [None] when the base learner is returned as it is (a base that
    is not multiline, or whose input label is neither CB nor CS); the
    label type of the data is the parser's. *)
Definition sfm_setup (extra_metrics large_action_space : bool) (base_label : label_type_t)
    (base_multiline : bool) (parser_label : label_type_t) : option sfm_data :=
  let sfm_label := match base_label with LT_CB | LT_CS => true | LT_Other => false end in
  if negb sfm_label || negb base_multiline then None
  else Some (mk_sfm_data (if extra_metrics then Some 0 else None) parser_label large_action_space).

(** Fixtures: a CB group of a header (namespace ['a'] = 97) and two
    actions, one with namespace ['b'] (98) and one without features; the
    merger with metrics on and the shared-example pointer stored. *)
Definition fixture_header : example :=
  mk_example [97] (<[97 := [(1%Q, 5)]]> ∅) [mk_cb_class 0 0 (-1) 0] [] [] 7 [1] [] None.
Definition fixture_action1 : example :=
  mk_example [98] (<[98 := [(2%Q, 6)]]> ∅) [] [] [] 1 [2] [] None.
Definition fixture_action2 : example := mk_example [] ∅ [] [] [] 2 [3] [] None.
Definition fixture_store : store :=
  <[1%positive := fixture_header]> (<[2%positive := fixture_action1]> (<[3%positive := fixture_action2]> ∅)).
Definition fixture_data : sfm_data := mk_sfm_data (Some 0) LT_CB true.

(** A base that predicts class [42] on the first example of its group, and
    one that throws. *)
Definition predicting_base : BaseLearner (list positive * store) :=
  let f (s : list positive * store) :=
    let '(seq, st) := s in
    match head seq with
    | Some p =>
        match st !! p with
        | Some e => Ok (seq, <[p := set_pred_from e (mk_example [] ∅ [] [] [] 42 [] [] None)]> st)
        | None => Ok (seq, st)
        end
    | None => Ok (seq, st)
    end in
  {| base_learn := f; base_predict := f |}.
Definition throwing_base (msg : string) : BaseLearner (list positive * store) :=
  {| base_learn := fun _ => Err (Thrown msg); base_predict := fun _ => Err (Thrown msg) |}.

End Sfm.

Module SfmFacts.
Import Sfm.

(** The loop bodies of [append_example_namespaces_from_example] and
    [truncate_example_namespaces_from_example]. *)
Definition app_step (src t : example) (idx : Z) : example :=
  if idx =? constant_namespace then t
  else append_example_namespace t idx (fs_get (feature_space src) idx).

Definition trunc_step (src t : example) (idx : Z) : result example :=
  if idx =? constant_namespace then Ok t
  else truncate_example_namespace t idx (fs_get (feature_space src) idx).

(** The parser's shape of an example: a namespace is indexed exactly when
    its group is nonempty. *)
Definition ns_wf (ex : example) : Prop :=
  forall ns, ns ∈ indices ex <-> fs_get (feature_space ex) ns <> [].

(** A loop over a group that rewrites each example from its own value and
    the header's, the shape of both loops of the merger. *)
Definition upd_step (h : positive) (F : example -> example -> result example)
    (st : store) (p : positive) : result store :=
  src ← deref st h; update_res st p (F src).

Definition merge_f (data : sfm_data) (h : positive) (src e : example) : result example :=
  let e' := append_example_namespaces_from_example e src in
  Ok (if store_shared_ex_in_reduction_features data then set_las e' (Some h) else e').

Definition unmerge_f (data : sfm_data) (src e : example) : result example :=
  e' ← truncate_example_namespaces_from_example e src;
  Ok (if store_shared_ex_in_reduction_features data then set_las e' None else e').

(** The reduction-features write of the merge loop (lines 53-58). *)
Definition las_write (data : sfm_data) (p : option positive) (e : example) : example :=
  if store_shared_ex_in_reduction_features data then set_las e p else e.

(** The protocol's assumption on the base of the merger: it keeps the
    group and writes only predictions. *)
Definition writes_only_predictions (s s' : list positive * store) : Prop :=
  fst s' = fst s /\
  forall p, option_Forall2 (fun e e' => e' = set_pred_from e e') (snd s !! p) (snd s' !! p).

(** Two examples carry the same prediction. *)
Definition same_preds (e x : example) : Prop :=
  pred_a_s e = pred_a_s x /\ pred_scalars e = pred_scalars x /\ pred_multiclass e = pred_multiclass x.

(** A group the merger splices: distinct pointers, a header first with
    distinct namespaces, at least one action, and actions of the parser's
    shape whose reduction-features pointer is clear. *)
Definition group_ok (data : sfm_data) (h : positive) (rest : list positive) (st : store) : Prop :=
  NoDup (h :: rest) /\ rest <> [] /\
  (exists hex, st !! h = Some hex /\ ec_is_example_header hex (label_type data) = true /\
               NoDup (indices hex)) /\
  forall p, p ∈ rest -> exists e, st !! p = Some e /\ ns_wf e /\
    (store_shared_ex_in_reduction_features data = true -> las_shared_example e = None).

(** Whether a group starts with a header (line 43). *)
Definition group_has_header (data : sfm_data) (ec_seq : list positive) (st : store) : bool :=
  match ec_seq with
  | p :: _ => match st !! p with Some e => ec_is_example_header e (label_type data) | None => false end
  | [] => false
  end.

(** The metric update of lines 91-98. *)
Definition count_call (is_learn has_header : bool) (data : sfm_data) : sfm_data :=
  match metrics data with
  | Some n => if is_learn && has_header
              then mk_sfm_data (Some (n + 1)) (label_type data) (store_shared_ex_in_reduction_features data)
              else data
  | None => data
  end.

(** Two examples are equivalent when they index the same namespaces, hold
    the same features in every namespace (an absent group and an empty one
    are the same [features] object of the [std::array]), and agree on every
    other field. *)
#[export] Instance example_equiv : Equiv example := fun e1 e2 =>
  indices e1 = indices e2 /\
  (forall ns, fs_get (feature_space e1) ns = fs_get (feature_space e2) ns) /\
  set_namespaces e1 [] ∅ = set_namespaces e2 [] ∅.

#[export] Instance example_equivalence : Equivalence (≡@{example}).
Proof.
  split.
  - intros e. repeat split.
  - intros e1 e2 (?&Hf&?). repeat split; [congruence|intros ns; rewrite Hf; done|congruence].
  - intros e1 e2 e3 (?&Hf1&?) (?&Hf2&?).
    repeat split; [congruence|intros ns; rewrite Hf1, Hf2; done|congruence].
Qed.

Lemma set_namespaces_equiv ex idx fs :
  idx = indices ex -> (forall ns, fs_get fs ns = fs_get (feature_space ex) ns) ->
  set_namespaces ex idx fs ≡ ex.
Proof. intros -> Hf. repeat split. exact Hf. Qed.

(** [truncate_example_namespace] only reads the indices and the groups. *)
Lemma truncate_example_namespace_proper ex ex' ns fs :
  ex ≡ ex' -> truncate_example_namespace ex ns fs ≡ truncate_example_namespace ex' ns fs.
Proof.
  intros (Hi & Hf & Ho). unfold truncate_example_namespace. rewrite Hi, Hf.
  destruct (_ <? _)%nat; simpl; [done|].
  repeat split; [intros k; simpl; rewrite !fs_get_insert, Hf; done|].
  unfold set_namespaces in *; simpl in *. injection Ho as -> -> -> -> -> -> ->. done.
Qed.

Lemma set_namespaces_twice ex i1 f1 i2 f2 :
  set_namespaces (set_namespaces ex i1 f1) i2 f2 = set_namespaces ex i2 f2.
Proof. done. Qed.

Lemma fs_get_empty (fs : gmap Z features) ns :
  ~ (fs_get fs ns <> []) -> fs_get fs ns = [].
Proof. destruct (fs_get fs ns); [done|]. intros H; exfalso; apply H; done. Qed.

(** One namespace of the header appended and then truncated: the example
    is back, provided the namespace was indexed exactly when its group was
    nonempty. *)
Lemma append_then_truncate ex ns fs :
  (ns ∈ indices ex <-> fs_get (feature_space ex) ns <> []) ->
  truncate_example_namespace (append_example_namespace ex ns fs) ns fs ≡ Ok ex.
Proof.
  intros Hwf. unfold truncate_example_namespace, append_example_namespace. simpl.
  rewrite fs_get_insert, decide_True, length_app by done.
  rewrite (proj2 (Nat.ltb_ge _ _)) by lia. simpl.
  replace (length (fs_get (feature_space ex) ns) + length fs - length fs)%nat
    with (length (fs_get (feature_space ex) ns)) by lia.
  rewrite take_app_length, set_namespaces_twice. apply set_namespaces_equiv.
  - case_bool_decide as Hin.
    + destruct (last (indices ex)) as [b|]; [|done].
      destruct (Z.eqb_spec b ns); simpl; [|done].
      destruct (Nat.eqb_spec (length (fs_get (feature_space ex) ns) + length fs) (length fs)); [|done].
      exfalso. apply Hwf in Hin. apply Hin, length_zero_iff_nil. lia.
    + rewrite last_snoc, Z.eqb_refl, (fs_get_empty _ _ (fun H => Hin (proj2 Hwf H))). simpl.
      rewrite Nat.eqb_refl, removelast_last. done.
  - intros k. rewrite !fs_get_insert. case_decide; subst; done.
Qed.

Lemma trunc_step_proper src a t t' : t ≡ t' -> trunc_step src t a ≡ trunc_step src t' a.
Proof. intros Ht. unfold trunc_step. destruct (a =? _); [done|]. apply truncate_example_namespace_proper; done. Qed.

(** Appending the header's namespaces other than [a] leaves namespace [a]
    alone. *)
Lemma append_fold_other src L t a : a ∉ L ->
  fs_get (feature_space (foldl (app_step src) t L)) a = fs_get (feature_space t) a /\
  (a ∈ indices (foldl (app_step src) t L) <-> a ∈ indices t).
Proof.
  revert t. induction L as [|b L IH]; intros t Ha; simpl; [done|].
  apply not_elem_of_cons in Ha as [Hab Ha].
  destruct (IH (app_step src t b) Ha) as [-> ->]. unfold app_step.
  destruct (b =? _); [done|]. simpl. rewrite fs_get_insert, decide_False by done.
  split; [done|]. case_bool_decide; [done|]. rewrite elem_of_app, list_elem_of_singleton.
  split; [intros [?|?]; [done|congruence]|left; done].
Qed.

(** The splice of a header with distinct namespaces into an example of the
    parser's shape is undone by the truncation, last namespace first. *)
Lemma splice_undone src t L :
  NoDup L -> (forall a, a ∈ L -> a ∈ indices t <-> fs_get (feature_space t) a <> []) ->
  foldM (trunc_step src) (foldl (app_step src) t L) (reverse L) ≡ Ok t.
Proof.
  induction L as [|a L IH] using rev_ind; intros Hnd Hwf; [done|].
  apply NoDup_app in Hnd as (Hnd & Hdisj & _).
  assert (Ha : a ∉ L) by (intros Hin; apply (Hdisj a Hin); left).
  rewrite foldl_app, reverse_snoc. simpl.
  set (Y := foldl (app_step src) t L).
  assert (HY : trunc_step src (app_step src Y a) a ≡ Ok Y).
  { unfold trunc_step, app_step. destruct (a =? _); [done|].
    apply append_then_truncate. subst Y. destruct (append_fold_other src L t a Ha) as [-> ->].
    apply Hwf. apply elem_of_app; right; left. }
  apply Ok_equiv in HY as (Y' & -> & HY'). simpl.
  etrans; [apply foldM_proper; [intros; apply trunc_step_proper; done|exact HY']|].
  apply IH; [done|]. intros b Hb; apply Hwf, elem_of_app; left; done.
Qed.

Lemma truncate_after_append t src :
  NoDup (indices src) -> ns_wf t ->
  truncate_example_namespaces_from_example (append_example_namespaces_from_example t src) src ≡ Ok t.
Proof.
  intros Hnd Hwf. apply (splice_undone src t (indices src) Hnd). intros a _. apply Hwf.
Qed.

(** Field writes that leave the namespaces alone: they commute with the
    splicing, and with the equivalence. *)
Definition ns_transparent (g : example -> example) : Prop :=
  (forall e i f, g (set_namespaces e i f) = set_namespaces (g e) i f) /\
  (forall e, indices (g e) = indices e /\ feature_space (g e) = feature_space e) /\
  (forall e1 e2, set_namespaces e1 [] ∅ = set_namespaces e2 [] ∅ ->
                 set_namespaces (g e1) [] ∅ = set_namespaces (g e2) [] ∅).

Lemma set_pred_from_transparent src : ns_transparent (fun e => set_pred_from e src).
Proof. split; [done|split; [done|]]. intros e1 e2 H. injection H. intros. unfold set_namespaces; simpl; congruence. Qed.

Lemma set_tag_transparent t : ns_transparent (fun e => set_tag e t).
Proof. split; [done|split; [done|]]. intros e1 e2 H. injection H. intros. unfold set_namespaces; simpl; congruence. Qed.

Lemma set_las_transparent p : ns_transparent (fun e => set_las e p).
Proof. split; [done|split; [done|]]. intros e1 e2 H. injection H. intros. unfold set_namespaces; simpl; congruence. Qed.

Lemma transparent_compose g1 g2 : ns_transparent g1 -> ns_transparent g2 -> ns_transparent (fun e => g2 (g1 e)).
Proof.
  intros (H1a & H1b & H1c) (H2a & H2b & H2c). split; [intros; rewrite H1a, H2a; done|split].
  - intros e. destruct (H1b e), (H2b (g1 e)). split; congruence.
  - intros e1 e2 H. apply H2c, H1c, H.
Qed.

Lemma transparent_id : ns_transparent (fun e => e).
Proof. split; [done|split; done]. Qed.

Lemma transparent_equiv g e1 e2 : ns_transparent g -> e1 ≡ e2 -> g e1 ≡ g e2.
Proof.
  intros (_ & Hb & Hc) (Hi & Hf & Ho). destruct (Hb e1) as [Hi1 Hf1], (Hb e2) as [Hi2 Hf2].
  split; [congruence|split; [intros ns; rewrite Hf1, Hf2; done|apply Hc, Ho]].
Qed.

Lemma append_from_transparent g e src : ns_transparent g ->
  append_example_namespaces_from_example (g e) src = g (append_example_namespaces_from_example e src).
Proof.
  intros Hg. unfold append_example_namespaces_from_example. generalize (indices src) as L.
  intros L. revert e. induction L as [|a L IH]; intros e; simpl; [done|].
  rewrite <- IH. f_equal. destruct (a =? _); [done|].
  destruct Hg as (Ha & Hb & _). destruct (Hb e) as [Hi Hf].
  unfold append_example_namespace. rewrite Ha, Hi, Hf. done.
Qed.

Lemma truncate_from_transparent g e src : ns_transparent g ->
  truncate_example_namespaces_from_example (g e) src = g <$> truncate_example_namespaces_from_example e src.
Proof.
  intros Hg. unfold truncate_example_namespaces_from_example. generalize (reverse (indices src)) as L.
  intros L. revert e. induction L as [|a L IH]; intros e; simpl; [done|].
  destruct (a =? _); simpl; [apply IH|].
  destruct Hg as (Ha & Hb & _). destruct (Hb e) as [Hi Hf].
  unfold truncate_example_namespace. rewrite Hi, Hf.
  destruct (_ <? _)%nat; simpl; [done|]. rewrite <- Ha. apply IH.
Qed.

Lemma truncate_from_source e src src' :
  indices src' = indices src -> feature_space src' = feature_space src ->
  truncate_example_namespaces_from_example e src' = truncate_example_namespaces_from_example e src.
Proof. unfold truncate_example_namespaces_from_example. intros -> ->. done. Qed.

Lemma foldM_ext {A B} (f g : A -> B -> result A) l a :
  (forall a b, f a b = g a b) -> foldM f a l = foldM g a l.
Proof. intros Hfg. revert a. induction l as [|b l IH]; intros a; simpl; [done|]. rewrite Hfg. apply bind_ext; done. Qed.

Lemma merge_upd data h L st : merge data h L st = foldM (upd_step h (merge_f data h)) st L.
Proof.
  apply foldM_ext. intros st' p. unfold upd_step, update, update_res, deref, merge_f.
  destruct (st' !! h) as [src|]; simpl; [|done]. destruct (st' !! p) as [e|]; simpl; [|done].
  destruct (store_shared_ex_in_reduction_features data); simpl; [|done].
  rewrite lookup_insert_eq. simpl. rewrite insert_insert_eq. done.
Qed.

Lemma unmerge_upd data h L st : unmerge data h L st = foldM (upd_step h (unmerge_f data)) st L.
Proof.
  apply foldM_ext. intros st' p. unfold upd_step, update, update_res, deref, unmerge_f.
  destruct (st' !! h) as [src|]; simpl; [|done]. destruct (st' !! p) as [e|]; simpl; [|done].
  destruct (truncate_example_namespaces_from_example e src) as [e'|]; simpl; [|done].
  destruct (store_shared_ex_in_reduction_features data); simpl; [|done].
  rewrite lookup_insert_eq. simpl. rewrite insert_insert_eq. done.
Qed.

(** A loop of [upd_step] over distinct pointers that avoid the header
    rewrites each of them once, from its value and the header's value
    before the loop, and nothing else. *)
Lemma fold_upd_spec h F L : NoDup L -> h ∉ L -> forall st src, st !! h = Some src ->
  (forall p, p ∈ L -> exists e e', st !! p = Some e /\ F src e = Ok e') ->
  exists st', foldM (upd_step h F) st L = Ok st' /\
    (forall p, p ∉ L -> st' !! p = st !! p) /\
    (forall p, p ∈ L -> exists e e', st !! p = Some e /\ F src e = Ok e' /\ st' !! p = Some e').
Proof.
  induction L as [|a L IH]; intros Hnd Hh st src Hsrc Hpre; simpl.
  { exists st. split; [done|]. split; [done|]. intros p Hp; inversion Hp. }
  apply NoDup_cons in Hnd as [HaL Hnd]. apply not_elem_of_cons in Hh as [Hha Hh].
  destruct (Hpre a ltac:(left)) as (e & e' & Ha & HF).
  assert (Hstep : upd_step h F st a = Ok (<[a := e']> st))
    by (unfold upd_step, update_res, deref; rewrite Hsrc; simpl; rewrite Ha; simpl; rewrite HF; done).
  rewrite Hstep, Ok_bind.
  destruct (IH Hnd Hh (<[a := e']> st) src) as (st' & Hst' & Hout & Hin).
  { rewrite lookup_insert_ne; done. }
  { intros p Hp. rewrite lookup_insert_ne by (intros ->; done). apply Hpre. right; done. }
  exists st'. split; [done|]. split.
  - intros p Hp. apply not_elem_of_cons in Hp as [Hpa Hp]. rewrite Hout, lookup_insert_ne; done.
  - intros p [->|Hp]%elem_of_cons.
    + exists e, e'. split; [done|]. split; [done|]. rewrite Hout by done. apply lookup_insert_eq.
    + destruct (Hin p Hp) as (e1 & e1' & H1 & H2 & H3). rewrite lookup_insert_ne in H1 by (intros ->; done).
      eauto.
Qed.

Lemma swap_pred_tag_spec st a b ea eb :
  st !! a = Some ea -> st !! b = Some eb -> a <> b ->
  swap_pred_tag st a b = Ok (<[b := set_tag (set_pred_from eb ea) (tag ea)]>
                              (<[a := set_tag (set_pred_from ea eb) (tag eb)]> st)).
Proof.
  intros Ha Hb Hab. unfold swap_pred_tag, update, deref. rewrite Ha, Hb. simpl.
  rewrite lookup_insert_ne, Hb by done. done.
Qed.

Lemma las_write_transparent data p : ns_transparent (las_write data p).
Proof. unfold las_write. destruct (store_shared_ex_in_reduction_features data); [apply set_las_transparent|apply transparent_id]. Qed.

(** What the guard's truncation leaves of an example spliced with the
    header and then rewritten outside its namespaces. *)
Lemma unsplice g e hex src :
  ns_transparent g -> ns_wf e -> NoDup (indices hex) ->
  indices src = indices hex -> feature_space src = feature_space hex ->
  exists e', truncate_example_namespaces_from_example (g (append_example_namespaces_from_example e hex)) src
             = Ok (g e') /\ e' ≡ e.
Proof.
  intros Hg Hwf Hnd Hi Hf. rewrite (truncate_from_source _ hex src Hi Hf).
  rewrite (truncate_from_transparent g _ hex Hg).
  pose proof (truncate_after_append e hex Hnd Hwf) as Hu.
  apply Ok_equiv in Hu as (e' & -> & He'). exists e'. done.
Qed.

Lemma append_from_shape e src :
  append_example_namespaces_from_example e src =
  set_namespaces e (indices (append_example_namespaces_from_example e src))
                   (feature_space (append_example_namespaces_from_example e src)).
Proof.
  unfold append_example_namespaces_from_example. generalize (indices src) as L. intros L.
  assert (forall t, set_namespaces t (indices t) (feature_space t) = t) as Hid by (intros []; done).
  assert (forall L t, exists i f, foldl (fun t idx => if idx =? constant_namespace then t
            else append_example_namespace t idx (fs_get (feature_space src) idx)) t L = set_namespaces t i f)
    as Hgen.
  { induction L0 as [|a L0 IH]; intros t; simpl; [exists (indices t), (feature_space t); rewrite Hid; done|].
    destruct (IH (if a =? constant_namespace then t else append_example_namespace t a
                    (fs_get (feature_space src) a))) as (i & f & ->).
    destruct (a =? _); [eauto|]. exists i, f. done. }
  destruct (Hgen L e) as (i & f & ->). done.
Qed.

(** Lines 45-63 on a group as [group_ok] describes it: the splice, then the
    swap of the first action's and the header's predictions and tags. *)
Lemma setup_spec data h rest st :
  group_ok data h rest st ->
  exists hex p0 rest' e0 st1,
    st !! h = Some hex /\ rest = p0 :: rest' /\ st !! p0 = Some e0 /\
    (st' ← merge data h rest st; p ← of_option OutOfBounds (head rest);
     st' ← swap_pred_tag st' p h; Ok (rest, st')) = Ok (rest, st1) /\
    (forall q, q ∉ h :: rest -> st1 !! q = st !! q) /\
    st1 !! h = Some (set_tag (set_pred_from hex e0) (tag e0)) /\
    forall p e, p ∈ rest -> st !! p = Some e ->
      st1 !! p = Some ((if decide (p = p0) then fun x => set_tag (set_pred_from x hex) (tag hex) else id)
                        (las_write data (Some h) (append_example_namespaces_from_example e hex))).
Proof.
  intros (Hnd & Hne & (hex & Hh & _ & _) & Hrest).
  apply NoDup_cons in Hnd as [Hhr Hnd].
  destruct rest as [|p0 rest']; [done|].
  destruct (Hrest p0 ltac:(left)) as (e0 & He0 & _).
  destruct (fold_upd_spec h (merge_f data h) (p0 :: rest') Hnd Hhr st hex Hh) as (stm & Hm & Hout & Hin).
  { intros p Hp. destruct (Hrest p Hp) as (e & He & _). eexists _, _; split; [exact He|done]. }
  assert (Hmp : forall p e, p ∈ p0 :: rest' -> st !! p = Some e ->
                 stm !! p = Some (las_write data (Some h) (append_example_namespaces_from_example e hex))).
  { intros p e Hp He. destruct (Hin p Hp) as (e1 & e1' & H1 & H2 & H3). rewrite He in H1.
    injection H1 as <-. injection H2 as <-. done. }
  assert (Hph : p0 <> h) by (intros ->; apply Hhr; left).
  exists hex, p0, rest', e0.
  eexists. split; [done|]. split; [done|]. split; [done|].
  split.
  { rewrite merge_upd, Hm, Ok_bind. simpl.
    assert (Hsh : stm !! h = Some hex) by (rewrite Hout; done).
    rewrite (swap_pred_tag_spec stm p0 h _ hex (Hmp p0 e0 ltac:(left) He0) Hsh Hph), Ok_bind.
    reflexivity. }
  split; [|split].
  - intros q Hq. apply not_elem_of_cons in Hq as [Hqh Hq].
    rewrite !lookup_insert_ne by (intros ?; subst; first [done|apply Hq; left]). apply Hout; done.
  - rewrite lookup_insert_eq. f_equal.
    rewrite append_from_shape. unfold las_write. destruct (store_shared_ex_in_reduction_features data); done.
  - intros p e Hp He. rewrite lookup_insert_ne by (intros ->; done).
    destruct (decide (p = p0)) as [->|Hpp0].
    + rewrite He0 in He. injection He as <-. rewrite lookup_insert_eq. done.
    + rewrite lookup_insert_ne by done. apply Hmp; done.
Qed.

(** The guard's loop (lines 71-81) on a group whose examples are spliced
    copies of [E p], rewritten since outside their namespaces by [G p]. *)
Lemma unmerge_spec data h rest st2 hs hex (G : positive -> example -> example) (E : positive -> example) :
  NoDup rest -> h ∉ rest -> st2 !! h = Some hs -> NoDup (indices hex) ->
  indices hs = indices hex -> feature_space hs = feature_space hex ->
  (forall p, p ∈ rest -> ns_transparent (G p) /\ ns_wf (E p) /\
                         st2 !! p = Some (G p (append_example_namespaces_from_example (E p) hex))) ->
  exists st3, unmerge data h rest st2 = Ok st3 /\ (forall q, q ∉ rest -> st3 !! q = st2 !! q) /\
    forall p, p ∈ rest -> exists e', e' ≡ E p /\ st3 !! p = Some (las_write data None (G p e')).
Proof.
  intros Hnd Hhr Hh Hndh Hi Hf Hp.
  assert (Hun : forall p, p ∈ rest -> exists e', e' ≡ E p /\
            unmerge_f data hs (G p (append_example_namespaces_from_example (E p) hex))
            = Ok (las_write data None (G p e'))).
  { intros p Hin. destruct (Hp p Hin) as (Hg & Hwf & _).
    destruct (unsplice (G p) (E p) hex hs Hg Hwf Hndh Hi Hf) as (e' & Ht & He').
    exists e'. split; [done|]. unfold unmerge_f. rewrite Ht. done. }
  destruct (fold_upd_spec h (unmerge_f data) rest Hnd Hhr st2 hs Hh) as (st3 & H3 & Hout & Hin).
  { intros p Hpr. destruct (Hp p Hpr) as (_ & _ & Hst). destruct (Hun p Hpr) as (e' & _ & Hu).
    eexists _, _; split; [exact Hst|exact Hu]. }
  exists st3. split; [rewrite unmerge_upd; done|]. split; [done|].
  intros p Hpr. destruct (Hp p Hpr) as (_ & _ & Hst). destruct (Hun p Hpr) as (e' & He' & Hu).
  destruct (Hin p Hpr) as (e1 & e1' & H1 & H2 & H3'). rewrite Hst in H1. injection H1 as <-.
  rewrite Hu in H2. injection H2 as <-. eauto.
Qed.

(** The three shapes an example of the group has once the guard has run:
    an action other than the first, the first action, the header.  Each is
    its original up to its prediction, which is that of [x]. *)
Lemma final_other data h e e'' x :
  e'' ≡ e -> (store_shared_ex_in_reduction_features data = true -> las_shared_example e = None) ->
  let e' := las_write data None (set_pred_from (las_write data (Some h) e'') x) in
  e' ≡ set_pred_from e e' /\ same_preds e' x.
Proof.
  intros (Hi & Hf & Ho) Hlas. unfold las_write, same_preds.
  destruct (store_shared_ex_in_reduction_features data); simpl;
    (split; [repeat split; [done|done|]|done]);
    destruct e, e''; unfold set_namespaces in *; simpl in *; injection Ho; intros; subst;
    try rewrite Hlas by done; done.
Qed.

Lemma final_first data h e0 e0'' x hs hex :
  e0'' ≡ e0 -> (store_shared_ex_in_reduction_features data = true -> las_shared_example e0 = None) ->
  tag hs = tag e0 ->
  let Y0 := las_write data None
              (set_pred_from (set_tag (set_pred_from (las_write data (Some h) e0'') hex) (tag hex)) x) in
  let e' := set_tag (set_pred_from Y0 hs) (tag hs) in
  e' ≡ set_pred_from e0 e' /\ same_preds e' hs.
Proof.
  intros (Hi & Hf & Ho) Hlas Htag. unfold las_write, same_preds.
  destruct (store_shared_ex_in_reduction_features data); simpl;
    (split; [repeat split; [done|done|]|done]);
    destruct e0, e0''; unfold set_namespaces in *; simpl in *; injection Ho; intros; subst;
    try rewrite Htag; try rewrite Hlas by done; done.
Qed.

Lemma final_header hex e0 hs Y0 :
  hs = set_pred_from (set_tag (set_pred_from hex e0) (tag e0)) hs -> tag Y0 = tag hex ->
  let e' := set_tag (set_pred_from hs Y0) (tag Y0) in
  e' ≡ set_pred_from hex e' /\ same_preds e' Y0.
Proof.
  intros Hhs Htag. unfold same_preds. rewrite Hhs. simpl.
  split; [repeat split; unfold set_namespaces; simpl; rewrite Htag; done|done].
Qed.

Lemma las_write_preds data p y x : same_preds (las_write data p (set_pred_from y x)) x.
Proof. unfold las_write. destruct (store_shared_ex_in_reduction_features data); repeat split. Qed.

Lemma same_preds_trans e y x : same_preds e y -> same_preds y x -> same_preds e x.
Proof. intros (?&?&?) (?&?&?). repeat split; congruence. Qed.

(** The guard (lines 66-86) after the base has written predictions: every
    example of the group is back up to its prediction, and the header
    carries the first action's prediction. *)
Lemma restore_after data h p0 rest' (st st1 st2 : store) (hex e0 : example) :
  group_ok data h (p0 :: rest') st -> st !! h = Some hex -> st !! p0 = Some e0 ->
  st1 !! h = Some (set_tag (set_pred_from hex e0) (tag e0)) ->
  (forall p e, p ∈ p0 :: rest' -> st !! p = Some e ->
     st1 !! p = Some ((if decide (p = p0) then fun x => set_tag (set_pred_from x hex) (tag hex) else id)
                       (las_write data (Some h) (append_example_namespaces_from_example e hex)))) ->
  (forall p, option_Forall2 (fun e e' => e' = set_pred_from e e') (st1 !! p) (st2 !! p)) ->
  exists st4, restore data true h (p0 :: rest') st2 = Ok (h :: p0 :: rest', st4) /\
    forall p, p ∈ h :: p0 :: rest' -> exists e e' x,
      st !! p = Some e /\ st4 !! p = Some e' /\ e' ≡ set_pred_from e e' /\
      st2 !! (if decide (p = h) then p0 else if decide (p = p0) then h else p) = Some x /\
      same_preds e' x.
Proof.
  intros (Hnd & _ & (hex' & Hh' & _ & Hndh) & Hrest) Hh He0 Hs1h Hs1p Hrel.
  rewrite Hh in Hh'. injection Hh' as <-.
  apply NoDup_cons in Hnd as [Hhr Hnd]. assert (Hph : p0 <> h) by (intros ->; apply Hhr; left).
  pose proof (Hrel h) as Hrh. rewrite Hs1h in Hrh.
  destruct (st2 !! h) as [hs|] eqn:Hst2h; inversion Hrh as [? ? Hhs|]; subst.
  set (X p := default e0 (st2 !! p)).
  set (G p y := set_pred_from ((if decide (p = p0) then fun x => set_tag (set_pred_from x hex) (tag hex) else id)
                                 (las_write data (Some h) y)) (X p)).
  set (E p := default e0 (st !! p)).
  assert (Hpre : forall p, p ∈ p0 :: rest' -> ns_transparent (G p) /\ ns_wf (E p) /\
                   st2 !! p = Some (G p (append_example_namespaces_from_example (E p) hex))).
  { intros p Hp. destruct (Hrest p Hp) as (e & He & Hwf & _).
    assert (HE : E p = e) by (subst E; cbv beta; rewrite He; done).
    rewrite HE. split; [|split; [done|]].
    - subst G. cbv beta.
      apply (transparent_compose _ (fun e => set_pred_from e (X p))); [|apply set_pred_from_transparent].
      apply (transparent_compose (las_write data (Some h))); [apply las_write_transparent|].
      case_decide; [|apply transparent_id].
      apply (transparent_compose (fun x => set_pred_from x hex) (fun x => set_tag x (tag hex)));
        [apply set_pred_from_transparent|apply set_tag_transparent].
    - pose proof (Hrel p) as Hrp. rewrite (Hs1p p e Hp He) in Hrp.
      destruct (st2 !! p) as [x|] eqn:Hx; inversion Hrp as [? ? Hxe|]; subst.
      subst X G. cbv beta. rewrite Hx. simpl. rewrite Hxe at 1. done. }
  destruct (unmerge_spec data h (p0 :: rest') st2 hs hex G E Hnd Hhr Hst2h Hndh) as (st3 & H3 & Hout3 & Hin3);
    [rewrite Hhs; done|rewrite Hhs; done|exact Hpre|].
  destruct (Hin3 p0 ltac:(left)) as (e0'' & He0'' & Hst3p0).
  assert (HE0 : E p0 = e0) by (subst E; cbv beta; rewrite He0; done). rewrite HE0 in He0''.
  assert (Hst3h : st3 !! h = Some hs) by (rewrite Hout3; done).
  exists (<[p0 := set_tag (set_pred_from (las_write data None (G p0 e0'')) hs) (tag hs)]>
            (<[h := set_tag (set_pred_from hs (las_write data None (G p0 e0''))) (tag (las_write data None (G p0 e0'')))]> st3)).
  split.
  { unfold restore. rewrite H3, Ok_bind. simpl. rewrite (swap_pred_tag_spec st3 h p0 hs _ Hst3h Hst3p0) by done.
    done. }
  assert (HX : forall p, p ∈ p0 :: rest' -> st2 !! p = Some (X p)).
  { intros p Hp. destruct (Hpre p Hp) as (_ & _ & Hs). subst X. cbv beta. rewrite Hs. done. }
  assert (HG0 : G p0 e0'' = set_pred_from (set_tag (set_pred_from (las_write data (Some h) e0'') hex) (tag hex))
                              (X p0)) by (subst G; cbv beta; rewrite decide_True by done; done).
  rewrite HG0 in *.
  destruct (Hrest p0 ltac:(left)) as (e0' & He0' & _ & Hlas0). rewrite He0 in He0'. injection He0' as <-.
  intros p Hp. destruct (decide (p = h)) as [->|Hpnh].
  - eexists hex, _, (X p0).
    split; [done|]. split; [rewrite lookup_insert_ne, lookup_insert_eq by done; done|].
    destruct (final_header hex e0 hs (las_write data None
               (set_pred_from (set_tag (set_pred_from (las_write data (Some h) e0'') hex) (tag hex)) (X p0))) Hhs)
      as [Heq Hsp]; [unfold las_write; destruct (store_shared_ex_in_reduction_features data); done|].
    split; [exact Heq|]. split; [apply HX; left|]. eapply same_preds_trans; [exact Hsp|apply las_write_preds].
  - destruct (decide (p = p0)) as [->|Hpn0].
    + eexists e0, _, hs. split; [done|]. split; [rewrite lookup_insert_eq; done|].
      destruct (final_first data h e0 e0'' (X p0) hs hex He0'' Hlas0) as [Heq Hsp];
        [rewrite Hhs; done|].
      split; [exact Heq|]. split; [done|exact Hsp].
    + apply elem_of_cons in Hp as [->|Hp]; [done|]. apply elem_of_cons in Hp as [->|Hp]; [done|].
      destruct (Hin3 p ltac:(right; done)) as (e'' & He'' & Hst3p).
      destruct (Hrest p ltac:(right; done)) as (e & He & _ & Hlas).
      assert (HEp : E p = e) by (subst E; cbv beta; rewrite He; done). rewrite HEp in He''.
      assert (HGp : G p e'' = set_pred_from (las_write data (Some h) e'') (X p))
        by (subst G; cbv beta; rewrite decide_False by done; done).
      eexists e, _, (X p). split; [done|].
      split; [rewrite !lookup_insert_ne, Hst3p by done; rewrite HGp; done|].
      destruct (final_other data h e e'' (X p) He'' Hlas) as [Heq Hsp].
      split; [exact Heq|]. split; [apply HX; right; done|exact Hsp].
Qed.

Lemma equiv_same_preds e e' : e' ≡ set_pred_from e e' -> same_preds e' e -> e' ≡ e.
Proof. intros Heq (H1 & H2 & H3). destruct e, e'; simpl in *. subst. exact Heq. Qed.

Lemma option_Forall2_preds_refl (st : store) p :
  option_Forall2 (fun e e' => e' = set_pred_from e e') (st !! p) (st !! p).
Proof. destruct (st !! p) as [e|]; constructor. destruct e; done. Qed.

Section Handler.
Context `{BaseLearner (list positive * store)}.

(** A call on a group as [group_ok] describes it: the splice and swap of
    lines 45-63, then the guarded body and the guard. *)
Lemma predict_or_learn_group is_learn data h rest st :
  group_ok data h rest st ->
  exists hex p0 rest' e0 st1,
    st !! h = Some hex /\ rest = p0 :: rest' /\ st !! p0 = Some e0 /\
    (forall q, q ∉ h :: rest -> st1 !! q = st !! q) /\
    st1 !! h = Some (set_tag (set_pred_from hex e0) (tag e0)) /\
    (forall p e, p ∈ rest -> st !! p = Some e ->
      st1 !! p = Some ((if decide (p = p0) then fun x => set_tag (set_pred_from x hex) (tag hex) else id)
                        (las_write data (Some h) (append_example_namespaces_from_example e hex)))) /\
    predict_or_learn is_learn data (h :: rest) st =
      (let '(data2, (seq2, st2), r) := guarded_body is_learn data true rest st1 in
       match restore data true h seq2 st2 with
       | Err e => ((data2, seq2, st2), Err e)
       | Ok (seq3, st3) => ((data2, seq3, st3), r)
       end).
Proof.
  intros Hok. pose proof Hok as (_ & _ & (hex & Hh & Hhdr & _) & _).
  destruct (setup_spec data h rest st Hok) as (hex' & p0 & rest' & e0 & st1 & Hh' & -> & He0 & Hsetup & Hout & Hs1h & Hs1p).
  rewrite Hh in Hh'. injection Hh' as <-.
  exists hex, p0, rest', e0, st1. do 6 (split; [done|]).
  unfold predict_or_learn, deref. rewrite Hh. cbn [of_option]. rewrite Hhdr, Hsetup. done.
Qed.

(** C18.  On a group with a header (distinct pointers, distinct header
    namespaces, actions of the parser's shape), [predict_or_learn] puts the
    header back at index 0 and every example of the group back as it was,
    up to its prediction, whether the base learner returns or throws, for
    any base learner that keeps the group and writes only predictions. *)
Theorem merger_restores_group is_learn data h rest st data' seq' st' r :
  group_ok data h rest st ->
  (forall s s', learn_or_predict is_learn s = Ok s' -> writes_only_predictions s s') ->
  predict_or_learn is_learn data (h :: rest) st = ((data', seq', st'), r) ->
  seq' = h :: rest /\
  forall p, p ∈ h :: rest -> exists e e', st !! p = Some e /\ st' !! p = Some e' /\ e' ≡ set_pred_from e e'.
Proof.
  intros Hok Hbase Hp.
  destruct (predict_or_learn_group is_learn data h rest st Hok)
    as (hex & p0 & rest' & e0 & st1 & Hh & -> & He0 & _ & Hs1h & Hs1p & Heq).
  rewrite Heq in Hp. unfold guarded_body in Hp. rewrite bool_decide_false in Hp by done.
  assert (Hfin : forall st2, (forall p, option_Forall2 (fun e e' => e' = set_pred_from e e') (st1 !! p) (st2 !! p)) ->
            forall d2 r2, (let '(data2, (seq2, st2'), r) := (d2, (p0 :: rest', st2), r2) in
              match restore data true h seq2 st2' with
              | Err e => ((data2, seq2, st2'), Err e) | Ok (seq3, st3) => ((data2, seq3, st3), r) end)
              = ((data', seq', st'), r) ->
            seq' = h :: p0 :: rest' /\ forall p, p ∈ h :: p0 :: rest' ->
              exists e e', st !! p = Some e /\ st' !! p = Some e' /\ e' ≡ set_pred_from e e').
  { intros st2 Hrel d2 r2 Hr.
    destruct (restore_after data h p0 rest' st st1 st2 hex e0 Hok Hh He0 Hs1h Hs1p Hrel) as (st4 & Hres & Hall).
    rewrite Hres in Hr. injection Hr as _ <- <- _. split; [done|].
    intros p Hin. destruct (Hall p Hin) as (e & e' & x & ? & ? & ? & _). eauto. }
  destruct (learn_or_predict is_learn (p0 :: rest', st1)) as [[seq2 st2]|err] eqn:Hb.
  - destruct (Hbase _ _ Hb) as [Hseq Hrel]. simpl in Hseq, Hrel. subst seq2.
    eapply Hfin; [exact Hrel|exact Hp].
  - eapply Hfin; [apply option_Forall2_preds_refl|exact Hp].
Qed.

(** C19.  When the base learner throws, the guard still runs: the call
    ends with the base's exception, the data unchanged, the header back at
    index 0 and every example of the group exactly as it was, predictions
    and tags included. *)
Theorem merger_throw_restores_group is_learn data h rest st err data' seq' st' r :
  group_ok data h rest st ->
  (forall s, learn_or_predict is_learn s = Err err) ->
  predict_or_learn is_learn data (h :: rest) st = ((data', seq', st'), r) ->
  r = Err err /\ data' = data /\ seq' = h :: rest /\
  forall p, p ∈ h :: rest -> exists e e', st !! p = Some e /\ st' !! p = Some e' /\ e' ≡ e.
Proof.
  intros Hok Hthrow Hp.
  destruct (predict_or_learn_group is_learn data h rest st Hok)
    as (hex & p0 & rest' & e0 & st1 & Hh & -> & He0 & _ & Hs1h & Hs1p & Heq).
  rewrite Heq in Hp. unfold guarded_body in Hp. rewrite bool_decide_false, Hthrow in Hp by done.
  destruct (restore_after data h p0 rest' st st1 st1 hex e0 Hok Hh He0 Hs1h Hs1p
              (option_Forall2_preds_refl st1)) as (st4 & Hres & Hall).
  rewrite Hres in Hp. injection Hp as <- <- <- <-. do 3 (split; [done|]).
  intros p Hin. destruct (Hall p Hin) as (e & e' & x & He & He' & Heqv & Hx & Hsp).
  exists e, e'. do 2 (split; [done|]). apply (equiv_same_preds e e' Heqv).
  eapply same_preds_trans; [exact Hsp|].
  destruct (decide (p = h)) as [->|Hph].
  - rewrite (Hs1p p0 e0 ltac:(left) He0), decide_True in Hx by done. rewrite Hh in He.
    injection Hx as <-. injection He as <-. repeat split.
  - destruct (decide (p = p0)) as [->|Hpp0].
    + rewrite Hs1h in Hx. rewrite He0 in He. injection Hx as <-. injection He as <-. repeat split.
    + apply elem_of_cons in Hin as [->|Hin]; [done|].
      rewrite (Hs1p p e Hin He), decide_False in Hx by done. injection Hx as <-.
      rewrite append_from_shape. unfold las_write.
      destruct (store_shared_ex_in_reduction_features data); repeat split.
Qed.

(** C20.  Without a header (line 43) the merger is transparent: the base
    learner sees the group and the store exactly as given, its result or
    exception is the call's, the guard restores nothing, and the metric
    does not count the call (lines 91-98). *)
Theorem merger_no_header_transparent is_learn data p rest st e :
  st !! p = Some e -> ec_is_example_header e (label_type data) = false ->
  predict_or_learn is_learn data (p :: rest) st =
    match learn_or_predict is_learn (p :: rest, st) with
    | Err err => ((data, p :: rest, st), Err err)
    | Ok (seq2, st2) => ((data, seq2, st2), Ok tt)
    end.
Proof.
  intros He Hhdr. unfold predict_or_learn, deref. rewrite He. cbn [of_option]. rewrite Hhdr.
  unfold guarded_body. rewrite bool_decide_false by done.
  destruct (learn_or_predict is_learn (p :: rest, st)) as [[seq2 st2]|err]; [|done].
  unfold restore. destruct (metrics data); [rewrite andb_false_r|]; done.
Qed.

Lemma guarded_body_Ok is_learn data h seq st data2 s :
  seq <> [] -> guarded_body is_learn data h seq st = (data2, s, Ok tt) -> data2 = count_call is_learn h data.
Proof.
  intros Hne. unfold guarded_body. rewrite bool_decide_eq_false_2 by done.
  destruct (learn_or_predict is_learn (seq, st)); [|discriminate]. intros [= <- _]. done.
Qed.

(** C29:  A call that returns keeps the merger's configuration, and its
    metric counts it exactly when it is a learn call on a group with a
    header: [persist] then reports one more learn example with a shared
    header (lines 91-98 and 101-107). *)
Theorem merger_metric_counts is_learn data ec_seq st data' seq' st' :
  predict_or_learn is_learn data ec_seq st = ((data', seq', st'), Ok tt) ->
  label_type data' = label_type data /\
  store_shared_ex_in_reduction_features data' = store_shared_ex_in_reduction_features data /\
  persist data' = match metrics data with
                  | Some n => [("sfm_count_learn_example_with_shared",
                                if is_learn && group_has_header data ec_seq st then n + 1 else n)]
                  | None => []
                  end.
Proof.
  unfold predict_or_learn. destruct ec_seq as [|first rest]; [discriminate|].
  destruct (deref st first) as [ex0|] eqn:Hd; [|discriminate].
  assert (Hh : group_has_header data (first :: rest) st = ec_is_example_header ex0 (label_type data)).
  { unfold deref in Hd. apply of_option_Ok in Hd. simpl. rewrite Hd. done. }
  rewrite Hh. destruct (ec_is_example_header ex0 (label_type data)) eqn:Hhd.
  - destruct (merge data first rest st) as [st0|]; [|discriminate]. rewrite Ok_bind.
    destruct rest as [|p0 rest']; [discriminate|]. cbn -[guarded_body swap_pred_tag restore].
    destruct (swap_pred_tag st0 p0 first) as [st1|]; [|discriminate]. rewrite Ok_bind.
    destruct (guarded_body is_learn data true (p0 :: rest') st1) as [[data2 [seq2 st2]] r] eqn:Hg.
    destruct (restore data true first seq2 st2) as [[seq3 st3]|]; [|discriminate].
    intros [= <- _ _ Hr]. subst r.
    rewrite (guarded_body_Ok is_learn data true (p0 :: rest') st1 data2 (seq2, st2) ltac:(discriminate) Hg).
    unfold count_call, persist. destruct (metrics data) eqn:Hm; [destruct (is_learn && true)|]; simpl; rewrite ?Hm; repeat split.
  - destruct (guarded_body is_learn data false (first :: rest) st) as [[data2 [seq2 st2]] r] eqn:Hg.
    destruct (restore data false first seq2 st2) as [[seq3 st3]|]; [|discriminate].
    intros [= <- _ _ Hr]. subst r.
    rewrite (guarded_body_Ok is_learn data false (first :: rest) st data2 (seq2, st2) ltac:(discriminate) Hg).
    unfold count_call, persist. destruct (metrics data) eqn:Hm; [rewrite andb_false_r|]; simpl; rewrite ?Hm; repeat split.
Qed.

End Handler.

Lemma predicting_base_writes_only_predictions is_learn s s' :
  @learn_or_predict _ predicting_base is_learn s = Ok s' -> writes_only_predictions s s'.
Proof.
  destruct s as [seq st]. unfold learn_or_predict.
  assert (Hf : (let '(seq, st) := (seq, st) in
                match head seq with
                | Some p => match st !! p with
                            | Some e => Ok (seq, <[p := set_pred_from e (mk_example [] ∅ [] [] [] 42 [] [] None)]> st)
                            | None => Ok (seq, st) end
                | None => Ok (seq, st) end) = Ok s' -> writes_only_predictions (seq, st) s').
  { destruct (head seq) as [p|]; [destruct (st !! p) as [e|] eqn:He|]; intros [= <-];
      split; try done; intros q; simpl; try apply option_Forall2_preds_refl.
    destruct (decide (q = p)) as [->|Hqp]; [rewrite He, lookup_insert_eq; constructor; done|].
    rewrite lookup_insert_ne by done. apply option_Forall2_preds_refl. }
  destruct is_learn; exact Hf.
Qed.

Lemma fixture_group_ok : group_ok fixture_data 1 [2; 3]%positive fixture_store.
Proof.
  split; [decide_by_eval|]. split; [done|]. split.
  - exists fixture_header. split; [reflexivity|]. split; [reflexivity|decide_by_eval].
  - intros p Hp. apply elem_of_cons in Hp as [->|Hp]; [|apply list_elem_of_singleton in Hp as ->].
    + exists fixture_action1. split; [reflexivity|]. split; [|done].
      intros ns. simpl. rewrite fs_get_insert, list_elem_of_singleton.
      case_decide; [done|]. unfold fs_get. rewrite lookup_empty. simpl. tauto.
    + exists fixture_action2. split; [reflexivity|]. split; [|done].
      intros ns. simpl. unfold fs_get. rewrite lookup_empty. simpl.
      split; [intros Hn; inversion Hn|tauto].
Qed.

Lemma merger_restores_group_witness :
  let '((_, seq', st'), _) := @predict_or_learn predicting_base true fixture_data [1; 2; 3]%positive
                                 fixture_store in
  seq' = [1; 2; 3]%positive /\
  exists e e', fixture_store !! 2%positive = Some e /\ st' !! 2%positive = Some e' /\
               e' ≡ set_pred_from e e'.
Proof.
  destruct (@predict_or_learn predicting_base true fixture_data [1; 2; 3]%positive fixture_store)
    as [[[d' seq'] st'] r] eqn:E.
  destruct (@merger_restores_group predicting_base true fixture_data 1 [2; 3]%positive fixture_store d' seq' st' r
              fixture_group_ok (predicting_base_writes_only_predictions true) E) as [Hseq Hall].
  split; [exact Hseq|]. apply Hall. right; left.
Defined.

Lemma merger_throw_restores_group_witness :
  let '((d', seq', st'), r) := @predict_or_learn (throwing_base "base") true fixture_data [1; 2; 3]%positive
                                  fixture_store in
  r = Err (Thrown "base") /\ d' = fixture_data /\ seq' = [1; 2; 3]%positive /\
  exists e e', fixture_store !! 1%positive = Some e /\ st' !! 1%positive = Some e' /\ e' ≡ e.
Proof.
  destruct (@predict_or_learn (throwing_base "base") true fixture_data [1; 2; 3]%positive fixture_store)
    as [[[d' seq'] st'] r] eqn:E.
  destruct (@merger_throw_restores_group (throwing_base "base") true fixture_data 1 [2; 3]%positive fixture_store
              (Thrown "base") d' seq' st' r fixture_group_ok (fun _ => eq_refl) E) as (Hr & Hd & Hseq & Hall).
  do 3 (split; [done|]). apply Hall. left.
Defined.

(** The fixture group without its header: the first action leads. *)
Lemma merger_no_header_transparent_witness :
  fixture_store !! 2%positive = Some fixture_action1 /\
  ec_is_example_header fixture_action1 (label_type fixture_data) = false /\
  @predict_or_learn predicting_base true fixture_data [2; 3]%positive fixture_store =
    match @learn_or_predict _ predicting_base true ([2; 3]%positive, fixture_store) with
    | Err err => ((fixture_data, [2; 3]%positive, fixture_store), Err err)
    | Ok (seq2, st2) => ((fixture_data, seq2, st2), Ok tt)
    end.
Proof.
  split; [reflexivity|]. split; [reflexivity|].
  apply (@merger_no_header_transparent predicting_base true fixture_data 2 [3%positive] fixture_store
           fixture_action1); reflexivity.
Defined.

Lemma merger_metric_counts_witness :
  sfm_setup true true LT_CB true LT_CB = Some fixture_data /\
  let '((d', _, _), r) := @predict_or_learn predicting_base true fixture_data [1; 2; 3]%positive
                            fixture_store in
  r = Ok tt /\ persist d' = [("sfm_count_learn_example_with_shared", 1)].
Proof.
  split; [reflexivity|].
  destruct (@predict_or_learn predicting_base true fixture_data [1; 2; 3]%positive fixture_store)
    as [[[d' seq'] st'] r] eqn:E.
  assert (r = Ok tt) as -> by (vm_compute in E; congruence).
  destruct (@merger_metric_counts predicting_base true fixture_data [1; 2; 3]%positive fixture_store
              d' seq' st' E) as (_ & _ & Hp).
  split; [done|]. rewrite Hp. reflexivity.
Defined.

Section HeaderPrediction.
Context `{BaseLearner (list positive * store)}.

(** C21.  On the success path the header does not get its own prediction
    back.  On a group with a header, for any base learner that keeps the
    group and writes only predictions, the guard's swap (line 82) gives
    the header the prediction the base wrote into the first action.  The
    first action gets back what the base left on the header, which the
    setup's swap (line 62) set to the first action's original prediction:
    when the base leaves the header alone, the first action's original
    prediction. *)
Theorem merger_header_carries_prediction is_learn data h p0 rest' st data' seq' st' :
  group_ok data h (p0 :: rest') st ->
  (forall s s', learn_or_predict is_learn s = Ok s' -> writes_only_predictions s s') ->
  predict_or_learn is_learn data (h :: p0 :: rest') st = ((data', seq', st'), Ok tt) ->
  exists (st1 st2 : store) x0 eh,
    learn_or_predict is_learn (p0 :: rest', st1) = Ok (p0 :: rest', st2) /\
    st2 !! p0 = Some x0 /\ st' !! h = Some eh /\ same_preds eh x0 /\
    (st2 !! h = st1 !! h ->
     exists e0 e0', st !! p0 = Some e0 /\ st' !! p0 = Some e0' /\ same_preds e0' e0).
Proof.
  intros Hok Hbase Hp. pose proof Hok as (Hnd & _).
  assert (Hph : p0 <> h) by (intros ->; apply NoDup_cons in Hnd as [Hn _]; apply Hn; left).
  destruct (predict_or_learn_group is_learn data h (p0 :: rest') st Hok)
    as (hex & p1 & rest1 & e0 & st1 & Hh & Hr & He0 & _ & Hs1h & Hs1p & Heq).
  injection Hr as <- <-. rewrite Heq in Hp. unfold guarded_body in Hp. rewrite bool_decide_false in Hp by done.
  destruct (learn_or_predict is_learn (p0 :: rest', st1)) as [[seq2 st2]|err] eqn:Hb;
    [|destruct (restore _ _ _ _ _) as [[? ?]|?]; discriminate].
  destruct (Hbase _ _ Hb) as [Hseq Hrel]. simpl in Hseq, Hrel. subst seq2.
  destruct (restore_after data h p0 rest' st st1 st2 hex e0 Hok Hh He0 Hs1h Hs1p Hrel) as (st4 & Hres & Hall).
  rewrite Hres in Hp. injection Hp as _ <- <-.
  destruct (Hall h ltac:(left)) as (? & eh & x0 & _ & Heh & _ & Hx0 & Hsp).
  rewrite decide_True in Hx0 by done.
  exists st1, st2, x0, eh. split; [exact Hb|]. do 3 (split; [done|]).
  intros Hsame. destruct (Hall p0 ltac:(right; left)) as (e0' & e0'' & y & He0' & He0'' & _ & Hx & Hsp').
  rewrite decide_False, decide_True, Hsame, Hs1h in Hx by done. injection Hx as <-.
  rewrite He0 in He0'. injection He0' as <-.
  exists e0, e0''. do 2 (split; [done|]). eapply same_preds_trans; [exact Hsp'|]. repeat split.
Qed.
End HeaderPrediction.

(** The fixture group: the header predicted [7], the base predicts [42]
    into the first action, and the header ends with [42]. *)
Lemma merger_header_carries_prediction_witness :
  let '((d', seq', st'), r) := @predict_or_learn predicting_base true fixture_data [1; 2; 3]%positive
                                 fixture_store in
  r = Ok tt /\ pred_multiclass fixture_header = 7 /\
  option_map pred_multiclass (st' !! 1%positive) = Some 42 /\
  exists (st1 st2 : store) x0 eh,
    @learn_or_predict _ predicting_base true ([2; 3]%positive, st1) = Ok ([2; 3]%positive, st2) /\
    st2 !! 2%positive = Some x0 /\ st' !! 1%positive = Some eh /\ same_preds eh x0 /\
    (st2 !! 1%positive = st1 !! 1%positive ->
     exists e0 e0', fixture_store !! 2%positive = Some e0 /\ st' !! 2%positive = Some e0' /\ same_preds e0' e0).
Proof.
  destruct (@predict_or_learn predicting_base true fixture_data [1; 2; 3]%positive fixture_store)
    as [[[d' seq'] st'] r] eqn:E.
  pose proof E as E'. vm_compute in E'. injection E' as Hd Hseq Hst Hr. subst r.
  split; [done|]. split; [reflexivity|]. split; [rewrite <- Hst; reflexivity|].
  exact (@merger_header_carries_prediction predicting_base true fixture_data 1 2 [3%positive] fixture_store
           d' seq' st' fixture_group_ok (predicting_base_writes_only_predictions true) E).
Defined.

End SfmFacts.
