(* ===== verification/Options.v ===== *)
(** * Option handling of the setup functions

    Each reduction's setup reads its option group from the workspace's
    [options_i], may insert options for the reductions below it, and then
    builds its state.  [Module Options] models the options as a finite map
    from names to their text ([options_i], outside [src/]), and the three
    [get_*_options_instance] functions and setups on top of it:
    - [get_mwt_options_instance] and [mwt_setup] ([mwt.cc] lines 251-345):
      [--learn <n>] makes the reduction learn and requests a [cb] reduction
      of [n] classes, forced to the legacy implementation;
    - [get_cbea_synthcover_options_instance] and
      [cb_explore_adf_synthcover_setup] ([cb_explore_adf_synthcover.cc]
      lines 148-244): defaults [epsilon = 0], [psi = 0.1],
      [synthcoversize = 100], the checks, the trace and the constructor;
    - [get_shared_feature_merger_options_instance] and
      [shared_feature_merger_setup] ([shared_feature_merger.cc] lines
      109-153).
    [Module OptionsFacts] proves what each setup builds from which options,
    and that the number of classes [mwt] passes to [cb] as text reads back
    as the same number. *)

From Stdlib Require Import DecimalString DecimalN.
From S2P Require Import Prelude WeightStore Learner Synthcover Mwt SharedFeatureMerger.
Local Open Scope Z_scope.

Module Options.

(** [VW::config::options_i] (outside [src/]): the options of the command
    line and those a setup inserted, each with its text ([""] for a
    switch); [was_supplied] and [insert]. *)
Abbreviation options := (gmap string string).

Definition was_supplied (o : options) (name : string) : bool := bool_decide (is_Some (o !! name)).

Definition options_insert (name value : string) (o : options) : options := <[name := value]> o.

(** [std::stringstream << n] of an unsigned integer, and the conversion of
    an option's text to a [bits]-bit unsigned integer (outside [src/]). *)
Definition uint_to_string (n : Z) : string := NilZero.string_of_uint (N.to_uint (Z.to_N n)).

Definition string_to_uint (bits : Z) (t : string) : option Z :=
  d ← NilZero.uint_of_string t;
  let n := Z.of_N (N.of_uint d) in
  if n <? 2 ^ bits then Some n else None.

Section Reading.
(** The conversion of an option's text to a [float] (outside [src/]). *)
Variable read_float : string -> option Q.

Definition invalid_value (name : string) : vw_error := Thrown ("invalid value for option " +:+ name).

(** The value of a typed option: its default when it is not supplied. *)
Definition opt_uint (bits : Z) (o : options) (name : string) (dflt : Z) : result Z :=
  match o !! name with
  | None => Ok dflt
  | Some t => of_option (invalid_value name) (string_to_uint bits t)
  end.

Definition opt_float (o : options) (name : string) (dflt : Q) : result Q :=
  match o !! name with
  | None => Ok dflt
  | Some t => of_option (invalid_value name) (read_float t)
  end.

(** ** Multiworld testing *)

(** [struct options_mwt_v1] (lines 251-257); it is value-initialised by
    [make_unique], so an absent [--learn] leaves [num_classes = 0] and
    [learn = false]. *)
Record options_mwt_v1 := mk_options_mwt {
  mo_s : string;
  mo_exclude_eval : bool;
  mo_num_classes : Z;
  mo_learn : bool }.

(** [get_mwt_options_instance] (lines 259-289): [None] is [nullptr], the
    group not being enabled ([--multiworld_test] is necessary). *)
Definition get_mwt_options_instance (o : options) : result (option (options_mwt_v1 * options)) :=
  if negb (was_supplied o "multiworld_test") then Ok None
  else
    num_classes ← opt_uint 32 o "learn" 0;
    let s := default "" (o !! "multiworld_test") in
    let exclude_eval := was_supplied o "exclude_eval" in
    let learn := bool_decide (0 < num_classes) in
    let '(o1, cb_added) :=
      if learn && negb (was_supplied o "cb")
      then (options_insert "cb" (uint_to_string num_classes) o, true) else (o, false) in
    let o2 := if was_supplied o1 "cb" || cb_added then options_insert "cb_force_legacy" "" o1 else o1 in
    Ok (Some (mk_options_mwt s exclude_eval num_classes learn, o2)).

(** The suffix of the learner's name (lines 306-330). *)
Definition mwt_name_addition (learn exclude_eval : bool) : string :=
  if learn then (if exclude_eval then "-no_eval" else "-eval") else "".

(** [mwt_setup] (lines 292-345) from the options: the state, the
    [exclude_eval] flag of the installed handler ([Mwt.mwt_learner]), the
    name suffix and the options left for the reductions below. *)
Definition mwt_setup_from_options (o : options) (length : nat) (w : Dense.dense_parameters)
  : result (option (Mwt.mwt * bool * string * options)) :=
  r ← get_mwt_options_instance o;
  match r with
  | None => Ok None
  | Some (mo, o') =>
      Ok (Some (Mwt.mwt_setup (mo_s mo) (mo_num_classes mo) length w, mo_exclude_eval mo,
                mwt_name_addition (mo_learn mo) (mo_exclude_eval mo), o'))
  end.

(** ** Synthetic cover *)

(** [struct options_cbea_synthcover_v1] (lines 148-156). *)
Record options_cbea_synthcover_v1 := mk_options_synthcover {
  so_cb_explore_adf_option : bool;
  so_epsilon : Q;
  so_synthcoversize : Z;
  so_use_synthcover : bool;
  so_psi : Q;
  so_with_metrics : bool }.

(** [get_cbea_synthcover_options_instance] (lines 158-197): the group is
    enabled by [--cb_explore_adf] and [--synthcover]; the values are read
    in the order of the group; [cb_adf] is requested below. *)
Definition get_cbea_synthcover_options_instance (o : options)
  : result (option (options_cbea_synthcover_v1 * options)) :=
  if negb (was_supplied o "cb_explore_adf" && was_supplied o "synthcover") then Ok None
  else
    epsilon ← opt_float o "epsilon" 0;
    psi ← opt_float o "synthcoverpsi" (1 # 10);
    synthcoversize ← opt_uint 64 o "synthcoversize" 100;
    let o1 := if was_supplied o "cb_adf" then o else options_insert "cb_adf" "" o in
    Ok (Some (mk_options_synthcover true epsilon synthcoversize true psi (was_supplied o1 "extra_metrics"), o1)).

(** The trace of lines 210-219 ([float]s printed by [show_q], outside
    [src/]). *)
Definition synthcover_trace (show_q : Q -> string) (quiet : bool) (so : options_cbea_synthcover_v1)
  : list string :=
  if quiet then []
  else ["Using synthcover for CB exploration"; "synthcoversize = " +:+ uint_to_string (so_synthcoversize so)] ++
       (if Qlt_bool 0 (so_epsilon so) then ["epsilon = " +:+ show_q (so_epsilon so)] else []) ++
       ["synthcoverpsi = " +:+ show_q (so_psi so)].

(** [cb_explore_adf_synthcover_setup] (lines 200-244): the checks of
    lines 206-208 before anything is built, then the state of the
    explorer, the [with_metrics] flag of [cb_explore_adf_base], the trace
    and the options left for the reductions below. *)
Definition cb_explore_adf_synthcover_setup (show_q : Q -> string) (quiet : bool) (o : options)
    (model_file_ver : Z) : result (option (Synthcover.synthcover * bool * list string * options)) :=
  r ← get_cbea_synthcover_options_instance o;
  match r with
  | None => Ok None
  | Some (so, o') =>
      _ ← Synthcover.validate_options (so_synthcoversize so) (so_epsilon so) (so_psi so);
      Ok (Some (Synthcover.construct (so_epsilon so) (so_psi so) (so_synthcoversize so) model_file_ver,
                so_with_metrics so, synthcover_trace show_q quiet so, o'))
  end.
End Reading.

(** ** Shared-feature merger *)

(** [struct options_shared_feature_merger_v1] and
    [get_shared_feature_merger_options_instance] (lines 109-122). *)
Record options_shared_feature_merger_v1 := mk_options_sfm {
  extra_metrics_supplied : bool;
  large_action_space_supplied : bool }.

Definition get_shared_feature_merger_options_instance (o : options) : options_shared_feature_merger_v1 :=
  mk_options_sfm (was_supplied o "extra_metrics") (was_supplied o "large_action_space").

(** [shared_feature_merger_setup] (lines 125-153) from the options, once
    the base learner is built ([Sfm.sfm_setup]). *)
Definition shared_feature_merger_setup (o : options) (base_label : Sfm.label_type_t) (base_multiline : bool)
    (parser_label : Sfm.label_type_t) : option Sfm.sfm_data :=
  let so := get_shared_feature_merger_options_instance o in
  Sfm.sfm_setup (extra_metrics_supplied so) (large_action_space_supplied so) base_label base_multiline
    parser_label.

(** Fixtures: the command lines [--multiworld_test ab --learn 4] and
    [--cb_explore_adf --synthcover --extra_metrics]. *)
Definition mwt_command_line : options := {[ "multiworld_test" := "ab"; "learn" := "4" ]}.
Definition synthcover_command_line : options :=
  {[ "cb_explore_adf" := ""; "synthcover" := ""; "extra_metrics" := "" ]}.

End Options.

Module OptionsFacts.
Import Options.

Lemma was_supplied_insert o k v k' :
  was_supplied (options_insert k v o) k' = bool_decide (k' = k) || was_supplied o k'.
Proof.
  unfold was_supplied, options_insert. destruct (decide (k' = k)) as [->|Hk].
  - rewrite (bool_decide_true (k = k)), orb_true_l, lookup_insert_eq by done. apply bool_decide_eq_true. eauto.
  - rewrite (bool_decide_false (k' = k)), lookup_insert_ne by congruence. done.
Qed.

Lemma lookup_options_insert o k v k' :
  options_insert k v o !! k' = if bool_decide (k' = k) then Some v else o !! k'.
Proof.
  unfold options_insert. case_bool_decide; [subst; apply lookup_insert_eq|apply lookup_insert_ne; congruence].
Qed.

Ltac opt_simpl :=
  repeat first [rewrite was_supplied_insert | rewrite lookup_options_insert
               | rewrite bool_decide_true by done
               | rewrite bool_decide_false by (done || (intros ?; discriminate))]; simpl.

(** The number [mwt] writes for [cb] reads back as itself. *)
Lemma string_to_uint_roundtrip bits n : 0 <= n < 2 ^ bits -> string_to_uint bits (uint_to_string n) = Some n.
Proof.
  intros Hn. unfold string_to_uint, uint_to_string.
  assert (Hnil : N.to_uint (Z.to_N n) <> Decimal.Nil).
  { intros E. pose proof (DecimalN.Unsigned.of_to (Z.to_N n)) as H. rewrite E in H. simpl in H.
    rewrite <- H in E. discriminate. }
  rewrite (NilZero.usu _ Hnil). simpl. rewrite DecimalN.Unsigned.of_to, Z2N.id by lia.
  rewrite (proj2 (Z.ltb_lt _ _)) by lia. done.
Qed.

Lemma string_to_uint_range bits t n : string_to_uint bits t = Some n -> 0 <= n < 2 ^ bits.
Proof.
  unfold string_to_uint. destruct (NilZero.uint_of_string t); simpl; [|discriminate].
  destruct (Z.ltb_spec (Z.of_N (N.of_uint u)) (2 ^ bits)); intros [=]; lia.
Qed.

Lemma opt_uint_range bits o name dflt n :
  0 <= dflt < 2 ^ bits -> opt_uint bits o name dflt = Ok n -> 0 <= n < 2 ^ bits.
Proof.
  unfold opt_uint. destruct (o !! name); simpl; [|congruence].
  destruct (string_to_uint bits s) eqn:E; simpl; [|discriminate]. intros _ [= <-]. eapply string_to_uint_range; eauto.
Qed.
(** [get_mwt_options_instance]: the number of classes is a [uint32_t] and
    the reduction learns exactly when it is positive; a learning [mwt]
    requests [--cb <n>] unless [cb] was given, in which case it reads back
    as [n]; [cb_force_legacy] is set whenever [cb] is; no other option
    changes. *)
Lemma get_mwt_options_spec o mo o' :
  get_mwt_options_instance o = Ok (Some (mo, o')) ->
  0 <= mo_num_classes mo < 2 ^ 32 /\
  mo_learn mo = bool_decide (0 < mo_num_classes mo) /\
  mo_exclude_eval mo = was_supplied o "exclude_eval" /\
  (mo_learn mo = true -> was_supplied o "cb" = false ->
     o' !! "cb" = Some (uint_to_string (mo_num_classes mo)) /\
     string_to_uint 32 (uint_to_string (mo_num_classes mo)) = Some (mo_num_classes mo)) /\
  was_supplied o' "cb" = was_supplied o "cb" || mo_learn mo /\
  was_supplied o' "cb_force_legacy" = was_supplied o "cb_force_legacy" || was_supplied o "cb" || mo_learn mo /\
  (forall k, k <> "cb" -> k <> "cb_force_legacy" -> o' !! k = o !! k).
Proof.
  unfold get_mwt_options_instance. destruct (was_supplied o "multiworld_test"); simpl; [|discriminate].
  destruct (opt_uint 32 o "learn" 0) as [nc|] eqn:Hnc; simpl; [|discriminate].
  pose proof (opt_uint_range 32 o "learn" 0 nc ltac:(lia) Hnc) as Hr.
  destruct (bool_decide (0 < nc)) eqn:Hl, (was_supplied o "cb") eqn:Hcb; simpl; intros [= <- <-]; simpl;
    rewrite ?Hcb, ?orb_true_r; simpl; rewrite ?Hl;
    repeat split; intros; try discriminate; opt_simpl; rewrite ?Hcb, ?orb_true_r; try done; try lia.
  - apply string_to_uint_roundtrip. done.
  - rewrite !orb_false_r. done.
Qed.

(** [mwt_setup] from the options: the reduction learns exactly when its
    number of classes is positive, and then a [cb] reduction (legacy) is
    requested below it; the learner's name records the handler chosen. *)
Lemma mwt_setup_from_options_learn o len w c ex name o' :
  mwt_setup_from_options o len w = Ok (Some (c, ex, name, o')) ->
  Mwt.learn c = bool_decide (0 < Mwt.num_classes c) /\
  (Mwt.learn c = true -> was_supplied o' "cb" = true /\ was_supplied o' "cb_force_legacy" = true) /\
  ex = was_supplied o "exclude_eval" /\ name = mwt_name_addition (Mwt.learn c) ex.
Proof.
  unfold mwt_setup_from_options. destruct (get_mwt_options_instance o) as [[[mo o1]|]|] eqn:Hg; simpl; try discriminate.
  intros [= <- <- <- <-]. destruct (get_mwt_options_spec _ _ _ Hg) as (_ & Hl & He & _ & Hcb & Hfl & _).
  simpl. split; [done|]. split; [|split; [done|rewrite <- Hl; done]].
  rewrite <- Hl. intros Ht. rewrite Hcb, Hfl, Ht, !orb_true_r. done.
Qed.

(** [--multiworld_test ab --learn 4]: the reduction learns over 4 classes
    and requests [--cb 4 --cb_force_legacy]. *)
Lemma mwt_command_line_options :
  get_mwt_options_instance mwt_command_line =
    Ok (Some (mk_options_mwt "ab" false 4 true,
              {[ "multiworld_test" := "ab"; "learn" := "4"; "cb" := "4"; "cb_force_legacy" := "" ]})).
Proof. vm_compute. reflexivity. Qed.

(** With [--cb 3] given as well, [mwt] learns over 4 classes while the
    [cb] reduction below it is built for 3: nothing checks that they agree. *)
Lemma mwt_learn_cb_disagree :
  get_mwt_options_instance (<[ "cb" := "3" ]> mwt_command_line) =
    Ok (Some (mk_options_mwt "ab" false 4 true,
              {[ "multiworld_test" := "ab"; "learn" := "4"; "cb" := "3"; "cb_force_legacy" := "" ]})).
Proof. vm_compute. reflexivity. Qed.

Section Synthcover.
Variable read_float : string -> option Q.
Variable show_q : Q -> string.

Lemma validate_options_Ok size eps psi :
  Synthcover.validate_options size eps psi = Ok tt -> 1 <= size /\ (0 <= eps)%Q /\ (0 < psi)%Q.
Proof.
  unfold Synthcover.validate_options. destruct (Z.leb_spec size 0); [discriminate|].
  destruct (Qlt_bool eps 0) eqn:E1; [discriminate|]. destruct (Qle_bool psi 0) eqn:E2; [discriminate|].
  intros _. unfold Qlt_bool in E1. apply negb_false_iff, Qle_bool_iff in E1.
  split; [lia|split; [done|]]. apply Qnot_le_lt. intros Hle. apply Qle_bool_iff in Hle. congruence.
Qed.

(** [cb_explore_adf_synthcover_setup] builds an explorer only from
    accepted parameters: [synthcoversize >= 1], [epsilon >= 0], [psi > 0],
    with no action probabilities and costs at [0] (spec: configuration
    errors fail at stack assembly, before any learning). *)
Lemma synthcover_setup_checked quiet o ver st wm tr o' :
  cb_explore_adf_synthcover_setup read_float show_q quiet o ver = Ok (Some (st, wm, tr, o')) ->
  1 <= Synthcover._synthcoversize st /\ (0 <= Synthcover._epsilon st)%Q /\ (0 < Synthcover._psi st)%Q /\
  Synthcover._action_probs st = [] /\ Synthcover._min_cost st = 0%Q /\ Synthcover._max_cost st = 0%Q /\
  Synthcover._model_file_version st = ver /\ was_supplied o' "cb_adf" = true.
Proof.
  unfold cb_explore_adf_synthcover_setup.
  destruct (get_cbea_synthcover_options_instance read_float o) as [[[so o1]|]|] eqn:Hg; simpl; try discriminate.
  destruct (Synthcover.validate_options _ _ _) as [[]|] eqn:Hv; simpl; [|discriminate]. intros [= <- _ _ <-].
  destruct (validate_options_Ok _ _ _ Hv) as (? & ? & ?). simpl. repeat (split; [done|]).
  revert Hg. unfold get_cbea_synthcover_options_instance. destruct (negb _); [discriminate|].
  destruct (opt_float _ _ _ _), (opt_float _ _ _ _), (opt_uint _ _ _ _); simpl; try discriminate.
  intros [= _ <-]. destruct (was_supplied o "cb_adf") eqn:Hc; [done|]. opt_simpl. done.
Qed.

(** With only [--cb_explore_adf --synthcover], the defaults: [epsilon = 0],
    [psi = 0.1], a cover of 100 policies. *)
Lemma synthcover_default_setup ver :
  cb_explore_adf_synthcover_setup read_float show_q true synthcover_command_line ver =
    Ok (Some (Synthcover.construct 0 (1 # 10) 100 ver, true, [],
              <[ "cb_adf" := "" ]> synthcover_command_line)).
Proof. reflexivity. Qed.
End Synthcover.

End OptionsFacts.
