(* ===== verification/MwtStack.v ===== *)
(** * The multiworld-testing stack, composed

    The parts of [mwt.cc] interact: the setup ([mwt_setup], lines 292-345)
    reads the options and sizes the per-policy table from the weight store
    ([dense_parameters], [array_parameters_dense.h]). The handler it
    installs is then called on any stream of examples (spec section 4.2:
    [learn] and [predict] in any order, any number of times). The output
    hook prints each returning call's scalars ([print_scalars], lines
    25-47).  [Module MwtStack] states the driver's calls as a step relation
    between states of the reduction.  [Module MwtStackFacts] proves, from
    the options to the printed line, that the composition keeps the
    accumulator invariant and prints what the spec asks for. *)

From S2P Require Import Prelude WeightStore Learner Mwt MwtOutput Options.
Local Open Scope Z_scope.

Module MwtStack.
Import Mwt.

Section Driver.
Context `{BaseLearner example}.

(** One call of the installed handler by the driver, on any example, in
    learn or predict mode, returning or throwing: the reduction's state
    after it (an exception leaves its state as it is, and the driver may
    go on). *)
Definition mwt_call (exclude_eval : bool) (c c' : mwt) : Prop :=
  exists is_learn ec ec' r, mwt_learner exclude_eval is_learn c ec = ((c', ec'), r).
End Driver.

(** The command line [--multiworld_test a --learn 3]. *)
Definition stack_command_line : Options.options := {[ "multiworld_test" := "a"; "learn" := "3" ]}.

End MwtStack.

Module MwtStackFacts.
Import Mwt MwtFacts MwtOutput MwtOutputFacts Options OptionsFacts MwtStack.

Section Driver.
Context `{BaseLearner example}.

(** The handler [mwt_setup] installs runs [predict_or_learn] with the
    reduction's own [learn] flag. *)
Lemma mwt_learner_call ex is_learn c ec :
  exists exclude, mwt_learner ex is_learn c ec = predict_or_learn (learn c) exclude is_learn c ec.
Proof. unfold mwt_learner. destruct (learn c); eauto. Qed.

Lemma mwt_call_inv N ex c c' :
  mwt_call ex c c' -> mwt_inv N c -> mwt_inv N c' /\ config_of c' = config_of c.
Proof.
  intros (il & ec & ec' & r & Hc) Hinv. destruct (mwt_learner_call ex il c ec) as [exclude E].
  rewrite E in Hc. exact (call_keeps_inv N _ _ _ _ _ _ _ _ Hinv Hc).
Qed.

Lemma reachable_inv N ex c c1 :
  rtc (mwt_call ex) c c1 -> mwt_inv N c -> mwt_inv N c1 /\ config_of c1 = config_of c.
Proof.
  induction 1 as [|x y z Hxy _ IH]; [done|]. intros Hx.
  destruct (mwt_call_inv N ex x y Hxy Hx) as [Hy Hcy]. destruct (IH Hy) as [Hz Hcz].
  split; [done|congruence].
Qed.

(** C16:  The composed stack.  Build the weights with
    [dense_parameters(length, stride_shift)] and set [mwt] up from the
    options over them.  Then every state the driver reaches by calls of
    the installed handler keeps the accumulator invariant.  The line
    [print_scalars] writes after a returning call reads back, word by
    word, as follows: first the base learner's class when the options
    made the reduction learn, then one finite average cost per recorded
    policy, then the tag. *)
Theorem mwt_stack_outputs o len s m w m' c ex name o' c1 :
  (0 < len)%nat -> 0 <= s -> Z.of_nat len * 2 ^ s < 2 ^ 64 ->
  Dense.dense_construct (Z.of_nat len) s m = Ok (w, m') ->
  mwt_setup_from_options o len w = Ok (Some (c, ex, name, o')) ->
  rtc (mwt_call ex) c c1 ->
  mwt_inv len c1 /\
  forall is_learn ec c2 ec2, mwt_learner ex is_learn c1 ec = ((c2, ec2), Ok tt) ->
    exists pds, Forall2 (fun p pd => eval_at c2 p = Ok pd) (policies c2) pds /\
    forall show_float : scalar -> list Z,
      (forall sc, show_float sc <> [] /\ no_space (show_float sc)) -> no_space (tag ec2) ->
      split_words (scalars_line show_float (pred_scalars ec2) (tag ec2)) =
        map show_float ((if learn c then [Finite (inject_Z (pred_multiclass ec2))] else []) ++
                        map (fun pd => Finite (cost pd / total c2)) pds) ++
        (if tag ec2 is [] then [] else [tag ec2]).
Proof.
  intros Hlen Hs Hfit Hc Hset Hr.
  unfold mwt_setup_from_options in Hset.
  destruct (get_mwt_options_instance o) as [[[mo o1]|]|]; simpl in Hset; try discriminate.
  injection Hset as <- _ _ _.
  destruct (reachable_inv len ex _ c1 Hr (mwt_setup_inv len s (mo_s mo) (mo_num_classes mo) m w m' Hlen Hs Hfit Hc))
    as [Hinv Hcfg].
  split; [done|]. intros il ec c2 ec2 Hcall.
  destruct (mwt_learner_call ex il c1 ec) as [exclude E]. rewrite E in Hcall.
  destruct (call_outputs len _ _ _ _ _ _ _ Hinv Hcall) as (pds & Hf & Hps).
  exists pds. split; [done|]. intros show_float Hshow Htag.
  assert (Hl : learn c1 = learn (mwt_setup (mo_s mo) (mo_num_classes mo) len w)) by (injection Hcfg; done).
  rewrite (scalars_line_words show_float Hshow _ _ Htag), Hps, <- Hl. done.
Qed.
End Driver.

(** [--multiworld_test a --learn 3] over [dense_parameters(8, 1)], after
    one learn call on the fixture example. *)
Lemma mwt_stack_outputs_witness :
  exists c w m' name o' c1,
    Dense.dense_construct 8 1 Dense.mem0 = Ok (w, m') /\
    mwt_setup_from_options stack_command_line 8 w = Ok (Some (c, false, name, o')) /\
    rtc (@mwt_call identity_base false) c c1 /\ policies c1 = [2; 3] /\
    mwt_inv 8 c1 /\
    forall is_learn ec c2 ec2, @mwt_learner identity_base false is_learn c1 ec = ((c2, ec2), Ok tt) ->
      exists pds, Forall2 (fun p pd => eval_at c2 p = Ok pd) (policies c2) pds /\
      forall show_float : scalar -> list Z,
        (forall sc, show_float sc <> [] /\ no_space (show_float sc)) -> no_space (tag ec2) ->
        split_words (scalars_line show_float (pred_scalars ec2) (tag ec2)) =
          map show_float ((if learn c then [Finite (inject_Z (pred_multiclass ec2))] else []) ++
                          map (fun pd => Finite (cost pd / total c2)) pds) ++
          (if tag ec2 is [] then [] else [tag ec2]).
Proof.
  destruct (@mwt_learner identity_base false true fixture_mwt (fixture_example fixture_namespaces))
    as [[c1 ec1] r1] eqn:E.
  exists fixture_mwt, fixture_weights, (Dense.mk_mem {[1%positive := Dense.mk_block Dense.Malloced (replicate 16 0%Q)]}
           2%positive 64).
  do 2 eexists. exists c1.
  split; [reflexivity|]. split; [vm_compute; reflexivity|].
  assert (Hr : rtc (@mwt_call identity_base false) fixture_mwt c1)
    by (apply rtc_once; exists true, (fixture_example fixture_namespaces), ec1, r1; exact E).
  split; [exact Hr|]. split; [vm_compute in E; injection E as <- _ _; reflexivity|].
  eapply (@mwt_stack_outputs identity_base stack_command_line 8 1 Dense.mem0);
    [lia|lia|vm_compute; reflexivity|reflexivity|vm_compute; reflexivity|exact Hr].
Defined.

End MwtStackFacts.
