(* ===== verification/SynthcoverStack.v ===== *)
(** * The synthcover explorer, composed

    [cb_explore_adf_synthcover_setup] ([cb_explore_adf_synthcover.cc],
    lines 200-244) reads the options, checks them before any example and
    builds the explorer with costs at [0].  The driver then calls the
    installed [learn] and [predict] on any stream of example groups, in any
    order (spec section 4.3).  [Module SynthcoverStack] states one returning
    call of the installed handler as a step between explorer states.
    [Module SynthcoverStackFacts] proves, from the command line to each
    prediction, that the states the driver reaches keep the checked
    parameters and a cost range around [0].  Each call from such a state
    gives probability 1 to a single action and a distribution over two or
    more actions, and its recorded cost lies in the new range. *)

From S2P Require Import Prelude Learner Synthcover Options.
Local Open Scope Z_scope.

Module SynthcoverStack.
Import Synthcover.

Section Driver.
Context `{BaseLearner (list example)}.

(** One returning call of the installed handler, [learn] or [predict], on
    any example group: the explorer's state after it. *)
Definition synthcover_call (st st' : synthcover) : Prop :=
  exists is_learn exs exs', predict_or_learn_impl is_learn st exs = Ok (st', exs').
End Driver.

End SynthcoverStack.

Module SynthcoverStackFacts.
Import Synthcover SynthcoverFacts Options OptionsFacts SynthcoverStack.

(** The parameters the setup checked. *)
Definition params (st : synthcover) : Q * Q * Z := (_epsilon st, _psi st, _synthcoversize st).

(** The cost range contains [0]. *)
Definition range_ok (st : synthcover) : Prop := (_min_cost st <= 0 <= _max_cost st)%Q.

Section Driver.
Context `{BaseLearner (list example)}.

Lemma call_keeps st st' : synthcover_call st st' -> params st' = params st /\ (range_ok st -> range_ok st').
Proof.
  intros (il & exs & exs' & Hc). unfold params, range_ok.
  destruct (impl_params _ _ _ _ _ Hc) as (-> & -> & ->). split; [done|].
  destruct (impl_costs _ _ _ _ _ Hc) as [-> ->].
  destruct (logged_cost exs') as [c|]; simpl; [|done].
  destruct (std_min_le c (_min_cost st)), (std_max_ge c (_max_cost st)). lra.
Qed.

Lemma reachable_keeps st st1 :
  rtc synthcover_call st st1 -> params st1 = params st /\ (range_ok st -> range_ok st1).
Proof.
  induction 1 as [|x y z Hxy _ IH]; [done|].
  destruct (call_keeps x y Hxy) as [Hp Hr], IH as [Hp' Hr']. split; [congruence|tauto].
Qed.

(** The cost a call records lies in the range of the state it leaves. *)
Lemma impl_logged_in_range is_learn st examples exs ex0 st' out c :
  head exs = Some ex0 ->
  predict_or_learn_impl is_learn st examples = Ok (st', set_pred_a_s ex0 out :: tail exs) ->
  logged_cost exs = Some c -> (_min_cost st' <= c <= _max_cost st')%Q.
Proof.
  intros Hex0 Hc Hl. destruct (impl_costs _ _ _ _ _ Hc) as [-> ->].
  destruct exs as [|e rest]; [done|]. injection Hex0 as ->.
  rewrite logged_cost_set_pred. simpl. rewrite Hl. simpl.
  destruct (std_min_le c (_min_cost st)), (std_max_ge c (_max_cost st)). lra.
Qed.

Section Options.
Variable read_float : string -> option Q.
Variable show_q : Q -> string.

(** C2:  The composed explorer.  Set [cb_explore_adf_synthcover] up from
    the options.  Then every state the driver reaches by returning calls
    keeps the checked parameters ([synthcoversize >= 1], [epsilon >= 0],
    [synthcoverpsi > 0]) and a cost range around [0].  From such a state,
    a group with a single action gives that action probability 1.  A group
    of [N >= 2] actions, with a cover of fewer than [2^32] policies, gets
    a probability distribution over the same actions, non-negative, summing
    to 1, in descending order, and the cost the call recorded lies in the
    new range. *)
Theorem synthcover_stack_outputs quiet o ver st wm tr o' st1 :
  cb_explore_adf_synthcover_setup read_float show_q quiet o ver = Ok (Some (st, wm, tr, o')) ->
  rtc synthcover_call st st1 ->
  1 <= _synthcoversize st1 /\ (0 <= _epsilon st1)%Q /\ (0 < _psi st1)%Q /\
  (_min_cost st1 <= 0 <= _max_cost st1)%Q /\
  forall is_learn examples exs ex0,
    examples <> [] -> learn_or_predict is_learn examples = Ok exs -> head exs = Some ex0 ->
    (forall a rest, tail exs = [] -> pred_a_s ex0 = a :: rest ->
       predict_or_learn_impl is_learn st1 examples =
         Ok (update_costs st1 [ex0], [set_pred_a_s ex0 (mk_as (as_action a) 1 :: rest)])) /\
    (_synthcoversize st1 < 2 ^ 32 -> 2 <= Z.of_nat (length exs) < 2 ^ 32 ->
     Permutation (map as_action (pred_a_s ex0)) (map Z.of_nat (seq 0 (length exs))) ->
     exists st2 out,
       predict_or_learn_impl is_learn st1 examples = Ok (st2, set_pred_a_s ex0 out :: tail exs) /\
       Permutation (map as_action out) (map Z.of_nat (seq 0 (length exs))) /\
       (qsum (map as_score out) == 1)%Q /\ Forall (fun a => 0 <= as_score a)%Q out /\
       Sorted as_ge out /\
       forall c, logged_cost exs = Some c -> (_min_cost st2 <= c <= _max_cost st2)%Q).
Proof.
  intros Hset Hr.
  destruct (synthcover_setup_checked read_float show_q quiet o ver st wm tr o' Hset)
    as (Hs & He & Hp & _ & Hmin & Hmax & _).
  destruct (reachable_keeps st st1 Hr) as [Hpar Hrange]. unfold params in Hpar.
  injection Hpar as He1 Hp1 Hs1. rewrite He1, Hp1, Hs1.
  split; [done|]. split; [done|]. split; [done|].
  split; [apply Hrange; unfold range_ok; rewrite Hmin, Hmax; lra|].
  intros il examples exs ex0 Hne Hb Hex0. split.
  - intros a rest Ht Ha. destruct exs as [|e rest']; [done|]. injection Hex0 as ->.
    simpl in Ht. subst rest'. exact (impl_single_action il st1 examples ex0 a rest Hne Hb Ha).
  - intros Hsz HN Hperm.
    destruct (impl_distribution il st1 examples exs ex0) as (st2 & out & Hc & Hres);
      [rewrite Hs1; lia|rewrite Hp1; done|rewrite He1; done|done|done|done|done|done|].
    exists st2, out. split; [done|]. split; [apply Hres|]. split; [apply Hres|].
    split; [apply Hres|]. split; [apply Hres|].
    intros c. exact (impl_logged_in_range il st1 examples exs ex0 st2 out c Hex0 Hc).
Qed.
End Options.
End Driver.

(** [--cb_explore_adf --synthcover] with the defaults, then one [predict]
    call on three actions scored [0.1], [0.5] and [0.9]. *)
Lemma synthcover_stack_outputs_witness :
  exists st wm tr o' st1,
    cb_explore_adf_synthcover_setup (fun _ => None) (fun _ => EmptyString) true synthcover_command_line 0
      = Ok (Some (st, wm, tr, o')) /\
    rtc (@synthcover_call passthrough_base) st st1 /\ _action_probs st1 <> [] /\
    1 <= _synthcoversize st1 /\ (0 <= _epsilon st1)%Q /\ (0 < _psi st1)%Q /\
    (_min_cost st1 <= 0 <= _max_cost st1)%Q /\
    forall is_learn examples exs ex0,
      examples <> [] -> @learn_or_predict _ passthrough_base is_learn examples = Ok exs ->
      head exs = Some ex0 ->
      (forall a rest, tail exs = [] -> pred_a_s ex0 = a :: rest ->
         @predict_or_learn_impl passthrough_base is_learn st1 examples =
           Ok (update_costs st1 [ex0], [set_pred_a_s ex0 (mk_as (as_action a) 1 :: rest)])) /\
      (_synthcoversize st1 < 2 ^ 32 -> 2 <= Z.of_nat (length exs) < 2 ^ 32 ->
       Permutation (map as_action (pred_a_s ex0)) (map Z.of_nat (seq 0 (length exs))) ->
       exists st2 out,
         @predict_or_learn_impl passthrough_base is_learn st1 examples
           = Ok (st2, set_pred_a_s ex0 out :: tail exs) /\
         Permutation (map as_action out) (map Z.of_nat (seq 0 (length exs))) /\
         (qsum (map as_score out) == 1)%Q /\ Forall (fun a => 0 <= as_score a)%Q out /\
         Sorted as_ge out /\
         forall c, logged_cost exs = Some c -> (_min_cost st2 <= c <= _max_cost st2)%Q).
Proof.
  destruct (@predict_or_learn_impl passthrough_base false (construct 0 (1 # 10) 100 0) witness_examples)
    as [[st1 exs1]|] eqn:E; [|vm_compute in E; discriminate].
  do 4 eexists. exists st1.
  assert (Hset : cb_explore_adf_synthcover_setup (fun _ => None) (fun _ => EmptyString) true
                   synthcover_command_line 0
                 = Ok (Some (construct 0 (1 # 10) 100 0, true, [],
                             <[ "cb_adf" := EmptyString ]> synthcover_command_line)))
    by (vm_compute; reflexivity).
  assert (Hr : rtc (@synthcover_call passthrough_base) (construct 0 (1 # 10) 100 0) st1)
    by (apply rtc_once; exists false, witness_examples, exs1; exact E).
  split; [exact Hset|]. split; [exact Hr|].
  split; [vm_compute in E; injection E as <- _; discriminate|].
  exact (@synthcover_stack_outputs passthrough_base (fun _ => None) (fun _ => EmptyString)
           true synthcover_command_line 0 _ _ _ _ st1 Hset Hr).
Defined.

End SynthcoverStackFacts.
