(* ===== verification/Persist.v ===== *)
(** * Model files: [save_load] of the synthcover and multiworld-testing reductions

    [Module IoBuf] models the stream of a model file at the granularity
    the reductions use it: each call of [bin_text_read_write_fixed] (or its
    [_validated] variant) moves one fixed-width blob, a value of a C++ type.
    A written file is the list of blobs in order; reading consumes them in
    order.  Reading a blob of another type than the one asked for yields
    [Err InvalidConversion] (the C++ code would reinterpret the bytes); an
    exhausted file makes the validated read throw and the plain read leave
    the value as it was.  In text mode a write emits the human-readable
    message instead of the value ([BText]).  The helpers are outside
    [src/] ([io_buf.h]) and are modelled from the spec's stream contract.

    [Module MwtPersist] and [Module SynthcoverPersist] model the two
    [save_load] functions and prove their round trips and their behaviour
    on truncated or inconsistent files. *)

From S2P Require Import Prelude WeightStore Learner Synthcover Mwt.
Local Open Scope Z_scope.

Module IoBuf.

(** One fixed-width field of a model file. *)
Inductive blob :=
| BDouble (q : Q)          (* double *)
| BFloat (q : Q)           (* float *)
| BU64 (z : Z)             (* uint64_t, size_t *)
| BU32 (z : Z)             (* uint32_t *)
| BBool (b : bool)         (* bool *)
| BU64s (zs : list Z)      (* a uint64_t array *)
| BText.                   (* the message of a text-mode write *)

(** [io_buf]: the number of backing files, the blobs left to read, and the
    blobs written so far. *)
Record io_buf := mk_io {
  num_files : nat;
  pending : list blob;
  written : list blob }.

Definition write_blob (io : io_buf) (b : blob) : io_buf :=
  mk_io (num_files io) (pending io) (written io ++ [b]).

Definition drop_blob (io : io_buf) : io_buf :=
  mk_io (num_files io) (tail (pending io)) (written io).

(** [bin_text_read_write_fixed] ([validated = false]) and
    [bin_text_read_write_fixed_validated] ([validated = true]) of one value
    encoded by [inj] and decoded by [proj]. *)
Definition rw_fixed {A} (inj : A -> blob) (proj : blob -> option A) (validated : bool)
    (io : io_buf) (read text : bool) (v : A) : result (io_buf * A) :=
  if read then
    match pending io with
    | [] => if validated then Err (Thrown "Unexpected end of file encountered.") else Ok (io, v)
    | b :: _ => match proj b with
                | Some a => Ok (drop_blob io, a)
                | None => Err InvalidConversion
                end
    end
  else Ok (write_blob io (if text then BText else inj v), v).

Definition proj_double (b : blob) : option Q := match b with BDouble q => Some q | _ => None end.
Definition proj_float (b : blob) : option Q := match b with BFloat q => Some q | _ => None end.
Definition proj_u64 (b : blob) : option Z := match b with BU64 z => Some z | _ => None end.
Definition proj_u32 (b : blob) : option Z := match b with BU32 z => Some z | _ => None end.
Definition proj_bool (b : blob) : option bool := match b with BBool x => Some x | _ => None end.

(** The validated read and write of an array of [n] [uint64_t] at the
    start of the buffer [zs]: a zero-length transfer moves no bytes and is
    not validated; a read of more elements than [zs] holds writes past it;
    a text-mode write emits the message whatever the length. *)
Definition rw_u64_array (io : io_buf) (read text : bool) (n : nat) (zs : list Z)
    : result (io_buf * list Z) :=
  if read then
    if (n =? 0)%nat then Ok (io, zs) else
    if (length zs <? n)%nat then Err OutOfBounds else
    match pending io with
    | [] => Err (Thrown "Unexpected end of file encountered.")
    | BU64s ws :: _ => if (length ws =? n)%nat then Ok (drop_blob io, ws) else Err InvalidConversion
    | _ :: _ => Err InvalidConversion
    end
  else if text then Ok (write_blob io BText, zs)
  else if (n =? 0)%nat then Ok (io, zs)
  else Ok (write_blob io (BU64s zs), zs).

(** A file opened for writing. *)
Definition fresh_writer : io_buf := mk_io 1 [] [].

End IoBuf.

Module MwtPersist.
Import IoBuf Mwt.

(** Lines 237-245: the [cost], [action] and [seen] of one policy, through
    [c.evals[policy]]; an index past the end of [evals] is [OutOfBounds]. *)
Definition policy_step (read text : bool) (s : mwt * io_buf) (policy : Z) : result (mwt * io_buf) :=
  let '(c, io) := s in
  pd ← eval_at c policy;
  '(io, cost') ← rw_fixed BDouble proj_double true io read text (cost pd);
  '(io, act) ← rw_fixed BU32 proj_u32 true io read text (action pd);
  '(io, sn) ← rw_fixed BBool proj_bool true io read text (seen pd);
  Ok (update_eval c policy (mk_policy cost' act sn), io).

(** [save_load] (lines 212-246): [total], the number of policies, the
    policies (after [resize_but_with_stl_behavior] when reading), then the
    accumulators of each policy. *)
Definition save_load (c : mwt) (io : io_buf) (read text : bool) : result (mwt * io_buf) :=
  if (num_files io =? 0)%nat then Ok (c, io) else
  '(io, t) ← rw_fixed BDouble proj_double true io read text (total c);
  '(io, n) ← rw_fixed BU64 proj_u64 true io read text (Z.of_nat (length (policies c)));
  let pols := if read then resize (Z.to_nat n) 0 (policies c) else policies c in
  '(io, pols) ← rw_u64_array io read text (Z.to_nat n) pols;
  foldM (policy_step read text) (set_policies (set_total c t) pols, io) pols.

(** A model file written by an earlier run: [total] is 0 but a policy (the
    weight 2) is recorded as seen with accrued cost 3 and action 1, as a
    truncated or hand-edited file may hold. *)
Definition corrupted_file : io_buf :=
  mk_io 1 [BDouble 0; BU64 1; BU64s [2]; BDouble 3; BU32 1; BBool true] [].

(** The fixture reduction after one call on the fixture example: the
    policies 2 and 3 are recorded under one observation. *)
Definition fixture_trained : mwt :=
  fst (fst (@predict_or_learn identity_base false false true fixture_mwt (fixture_example fixture_namespaces))).

(** An example with no namespace and no label. *)
Definition empty_example : example := mk_example [] ∅ [] [] [] 0 [] [] None.

End MwtPersist.

Module MwtPersistFacts.
Import IoBuf Mwt MwtFacts MwtPersist.

(** The blobs [save_load] writes for a state whose policies have the
    accumulators [pds]. *)
Definition policy_blobs (pd : policy_data) : list blob :=
  [BDouble (cost pd); BU32 (action pd); BBool (seen pd)].

Definition mwt_blobs (c : mwt) (pds : list policy_data) : list blob :=
  [BDouble (total c); BU64 (Z.of_nat (length (policies c)))] ++
  (if (length (policies c) =? 0)%nat then [] else [BU64s (policies c)]) ++
  concat (map policy_blobs pds).

(** An executable check of [mwt_inv], for concrete states. *)
Definition mwt_invb (N : nat) (c : mwt) : bool :=
  bool_decide (length (evals c) = N) && bool_decide (NoDup (policies c)) &&
  forallb (fun p => bool_decide (0 <= p < Z.of_nat N)) (policies c) &&
  forallb (fun i => Bool.eqb (seen (nth i (evals c) policy_default))
                             (bool_decide (Z.of_nat i ∈ policies c))) (seq 0 N) &&
  (bool_decide (policies c = []) || Qle_bool 1 (total c)) && Qle_bool 0 (total c) &&
  bool_decide (0 <= Dense.stride_shift (all_weights c)) && bool_decide (0 <= Dense.mask (all_weights c)) &&
  bool_decide (Dense.mask (all_weights c) + 1 = Z.of_nat N * 2 ^ Dense.stride_shift (all_weights c)).

(** [io] after appending [bs] to the written blobs. *)
Definition write_all (io : io_buf) (bs : list blob) : io_buf :=
  mk_io (num_files io) (pending io) (written io ++ bs).

Lemma write_all_nil io : write_all io [] = io.
Proof. destruct io; unfold write_all; simpl. rewrite app_nil_r. done. Qed.

Lemma update_eval_same c p pd : eval_at c p = Ok pd -> update_eval c p pd = c.
Proof.
  intros (_ & Hpd)%eval_at_Ok. unfold update_eval, set_evals.
  rewrite list_insert_id by done. destruct c; done.
Qed.

(** Writing the accumulators of the policies [l] leaves the state as it is. *)
Lemma write_policies_fold c l pds io :
  Forall2 (fun p pd => eval_at c p = Ok pd) l pds ->
  foldM (policy_step false false) (c, io) l = Ok (c, write_all io (concat (map policy_blobs pds))).
Proof.
  intros Hf. revert io. induction Hf as [|p pd l pds Hp Hf IH]; intros io; simpl.
  - rewrite write_all_nil. done.
  - rewrite Hp, Ok_bind. cbn -[update_eval]. destruct pd as [co ac se].
    rewrite update_eval_same by done. rewrite IH.
    destruct io; unfold write_all, write_blob; simpl. rewrite <- !app_assoc. done.
Qed.

Lemma set_policies_total_eta c : set_policies (set_total c (total c)) (policies c) = c.
Proof. destruct c; done. Qed.

(** Saving writes [mwt_blobs] and changes nothing. *)
Lemma save_spec c pds io :
  num_files io <> 0%nat -> Forall2 (fun p pd => eval_at c p = Ok pd) (policies c) pds ->
  save_load c io false false = Ok (c, write_all io (mwt_blobs c pds)).
Proof.
  intros Hnf Hf. unfold save_load. rewrite (proj2 (Nat.eqb_neq _ _) Hnf). cbn -[foldM].
  rewrite Nat2Z.id.
  destruct (length (policies c) =? 0)%nat; rewrite Ok_bind; cbv beta iota;
    rewrite set_policies_total_eta, (write_policies_fold _ _ pds) by done;
    destruct io; unfold write_all; simpl; rewrite <- !app_assoc; done.
Qed.

Lemma read_policy_step cur p pd nf rest w text :
  0 <= p < Z.of_nat (length (evals cur)) ->
  policy_step true text (cur, mk_io nf (policy_blobs pd ++ rest) w) p =
    Ok (update_eval cur p pd, mk_io nf rest w).
Proof.
  intros Hp. destruct (eval_at_in _ cur p eq_refl Hp) as [pd0 Hpd0].
  simpl. rewrite Hpd0, Ok_bind. destruct pd. done.
Qed.

Lemma set_evals_update cur p pd x : set_evals (update_eval cur p pd) x = set_evals cur x.
Proof. destruct cur; done. Qed.

(** Reading the accumulators of the policies [l] stores each one at its
    policy's entry, the last one read winning. *)
Lemma read_policies_fold c text l pds :
  Forall2 (fun p pd => eval_at c p = Ok pd) l pds -> forall cur nf rest w,
  (forall q, q ∈ l -> 0 <= q < Z.of_nat (length (evals cur))) ->
  exists cur', foldM (policy_step true text) (cur, mk_io nf (concat (map policy_blobs pds) ++ rest) w) l =
      Ok (cur', mk_io nf rest w) /\
    length (evals cur') = length (evals cur) /\ cur' = set_evals cur (evals cur') /\
    forall q, eval_at cur' q = if decide (q ∈ l) then eval_at c q else eval_at cur q.
Proof.
  induction 1 as [|p pd l pds Hp Hf IH]; intros cur nf rest w Hr.
  - exists cur. split; [done|]. split; [done|]. split; [destruct cur; done|].
    intros q. rewrite decide_False; [done|inversion 1].
  - assert (Hp' : 0 <= p < Z.of_nat (length (evals cur))) by (apply Hr; left).
    set (cur1 := update_eval cur p pd).
    assert (Hl1 : length (evals cur1) = length (evals cur)) by apply length_insert.
    destruct (IH cur1 nf rest w) as (cur' & Hfold & Hl & Heta & Hev);
      [intros q Hq; rewrite Hl1; apply Hr; right; done|].
    exists cur'. cbn [map concat foldM]. rewrite <- app_assoc.
    rewrite read_policy_step, Ok_bind by done. split; [done|]. split; [lia|].
    split; [rewrite Heta at 1; apply set_evals_update|].
    intros q. rewrite Hev. unfold cur1. rewrite eval_at_update by lia.
    destruct (decide (q ∈ l)) as [Hq|Hq]; rewrite ?decide_True by (right; done); [done|].
    destruct (decide (q = p)) as [->|Hqp]; [rewrite decide_True by left; done|].
    rewrite decide_False; [done|]. intros [?|?]%elem_of_cons; done.
Qed.

(** Loading what [save_load] wrote for [c] into a state [c0] without
    policies: [c0] takes [c]'s [total], policies and their accumulators,
    and the reader stops right after them. *)
Lemma load_spec c pds c0 text nf rest w :
  nf <> 0%nat -> Forall2 (fun p pd => eval_at c p = Ok pd) (policies c) pds -> policies c0 = [] ->
  (forall q, q ∈ policies c -> 0 <= q < Z.of_nat (length (evals c0))) ->
  exists c', save_load c0 (mk_io nf (mwt_blobs c pds ++ rest) w) true text = Ok (c', mk_io nf rest w) /\
    c' = set_evals (set_policies (set_total c0 (total c)) (policies c)) (evals c') /\
    length (evals c') = length (evals c0) /\
    forall q, eval_at c' q = if decide (q ∈ policies c) then eval_at c q else eval_at c0 q.
Proof.
  intros Hnf Hf H0 Hr. set (cur := set_policies (set_total c0 (total c)) (policies c)).
  destruct (read_policies_fold c text _ _ Hf cur nf rest w Hr) as (c' & Hfold & Hl & Heta & Hev).
  exists c'. split; [|split; [done|split; [done|intros q; rewrite Hev; done]]].
  unfold save_load, mwt_blobs. cbn [num_files]. rewrite (proj2 (Nat.eqb_neq _ _) Hnf).
  cbn -[foldM]. rewrite Nat2Z.id, H0.
  destruct (length (policies c) =? 0)%nat eqn:Hn; cbn -[foldM].
  - apply Nat.eqb_eq, nil_length_inv in Hn. rewrite Hn in Hf, Hfold |- *.
    inversion Hf; subst. simpl in Hfold |- *. injection Hfold as <-. unfold cur. rewrite Hn. done.
  - rewrite length_resize, Nat.eqb_refl.
    destruct (length (policies c)) as [|k]; [done|]. rewrite (proj2 (Nat.leb_gt _ _)) by lia. rewrite Ok_bind. exact Hfold.
Qed.

Lemma loaded_fields c' c0 t ps e :
  c' = set_evals (set_policies (set_total c0 t) ps) e ->
  policies c' = ps /\ total c' = t /\ config_of c' = config_of c0 /\ evals c' = e.
Proof. intros ->. done. Qed.

(** The state a load builds from a saved [c] satisfies the invariant. *)
Lemma loaded_inv N c c0 c' :
  mwt_inv N c -> mwt_inv N c0 -> policies c0 = [] ->
  policies c' = policies c -> total c' = total c -> all_weights c' = all_weights c0 ->
  length (evals c') = length (evals c0) ->
  (forall q, eval_at c' q = if decide (q ∈ policies c) then eval_at c q else eval_at c0 q) ->
  mwt_inv N c'.
Proof.
  intros (_ & Hnd & Hiff & Ht1 & Ht0 & _) (Hl0 & _ & Hiff0 & _ & _ & Hsh & Hm & Hg) H0 Hp Ht Hw Hl Hev.
  unfold mwt_inv. rewrite Hp, Ht, Hw, Hl. repeat split; try done.
  - intros Hq. destruct (proj1 (Hiff p) Hq) as (pd & Hpd & Hs). exists pd.
    rewrite Hev, decide_True; done.
  - intros (pd & Hpd & Hs). rewrite Hev in Hpd. destruct (decide (p ∈ policies c)) as [|Hn]; [done|].
    pose proof (proj2 (Hiff0 p) (ex_intro _ pd (conj Hpd Hs))) as Hin. rewrite H0 in Hin. inversion Hin.
Qed.

Lemma inv_policy_range N c q : mwt_inv N c -> q ∈ policies c -> 0 <= q < Z.of_nat N.
Proof.
  intros (Hl & _ & Hiff & _) Hq. destruct (proj1 (Hiff q) Hq) as (pd & Hpd & _).
  exact (eval_at_bound N c q pd Hl Hpd).
Qed.

(** C22:  Saving a reduction that satisfies the invariant and loading the
    file into a freshly set up one (no policies yet, the same number of
    [evals]) gives back its [total], its policies and their accumulators,
    keeps the invariant and the configuration of the fresh reduction, and
    so reports the same policy predictions; the reader stops right after
    the reduction's blobs, at the next reduction's. *)
Theorem mwt_save_load_roundtrip N c c0 text rest :
  mwt_inv N c -> mwt_inv N c0 -> policies c0 = [] ->
  exists io_w, save_load c fresh_writer false false = Ok (c, io_w) /\
  exists c', save_load c0 (mk_io 1 (written io_w ++ rest) []) true text = Ok (c', mk_io 1 rest []) /\
    mwt_inv N c' /\ config_of c' = config_of c0 /\ total c' = total c /\ policies c' = policies c /\
    (forall p, p ∈ policies c -> eval_at c' p = eval_at c p) /\
    policy_predictions c' = policy_predictions c.
Proof.
  intros Hinv Hinv0 H0. destruct (policy_predictions_ok N c Hinv) as (pds & Hf & _).
  exists (write_all fresh_writer (mwt_blobs c pds)). split; [apply save_spec; done|].
  destruct (load_spec c pds c0 text 1 rest [] ltac:(lia) Hf H0) as (c' & Hld & Heta & Hl & Hev).
  { intros q Hq. rewrite (proj1 Hinv0). apply (inv_policy_range N c); done. }
  destruct (loaded_fields _ _ _ _ _ Heta) as (Hp & Ht & Hcfg & _).
  exists c'. split; [exact Hld|]. split; [|split; [done|split; [done|split; [done|]]]].
  { apply (loaded_inv N c c0 c'); try done. apply (f_equal (fun x => snd x) Hcfg). }
  assert (Hin : forall p, p ∈ policies c -> eval_at c' p = eval_at c p)
    by (intros p Hpc; rewrite Hev, decide_True; done).
  split; [done|]. unfold policy_predictions. rewrite Hp, Ht. apply mapM_ext.
  intros p Hpc. rewrite Hin; done.
Qed.

Lemma policy_step_Ok read text cur io p cur1 io1 :
  policy_step read text (cur, io) p = Ok (cur1, io1) ->
  exists pd pd', eval_at cur p = Ok pd /\ cur1 = update_eval cur p pd'.
Proof.
  simpl. intros (pd & Hpd & H)%bind_Ok. exists pd.
  apply bind_Ok in H as ([io2 co] & _ & H). apply bind_Ok in H as ([io3 ac] & _ & H).
  apply bind_Ok in H as ([io4 se] & _ & [= <- _]). eexists; split; done.
Qed.

(** Every policy a successful read of the per-policy blobs visits is an
    index of [evals]; the reads change neither the policies nor the size of
    [evals]. *)
Lemma read_fold_range read text l : forall cur io c' io',
  foldM (policy_step read text) (cur, io) l = Ok (c', io') ->
  length (evals c') = length (evals cur) /\ policies c' = policies cur /\
  forall p, p ∈ l -> 0 <= p < Z.of_nat (length (evals c')).
Proof.
  induction l as [|p l IH]; intros cur io c' io'; simpl.
  - intros [= <- <-]. split; [done|]. split; [done|]. inversion 1.
  - intros ([cur1 io1] & Hs & Hf)%bind_Ok.
    destruct (policy_step_Ok _ _ _ _ _ _ _ Hs) as (pd & pd' & Hpd & ->).
    destruct (IH _ _ _ _ Hf) as (Hl & Hp & Hr). unfold update_eval, set_evals in Hl, Hp.
    simpl in Hl, Hp. rewrite length_insert in Hl. split; [done|]. split; [done|].
    intros q [->|Hq]%elem_of_cons; [|apply Hr; done].
    rewrite Hl. apply (eval_at_bound _ cur p pd); done.
Qed.

(** A load into a reduction that satisfies the invariant leaves [evals]
    its size and holds only policies that index it: a policy index past
    the end of [c.evals] (line 240) is [OutOfBounds] when it is read. *)
Lemma load_policies_in_range N c0 io text c' io' :
  mwt_inv N c0 -> save_load c0 io true text = Ok (c', io') ->
  length (evals c') = N /\ forall p, p ∈ policies c' -> 0 <= p < Z.of_nat N.
Proof.
  intros Hinv. unfold save_load. destruct (num_files io =? 0)%nat.
  - intros [= <- _]. split; [apply Hinv|]. intros p. apply (inv_policy_range N c0 p Hinv).
  - intros ([io1 t] & _ & H)%bind_Ok. apply bind_Ok in H as ([io2 n] & _ & H).
    apply bind_Ok in H as ([io3 pols] & _ & Hf).
    destruct (read_fold_range _ _ _ _ _ _ _ Hf) as (Hl & Hp & Hr). simpl in Hl, Hp.
    rewrite Hl, (proj1 Hinv) in *. rewrite Hp. split; done.
Qed.

(** With [total == 0], every policy whose accumulators can be read
    predicts [x / 0], a non-finite value. *)
Lemma policy_predictions_zero_total c :
  (forall p, p ∈ policies c -> exists pd, eval_at c p = Ok pd) -> (total c == 0)%Q ->
  policy_predictions c = Ok (map (fun _ => NonFinite) (policies c)).
Proof.
  intros Hin Ht. unfold policy_predictions. revert Hin. generalize (policies c) as l.
  induction l as [|p l IH]; intros Hl; [done|]. destruct (Hl p ltac:(left)) as [pd Hpd].
  simpl. rewrite Hpd. simpl. rewrite IH by (intros; apply Hl; right; done). simpl.
  unfold fdiv. rewrite (proj2 (Qeq_bool_iff _ _) Ht). done.
Qed.

Lemma mwt_invb_sound N c : mwt_invb N c = true -> mwt_inv N c.
Proof.
  unfold mwt_invb. rewrite !andb_true_iff, !forallb_forall, orb_true_iff, !bool_decide_eq_true.
  intros [[[[[[[[Hl Hnd] Hr] Hs] Ht1] Ht0] Hsh] Hm] Hg].
  assert (Hseen : forall i pd, evals c !! i = Some pd ->
            seen pd = bool_decide (Z.of_nat i ∈ policies c)).
  { intros i pd Hi. pose proof (lookup_lt_Some _ _ _ Hi) as Hlt.
    apply Bool.eqb_prop. rewrite <- (nth_lookup_Some _ _ policy_default _ Hi).
    apply Hs, in_seq. lia. }
  unfold mwt_inv. repeat split; try done.
  - intros Hp. pose proof (Hr p (proj1 (list_elem_of_In _ _) Hp)) as Hpr%bool_decide_eq_true.
    destruct (eval_at_in N c p Hl Hpr) as [pd Hpd]. exists pd. split; [done|].
    apply eval_at_Ok in Hpd as [Hp0 Hpd]. rewrite (Hseen _ _ Hpd), Z2Nat.id by done.
    apply bool_decide_eq_true. done.
  - intros (pd & (Hp0 & Hpd)%eval_at_Ok & Hsn). rewrite (Hseen _ _ Hpd), Z2Nat.id in Hsn by done.
    apply bool_decide_eq_true in Hsn. done.
  - intros Hne. destruct Ht1 as [|H1]; [done|]. apply Qle_bool_iff. done.
  - apply Qle_bool_iff. done.
Qed.

(** C24:  [save_load] does not check the invariant of what it reads.  A
    load that succeeds with [total == 0] gives, whatever else the file
    holds, a reduction that breaks the invariant as soon as it records a
    policy.  Its next prediction on an example without a label divides
    every recorded policy's cost by [total = 0] (line 166): one non-finite
    output per policy, for every base learner. *)
Theorem mwt_load_zero_total_nonfinite `{BaseLearner example} N c0 io text c' io' is_learn ec :
  mwt_inv N c0 -> save_load c0 io true text = Ok (c', io') -> (total c' == 0)%Q -> l_cb ec = [] ->
  (policies c' <> [] -> ~ mwt_inv N c') /\
  snd (predict_or_learn false false is_learn c' ec) = Ok tt /\
  pred_scalars (snd (fst (predict_or_learn false false is_learn c' ec))) = map (fun _ => NonFinite) (policies c').
Proof.
  intros Hinv Hl Ht Hcb. destruct (load_policies_in_range N c0 io text c' io' Hinv Hl) as [Hlen Hr].
  split; [intros Hne (_ & _ & _ & H1 & _); specialize (H1 Hne); lra|].
  set (c1 := set_observation c' (get_observed_cost_cb (l_cb ec))).
  assert (Hps : policy_predictions c1 = Ok (map (fun _ => NonFinite) (policies c'))).
  { apply (policy_predictions_zero_total c1); [|exact Ht].
    intros p Hp. apply (eval_at_in N c1 p); [exact Hlen|apply Hr, Hp]. }
  assert (Hobs : observe c' ec = Ok c1) by (unfold observe, c1; rewrite Hcb; reflexivity).
  clearbody c1. unfold predict_or_learn. rewrite Hobs. simpl. rewrite Hps. done.
Qed.

Lemma mwt_save_load_roundtrip_witness :
  mwt_inv 8 fixture_trained /\ mwt_inv 8 fixture_mwt /\ policies fixture_mwt = [] /\
  exists io_w, save_load fixture_trained fresh_writer false false = Ok (fixture_trained, io_w) /\
  exists c', save_load fixture_mwt (mk_io 1 (written io_w ++ []) []) true false = Ok (c', mk_io 1 [] []) /\
    mwt_inv 8 c' /\ config_of c' = config_of fixture_mwt /\ total c' = total fixture_trained /\
    policies c' = policies fixture_trained /\
    (forall p, p ∈ policies fixture_trained -> eval_at c' p = eval_at fixture_trained p) /\
    policy_predictions c' = policy_predictions fixture_trained.
Proof.
  assert (H1 : mwt_inv 8 fixture_trained) by (apply mwt_invb_sound; vm_compute; reflexivity).
  assert (H2 : mwt_inv 8 fixture_mwt) by (apply mwt_invb_sound; vm_compute; reflexivity).
  split; [exact H1|]. split; [exact H2|]. split; [reflexivity|].
  exact (mwt_save_load_roundtrip 8 fixture_trained fixture_mwt false [] H1 H2 eq_refl).
Defined.

(** The corrupted file: [total = 0] with the policy 2 recorded as seen. *)
Lemma mwt_load_zero_total_nonfinite_witness :
  exists c', save_load fixture_mwt corrupted_file true false = Ok (c', mk_io 1 [] []) /\
    policies c' = [2] /\
    (policies c' <> [] -> ~ mwt_inv 8 c') /\
    snd (@predict_or_learn identity_base false false true c' empty_example) = Ok tt /\
    pred_scalars (snd (fst (@predict_or_learn identity_base false false true c' empty_example)))
      = map (fun _ => NonFinite) (policies c').
Proof.
  assert (H2 : mwt_inv 8 fixture_mwt) by (apply mwt_invb_sound; vm_compute; reflexivity).
  destruct (save_load fixture_mwt corrupted_file true false) as [[c' io']|e] eqn:E; [|vm_compute in E; discriminate].
  pose proof E as E'. vm_compute in E'. injection E' as Hc Hio. subst io'.
  exists c'. split; [reflexivity|]. split; [rewrite <- Hc; reflexivity|].
  apply (@mwt_load_zero_total_nonfinite identity_base 8 fixture_mwt corrupted_file false c' _ true empty_example
           H2 E); [rewrite <- Hc; reflexivity|reflexivity].
Defined.

End MwtPersistFacts.

Module SynthcoverPersist.
Import IoBuf Synthcover.

Definition set_costs (st : synthcover) (mn mx : Q) : synthcover :=
  mk_synthcover (_epsilon st) (_psi st) (_synthcoversize st) (_model_file_version st)
    (_action_probs st) mn mx.

Section Versioned.
(** [VW::version_definitions::VERSION_FILE_WITH_CCB_MULTI_SLOTS_SEEN_FLAG]
    (declared outside [src/]), in the encoding of [_model_file_version]. *)
Variable version_flag : Z.

(** [cb_explore_adf_synthcover::save_load] (lines 134-146): the running
    cost range, through the unvalidated [bin_text_read_write_fixed]; a
    model file older than [version_flag] holds no cost range. *)
Definition save_load (st : synthcover) (io : io_buf) (read text : bool) : result (synthcover * io_buf) :=
  if (num_files io =? 0)%nat then Ok (st, io) else
  if negb read || (version_flag <=? _model_file_version st) then
    '(io, mn) ← rw_fixed BFloat proj_float false io read text (_min_cost st);
    '(io, mx) ← rw_fixed BFloat proj_float false io read text (_max_cost st);
    Ok (set_costs st mn mx, io)
  else Ok (st, io).

End Versioned.

(** A synthcover instance that has seen the costs 1/2 and 3, and a fresh
    one with the same parameters. *)
Definition fixture_seen : synthcover := mk_synthcover 0 (1 # 10) 10 3 [] (1 # 2) 3.
Definition fixture_fresh : synthcover := construct 0 (1 # 10) 10 3.

End SynthcoverPersist.

Module SynthcoverPersistFacts.
Import IoBuf Synthcover SynthcoverPersist.

Lemma set_costs_eta st : set_costs st (_min_cost st) (_max_cost st) = st.
Proof. destruct st; done. Qed.

(** [explore]'s output depends on the state only through the parameters
    and the running cost range. *)
Lemma explore_output_fields st st' n preds :
  _epsilon st' = _epsilon st -> _psi st' = _psi st -> _synthcoversize st' = _synthcoversize st ->
  _min_cost st' = _min_cost st -> _max_cost st' = _max_cost st ->
  fmap snd (explore st' n preds) = fmap snd (explore st n preds).
Proof.
  intros He Hp Hs Hmn Hmx. unfold explore, clamp_scores. rewrite He, Hp, Hs, Hmn, Hmx.
  destruct (length preds <? n)%nat; [done|].
  destruct (cover_outer _ _ _ _ _ _) as [[h p]|]; done.
Qed.

(** C25:  Saving a synthcover instance and loading the file into one whose
    model file version carries the cost range restores [_min_cost] and
    [_max_cost] (spec 4.3, step 5) and nothing else; so when the two
    instances have the same parameters, every later [explore] clamps and
    outputs as the saved one would. *)
Theorem synthcover_save_load_roundtrip flag st st0 text rest :
  flag <= _model_file_version st0 ->
  exists io_w, save_load flag st fresh_writer false false = Ok (st, io_w) /\
  exists st', save_load flag st0 (mk_io 1 (written io_w ++ rest) []) true text = Ok (st', mk_io 1 rest []) /\
    st' = set_costs st0 (_min_cost st) (_max_cost st) /\
    (_epsilon st0 = _epsilon st -> _psi st0 = _psi st -> _synthcoversize st0 = _synthcoversize st ->
     forall n preds, fmap snd (explore st' n preds) = fmap snd (explore st n preds)).
Proof.
  intros Hv. exists (mk_io 1 [] [BFloat (_min_cost st); BFloat (_max_cost st)]).
  split; [unfold save_load; destruct st; done|].
  exists (set_costs st0 (_min_cost st) (_max_cost st)). split; [|split; [done|]].
  - unfold save_load. simpl. rewrite (proj2 (Z.leb_le _ _) Hv). done.
  - intros He Hp Hs n preds. apply explore_output_fields; done.
Qed.

(** C26:  A load that reads no cost range leaves the instance as it was,
    with no error: both when the model file predates the cost range and
    when the file is exhausted, the unvalidated reads of lines 140 and 143
    silently keep the constructor's [0.0] costs. *)
Theorem synthcover_load_keeps_costs flag st io text :
  _model_file_version st < flag \/ pending io = [] ->
  save_load flag st io true text = Ok (st, io).
Proof.
  intros Hc. unfold save_load. destruct (num_files io =? 0)%nat; [done|]. simpl negb.
  destruct (Z.leb_spec flag (_model_file_version st)) as [Hle|]; [|done].
  destruct Hc as [|Hp]; [lia|]. cbn -[set_costs]. rewrite Hp. cbn -[set_costs]. rewrite Hp, Ok_bind, set_costs_eta. done.
Qed.

Lemma synthcover_save_load_roundtrip_witness :
  3 <= _model_file_version fixture_fresh /\
  exists io_w, save_load 3 fixture_seen fresh_writer false false = Ok (fixture_seen, io_w) /\
  exists st', save_load 3 fixture_fresh (mk_io 1 (written io_w ++ []) []) true false = Ok (st', mk_io 1 [] []) /\
    st' = set_costs fixture_fresh (_min_cost fixture_seen) (_max_cost fixture_seen) /\
    (_epsilon fixture_fresh = _epsilon fixture_seen -> _psi fixture_fresh = _psi fixture_seen ->
     _synthcoversize fixture_fresh = _synthcoversize fixture_seen ->
     forall n preds, fmap snd (explore st' n preds) = fmap snd (explore fixture_seen n preds)).
Proof.
  split; [vm_compute; discriminate|].
  apply (synthcover_save_load_roundtrip 3 fixture_seen fixture_fresh false []). vm_compute; discriminate.
Defined.

Lemma synthcover_load_keeps_costs_witness :
  (_model_file_version fixture_fresh < 4 \/ pending (mk_io 1 [BFloat 1; BFloat 2] []) = []) /\
  save_load 4 fixture_fresh (mk_io 1 [BFloat 1; BFloat 2] []) true false =
    Ok (fixture_fresh, mk_io 1 [BFloat 1; BFloat 2] []).
Proof.
  assert (H : _model_file_version fixture_fresh < 4 \/ pending (mk_io 1 [BFloat 1; BFloat 2] []) = [])
    by (left; vm_compute; reflexivity).
  split; [exact H|]. apply (synthcover_load_keeps_costs 4 fixture_fresh _ false H).
Defined.

End SynthcoverPersistFacts.
